(* ===== verification/_CoqProject ===== *)
-Q . S2P
Prelude.v
Hex.v
Status.v
Types.v
Cyclic.v
Config.v
Limiter.v
Constraints.v
VotingData.v
Box.v
Rounds.v
VotingStorage.v
VotingProofs.v
Ballots.v
VotingGauges.v
Redis.v
Notifier.v
GCS.v
Queue.v
Results.v
Wallets.v
Backups.v
WalletLoop.v
Meta.v
Instructions.v
Policies.v
PolicyService.v
Attestation.v
Metrics.v
Info.v
Liveness.v
Receipts.v
Handlers.v
Internal.v
External.v
Servers.v
MachinePath.v
PathService.v
Reports.v
Boot.v
Run.v
Startup.v
