(* ===== verification/Prelude.v ===== *)
(** * tee-proxy: a verification library

    The proxy stands between a TEE node and the outside.  Data providers and
    cosigners send it signed instructions; it collects their votes, and when a
    voting reaches its threshold it queues an action for the node.  The node takes
    actions from the queues and reports results, which the proxy stores, serves and
    reacts to: it mirrors the node's wallet keys, and moves the node from one
    signing policy to the next.

    ** Parts and files

    - [Prelude] (this file): machine integers, errors, results of calls, time, sums
      over maps and lists, automation.
    - [Hex], [Types], [Cyclic]: bytes, hashes and hexadecimal text; data and operations
      of the libraries the proxy is built on (go-flare-common, tee-node, go-ethereum).
    - [Config] (pkg/config): the configuration with its defaults and validation.
    - [Status] (pkg/status): HTTP status errors.
    - [Limiter], [Constraints] (voting/limiter, voting/constraints.go): the limit of
      pending proposals, the size limits.
    - [VotingData], [Box], [Rounds], [VotingStorage] (voting/box.go, round.go,
      voting.go; pkg/instruction/voting): one voting, the votings of an epoch, the
      storage of rounds with [AddVote] and the goroutines that end votings.
      [VotingProofs] has the interleavings of these operations, their invariant and
      the theorems about runs; [Ballots] what each operation does to recorded votes;
      [VotingGauges] the participation gauges.
    - [Redis], [GCS] (pkg/storage): key-value stores and the queue, and the interface
      [StorageI] the services are proved against, which both stores implement.
    - [Notifier] (pkg/storage/redis.go, storage.go): publishing and subscribing.
    - [Queue] (internal/queue): the action queues with redelivery.
    - [Results] (internal/service/result): result store, override guard, waiting,
      processing of responses.
    - [Wallets], [Backups] (internal/service/wallets, pkg/wallets): the key caches
      and their synchronisation with the node; the backups of keys.  [WalletLoop] has
      the event loop of the service next to its goroutines, the trigger of
      synchronisations and the result service that feeds it.
    - [Meta] (pkg/instruction/meta): cosigner rosters and FDC2 thresholds; it
      implements the interface [VotingData.Meta] that the voting is proved against.
    - [Instructions] (internal/service/instruction): admission of instructions,
      forwarding of finished votings, statuses, rejection labels.
    - [Policies], [PolicyService] (pkg/policy, internal/service/policy): collection
      of signatures for the next policy, and the update loop.
    - [Attestation], [Info], [Liveness] (pkg/attestation, internal/service/info,
      internal/liveness): the checks on the node's attestation, the polling of its
      information, the readiness of the proxy.
    - [Metrics] (internal/metrics): the collectors of the enabled groups, the recording
      methods and the gauges read at scrape time.  [Reports] connects it with what the
      services report and with the series that the documented alerts watch.
    - [MachinePath], [PathService] (pkg/machinepath, internal/service/machinepath):
      the machine path list with its governance signatures and Safe approvals, and the
      service that offers new lists to the node.
    - [Receipts], [Handlers], [Internal], [External] (pkg/instruction/voting/voting.go,
      internal/server): signed receipts; requests, replies and error replies; the
      server of the node with its end, and the server of the clients.  [Servers] has the
      two servers as wholes: routes, multiplexer, and any request.
    - [Boot], [Run] (internal/proxy): the settings made of the configuration and the
      checks on the node's first answer; the boot of the whole proxy, in its order and
      with what a failure leaves behind, and the shutdown.
    - [Startup] (cmd/proxy, pkg/policy/init.go, pkg/machinepath/init.go): the package
      initialisations and the main function.

    A definition has the name of the function or type it models, with a trailing
    underscore or the name of its component in front where Rocq or another component
    needs the name.  The state of a component is a record of the fields of its struct;
    an operation returns the new state next to a result ([stateful]), because Go keeps
    a mutation when an error is returned.

    ** How the model is built

    - Integers are [Z], reduced at the width of the code ([u8], [u16], [u32], [u64],
      [i64]) wherever the code computes.  Floats of the size limits and the gauges are
      the IEEE binary64 operations of [SpecFloat].
    - Errors are trees of wrapped errors and [errors_Is] searches them, as errors.Is
      does.  A result is a value, an error, or a panic.
    - Code outside src/ is a parameter: classes such as [Types.InstructionLib],
      [Redis.RedisLib], [Wallets.WalletLib], [Policies.PolicyLib] hold its functions,
      and classes such as [Redis.RedisLaws] the documented behaviour that the theorems
      rely on.  Every such class has an instance in a [Demo] module, at which the
      witnesses evaluate.
    - Map iteration in an order the runtime chooses is an argument (the order of the
      votes, of the status codes) or a sort whose result is shown not to depend on it.
    - Locks make sections atomic, and concurrency is a step relation between atomic
      sections: votes, new rounds and expiring boxes ([VotingProofs.step]), deliveries
      in flight next to the users of the queues ([Queue.qstep]), the steps on the wallet
      caches with any number of synchronisation goroutines ([Wallets.wmove],
      [Wallets.wnext]), the event loop with all that runs next to it ([WalletLoop.move]), a
      waiter next to a writer ([Results.own_step], [Results.env_step]), the whole
      instruction service ([Instructions.imove]), the internal server with its background
      writes ([Reports.server_move]), the end of the internal server next to its handlers
      ([Internal.cstep]), the main goroutine next to [Run] and the signals
      ([Startup.Program.step]).
    - The boot is a monad over the log of what it did and what it has deferred; an error
      there ends the process, and a call that never answers stops the boot.
    - An HTTP handler maps the state of its service, a request and a reply in progress
      to their successors and an outcome; the reply keeps the status line of its first
      header, and the outcomes of its writes come from the connection.
    - A panic in a goroutine ends the process: where one is a state of the model (a
      synchronisation that has crashed) nothing steps from it.
    - A run that a theorem accounts for is labelled: with the instructions served
      ([Instructions.irun]), with what each step of a loop did ([WalletLoop.run],
      [Wallets.wrun]), with what was submitted and offered ([Queue.Traffic]).
    - A storage call that fails may or may not have taken effect.
    - Loops that depend on what they read from outside run over the list of what they
      read ([Policies.Tick], [PolicyService.Round], [Wallets.answer]).  Two
      loops have fuel: the backfill of [PolicyService.Initialize], for which more than
      the requested number of epochs is shown to be enough ([Initialize_restart]), and
      the cutting of a query string into its parts, for which its length is
      ([External.split_parts_enough]).  [Run] gives the backfill the history size, one
      more than the epochs it asks for ([boot_rounds_resident]).

    ** What the theorems show

    - Voting: an invariant of every reachable state ([reachable_safe]); the effect of a
      vote on every branch ([AddVote_correct], [addVote_correct], [startVoteBox_correct],
      [closeBox_correct]); each finished voting sends its actions once
      ([actions_sent_once]); finalisation is exactly reaching the thresholds, with exact
      16-bit sums ([finalised_iff_reached]); pending proposals are capped
      ([pending_capped]); every vote in a box comes from an instruction that was served,
      whose signature recovers to the voter ([votes_are_signed]); the action lists votes in order of arrival whatever the map
      order ([Action_arrival_order]).
    - Interfaces: the meta data implementation keeps the promises the voting needs
      ([meta_implements]); the instruction service drives the voting only through its
      operations ([service_reachable]); the Redis store implements [StorageI]
      ([Redis.RedisImplements]).
    - Queues and results: a restored action is the next one delivered; an action is offered
      a bounded number of times for each submission ([delivery_attempts_bounded]); a final
      result is never overridden; a waiter does not miss the announcement of a result
      ([WaitOnResponse_no_lost_wakeup]), whatever calls fail, because a subscription that is
      returned is active ([subscribed_is_notified]).
    - Storage and backups: both stores implement the interface ([gcs_refines_storage]);
      a created backup is fetched until it expires ([createNewBackup_roundtrip]) and a
      request goes out once per key ([InitiateBackups_one_per_key]).
    - Configuration and start: [Read] accepts exactly the well-formed configurations, and
      those whose largest share is not a number, which it should refuse
      ([Read_accepts]), and reports the first violated rule ([Read_reports_first]); the
      start goes on only with the node that was asked and the governance that is
      configured ([start_pins_node]).
    - The node: an attestation is accepted exactly when it meets the configured checks
      ([Verify_accepts]), information is replaced only by what was verified, when that is
      configured, and a failure carries the stage of the first check that failed
      ([updateInfo_correct]), retries are bounded, and readiness follows from the
      recorded outcomes ([Ready_correct]).
    - Machine paths: paths are in chain order whatever the order of the indexer; an
      action carries evidence that is on chain ([SetMachinePathListAction_evidence]); a
      confirmed list is not submitted again ([confirmed_never_resubmitted]).
    - Servers: an action is delivered and committed, or given back, or given up and counted
      ([queueH_delivers]); at the end of the server an answered result is processed, or
      still being written when the deadline passes ([answered_results_are_processed]); direct instructions are admitted with their
      key only ([directH_admission]); receipts, results and information are served as
      they are stored with a valid signature; errors become their status
      ([prepareHandler_replies]); parameters are read back from their texts
      ([path_params_correct]); each request to a server is answered by the one endpoint it
      asks for or without effect, and changes only the service of that endpoint
      ([external_requests], [internal_requests]).
    - Wallets: in every run of the event loop next to its goroutines no message is lost,
      the counters are exact ([event_loop_accounts]) and the channels are emptied
      ([event_loop_drains]); the run refines the steps on the caches, so the two caches
      agree ([event_loop_refines], [wallet_caches_consistent]); an undisturbed
      synchronisation leaves exactly the node's keys; and the window in which a
      synchronisation evicts a fresh key, in every run ([sync_evicts_key_before_snapshot]).
    - Metrics: in every configuration the collectors of the enabled groups are made, no
      recording panics and each series holds exactly what was recorded
      ([metrics_record]); the series behind the documented alerts exist from the start, but
      for one ([alert_series]), and no failure that the services count is the birth of its
      series ([failures_visible]).
    - The whole: the boot happens in its order and closes its clients, the last one first,
      on every way out of [Run] ([Run_order]); a booted proxy has the identity and the governance that were checked
      ([booted_proxy]), a round for every known policy of its history
      ([boot_rounds_resident]), and its gauges ([startup_gauges_registered]); the selectors
      are set before ([init_selectors]); the program ends only after its shutdown, or by
      force when the time for it is over ([main_ends]).
    - Policies: signatures that are returned authorize the next policy, none is missed
      when the indexer answers, and proxy and node advance in lockstep.

    ** Not modelled

    - Help texts of metrics, the text that promhttp writes (a scrape runs the depth gauges
      of the queues, [Servers.scrape]; the other gauges only read fields), the metrics
      wrapper around the stores of [Run] (its effect on one store is [Redis.Observer]),
      and logging.
    - The waiting of contexts and tickers: the times and outcomes they give are arguments.
    - net/http beyond the handlers and the multiplexer: listening, TLS, the enforcement of
      the timeouts, the redirect of a path that is not clean.
    - The options of the clients of Redis, of Google Cloud and of the database.
    - internal/testutil, pkg/init and internal/version, which hold no behaviour of the
      program.
    - The crypto, the JSON and ABI encodings of types of other packages, the indexer's
      database and the contract bindings: parameters with their documented behaviour.

*)

From stdpp Require Export base tactics numbers option list list_numbers gmap sets strings sorting.
From stdpp Require Export fin_maps fin_map_dom fin_sets.
From Stdlib Require Export ZArith Lia.

Open Scope Z_scope.

Declare Scope proxy_scope.
Delimit Scope proxy_scope with proxy.
Open Scope proxy_scope.

(** ** Machine integers

    Go's fixed-width integers are [Z]; every arithmetic result that the code
    computes at a width is reduced with one of these. *)

Definition u8 (z : Z) : Z := z mod 2 ^ 8.
Definition u16 (z : Z) : Z := z mod 2 ^ 16.
Definition u32 (z : Z) : Z := z mod 2 ^ 32.
Definition u64 (z : Z) : Z := z mod 2 ^ 64.
Definition i64 (z : Z) : Z := (z + 2 ^ 63) mod 2 ^ 64 - 2 ^ 63.

Lemma u8_small z : 0 <= z < 256 -> u8 z = z.
Proof. intros; unfold u8; apply Z.mod_small; lia. Qed.
Lemma u16_small z : 0 <= z < 65536 -> u16 z = z.
Proof. intros; unfold u16; apply Z.mod_small; lia. Qed.
Lemma u32_small z : 0 <= z < 4294967296 -> u32 z = z.
Proof. intros; unfold u32; apply Z.mod_small; lia. Qed.
Lemma u64_small z : 0 <= z < 18446744073709551616 -> u64 z = z.
Proof. intros; unfold u64; apply Z.mod_small; lia. Qed.
Lemma i64_small z : - 9223372036854775808 <= z < 9223372036854775808 -> i64 z = z.
Proof. intros; unfold i64; rewrite Z.mod_small; lia. Qed.

Lemma u16_range z : 0 <= u16 z < 65536.
Proof. unfold u16; apply Z.mod_pos_bound; lia. Qed.
Lemma u64_range z : 0 <= u64 z < 18446744073709551616.
Proof. unfold u64; apply Z.mod_pos_bound; lia. Qed.

(** ** Errors

    A Go error value is the identity of the variable it is stored in (empty
    for an error built on the spot) and the errors it wraps with [%w]; an
    argument printed with [%v] is not wrapped and does not appear.
    [errors_Is] is the standard library's [errors.Is]: it looks for the
    target's identity in the tree. *)

Inductive error : Type := mkError (id : string) (wraps : list error).

Definition error_id (e : error) : string := let '(mkError i _) := e in i.
Definition error_wraps (e : error) : list error := let '(mkError _ ws) := e in ws.

(** [errors.New] stored in a package variable. *)
Definition sentinel (id : string) : error := mkError id [].
(** [fmt.Errorf] with the [%w] arguments [ws], built on the spot. *)
Definition errorf (ws : list error) : error := mkError "" ws.

Fixpoint errors_Is (e : error) (target : string) : bool :=
  match e with
  | mkError i ws => bool_decide (i = target) || existsb (fun w => errors_Is w target) ws
  end.

(** Induction over the tree of wrapped errors. *)
Lemma error_tree_ind (P : error -> Prop) :
  (forall i ws, Forall P ws -> P (mkError i ws)) -> forall e, P e.
Proof.
  intros Hstep. fix IH 1. intros [i ws]. apply Hstep.
  induction ws as [|w ws IHws]; constructor; auto.
Qed.

Lemma errors_Is_mk i ws t :
  errors_Is (mkError i ws) t = bool_decide (i = t) || existsb (fun w => errors_Is w t) ws.
Proof. reflexivity. Qed.

(** Wrapping one error adds no identity of its own. *)
Lemma errors_Is_errorf e t : t <> ""%string -> errors_Is (errorf [e]) t = errors_Is e t.
Proof. intros Ht. cbn. rewrite bool_decide_false by congruence. by rewrite orb_false_r. Qed.

(** ** Results

    A call returns a value, returns a non-nil error, or panics. *)

Inductive res (A : Type) : Type :=
| Ok (a : A)
| Fail (e : error)
| Panic.
Arguments Ok {A} a.
Arguments Fail {A} e.
Arguments Panic {A}.

#[export] Instance res_ret : MRet res := fun A a => Ok a.
#[export] Instance res_bind : MBind res := fun A B f m =>
  match m with Ok a => f a | Fail e => Fail e | Panic => Panic end.
#[export] Instance res_fmap : FMap res := fun A B f m =>
  match m with Ok a => Ok (f a) | Fail e => Fail e | Panic => Panic end.

(** [if err != nil { return fmt.Errorf("...: %w", err) }] *)
Definition wrap {A} (m : res A) : res A :=
  match m with Ok a => Ok a | Fail e => Fail (errorf [e]) | Panic => Panic end.

(** The error of a call, nil without one. *)
Definition failure {A} (m : res A) : option error := match m with Fail e => Some e | _ => None end.

Definition is_ok {A} (m : res A) : bool := match m with Ok _ => true | _ => false end.

Lemma res_bind_ok {A B} (m : res A) (f : A -> res B) b :
  m ≫= f = Ok b -> exists a, m = Ok a /\ f a = Ok b.
Proof. destruct m; cbn; try discriminate. eauto. Qed.

Lemma res_bind_fail {A B} (m : res A) (f : A -> res B) e :
  m ≫= f = Fail e -> m = Fail e \/ exists a, m = Ok a /\ f a = Fail e.
Proof. destruct m; cbn; intros; simplify_eq; eauto. Qed.

Lemma wrap_ok {A} (m : res A) a : wrap m = Ok a <-> m = Ok a.
Proof. destruct m; cbn; naive_solver. Qed.

(** A handler that changes state returns the state next to its result: Go
    does not roll a mutation back when an error is returned. *)
Definition stateful (S A : Type) : Type := S * res A.

Definition sbind {S A B} (m : stateful S A) (k : S -> A -> stateful S B) : stateful S B :=
  match m with
  | (s, Ok a) => k s a
  | (s, Fail e) => (s, Fail e)
  | (s, Panic) => (s, Panic)
  end.
Notation "'let*' ( s , x ) := m 'in' k" := (sbind m (fun s x => k))
  (at level 10, s name, x name, m at level 100, k at level 200) : proxy_scope.

Lemma sbind_inv {S A B} (m : stateful S A) (k : S -> A -> stateful S B) s' r :
  sbind m k = (s', r) ->
  (exists s a, m = (s, Ok a) /\ k s a = (s', r)) \/
  (exists e, m = (s', Fail e) /\ r = Fail e) \/
  (m = (s', Panic) /\ r = Panic).
Proof. destruct m as [s [a|e|]]; cbn; intros; simplify_eq; eauto 10. Qed.

(** ** Time

    Go's [time.Time] without its monotonic reading, as the nanoseconds since
    January 1 of year 1 that its [ext]/[nsec] fields hold.  [time.Unix] adds
    the epoch offset with int64 wrap-around and [Time.Add] saturates, as the
    standard library does. *)

Definition second : Z := 1000000000.
Definition unixToInternal : Z := 62135596800.
Definition maxInt64 : Z := 2 ^ 63 - 1.

Definition time_Unix (sec : Z) : Z := i64 (sec + unixToInternal) * second.

Definition time_Add (t d : Z) : Z :=
  let s := t + d in
  let sec := s / second in
  if decide (maxInt64 < sec) then maxInt64 * second + s mod second
  else if decide (sec < - 2 ^ 63) then - maxInt64 * second + s mod second
  else s.

Definition time_Before (t u : Z) : bool := bool_decide (t < u).

(** [t.Sub(u)], a duration that saturates, and [time.Since]. *)
Definition time_Sub (t u : Z) : Z := Z.max (- 2 ^ 63) (Z.min maxInt64 (t - u)).

Lemma time_Sub_small t u : - 2 ^ 63 <= t - u < 2 ^ 63 -> time_Sub t u = t - u.
Proof. unfold time_Sub, maxInt64. lia. Qed.
(** Compared with a duration, the saturated difference is the difference. *)
Lemma time_Sub_gt t u d : - 2 ^ 63 <= d < maxInt64 -> d < time_Sub t u <-> d < t - u.
Proof. unfold time_Sub, maxInt64. lia. Qed.
Lemma time_Sub_lt t u d : - 2 ^ 63 < d <= maxInt64 -> time_Sub t u < d <-> t - u < d.
Proof. unfold time_Sub, maxInt64. lia. Qed.

(** [Time.Unix()], and [uint64(t.Unix())]. *)
Definition unix_seconds (t : Z) : Z := i64 (t / second - unixToInternal).
Definition unix_u64 (t : Z) : Z := u64 (unix_seconds t).

(** ** Data shared by all components *)

(** [common.Address] and [common.Hash] are the fixed-size byte arrays of
    go-ethereum; they are represented by their big-endian value, so that
    [==], [Cmp] and [bytes.Compare] are equality and order of numbers and the
    all-zero array is [0]. *)
Abbreviation Address := N (only parsing).
Abbreviation Hash := N (only parsing).
Definition zero_hash : Hash := 0%N.
Definition zero_address : Address := 0%N.

Abbreviation bytes := (list Byte.byte) (only parsing).

Definition zlen {A} (l : list A) : Z := Z.of_nat (length l).

Lemma zlen_nonneg {A} (l : list A) : 0 <= zlen l.
Proof. unfold zlen; lia. Qed.

Lemma zlen_app {A} (l k : list A) : zlen (l ++ k) = zlen l + zlen k.
Proof. unfold zlen; rewrite length_app; lia. Qed.
Lemma zlen_cons {A} (x : A) (l : list A) : zlen (x :: l) = 1 + zlen l.
Proof. unfold zlen; cbn [length]; lia. Qed.

Lemma snoc_not_nil {A} (l : list A) x : l ++ [x] <> [].
Proof. by destruct l. Qed.

Lemma sublist_fmap {A B} (f : A -> B) l k : sublist l k -> sublist (f <$> l) (f <$> k).
Proof. induction 1; cbn; by constructor. Qed.

(** How many elements of a list satisfy a test. *)
Definition tally {A} (f : A -> bool) (l : list A) : nat := length (List.filter f l).

Lemma tally_app {A} (f : A -> bool) l k : tally f (l ++ k) = (tally f l + tally f k)%nat.
Proof. unfold tally. by rewrite List.filter_app, length_app. Qed.
Lemma tally_none {A} (f : A -> bool) l : Forall (fun x => f x = false) l -> tally f l = 0%nat.
Proof. unfold tally. induction 1 as [|x l Hx _ IH]; cbn; [done|by rewrite Hx]. Qed.

(** In an association list without duplicate keys a key has one value. *)
Lemma NoDup_fst_inj {A B} (l : list (A * B)) a b c : NoDup l.*1 -> (a, b) ∈ l -> (a, c) ∈ l -> b = c.
Proof.
  induction l as [|[k v] l IH]; cbn; [intros _ Hb; by apply elem_of_nil in Hb|].
  intros [Hk Hl]%NoDup_cons Hb Hc.
  assert (Hfst : forall x, (k, x) ∈ l -> k ∈ l.*1) by (intros x Hx; apply (list_elem_of_fmap_2 fst) in Hx; exact Hx).
  apply elem_of_cons in Hb as [[= -> ->]|Hb]; apply elem_of_cons in Hc as [[= Hac]|Hc]; subst; [done| | |by apply IH].
  - by destruct Hk; eapply Hfst.
  - by destruct Hk; eapply Hfst.
Qed.

Lemma filter_ext_in {A} (P Q : A -> Prop) `{!forall x, Decision (P x), !forall x, Decision (Q x)}
    (l : list A) :
  (forall x, x ∈ l -> P x <-> Q x) -> filter P l = filter Q l.
Proof.
  induction l as [|x l IH]; intros HPQ; [done|].
  rewrite !filter_cons, IH by (intros y Hy; apply HPQ; by right).
  destruct (HPQ x ltac:(left)). repeat case_decide; naive_solver.
Qed.

(** ** Sums over finite maps *)

Section map_sum.
Context {K : Type} `{Countable K} {A : Type}.
Implicit Types (f g : K -> A -> Z) (m : gmap K A).

Definition map_sum (f : K -> A -> Z) (m : gmap K A) : Z :=
  map_fold (fun k x acc => f k x + acc) 0 m.

Lemma map_sum_empty f : map_sum f ∅ = 0.
Proof. apply map_fold_empty. Qed.

Lemma map_sum_insert_None f m k x :
  m !! k = None -> map_sum f (<[k:=x]> m) = f k x + map_sum f m.
Proof.
  intros Hk. unfold map_sum. rewrite map_fold_insert_L; [done| |done].
  intros; lia.
Qed.

Lemma map_sum_delete f m k x :
  m !! k = Some x -> map_sum f m = f k x + map_sum f (delete k m).
Proof.
  intros Hk. rewrite <- (insert_delete_id m k x) at 1 by done.
  apply map_sum_insert_None, lookup_delete_eq.
Qed.

Lemma map_sum_insert_Some f m k x y :
  m !! k = Some y -> map_sum f (<[k:=x]> m) = f k x - f k y + map_sum f m.
Proof.
  intros Hk. rewrite (map_sum_delete f m k y Hk).
  rewrite <- insert_delete_eq.
  rewrite map_sum_insert_None by apply lookup_delete_eq. lia.
Qed.

Lemma map_sum_nonneg f m :
  (forall k x, m !! k = Some x -> 0 <= f k x) -> 0 <= map_sum f m.
Proof.
  induction m as [|k x m Hk IH] using map_ind; intros Hf.
  - by rewrite map_sum_empty.
  - rewrite map_sum_insert_None by done.
    assert (0 <= f k x) by (apply Hf, lookup_insert_eq).
    assert (0 <= map_sum f m); [|lia].
    apply IH. intros k' x' Hk'. apply Hf.
    rewrite lookup_insert_ne by congruence. done.
Qed.

Lemma map_sum_ext f g m :
  (forall k x, m !! k = Some x -> f k x = g k x) -> map_sum f m = map_sum g m.
Proof.
  induction m as [|k x m Hk IH] using map_ind; intros Hf.
  - by rewrite !map_sum_empty.
  - rewrite !map_sum_insert_None by done.
    rewrite (Hf k x) by apply lookup_insert_eq. f_equal.
    apply IH. intros k' x' Hk'. apply Hf.
    rewrite lookup_insert_ne by congruence. done.
Qed.

Lemma map_sum_lookup_le f m k x :
  (forall k x, m !! k = Some x -> 0 <= f k x) ->
  m !! k = Some x -> f k x <= map_sum f m.
Proof.
  intros Hf Hk. rewrite (map_sum_delete _ _ _ _ Hk).
  assert (0 <= map_sum f (delete k m)); [|lia].
  apply map_sum_nonneg. intros k' x' [_ Hx]%lookup_delete_Some. eauto.
Qed.
End map_sum.

(** A sum over a map whose keys index into another map is bounded by the sum
    over that map. *)
Lemma map_sum_dom_le {K} `{Countable K} {A B} (f : K -> A -> Z) (g : K -> B -> Z)
    (m : gmap K A) (w : gmap K B) :
  (forall k y, w !! k = Some y -> 0 <= g k y) ->
  (forall k x, m !! k = Some x ->
     f k x = match w !! k with Some y => g k y | None => 0 end) ->
  map_sum f m <= map_sum g w.
Proof.
  revert w. induction m as [|k x m Hk IH] using map_ind; intros w Hg Hf.
  - rewrite map_sum_empty. by apply map_sum_nonneg.
  - rewrite map_sum_insert_None by done.
    pose proof (Hf k x (lookup_insert_eq _ _ _)) as Hfx.
    destruct (w !! k) as [y|] eqn:Hw.
    + rewrite (map_sum_delete g w k y Hw).
      assert (map_sum f m <= map_sum g (delete k w)); [|lia].
      apply IH.
      * intros k' y' [_ ?]%lookup_delete_Some. eauto.
      * intros k' x' Hk'. assert (k' <> k) by congruence.
        rewrite lookup_delete_ne by done.
        apply Hf. rewrite lookup_insert_ne by done. done.
    + assert (map_sum f m <= map_sum g w); [|lia].
      apply IH; [done|]. intros k' x' Hk'.
      apply Hf. rewrite lookup_insert_ne by congruence. done.
Qed.

(** Counting the keys of a map that lie in a set. *)
Lemma map_sum_in_set_le {K} `{Countable K} {A} (m : gmap K A) (X : gset K) :
  map_sum (fun k _ => if decide (k ∈ X) then 1 else 0) m <= Z.of_nat (size X).
Proof.
  transitivity (map_sum (fun _ y => y) (gset_to_gmap 1 X)).
  - apply map_sum_dom_le.
    + intros k y [_ <-]%lookup_gset_to_gmap_Some. lia.
    + intros k x _. rewrite lookup_gset_to_gmap.
      case_decide as Hk; [by rewrite option_guard_True|by rewrite option_guard_False].
  - clear m. induction X as [|k X Hk IH] using set_ind_L.
    + by rewrite gset_to_gmap_empty, map_sum_empty.
    + rewrite gset_to_gmap_union_singleton, map_sum_insert_None
        by by rewrite lookup_gset_to_gmap_None.
      rewrite size_union, size_singleton by set_solver. lia.
Qed.

Lemma size_list_to_set_le {K} `{Countable K} (l : list K) :
  (size (list_to_set l : gset K) <= length l)%nat.
Proof.
  induction l as [|a l IH]; cbn -[union size]; [by rewrite size_empty|].
  rewrite size_union_alt, size_singleton.
  assert (size ((list_to_set l : gset K) ∖ {[a]}) <= size (list_to_set l : gset K))%nat
    by (apply subseteq_size; set_solver). lia.
Qed.

(** Sums over lists, and over the elements of a set. *)
Definition list_sum (l : list Z) : Z := foldr Z.add 0 l.

Lemma list_sum_cons x l : list_sum (x :: l) = x + list_sum l.
Proof. done. Qed.

Lemma list_sum_nonneg l : Forall (fun x => 0 <= x) l -> 0 <= list_sum l.
Proof. induction 1; rewrite ?list_sum_cons; [done|lia]. Qed.

#[export] Instance list_sum_proper : Proper ((≡ₚ) ==> (=)) list_sum.
Proof. intros l k Hp. unfold list_sum. induction Hp; cbn; lia. Qed.

Lemma list_sum_elements {K} `{Countable K} (f : K -> Z) (X : gset K) :
  list_sum (f <$> elements X) = map_sum (fun k _ => f k) (gset_to_gmap tt X).
Proof.
  induction X as [|k X Hk IH] using set_ind_L.
  - rewrite elements_empty, gset_to_gmap_empty. by rewrite map_sum_empty.
  - rewrite gset_to_gmap_union_singleton, (map_sum_insert_None (fun k _ => f k))
      by by rewrite lookup_gset_to_gmap_None.
    rewrite elements_union_singleton by done. cbn. by rewrite <- IH.
Qed.

(** Filling a table slot by slot: distinct slots commute, so the result does
    not depend on the order of the writes. *)
Lemma fill_lookup {A B} (key : A -> nat) (f : A -> B) (order : list A) (acc : list B) i :
  (i < length acc)%nat ->
  (forall x, x ∈ order -> key x = i -> forall y, y ∈ order -> key y = i -> x = y) ->
  foldl (fun l x => <[key x := f x]> l) acc order !! i
  = match list_find (fun x => key x = i) order with
    | Some (_, x) => Some (f x)
    | None => acc !! i
    end.
Proof.
  revert acc. induction order as [|x order IH]; intros acc Hi Huniq; [done|].
  cbn [foldl list_find]. rewrite IH; [|by rewrite length_insert|set_solver].
  destruct (decide (key x = i)) as [Hx|Hx].
  - destruct (list_find (fun x => key x = i) order) as [[j y]|] eqn:Hf; cbn.
    + apply list_find_Some in Hf as (Hj & Hy & _).
      rewrite (Huniq x ltac:(left) Hx y); [done| |done]. right. by eapply list_elem_of_lookup_2.
    + subst i. by apply list_lookup_insert_eq.
  - destruct (list_find (fun x => key x = i) order) as [[j y]|] eqn:Hf; cbn; [done|].
    by apply list_lookup_insert_ne.
Qed.

Lemma fill_length {A B} (key : A -> nat) (f : A -> B) (order : list A) (acc : list B) :
  length (foldl (fun l x => <[key x := f x]> l) acc order) = length acc.
Proof.
  revert acc. induction order as [|x order IH]; intros acc; cbn; [done|].
  by rewrite IH, length_insert.
Qed.

Lemma fill_permutation {A B} (key : A -> nat) (f : A -> B) (order perm : list A) (d : B) :
  (forall i x, order !! i = Some x -> key x = i) ->
  perm ≡ₚ order ->
  foldl (fun l x => <[key x := f x]> l) (replicate (length order) d) perm = f <$> order.
Proof.
  intros Hkey Hperm. apply list_eq. intros i.
  destruct (decide (i < length order)%nat) as [Hi|Hi].
  - destruct (lookup_lt_is_Some_2 order i Hi) as [x Hx].
    assert (Huniq : forall y, y ∈ perm -> key y = i -> y = x).
    { intros y Hy Hky. rewrite Hperm in Hy. apply list_elem_of_lookup in Hy as [j Hj].
      rewrite (Hkey j y Hj) in Hky. congruence. }
    rewrite fill_lookup; [|by rewrite length_replicate|].
    2:{ intros y Hy Hky z Hz Hkz. by rewrite (Huniq y), (Huniq z). }
    rewrite list_lookup_fmap, Hx. cbn.
    destruct (list_find (fun x => key x = i) perm) as [[j y]|] eqn:Hf.
    + apply list_find_Some in Hf as (Hj & Hy & _).
      by rewrite (Huniq y) by (done || by eapply list_elem_of_lookup_2).
    + apply list_find_None in Hf. rewrite Forall_forall in Hf.
      destruct (Hf x); [|by apply Hkey]. rewrite Hperm. by eapply list_elem_of_lookup_2.
  - rewrite !lookup_ge_None_2; [done| |].
    + rewrite length_fmap. lia.
    + rewrite fill_length, length_replicate. lia.
Qed.

(** ** Automation *)

Create HintDb proxy discriminated.
#[export] Hint Resolve zlen_nonneg u16_range u64_range : proxy.

(** Splits the innermost [match] of the goal or of a hypothesis, remembering
    the equation, and simplifies the equalities that appear. *)
Ltac step_match :=
  match goal with
  | |- context [match ?x with _ => _ end] =>
      lazymatch x with context [match _ with _ => _ end] => fail | _ => destruct x eqn:? end
  | H : context [match ?x with _ => _ end] |- _ =>
      lazymatch x with context [match _ with _ => _ end] => fail | _ => destruct x eqn:? end
  end.
Ltac step_matches := repeat (step_match; simplify_eq/=).

(** Turns every boolean equation built from [bool_decide], [&&], [||] and
    [negb] into propositions. *)
Ltac bool_to_prop :=
  repeat match goal with
  | H : bool_decide _ = true |- _ => apply bool_decide_eq_true in H
  | H : bool_decide _ = false |- _ => apply bool_decide_eq_false in H
  | H : _ && _ = true |- _ => apply andb_true_iff in H as [? ?]
  | H : _ || _ = false |- _ => apply orb_false_iff in H as [? ?]
  | H : negb _ = true |- _ => apply negb_true_iff in H
  | H : negb _ = false |- _ => apply negb_false_iff in H
  end.
