(* ===== verification/Hex.v ===== *)
(** Strings and bytes of the Go standard library and go-ethereum: prefixes
    ([strings]), hexadecimal ([encoding/hex]) and big-endian byte arrays
    ([common.Hash]), with the round trips the keys of
    the stores rely on. *)

From S2P Require Import Prelude.

(** ** Bytes and numbers *)

Definition byte_of (z : Z) : Byte.byte := default Byte.x00 (Byte.of_N (Z.to_N (u8 z))).

Lemma byte_of_to_N b : byte_of (Z.of_N (Byte.to_N b)) = b.
Proof. by destruct b. Qed.

Lemma byte_to_of_N n : (n < 256)%N -> Byte.to_N (byte_of (Z.of_N n)) = n.
Proof.
  intros Hn. unfold byte_of. rewrite u8_small by lia. rewrite N2Z.id.
  pose proof (Byte.to_of_N_iff) as Hiff.
  destruct (Byte.of_N n) as [b|] eqn:Hb; cbn.
  - by apply Byte.to_of_N in Hb.
  - exfalso. assert (Byte.of_N n <> None); [|done].
    intros Hnone%Byte.of_N_None_iff. lia.
Qed.

(** The big-endian bytes of a number, and the number of big-endian bytes. *)
Fixpoint be_bytes (n : nat) (x : N) : list Byte.byte :=
  match n with
  | O => []
  | S n => be_bytes n (x / 256) ++ [byte_of (Z.of_N (x mod 256))]
  end.
Definition bytes_be (l : list Byte.byte) : N := foldl (fun a b => (256 * a + Byte.to_N b)%N) 0%N l.

Lemma be_bytes_length n x : length (be_bytes n x) = n.
Proof. revert x. induction n as [|n IH]; intros x; cbn; [done|]. rewrite length_app, IH. cbn. lia. Qed.

Lemma bytes_be_snoc l b : bytes_be (l ++ [b]) = (256 * bytes_be l + Byte.to_N b)%N.
Proof. unfold bytes_be. by rewrite foldl_app. Qed.

Lemma bytes_be_bytes n x : (x < 256 ^ N.of_nat n)%N -> bytes_be (be_bytes n x) = x.
Proof.
  revert x. induction n as [|n IH]; intros x Hx.
  - cbn in *. lia.
  - cbn [be_bytes]. rewrite bytes_be_snoc, IH.
    + rewrite byte_to_of_N by (apply N.mod_lt; done). symmetry. apply N.div_mod. done.
    + rewrite Nat2N.inj_succ, N.pow_succ_r' in Hx. apply N.Div0.div_lt_upper_bound. lia.
Qed.

Lemma bytes_be_inj_length l k : length l = length k -> bytes_be l = bytes_be k -> l = k.
Proof.
  revert k. induction l as [|b l IH] using rev_ind; intros k Hlen Heq.
  - by destruct k.
  - destruct k as [|c k _] using rev_ind; [rewrite length_app in Hlen; cbn in Hlen; lia|].
    rewrite !length_app in Hlen. cbn in Hlen. rewrite !bytes_be_snoc in Heq.
    assert (Byte.to_N b < 256)%N by (destruct b; cbn; lia).
    assert (Byte.to_N c < 256)%N by (destruct c; cbn; lia).
    assert (bytes_be l = bytes_be k) by lia.
    assert (Hbc : Byte.to_N b = Byte.to_N c) by lia.
    rewrite (IH k) by (done || lia). do 2 f_equal.
    rewrite <- (byte_of_to_N b), <- (byte_of_to_N c). by rewrite Hbc.
Qed.

Lemma bytes_be_bound l : (bytes_be l < 256 ^ N.of_nat (length l))%N.
Proof.
  induction l as [|b l IH] using rev_ind; [done|].
  rewrite bytes_be_snoc, length_app, Nat.add_1_r, Nat2N.inj_succ, N.pow_succ_r'.
  assert (Byte.to_N b < 256)%N by (destruct b; cbn; lia). lia.
Qed.

Lemma be_bytes_be l : be_bytes (length l) (bytes_be l) = l.
Proof.
  apply bytes_be_inj_length; [by rewrite be_bytes_length|]. apply bytes_be_bytes, bytes_be_bound.
Qed.

Definition HashLength : nat := 32.
(** [common.BytesToHash]: the last 32 bytes of a longer slice. *)
Definition BytesToHash (b : list Byte.byte) : Hash := bytes_be (drop (length b - HashLength) b).
(** [h[:]]. *)
Definition hash_bytes (h : Hash) : list Byte.byte := be_bytes HashLength h.
(** A 32-byte array. *)
Definition hash_ok (h : Hash) : Prop := (h < 2 ^ 256)%N.

Lemma BytesToHash_ok b : (length b <= HashLength)%nat -> hash_ok (BytesToHash b).
Proof.
  intros Hb. unfold hash_ok, BytesToHash. replace (length b - HashLength)%nat with 0%nat by lia.
  rewrite drop_0. eapply N.lt_le_trans; [apply bytes_be_bound|].
  change (2 ^ 256)%N with (256 ^ 32)%N. apply N.pow_le_mono_r; unfold HashLength in Hb; lia.
Qed.

Lemma BytesToHash_hash_bytes h : hash_ok h -> BytesToHash (hash_bytes h) = h.
Proof.
  intros Hh. unfold BytesToHash, hash_bytes. rewrite be_bytes_length, Nat.sub_diag.
  by apply bytes_be_bytes.
Qed.

(** ** Hexadecimal *)

Definition hex_digit (c : Ascii.ascii) : option N :=
  let n := Ascii.N_of_ascii c in
  if decide (48 <= n <= 57)%N then Some (n - 48)%N
  else if decide (97 <= n <= 102)%N then Some (n - 87)%N
  else if decide (65 <= n <= 70)%N then Some (n - 55)%N
  else None.
Fixpoint hex_Decode (l : list Ascii.ascii) : res bytes :=
  match l with
  | [] => Ok []
  | [_] => Fail (sentinel "hex.ErrLength")
  | c :: d :: l =>
      match hex_digit c, hex_digit d with
      | Some h, Some k => r ← hex_Decode l; Ok (byte_of (Z.of_N (16 * h + k)) :: r)
      | _, _ => Fail (errorf [])
      end
  end.
Definition hex_DecodeString (s : string) : res bytes := hex_Decode (String.list_ascii_of_string s).

(** [hex.EncodeToString]: lower-case digits. *)
Definition hextable (n : N) : Ascii.ascii :=
  Ascii.ascii_of_N (if decide (n < 10)%N then n + 48 else n + 87)%N.
Definition hex_Encode (b : bytes) : list Ascii.ascii :=
  b ≫= fun x => [hextable (Byte.to_N x / 16); hextable (Byte.to_N x mod 16)].
Definition hex_EncodeToString (b : bytes) : string := String.string_of_list_ascii (hex_Encode b).

Lemma hex_digit_hextable n : (n < 16)%N -> hex_digit (hextable n) = Some n.
Proof.
  intros Hn. unfold hex_digit, hextable.
  rewrite Ascii.N_ascii_embedding by (case_decide; lia).
  repeat case_decide; try lia; f_equal; lia.
Qed.

Lemma hex_digit_not_dash c : hex_digit c <> None -> c <> Ascii.Ascii true false true true false true false false.
Proof. by intros Hc ->. Qed.

Lemma hex_Decode_Encode b : hex_Decode (hex_Encode b) = Ok b.
Proof.
  induction b as [|x b IH]; [done|]. unfold hex_Encode in *.
  cbn [mbind list_bind app hex_Decode].
  assert (Byte.to_N x < 256)%N by (destruct x; cbn; lia).
  rewrite !hex_digit_hextable by (apply N.Div0.div_lt_upper_bound || apply N.mod_lt; lia).
  rewrite IH. cbn [mbind res_bind].
  rewrite <- N.div_mod by done. by rewrite byte_of_to_N.
Qed.

Lemma hex_roundtrip b : hex_DecodeString (hex_EncodeToString b) = Ok b.
Proof.
  unfold hex_DecodeString, hex_EncodeToString.
  rewrite String.list_ascii_of_string_of_list_ascii. apply hex_Decode_Encode.
Qed.

Lemma hex_EncodeToString_inj b c : hex_EncodeToString b = hex_EncodeToString c -> b = c.
Proof. intros Heq%(f_equal hex_DecodeString). rewrite !hex_roundtrip in Heq. congruence. Qed.

Lemma hex_Encode_length b : length (hex_Encode b) = (2 * length b)%nat.
Proof. induction b as [|x b IH]; [done|]. unfold hex_Encode in *. cbn in *. lia. Qed.

Lemma hex_Decode_no_panic l : hex_Decode l <> Panic.
Proof.
  enough (hex_Decode l <> Panic /\ forall c, hex_Decode (c :: l) <> Panic) by tauto.
  induction l as [|d l [IH1 IH2]]; [done|]. split; [apply IH2|].
  intros c. cbn [hex_Decode]. destruct (hex_digit c), (hex_digit d); try done.
  by destruct (hex_Decode l).
Qed.

(** A 32-byte array printed in hexadecimal is 64 characters, and determines it. *)
Lemma hex_hash_inj h k :
  hash_ok h -> hash_ok k ->
  hex_EncodeToString (hash_bytes h) = hex_EncodeToString (hash_bytes k) -> h = k.
Proof.
  intros Hh Hk Heq%hex_EncodeToString_inj.
  by rewrite <- (BytesToHash_hash_bytes h), <- (BytesToHash_hash_bytes k), Heq.
Qed.

(** ** Strings *)

Fixpoint str_drop (n : nat) (s : string) : string :=
  match n, s with
  | S n, String _ s => str_drop n s
  | _, _ => s
  end.
Definition HasPrefix (s p : string) : bool := String.prefix p s.
Definition CutPrefix (s p : string) : string :=
  if HasPrefix s p then str_drop (String.length p) s else s.

(** [strings.ToLower], byte by byte: it differs from the library's on characters beyond
    ASCII only, none of which has a lower case among the hexadecimal digits and "x". *)
Definition to_lower (c : Ascii.ascii) : Ascii.ascii :=
  let n := Ascii.N_of_ascii c in if decide (65 <= n <= 90)%N then Ascii.ascii_of_N (n + 32) else c.
Definition ToLower (s : string) : string :=
  String.string_of_list_ascii (to_lower <$> String.list_ascii_of_string s).

Lemma HasPrefix_app p s : HasPrefix (p +:+ s) p = true.
Proof.
  unfold HasPrefix. induction p as [|c p IH]; [by destruct s|].
  change (String.prefix (String c p) (String c (p +:+ s)) = true).
  cbn [String.prefix]. by destruct (Ascii.ascii_dec c c).
Qed.

Lemma str_drop_app p s : str_drop (String.length p) (p +:+ s) = s.
Proof. induction p as [|c p IH]; [by destruct s|exact IH]. Qed.

Lemma str_app_cons c s t : String c s +:+ t = String c (s +:+ t).
Proof. done. Qed.

Lemma HasPrefix_inv s p : HasPrefix s p = true -> s = p +:+ str_drop (String.length p) s.
Proof.
  unfold HasPrefix. revert s. induction p as [|c p IH]; intros s; [by destruct s|].
  destruct s as [|d s]; [done|]. cbn [String.prefix].
  destruct (Ascii.ascii_dec c d) as [->|]; [|done]. intros Hp.
  rewrite str_app_cons. f_equal. by apply IH.
Qed.

Lemma CutPrefix_inv s p : s = CutPrefix s p \/ s = p +:+ CutPrefix s p.
Proof. unfold CutPrefix. destruct (HasPrefix s p) eqn:Hp; [right; by apply HasPrefix_inv|by left]. Qed.

Lemma list_ascii_app s t :
  String.list_ascii_of_string (s +:+ t) = String.list_ascii_of_string s ++ String.list_ascii_of_string t.
Proof. induction s as [|c s IH]; [done|]. rewrite str_app_cons. cbn. by rewrite IH. Qed.

Lemma list_ascii_length s : length (String.list_ascii_of_string s) = String.length s.
Proof. induction s as [|c s IH]; cbn; [done|]. by rewrite IH. Qed.

Lemma list_ascii_inj s t : String.list_ascii_of_string s = String.list_ascii_of_string t -> s = t.
Proof.
  intros Heq. rewrite <- (String.string_of_list_ascii_of_string s), Heq.
  apply String.string_of_list_ascii_of_string.
Qed.

(** ** Hexadecimal text *)

Definition all_hex (s : string) : Prop :=
  Forall (fun c => hex_digit c <> None) (String.list_ascii_of_string s).

Lemma hex_Decode_all_hex l b :
  hex_Decode l = Ok b -> Forall (fun c => hex_digit c <> None) l /\ length l = (2 * length b)%nat.
Proof.
  remember (length l) as n eqn:Hn. revert l b Hn.
  induction n as [n IH] using lt_wf_ind. intros l b ->. destruct l as [|c [|d l]]; cbn [hex_Decode].
  - by intros [= <-].
  - done.
  - destruct (hex_digit c) eqn:Hc, (hex_digit d) eqn:Hd; try done.
    intros (r & Hr & [= <-])%res_bind_ok. destruct (IH (length l)) with l r as [Hl Hlen]; [cbn; lia|done|done|].
    split; [by repeat constructor; rewrite ?Hc, ?Hd|]. cbn. lia.
Qed.

Lemma hex_DecodeString_all_hex s b :
  hex_DecodeString s = Ok b -> all_hex s /\ String.length s = (2 * length b)%nat.
Proof. intros Hd%hex_Decode_all_hex. by rewrite list_ascii_length in Hd. Qed.

Lemma hex_digit_all b : all_hex (hex_EncodeToString b).
Proof. eapply hex_DecodeString_all_hex, hex_roundtrip. Qed.

Lemma hex_EncodeToString_length b : String.length (hex_EncodeToString b) = (2 * length b)%nat.
Proof. eapply hex_DecodeString_all_hex, hex_roundtrip. Qed.

(** Hexadecimal text has no prefix that is not hexadecimal. *)
Lemma all_hex_prefix s p : all_hex s -> ~ all_hex p -> HasPrefix s p = false.
Proof.
  intros Hs Hp. destruct (HasPrefix s p) eqn:Hpre; [|done]. destruct Hp.
  apply HasPrefix_inv in Hpre. rewrite Hpre in Hs. unfold all_hex in *.
  rewrite list_ascii_app in Hs. by apply Forall_app in Hs as [? _].
Qed.

Ltac not_hex := unfold all_hex; cbn; intros Hhex; repeat (apply Forall_cons in Hhex as [? Hhex]); done.

(** ** Lower-case text *)

Lemma to_lower_idem c : to_lower (to_lower c) = to_lower c.
Proof. destruct c as [[] [] [] [] [] [] [] []]; reflexivity. Qed.

(** Checked on each of the 256 characters. *)
Definition lower_digit_ok (c : Ascii.ascii) : bool :=
  if decide (to_lower c = c) then
    match hex_digit c with Some k => (k <? 16)%N && Ascii.eqb (hextable k) c | None => true end
  else true.
Lemma lower_digit_ok_all : forallb (fun n => lower_digit_ok (Ascii.ascii_of_nat n)) (seq 0 256) = true.
Proof. vm_compute. reflexivity. Qed.
Lemma hex_digit_lower c n :
  to_lower c = c -> hex_digit c = Some n -> (n < 16)%N /\ hextable n = c.
Proof.
  intros Hl Hd. pose proof lower_digit_ok_all as Hall. rewrite forallb_forall in Hall.
  specialize (Hall (Ascii.nat_of_ascii c)). rewrite Ascii.ascii_nat_embedding in Hall.
  unfold lower_digit_ok in Hall. rewrite decide_True, Hd in Hall by done.
  rewrite in_seq in Hall. pose proof (Ascii.nat_ascii_bounded c) as Hb.
  destruct (andb_prop _ _ (Hall ltac:(lia))) as [Hk Hc]. by apply N.ltb_lt in Hk; apply Ascii.eqb_eq in Hc.
Qed.

Lemma byte_of_nibbles h k :
  (h < 16)%N -> (k < 16)%N ->
  (Byte.to_N (byte_of (Z.of_N (16 * h + k))) / 16 = h /\ Byte.to_N (byte_of (Z.of_N (16 * h + k))) mod 16 = k)%N.
Proof.
  intros Hh Hk.
  assert (Hb : Byte.to_N (byte_of (Z.of_N (16 * h + k))) = (16 * h + k)%N).
  { apply byte_to_of_N. lia. }
  rewrite Hb. split; [|rewrite N.add_comm, N.mul_comm, N.Div0.mod_add; by apply N.mod_small].
  rewrite N.mul_comm, N.div_add_l by lia. rewrite N.div_small by done. lia.
Qed.

(** In lower case, the text of some bytes is their encoding. *)
Lemma hex_Decode_lower l b : Forall (fun c => to_lower c = c) l -> hex_Decode l = Ok b -> l = hex_Encode b.
Proof.
  remember (length l) as n eqn:Hn. revert l b Hn.
  induction n as [n IH] using lt_wf_ind. intros l b -> Hlow. destruct l as [|c [|d l]]; cbn [hex_Decode].
  - by intros [= <-].
  - done.
  - inversion Hlow as [|? ? Hc Hlow']; subst. inversion Hlow' as [|? ? Hd Hl]; subst.
    destruct (hex_digit c) as [h|] eqn:Hch, (hex_digit d) as [k|] eqn:Hdk; try done.
    intros (r & Hr & [= <-])%res_bind_ok.
    apply hex_digit_lower in Hch as [Hh <-]; [|done]. apply hex_digit_lower in Hdk as [Hk <-]; [|done].
    unfold hex_Encode. cbn [mbind list_bind app].
    destruct (byte_of_nibbles h k Hh Hk) as [-> ->]. do 2 f_equal.
    apply (IH (length l)); [cbn; lia|done|done|done].
Qed.

Lemma ToLower_lower s : Forall (fun c => to_lower c = c) (String.list_ascii_of_string (ToLower s)).
Proof.
  unfold ToLower. rewrite String.list_ascii_of_string_of_list_ascii. apply Forall_fmap.
  apply Forall_forall. intros c _. apply to_lower_idem.
Qed.

Lemma lower_CutPrefix s p :
  Forall (fun c => to_lower c = c) (String.list_ascii_of_string s) ->
  Forall (fun c => to_lower c = c) (String.list_ascii_of_string (CutPrefix s p)).
Proof.
  intros Hs. destruct (CutPrefix_inv s p) as [Heq|Heq]; [by rewrite <- Heq|].
  rewrite Heq, list_ascii_app in Hs. by apply Forall_app in Hs as [_ ?].
Qed.

Lemma hex_DecodeString_lower s b :
  Forall (fun c => to_lower c = c) (String.list_ascii_of_string s) ->
  hex_DecodeString s = Ok b <-> s = hex_EncodeToString b.
Proof.
  intros Hs. split; [|intros ->; apply hex_roundtrip].
  intros Hd%hex_Decode_lower; [|done]. unfold hex_EncodeToString. rewrite <- Hd.
  by rewrite String.string_of_list_ascii_of_string.
Qed.
