(* ===== verification/Status.v ===== *)
(** HTTP status errors ([pkg/status/status.go]): the table of status errors,
    [ErrToCode], which searches it in the map's unspecified iteration order,
    and [Add].  The module shows when the search does not depend on that
    order, which is what the handlers that answer with its result rely on. *)

From S2P Require Import Prelude.

Module Status.

(** The keys of [HTTP], in the order of the source. *)
Definition http_codes : list Z := [400; 401; 403; 404; 409; 410; 413; 429; 500; 503].

(** [HTTP]: one [errors.New] per code. *)
Definition HTTP (code : Z) : error :=
  match code with
  | 400 => sentinel "'bad request'"
  | 401 => sentinel "'unauthorized'"
  | 403 => sentinel "'forbidden'"
  | 404 => sentinel "'not found'"
  | 409 => sentinel "'conflict'"
  | 410 => sentinel "'gone'"
  | 413 => sentinel "'payload too large'"
  | 429 => sentinel "'too many requests'"
  | 500 => sentinel "'internal server error'"
  | 503 => sentinel "'service unavailable'"
  | _ => sentinel "nil"
  end.

(** A package-level sentinel that wraps a status error:
    [fmt.Errorf("%w: ...", status.HTTP[code])] stored in the variable [id]. *)
Definition http_sentinel (id : string) (code : Z) : error := mkError id [HTTP code].

(** [ErrToCode], with the order [order] in which the runtime iterates over
    the keys of [HTTP]. *)
Fixpoint ErrToCode (order : list Z) (err : error) : Z :=
  match order with
  | [] => -1
  | j :: order' =>
      if errors_Is err (error_id (HTTP j)) then j else ErrToCode order' err
  end.

(** [Add]: [fmt.Errorf("%w: %w", HTTP[code], err)]. *)
Definition Add (err : error) (code : Z) : error := errorf [HTTP code; err].

(** The status errors that [err] wraps. *)
Definition http_codes_of (err : error) : list Z :=
  filter (fun j => errors_Is err (error_id (HTTP j)) = true) http_codes.

(** The convention of the package: an error wraps at most one of them. *)
Definition single_status (err : error) : Prop := (length (http_codes_of err) <= 1)%nat.
#[export] Instance single_status_dec err : Decision (single_status err) := _.

Lemma ErrToCode_head order err :
  ErrToCode order err
  = default (-1) (head (filter (fun j => errors_Is err (error_id (HTTP j)) = true) order)).
Proof.
  induction order as [|k order IH]; [done|]. cbn [ErrToCode].
  rewrite filter_cons. destruct (errors_Is err (error_id (HTTP k))) eqn:Hk.
  - by rewrite decide_True.
  - by rewrite decide_False.
Qed.

Lemma Permutation_short {A} (l k : list A) :
  l ≡ₚ k -> (length k <= 1)%nat -> l = k.
Proof.
  destruct k as [|x [|y k]]; cbn; intros Hp Hlen; [| |lia].
  - by apply Permutation_nil_r.
  - by apply Permutation_singleton_r.
Qed.

(** The code of an error that follows the convention does not depend on the
    map's iteration order. *)
Lemma ErrToCode_single order err :
  order ≡ₚ http_codes -> single_status err ->
  ErrToCode order err = default (-1) (head (http_codes_of err)).
Proof.
  intros Hperm Hs. rewrite ErrToCode_head. do 2 f_equal.
  apply Permutation_short; [|done]. by rewrite Hperm.
Qed.

(** The status errors wrapped by a tree are those of its parts. *)
Lemma http_codes_of_Add err code :
  code ∈ http_codes -> http_codes_of err = [] -> http_codes_of (Add err code) = [code].
Proof.
  intros Hin Hnone.
  assert (Hno : forall j, j ∈ http_codes -> errors_Is err (error_id (HTTP j)) = false).
  { intros j Hj. destruct (errors_Is err (error_id (HTTP j))) eqn:He; [|done].
    assert (j ∈ http_codes_of err) as Hx by (apply list_elem_of_filter; done).
    rewrite Hnone in Hx. inversion Hx. }
  assert (Heq : forall j, j ∈ http_codes ->
            errors_Is (Add err code) (error_id (HTTP j)) = errors_Is (HTTP code) (error_id (HTTP j))).
  { intros j Hj. unfold Add, errorf. rewrite errors_Is_mk. cbn [existsb].
    rewrite (Hno j Hj), !orb_false_r.
    unfold http_codes in Hj. set_unfold in Hj.
    destruct_or!; subst j; reflexivity. }
  assert (Hfil : http_codes_of (Add err code) = http_codes_of (HTTP code)).
  { unfold http_codes_of. apply filter_ext_in. intros j Hj. by rewrite Heq. }
  rewrite Hfil. unfold http_codes in Hin. set_unfold in Hin.
  destruct_or!; subst code; reflexivity.
Qed.

(** An iteration order that visits [j] first. *)
Definition order_from (j : Z) : list Z := j :: filter (fun k => k <> j) http_codes.

Lemma http_codes_NoDup : NoDup http_codes.
Proof. apply (bool_decide_eq_true_1 _). vm_compute. reflexivity. Qed.

Lemma order_from_Permutation j : j ∈ http_codes -> order_from j ≡ₚ http_codes.
Proof.
  intros Hj. apply NoDup_Permutation; [|apply http_codes_NoDup|].
  - apply NoDup_cons. split; [|apply NoDup_filter, http_codes_NoDup].
    rewrite list_elem_of_filter. tauto.
  - intros k. unfold order_from. rewrite elem_of_cons, list_elem_of_filter.
    destruct (decide (k = j)); naive_solver.
Qed.

Lemma order_from_code j err :
  j ∈ http_codes_of err -> ErrToCode (order_from j) err = j.
Proof.
  intros [Hj _]%list_elem_of_filter. unfold order_from. cbn [ErrToCode]. by rewrite Hj.
Qed.

Lemma elem_of_http_codes err j : j ∈ http_codes_of err -> j ∈ http_codes.
Proof. by intros [_ ?]%list_elem_of_filter. Qed.

Lemma http_codes_of_two err :
  ~ single_status err -> exists j k, j <> k /\ j ∈ http_codes_of err /\ k ∈ http_codes_of err.
Proof.
  unfold single_status. intros Hn.
  assert (NoDup (http_codes_of err)) as Hnd.
  { unfold http_codes_of. apply NoDup_filter, http_codes_NoDup. }
  destruct (http_codes_of err) as [|j [|k l]]; cbn [length] in Hn; [lia|lia|].
  exists j, k. apply NoDup_cons in Hnd as [Hjk _]. split_and!; [|left|right; left]. intros ->. apply Hjk. left.
Qed.

(** The code with which a failed request is answered is independent of
    the iteration order of the [HTTP] map exactly for the errors that follow
    the package's convention of wrapping at most one status error; an error
    that wraps two gets a different code on different runs. *)
Theorem ErrToCode_order_independent err :
  single_status err <->
  forall order1 order2, order1 ≡ₚ http_codes -> order2 ≡ₚ http_codes ->
    ErrToCode order1 err = ErrToCode order2 err.
Proof.
  split.
  - intros Hs o1 o2 H1 H2. by rewrite !ErrToCode_single.
  - intros Hall. destruct (decide (single_status err)) as [|Hn]; [done|].
    destruct (http_codes_of_two err Hn) as (j & k & Hjk & Hj & Hk). destruct Hjk.
    rewrite <- (order_from_code j err Hj), <- (order_from_code k err Hk).
    apply Hall; apply order_from_Permutation; by eapply elem_of_http_codes.
Qed.
End Status.
