(* ===== verification/Types.v ===== *)
(** Data and operations of the libraries the proxy is built on
    (go-flare-common, tee-node, go-ethereum), as far as the proxy's code uses
    them.  Data is given by the fields the proxy reads or writes; operations
    are parameters, grouped in type classes, with the behaviour the proxy
    relies on stated as laws in classes of their own. *)

From S2P Require Import Prelude.

(** ** Operation types and commands (go-flare-common [op]) *)

(** The commands the proxy's code names. *)
Inductive Command : Type :=
| Pay | Reissue | VRF | Prove
| KeyGenerate | KeyDelete | KeyInfo | KeyProof
| KeyDataProviderRestore | KeyDataProviderRestoreTest | KeyDirectRestore | KeyDirectBackup
| InitializePolicy | UpdatePolicy | SetMachinePathList
| TEEInfo | TEEBackup | TEEAttestation.
#[export] Instance Command_eq_dec : EqDecision Command.
Proof. solve_decision. Defined.

(** The operation types the proxy's code names. *)
Inductive OpType : Type := WalletType | GetType | PolicyType | GovernanceType | FDC2Type.
#[export] Instance OpType_eq_dec : EqDecision OpType.
Proof. solve_decision. Defined.

Class OpLib : Type := {
  command_Hash : Command -> Hash;              (* op.Command.Hash *)
  optype_Hash : OpType -> Hash;                (* op.Type.Hash *)
  HashToOPCommand : Hash -> option Command;    (* None: any other command *)
  IsValidPair : Hash -> Hash -> bool;
  IsSystem : Hash -> bool                      (* HashToOPType(h).IsSystem() *)
}.

(** A command's hash encodes its name, and decoding reads the name back. *)
Class OpLaws `{OpLib} : Prop := {
  HashToOPCommand_Hash c : HashToOPCommand (command_Hash c) = Some c;
  HashToOPCommand_Some h c : HashToOPCommand h = Some c -> h = command_Hash c
}.

Lemma command_Hash_inj `{OpLaws} c d : command_Hash c = command_Hash d -> c = d.
Proof. intros Heq%(f_equal HashToOPCommand). rewrite !HashToOPCommand_Hash in Heq. congruence. Qed.

(** ** Instructions (go-flare-common [instruction]) *)

Record DataFixed : Type := mkDataFixed {
  InstructionID : Hash;
  TeeID : Address;
  Timestamp : Z;                 (* uint64 *)
  RewardEpochID : Z;             (* uint32 *)
  OPType : Hash;
  OPCommand : Hash;
  Cosigners : list Address;
  CosignersThreshold : Z;        (* uint64 *)
  OriginalMessage : bytes;
  AdditionalFixedMessage : bytes
}.

Record Data : Type := mkData {
  data_fixed : DataFixed;
  AdditionalVariableMessage : bytes
}.
Coercion data_fixed : Data >-> DataFixed.

Record Instruction : Type := mkInstruction {
  instruction_Data : Data;
  instruction_Signature : bytes
}.

Class InstructionLib : Type := {
  HashFixed : DataFixed -> res Hash;
  InitialVoteHash : DataFixed -> res Hash;
  (* Go returns both a hash and an error; the caller stores the hash first. *)
  NextVoteHash : Hash -> Z -> bytes -> bytes -> Z -> Hash * option error;
  Keccak256Hash : bytes -> Hash;
  json_Marshal_DataFixed : DataFixed -> res bytes;
  (* Instruction.RecoverSignersPubKey then PubkeyToAddress *)
  RecoverSigner : Instruction -> Z -> res Address
}.

(** The library reports failures as errors. *)
Class InstructionLaws `{InstructionLib} : Prop := {
  HashFixed_no_panic d : HashFixed d <> Panic;
  InitialVoteHash_no_panic d : InitialVoteHash d <> Panic;
  json_Marshal_DataFixed_no_panic d : json_Marshal_DataFixed d <> Panic;
  RecoverSigner_no_panic i chain : RecoverSigner i chain <> Panic
}.

(** The hash of the fixed data is collision free. *)
Class InstructionHashInj `{InstructionLib} : Prop := {
  HashFixed_inj d d' h : HashFixed d = Ok h -> HashFixed d' = Ok h -> d = d'
}.

(** ** Actions (tee-node [types]) *)

Inductive SubmissionTag : Type := Threshold | End | Submit | OtherTag (s : string).
#[export] Instance SubmissionTag_eq_dec : EqDecision SubmissionTag.
Proof. solve_decision. Defined.

Inductive ActionType : Type := InstructionAction | DirectAction.
#[export] Instance ActionType_eq_dec : EqDecision ActionType.
Proof. solve_decision. Defined.

Record ActionData : Type := mkActionData {
  ad_ID : Hash;
  ad_Type : ActionType;
  ad_SubmissionTag : SubmissionTag;
  ad_Message : bytes
}.

Record Action : Type := mkAction {
  action_Data : ActionData;
  action_Signatures : list bytes;
  action_AdditionalVariableMessages : list bytes;
  action_Timestamps : list Z;
  action_AdditionalActionData : bytes
}.

#[export] Instance byte_eq_dec : EqDecision Byte.byte := Byte.byte_eq_dec.
#[export] Instance ActionData_eq_dec : EqDecision ActionData.
Proof. solve_decision. Defined.
#[export] Instance Action_eq_dec : EqDecision Action.
Proof. solve_decision. Defined.

(** ** Signing policies (go-flare-common [policy], [voters]) *)

Record SigningPolicy : Type := mkPolicy {
  policy_RewardEpochID : Z;              (* uint32 *)
  policy_Threshold : Z;                  (* uint16 *)
  policy_Voters : list Address;          (* Voters.Voters() *)
  policy_VoterData : gmap Address Z;     (* Voters.VoterDataMap, the weights *)
  policy_TotalWeight : Z;                (* Voters.TotalWeight, uint16 *)
  policy_RawBytes : bytes
}.

(** What the voter set of a parsed policy satisfies: the map indexes exactly
    the listed voters, whose number is encoded in two bytes, weights are 16-bit
    and their sum is the (16-bit) total weight. *)
Record policy_wf (p : SigningPolicy) : Prop := {
  policy_wf_voters a : a ∈ policy_Voters p <-> is_Some (policy_VoterData p !! a);
  policy_wf_count : Z.of_nat (size (policy_VoterData p)) < 65536;
  policy_wf_weight a w : policy_VoterData p !! a = Some w -> 0 <= w;
  policy_wf_total : map_sum (fun _ w => w) (policy_VoterData p) = policy_TotalWeight p;
  policy_wf_total_u16 : policy_TotalWeight p < 65536;
  policy_wf_threshold : 0 <= policy_Threshold p < 65536;
  policy_wf_epoch : 0 <= policy_RewardEpochID p < 2 ^ 32
}.

Lemma policy_total_nonneg p : policy_wf p -> 0 <= policy_TotalWeight p.
Proof.
  intros Hp. rewrite <- (policy_wf_total p Hp). apply map_sum_nonneg. apply (policy_wf_weight p Hp).
Qed.

(** ** Concrete instances, for evaluation *)

Module Demo.

Definition command_index (c : Command) : N :=
  match c with
  | Pay => 1 | Reissue => 2 | VRF => 3 | Prove => 4
  | KeyGenerate => 5 | KeyDelete => 6 | KeyInfo => 7 | KeyProof => 8
  | KeyDataProviderRestore => 9 | KeyDataProviderRestoreTest => 10 | KeyDirectRestore => 11
  | InitializePolicy => 12 | UpdatePolicy => 13 | SetMachinePathList => 14
  | TEEInfo => 15 | TEEBackup => 16 | TEEAttestation => 17 | KeyDirectBackup => 18
  end%N.

Definition all_commands : list Command :=
  [Pay; Reissue; VRF; Prove; KeyGenerate; KeyDelete; KeyInfo; KeyProof;
   KeyDataProviderRestore; KeyDataProviderRestoreTest; KeyDirectRestore;
   InitializePolicy; UpdatePolicy; SetMachinePathList; TEEInfo; TEEBackup; TEEAttestation; KeyDirectBackup].

Definition optype_index (t : OpType) : N :=
  match t with
  | WalletType => 1 | GetType => 2 | PolicyType => 3 | GovernanceType => 4 | FDC2Type => 5
  end%N.

Definition op_lib : OpLib := {|
  command_Hash := command_index;
  optype_Hash := optype_index;
  HashToOPCommand h := if decide (h = 0%N) then None else all_commands !! (N.to_nat h - 1)%nat;
  IsValidPair t c := true;
  IsSystem t := bool_decide (t = 3%N)
|}.

Lemma op_laws : @OpLaws op_lib.
Proof.
  constructor.
  - intros []; reflexivity.
  - intros h c. cbn. case_decide as Hh; [done|].
    intros Hl. apply lookup_lt_Some in Hl as Hlt. cbn in Hlt.
    assert (N.to_nat h - 1 < 18)%nat as Hlt' by exact Hlt.
    assert (exists i, h = N.of_nat (S i) /\ (i < 18)%nat) as (i & -> & Hi)
      by (exists (N.to_nat h - 1)%nat; lia).
    replace (N.to_nat (N.of_nat (S i)) - 1)%nat with i in Hl by lia.
    do 18 (destruct i as [|i]; [cbn in Hl; injection Hl as <-; reflexivity|]). lia.
Qed.

(** The fixed data as lists of numbers, which are then numbered. *)
Definition fixed_numbers (d : DataFixed) : list (list N) :=
  [[InstructionID d; TeeID d; Npos (encode (Timestamp d)); Npos (encode (RewardEpochID d));
    OPType d; OPCommand d; Npos (encode (CosignersThreshold d))];
   Cosigners d; Byte.to_N <$> OriginalMessage d; Byte.to_N <$> AdditionalFixedMessage d].

Lemma byte_to_N_inj : Inj (=) (=) Byte.to_N.
Proof.
  intros x y Heq. apply (f_equal Byte.of_N) in Heq. rewrite !Byte.of_to_N in Heq. congruence.
Qed.

Lemma fixed_numbers_inj : Inj (=) (=) fixed_numbers.
Proof.
  intros [] [] [= -> -> Hts Hre -> -> Hct -> Hom Ham].
  apply (inj encode) in Hts, Hre, Hct. apply (list_fmap_eq_inj Byte.to_N byte_to_N_inj) in Hom, Ham.
  by subst.
Qed.

(** Vote hashes by simple arithmetic mixing: enough to tell votes apart. *)
Definition instruction_lib : InstructionLib := {|
  HashFixed d := Ok (Npos (encode (fixed_numbers d)));
  InitialVoteHash d := Ok (InstructionID d + 7)%N;
  NextVoteHash h seq sig avm ts := ((h * 31 + Z.to_N seq + N.of_nat (length sig) + 1)%N, None);
  Keccak256Hash b := N.of_nat (length b);
  json_Marshal_DataFixed d := Ok [];
  RecoverSigner i chainID := Ok 1%N
|}.

Lemma instruction_laws : @InstructionLaws instruction_lib.
Proof. by constructor. Qed.

Lemma instruction_hash_inj : @InstructionHashInj instruction_lib.
Proof.
  constructor. intros d d' h. cbn. intros [= <-] [= Heq].
  apply (inj encode) in Heq. by apply (inj _ _ _ (Inj := fixed_numbers_inj)) in Heq.
Qed.

(** Three providers of weights 40, 35 and 25. *)
Definition policy : SigningPolicy :=
  mkPolicy 5 50 [1%N; 2%N; 3%N] (<[1%N := 40]> (<[2%N := 35]> (<[3%N := 25]> ∅))) 100 [].

Lemma policy_ok : policy_wf policy.
Proof.
  constructor.
  - intros a. cbn. rewrite !lookup_insert_is_Some', lookup_empty. set_unfold.
    split; [intros [->|[->|[->|[]]]]; auto|].
    intros [->|[->|[->|H]]]; auto. by apply is_Some_None in H.
  - reflexivity.
  - intros a w. cbn. rewrite !lookup_insert_Some, lookup_empty. naive_solver lia.
  - reflexivity.
  - cbn; lia.
  - cbn; lia.
  - cbn; lia.
Qed.

End Demo.
