(* ===== verification/Cyclic.v ===== *)
(** The cyclic buffer of go-flare-common ([storage.Cyclic]), used for the
    voting rounds and the policies: an interface, what the proxy relies on, and
    a concrete instance that shows the laws can hold. *)

From S2P Require Import Prelude.

(** A buffer of [cyclic_size] slots; a value stored under key [k] occupies slot
    [k mod size] and is found under exactly the key it was stored with, until
    another value takes the slot. *)
Class CyclicLib : Type := {
  Cyclic : Type -> Type;
  cyclic_New {V} : Z -> Cyclic V;
  cyclic_Get {V} : Cyclic V -> Z -> option V;
  cyclic_Store {V} : Cyclic V -> Z -> V -> Cyclic V;
  cyclic_Size {V} : Cyclic V -> Z
}.

Class CyclicLaws `{CyclicLib} : Prop := {
  cyclic_Size_New {V} n : 0 < n -> cyclic_Size (cyclic_New (V := V) n) = n;
  cyclic_Size_Store {V} (c : Cyclic V) k v : cyclic_Size (cyclic_Store c k v) = cyclic_Size c;
  cyclic_Get_New {V} n k : cyclic_Get (cyclic_New (V := V) n) k = None;
  cyclic_Get_Store {V} (c : Cyclic V) k v k' :
    0 < cyclic_Size c -> 0 <= k -> 0 <= k' ->
    cyclic_Get (cyclic_Store c k v) k'
    = if decide (k' mod cyclic_Size c = k mod cyclic_Size c)
      then if decide (k' = k) then Some v else None
      else cyclic_Get c k'
}.

Section Facts.
Context `{CyclicLaws}.

Lemma cyclic_Get_Store_eq {V} (c : Cyclic V) k v :
  0 < cyclic_Size c -> 0 <= k -> cyclic_Get (cyclic_Store c k v) k = Some v.
Proof. intros. rewrite cyclic_Get_Store by done. by rewrite !decide_True by done. Qed.

Lemma cyclic_Get_Store_Some {V} (c : Cyclic V) k v k' w :
  0 < cyclic_Size c -> 0 <= k -> 0 <= k' ->
  cyclic_Get (cyclic_Store c k v) k' = Some w ->
  k' = k /\ w = v \/ k' <> k /\ cyclic_Get c k' = Some w.
Proof.
  intros ???. rewrite cyclic_Get_Store by done. repeat case_decide; naive_solver.
Qed.
End Facts.

(** ** An instance *)

Module DemoCyclic.

Record cyclic (V : Type) : Type := mkCyclic { size_of : Z; slots : gmap Z (Z * V) }.
Arguments mkCyclic {V}. Arguments size_of {V}. Arguments slots {V}.

#[export] Instance cyclic_lib : CyclicLib := {|
  Cyclic := cyclic;
  cyclic_New V n := mkCyclic n ∅;
  cyclic_Get V c k :=
    match slots c !! (k mod size_of c) with
    | Some (k', v) => if decide (k' = k) then Some v else None
    | None => None
    end;
  cyclic_Store V c k v := mkCyclic (size_of c) (<[k mod size_of c := (k, v)]> (slots c));
  cyclic_Size V c := size_of c
|}.

#[export] Instance cyclic_laws : CyclicLaws.
Proof.
  constructor; try done.
  intros V c k v k' Hs Hk Hk'. cbn in *. case_decide as Hm.
  - rewrite Hm, lookup_insert_eq. repeat case_decide; congruence.
  - by rewrite lookup_insert_ne by congruence.
Qed.

End DemoCyclic.
