(* ===== verification/Config.v ===== *)
(** Configuration ([pkg/config]): the sections of the configuration file, their
    defaults, their validation and [Read]; code hashes and the private key.  The
    TOML decoder, the environment and the configurations of the database and the
    logger are parameters.  [Read] is shown to accept exactly the well-formed
    configurations, and to report the first violated rule of a table. *)

From S2P Require Import Prelude Hex.
From Stdlib Require Import SpecFloat.

Module Config.

(** ** Constants and errors *)

Definition minute : Z := 60 * second.
Definition hour : Z := 60 * minute.

Definition DefaultPrivateKeyVariable : string := "PRIVATE_KEY".
Definition DefaultDirectAPIKeyVariable : string := "DIRECT_API_KEY".
Definition defaultInitialInfoTimeout : Z := 5 * minute.
Definition defaultCycleInternal : Z := 10 * second.
Definition defaultCycleQueueResponseWait : Z := 30 * second.
Definition defaultInfoMaxAttempts : Z := 3.
Definition defaultInfoRetryDelay : Z := 5 * second.
Definition defaultSigningPolicyFetchInterval : Z := 10 * minute.
Definition defaultMachinePathListFetchInterval : Z := 10 * minute.
Definition defaultProposalExpiration : Z := 120 * second.
Definition defaultMaxPendingRequests : Z := 100.
Definition defaultVotingHistorySize : Z := 3.
Definition defaultFinalizedBufferSize : Z := 10.
Definition defaultDBSyncMaxSleepTime : Z := 10 * minute.
Definition defaultActionTTL : Z := 14 * 24 * hour.
Definition defaultResultTTL : Z := 14 * 24 * hour.
Definition defaultSubmitResultTTL : Z := 30 * minute.
Definition defaultBackupTTL : Z := 8 * 24 * hour.

Definition errSigningPolicyFetchIntervalPositive : error := sentinel "errSigningPolicyFetchIntervalPositive".
Definition errMachinePathListFetchIntervalPositive : error := sentinel "errMachinePathListFetchIntervalPositive".
Definition errFlareSystemsManagerAddressNotSet : error := sentinel "errFlareSystemsManagerAddressNotSet".
Definition errRelayAddressNotSet : error := sentinel "errRelayAddressNotSet".
Definition errVoterRegistryAddressNotSet : error := sentinel "errVoterRegistryAddressNotSet".
Definition errInternalPortNotSet : error := sentinel "errInternalPortNotSet".
Definition errExternalPortNotSet : error := sentinel "errExternalPortNotSet".
Definition errProposalExpirationPositive : error := sentinel "errProposalExpirationPositive".
Definition errMaxPendingRequestsPositive : error := sentinel "errMaxPendingRequestsPositive".
Definition errHistorySizeTooSmall : error := sentinel "errHistorySizeTooSmall".
Definition errFinalizedBufferSizePositive : error := sentinel "errFinalizedBufferSizePositive".
Definition errMaxProviderVoteOutOfRange : error := sentinel "errMaxProviderVoteOutOfRange".
Definition errInvalidPrivateKeyString : error := sentinel "errInvalidPrivateKeyString".
Definition errDirectAPIKeyNotSet : error := sentinel "errDirectAPIKeyNotSet".
Definition errStorageTTLPositive : error := sentinel "errStorageTTLPositive".
Definition errAttestationCodeHashInvalid : error := sentinel "errAttestationCodeHashInvalid".
Definition errAttestationMaxTokenAgeNegative : error := sentinel "errAttestationMaxTokenAgeNegative".
Definition errDirectMaxBodySizeNegative : error := sentinel "errDirectMaxBodySizeNegative".
Definition errGCSBucketNotSet : error := sentinel "errGCSBucketNotSet".
Definition errGCSURLWithCredentials : error := sentinel "errGCSURLWithCredentials".
Definition errGovernanceIncomplete : error := sentinel "errGovernanceIncomplete".
Definition errGovernanceThresholdTooHigh : error := sentinel "errGovernanceThresholdTooHigh".
Definition errGovernanceZeroSigner : error := sentinel "errGovernanceZeroSigner".
Definition errGovernanceSafePairing : error := sentinel "errGovernanceSafePairing".
Definition errGovernanceWithoutManager : error := sentinel "errGovernanceWithoutManager".
Definition errMetricsNoGroups : error := sentinel "errMetricsNoGroups".
Definition errInvalidInfoTiming : error := sentinel "errInvalidInfoTiming".
(** [errors.New("chain ID must be a positive integer")], built on the spot. *)
Definition err_chain_id : error := errorf [].

(** ** Sections of the file *)

Record Voting : Type := mkVoting {
  ProposalExpiration : Z;       (* time.Duration *)
  MaxPendingRequests : Z;       (* uint *)
  HistorySize : Z;              (* int *)
  FinalizedBufferSize : Z;      (* int *)
  MaxProviderVote : spec_float
}.

Record GCS : Type := mkGCS {
  Bucket : string;
  gcs_Prefix : string;
  URL : string;
  CredentialsFile : string
}.
#[export] Instance GCS_eq_dec : EqDecision GCS.
Proof. solve_decision. Defined.

Record Attestation : Type := mkAttestation {
  att_Enable : bool;
  Audience : string;
  ExpectedCodeHashes : list string;
  ExpectedPlatforms : list string;
  ExpectedDebugStatuses : list string;
  MaxTokenAge : Z;              (* time.Duration *)
  RequireSecBoot : bool;
  AllowMagicPass : bool
}.

Record Storage : Type := mkStorage {
  ActionTTL : Z;
  ResultTTL : Z;
  SubmitResultTTL : Z;
  BackupTTL : Z
}.

(** A group is a [*bool]; [None] is nil. *)
Record Metrics : Type := mkMetrics {
  met_Enable : bool;
  met_HTTP : option bool;
  met_Storage : option bool;
  met_Queue : option bool;
  met_Voting : option bool;
  met_ActiveVoters : option bool;
  met_Result : option bool;
  met_Wallet : option bool;
  met_Info : option bool;
  met_Attestation : option bool;
  met_Policy : option bool;
  met_Liveness : option bool;
  met_Node : option bool;
  met_Runtime : option bool
}.

Record Direct : Type := mkDirect {
  dir_Enable : bool;
  APIKey : string;
  APIKeyVariable : string;
  APIKeyOptional : bool;
  MaxBodySize : Z               (* int64 *)
}.

Record Addresses : Type := mkAddresses {
  FlareSystemsManager : Address;
  Relay : Address;
  VoterRegistry : Address;
  MachinePathManager : Address
}.

Record Governance : Type := mkGovernance {
  Signers : list Address;
  gov_Threshold : Z;            (* uint64 *)
  Safe : Address;
  TeeManager : Address
}.

Record Ports : Type := mkPorts { Internal : string; External : string }.

Record InfoTiming : Type := mkInfoTiming {
  Initial : Z;
  CycleInternal : Z;
  CycleQueueResponseWait : Z;
  MaxAttempts : Z;
  RetryDelay : Z
}.

(** [database.Config] and [logger.Config]. *)
Class ConfigLib : Type := {
  DBConfig : Type;
  LoggerConfig : Type;
  zero_DBConfig : DBConfig;
  logger_DefaultConfig : LoggerConfig
}.

Record Proxy `{ConfigLib} : Type := mkProxy {
  DB : DBConfig;
  RedisPort : string;
  gcs : GCS;
  ChainID : Z;                  (* uint64 *)
  addresses : Addresses;
  governance : Governance;
  ports : Ports;
  infoTiming : InfoTiming;
  voting : Voting;
  PrivateKeyVariable : string;
  SigningPolicyFetchInterval : Z;
  MachinePathListFetchInterval : Z;
  DBSyncMaxSleepTime : Z;
  Logging : LoggerConfig;
  direct : Direct;
  storage : Storage;
  attestation : Attestation;
  metrics : Metrics
}.
Arguments mkProxy {_}.

(** ** Validation *)

Definition GCS_validate (g : GCS) : res unit :=
  if decide (g <> mkGCS "" "" "" "" /\ Bucket g = ""%string) then Fail errGCSBucketNotSet
  else if decide (URL g <> ""%string /\ CredentialsFile g <> ""%string) then Fail errGCSURLWithCredentials
  else Ok tt.

(** The switch on the prefix at the start of [parseCodeHash]. *)
Definition code_hash_body (s : string) : string :=
  if HasPrefix s "sha256:" then str_drop 7 s
  else if HasPrefix s "0x" || HasPrefix s "0X" then str_drop 2 s
  else s.

Definition parseCodeHash (s : string) : res Hash :=
  b ← hex_DecodeString (code_hash_body s);
  if decide (length b <> HashLength) then Fail (errorf [])
  else Ok (BytesToHash b).

(** The parse error is printed with [%v], not wrapped. *)
Fixpoint check_code_hashes (l : list string) : res unit :=
  match l with
  | [] => Ok tt
  | h :: l =>
      match parseCodeHash h with
      | Fail _ => Fail (errorf [errAttestationCodeHashInvalid])
      | Ok _ => check_code_hashes l
      | Panic => Panic
      end
  end.
Definition Attestation_validate (a : Attestation) : res unit :=
  if decide (MaxTokenAge a < 0) then Fail errAttestationMaxTokenAgeNegative
  else check_code_hashes (ExpectedCodeHashes a).

Fixpoint parse_hashes (l : list string) : res (list Hash) :=
  match l with
  | [] => Ok []
  | h :: l => parsed ← wrap (parseCodeHash h); out ← parse_hashes l; Ok (parsed :: out)
  end.
Definition ParsedCodeHashes (a : Attestation) : res (list Hash) := parse_hashes (ExpectedCodeHashes a).

Definition Storage_SetDefault (s : Storage) : Storage :=
  mkStorage (if decide (ActionTTL s <= 0) then defaultActionTTL else ActionTTL s)
            (if decide (ResultTTL s <= 0) then defaultResultTTL else ResultTTL s)
            (if decide (SubmitResultTTL s <= 0) then defaultSubmitResultTTL else SubmitResultTTL s)
            (if decide (BackupTTL s <= 0) then defaultBackupTTL else BackupTTL s).

Definition Storage_validate (s : Storage) : res unit :=
  if decide (ActionTTL s <= 0 \/ ResultTTL s <= 0 \/ SubmitResultTTL s <= 0 \/ BackupTTL s <= 0)
  then Fail errStorageTTLPositive else Ok tt.

Definition metric_groups (m : Metrics) : list (option bool) :=
  [met_HTTP m; met_Storage m; met_Queue m; met_Voting m; met_ActiveVoters m; met_Result m;
   met_Wallet m; met_Info m; met_Attestation m; met_Policy m; met_Liveness m; met_Node m;
   met_Runtime m].
Fixpoint some_group (l : list (option bool)) : res unit :=
  match l with
  | [] => Fail errMetricsNoGroups
  | g :: l => match g with None | Some true => Ok tt | Some false => some_group l end
  end.
Definition Metrics_validate (m : Metrics) : res unit :=
  if negb (met_Enable m) then Ok tt else some_group (metric_groups m).

Definition Addresses_validate (a : Addresses) : res unit :=
  if decide (FlareSystemsManager a = zero_address) then Fail errFlareSystemsManagerAddressNotSet
  else if decide (Relay a = zero_address) then Fail errRelayAddressNotSet
  else if decide (VoterRegistry a = zero_address) then Fail errVoterRegistryAddressNotSet
  else Ok tt.

Definition IsSet (g : Governance) : bool :=
  bool_decide (0 < zlen (Signers g) \/ gov_Threshold g <> 0 \/ Safe g <> zero_address
               \/ TeeManager g <> zero_address).
Definition SafeBacked (g : Governance) : bool := bool_decide (Safe g <> zero_address).

Definition Governance_validate (g : Governance) : res unit :=
  if negb (IsSet g) then Ok tt
  else if decide (zlen (Signers g) = 0 \/ gov_Threshold g = 0) then Fail errGovernanceIncomplete
  else if decide (gov_Threshold g > zlen (Signers g)) then Fail errGovernanceThresholdTooHigh
  else if decide (zero_address ∈ Signers g) then Fail errGovernanceZeroSigner
  else if decide (bool_decide (Safe g = zero_address) <> bool_decide (TeeManager g = zero_address))
       then Fail errGovernanceSafePairing
  else Ok tt.

Definition Ports_validate (a : Ports) : res unit :=
  if decide (Internal a = ""%string) then Fail errInternalPortNotSet
  else if decide (External a = ""%string) then Fail errExternalPortNotSet
  else Ok tt.

Definition InfoTiming_validate (st : InfoTiming) : res unit :=
  if decide (Initial st < 0 \/ CycleInternal st <= 0 \/ CycleQueueResponseWait st <= 0)
  then Fail errInvalidInfoTiming
  else if decide (MaxAttempts st < 1 \/ RetryDelay st <= 0) then Fail errInvalidInfoTiming
  else Ok tt.

(** The constants [0] and [1] of binary64. *)
Definition f64_0 : spec_float := S754_zero false.
Definition f64_1 : spec_float := binary_normalize 53 1024 1 0 false.

(** [SetDefault] on a pointer, nil for [None]. *)
Definition Voting_SetDefault (v : option Voting) : Voting :=
  let v := default (mkVoting 0 0 0 0 f64_0) v in
  mkVoting (if decide (ProposalExpiration v <= 0) then defaultProposalExpiration else ProposalExpiration v)
           (if decide (MaxPendingRequests v = 0) then defaultMaxPendingRequests else MaxPendingRequests v)
           (if decide (HistorySize v <= 1) then defaultVotingHistorySize else HistorySize v)
           (if decide (FinalizedBufferSize v <= 0) then defaultFinalizedBufferSize else FinalizedBufferSize v)
           (MaxProviderVote v).

Definition Voting_validate (v : Voting) : res unit :=
  if decide (ProposalExpiration v <= 0) then Fail errProposalExpirationPositive
  else if decide (MaxPendingRequests v = 0) then Fail errMaxPendingRequestsPositive
  else if decide (HistorySize v <= 1) then Fail errHistorySizeTooSmall
  else if decide (FinalizedBufferSize v <= 0) then Fail errFinalizedBufferSizePositive
  else if SFltb (MaxProviderVote v) f64_0 || SFltb f64_1 (MaxProviderVote v)
       then Fail errMaxProviderVoteOutOfRange
  else Ok tt.

(** ** Reading the file *)

Section Read.
Context `{ConfigLib}.
(** [toml.ReadTo] fills the configuration with what the file sets, and keeps what it
    filled in when it fails; [os.LookupEnv]. *)
Variable ReadTo : string -> Proxy -> stateful Proxy unit.
Variable LookupEnv : string -> option string.

Definition resolveDirectAPIKey (variableName fallback : string) : string :=
  let variableName := if decide (variableName = ""%string) then DefaultDirectAPIKeyVariable else variableName in
  match LookupEnv variableName with
  | Some v => if decide (v <> ""%string) then v else fallback
  | None => fallback
  end.

(** The configuration [Read] starts from. *)
Definition default_Proxy : Proxy :=
  mkProxy zero_DBConfig "" (mkGCS "" "" "" "") 0 (mkAddresses 0 0 0 0)%N (mkGovernance [] 0 0%N 0%N)
    (mkPorts "" "")
    (mkInfoTiming defaultInitialInfoTimeout defaultCycleInternal defaultCycleQueueResponseWait
       defaultInfoMaxAttempts defaultInfoRetryDelay)
    (mkVoting defaultProposalExpiration defaultMaxPendingRequests defaultVotingHistorySize
       defaultFinalizedBufferSize f64_0)
    "" defaultSigningPolicyFetchInterval defaultMachinePathListFetchInterval defaultDBSyncMaxSleepTime
    logger_DefaultConfig (mkDirect false "" "" false 0)
    (mkStorage defaultActionTTL defaultResultTTL defaultSubmitResultTTL defaultBackupTTL)
    (mkAttestation false "" [] [] [] 0 false false)
    (mkMetrics false None None None None None None None None None None None None None).

Definition set_APIKey (c : Proxy) (k : string) : Proxy :=
  let d := direct c in
  mkProxy (DB c) (RedisPort c) (gcs c) (ChainID c) (addresses c) (governance c) (ports c) (infoTiming c)
    (voting c) (PrivateKeyVariable c) (SigningPolicyFetchInterval c) (MachinePathListFetchInterval c)
    (DBSyncMaxSleepTime c) (Logging c)
    (mkDirect (dir_Enable d) k (APIKeyVariable d) (APIKeyOptional d) (MaxBodySize d))
    (storage c) (attestation c) (metrics c).

(** [c.Direct.Enable && !c.Direct.APIKeyOptional]. *)
Definition needs_key (c : Proxy) : bool := dir_Enable (direct c) && negb (APIKeyOptional (direct c)).
Definition resolve_key (c : Proxy) : Proxy :=
  if needs_key c
  then set_APIKey c (resolveDirectAPIKey (APIKeyVariable (direct c)) (APIKey (direct c)))
  else c.

(** A check that leaves the configuration alone. *)
Definition check (c : Proxy) (m : res unit) : stateful Proxy unit := (c, m).
Definition require (P : Prop) `{Decision P} (e : error) : res unit := if decide P then Ok tt else Fail e.

Definition Read (path : string) : stateful Proxy unit :=
  let* (c, _u) := ReadTo path default_Proxy in
  let* (c, _u) := check c (require (ChainID c <> 0) err_chain_id) in
  let* (c, _u) := check c (Voting_validate (voting c)) in
  let* (c, _u) := check c (Addresses_validate (addresses c)) in
  let* (c, _u) := check c (Governance_validate (governance c)) in
  let* (c, _u) := check c (require (~ (IsSet (governance c) = true
                      /\ MachinePathManager (addresses c) = zero_address)) errGovernanceWithoutManager) in
  let* (c, _u) := check c (Ports_validate (ports c)) in
  let* (c, _u) := check c (InfoTiming_validate (infoTiming c)) in
  let* (c, _u) := check c (require (~ SigningPolicyFetchInterval c <= 0) errSigningPolicyFetchIntervalPositive) in
  let* (c, _u) := check c (require (~ MachinePathListFetchInterval c <= 0) errMachinePathListFetchIntervalPositive) in
  let* (c, _u) := check c (Storage_validate (storage c)) in
  let* (c, _u) := check c (GCS_validate (gcs c)) in
  let* (c, _u) := check c (require (~ MaxBodySize (direct c) < 0) errDirectMaxBodySizeNegative) in
  let* (c, _u) := (let c' := resolve_key c in
                   check c' (require (~ (needs_key c = true /\ APIKey (direct c') = ""%string))
                               errDirectAPIKeyNotSet)) in
  let* (c, _u) := check c (Attestation_validate (attestation c)) in
  check c (Metrics_validate (metrics c)).

(** [PrivateKeyFromEnv]; [crypto.ToECDSA] is a parameter. *)
Definition PrivateKeyFromEnv {K} (ToECDSA : bytes -> res K) (variableName : string) : res K :=
  let variableName := if decide (variableName = ""%string) then DefaultPrivateKeyVariable else variableName in
  match LookupEnv variableName with
  | None => Fail (errorf [])
  | Some skStr =>
      let skStr := CutPrefix skStr "0x" in
      let skStr := CutPrefix skStr "0X" in
      let skStr := if decide (Nat.modulo (String.length skStr) 2 <> O) then "0" +:+ skStr else skStr in
      match hex_DecodeString skStr with
      | Fail _ => Fail errInvalidPrivateKeyString
      | Panic => Panic
      | Ok skB => ToECDSA skB
      end
  end.

Lemma parseCodeHash_no_panic s : parseCodeHash s <> Panic.
Proof.
  unfold parseCodeHash. pose proof (hex_Decode_no_panic (String.list_ascii_of_string (code_hash_body s))) as Hd.
  fold (hex_DecodeString (code_hash_body s)) in Hd.
  destruct (hex_DecodeString (code_hash_body s)); cbn; [by case_decide|done..].
Qed.

(** ** Well-formed configurations *)

(** The largest share is 0 or in (0, 1], which no NaN is. *)
Definition share_wf (x : spec_float) : Prop := SFleb f64_0 x = true /\ SFleb x f64_1 = true.

Record voting_wf (v : Voting) : Prop := {
  vw_expiration : 0 < ProposalExpiration v;
  vw_pending : MaxPendingRequests v <> 0;
  vw_history : 2 <= HistorySize v;
  vw_buffer : 1 <= FinalizedBufferSize v;
  vw_share : share_wf (MaxProviderVote v)
}.

(** Either nothing is set, or there are non-zero signers, a threshold they can reach,
    and a Safe exactly when there is a manager of TEEs. *)
Definition governance_wf (g : Governance) : Prop :=
  g = mkGovernance [] 0 zero_address zero_address \/
  (Signers g <> [] /\ gov_Threshold g <> 0 /\ gov_Threshold g <= zlen (Signers g) /\ zero_address ∉ Signers g
   /\ (Safe g = zero_address <-> TeeManager g = zero_address)).

Definition timing_wf (t : InfoTiming) : Prop :=
  0 <= Initial t /\ 0 < CycleInternal t /\ 0 < CycleQueueResponseWait t /\ 1 <= MaxAttempts t /\ 0 < RetryDelay t.
Definition storage_wf (s : Storage) : Prop :=
  0 < ActionTTL s /\ 0 < ResultTTL s /\ 0 < SubmitResultTTL s /\ 0 < BackupTTL s.
Definition gcs_wf (g : GCS) : Prop :=
  (Bucket g = ""%string -> g = mkGCS "" "" "" "") /\ (URL g = ""%string \/ CredentialsFile g = ""%string).
Definition attestation_wf (a : Attestation) : Prop :=
  0 <= MaxTokenAge a /\ exists hs, ParsedCodeHashes a = Ok hs.
Definition metrics_wf (m : Metrics) : Prop :=
  met_Enable m = true ->
  met_HTTP m <> Some false \/ met_Storage m <> Some false \/ met_Queue m <> Some false \/ met_Voting m <> Some false \/
  met_ActiveVoters m <> Some false \/ met_Result m <> Some false \/ met_Wallet m <> Some false \/
  met_Info m <> Some false \/ met_Attestation m <> Some false \/ met_Policy m <> Some false \/
  met_Liveness m <> Some false \/ met_Node m <> Some false \/ met_Runtime m <> Some false.

Record proxy_wf (c : Proxy) : Prop := {
  pw_chain : ChainID c <> 0;
  pw_voting : voting_wf (voting c);
  pw_addresses : FlareSystemsManager (addresses c) <> zero_address
    /\ Relay (addresses c) <> zero_address /\ VoterRegistry (addresses c) <> zero_address;
  pw_governance : governance_wf (governance c);
  pw_manager : IsSet (governance c) = true -> MachinePathManager (addresses c) <> zero_address;
  pw_ports : Internal (ports c) <> ""%string /\ External (ports c) <> ""%string;
  pw_timing : timing_wf (infoTiming c);
  pw_policy_interval : 0 < SigningPolicyFetchInterval c;
  pw_path_interval : 0 < MachinePathListFetchInterval c;
  pw_storage : storage_wf (storage c);
  pw_gcs : gcs_wf (gcs c);
  pw_body : 0 <= MaxBodySize (direct c);
  pw_key : dir_Enable (direct c) = true -> APIKeyOptional (direct c) = false -> APIKey (direct c) <> ""%string;
  pw_attestation : attestation_wf (attestation c);
  pw_metrics : metrics_wf (metrics c)
}.

(** A decoded configuration with the API key in force: where the endpoint needs one, that
    of the environment, unless it is not set or empty, and else that of the file. *)
Definition with_key (d c : Proxy) : Prop :=
  exists k, c = set_APIKey d k /\
  (if dir_Enable (direct d) && negb (APIKeyOptional (direct d)) then
     let name := match APIKeyVariable (direct d) with EmptyString => "DIRECT_API_KEY"%string | n => n end in
     (LookupEnv name = Some k /\ k <> ""%string) \/
     ((LookupEnv name = None \/ LookupEnv name = Some ""%string) /\ k = APIKey (direct d))
   else k = APIKey (direct d)).

(** What [Read] lets through: a well-formed configuration, or one that would be but for a
    share that is not a number, of which every comparison is false. *)
Definition set_share (c : Proxy) (x : spec_float) : Proxy :=
  let v := voting c in
  mkProxy (DB c) (RedisPort c) (gcs c) (ChainID c) (addresses c) (governance c) (ports c) (infoTiming c)
    (mkVoting (ProposalExpiration v) (MaxPendingRequests v) (HistorySize v) (FinalizedBufferSize v) x)
    (PrivateKeyVariable c) (SigningPolicyFetchInterval c) (MachinePathListFetchInterval c)
    (DBSyncMaxSleepTime c) (Logging c) (direct c) (storage c) (attestation c) (metrics c).
Definition accepted (c : Proxy) : Prop :=
  proxy_wf c \/ (MaxProviderVote (voting c) = S754_nan /\ proxy_wf (set_share c f64_0)).

(** ** Validation as a table of rules *)

(** A rule is whether it is violated, and the error that says so. *)
Abbreviation rule := (bool * error)%type (only parsing).
Fixpoint first_violation (l : list rule) : res unit :=
  match l with
  | [] => Ok tt
  | (violated, e) :: l => if violated : bool then Fail e else first_violation l
  end.

Definition voting_rules (v : Voting) : list rule :=
  [(bool_decide (ProposalExpiration v <= 0), errProposalExpirationPositive);
   (bool_decide (MaxPendingRequests v = 0), errMaxPendingRequestsPositive);
   (bool_decide (HistorySize v <= 1), errHistorySizeTooSmall);
   (bool_decide (FinalizedBufferSize v <= 0), errFinalizedBufferSizePositive);
   (SFltb (MaxProviderVote v) f64_0 || SFltb f64_1 (MaxProviderVote v), errMaxProviderVoteOutOfRange)].
Definition addresses_rules (a : Addresses) : list rule :=
  [(bool_decide (FlareSystemsManager a = zero_address), errFlareSystemsManagerAddressNotSet);
   (bool_decide (Relay a = zero_address), errRelayAddressNotSet);
   (bool_decide (VoterRegistry a = zero_address), errVoterRegistryAddressNotSet)].
Definition governance_rules (g : Governance) : list rule :=
  (fun r : rule => (IsSet g && r.1, r.2)) <$>
  [(bool_decide (zlen (Signers g) = 0 \/ gov_Threshold g = 0), errGovernanceIncomplete);
   (bool_decide (gov_Threshold g > zlen (Signers g)), errGovernanceThresholdTooHigh);
   (bool_decide (zero_address ∈ Signers g), errGovernanceZeroSigner);
   (bool_decide (bool_decide (Safe g = zero_address) <> bool_decide (TeeManager g = zero_address)),
    errGovernanceSafePairing)].
Definition ports_rules (p : Ports) : list rule :=
  [(bool_decide (Internal p = ""%string), errInternalPortNotSet);
   (bool_decide (External p = ""%string), errExternalPortNotSet)].
Definition timing_rules (t : InfoTiming) : list rule :=
  [(bool_decide (~ timing_wf t), errInvalidInfoTiming)].
Definition storage_rules (s : Storage) : list rule :=
  [(bool_decide (~ storage_wf s), errStorageTTLPositive)].
Definition gcs_rules (g : GCS) : list rule :=
  [(bool_decide (g <> mkGCS "" "" "" "" /\ Bucket g = ""%string), errGCSBucketNotSet);
   (bool_decide (URL g <> ""%string /\ CredentialsFile g <> ""%string), errGCSURLWithCredentials)].
Definition attestation_rules (a : Attestation) : list rule :=
  (bool_decide (MaxTokenAge a < 0), errAttestationMaxTokenAgeNegative) ::
  ((fun h => (negb (is_ok (parseCodeHash h)), errorf [errAttestationCodeHashInvalid]))
     <$> ExpectedCodeHashes a).
Definition metrics_rules (m : Metrics) : list rule :=
  [(met_Enable m && forallb (fun g => bool_decide (g = Some false)) (metric_groups m), errMetricsNoGroups)].

Definition proxy_rules (c : Proxy) : list rule :=
  [(bool_decide (ChainID c = 0), err_chain_id)]
  ++ voting_rules (voting c) ++ addresses_rules (addresses c) ++ governance_rules (governance c)
  ++ [(IsSet (governance c) && bool_decide (MachinePathManager (addresses c) = zero_address),
       errGovernanceWithoutManager)]
  ++ ports_rules (ports c) ++ timing_rules (infoTiming c)
  ++ [(bool_decide (SigningPolicyFetchInterval c <= 0), errSigningPolicyFetchIntervalPositive)]
  ++ [(bool_decide (MachinePathListFetchInterval c <= 0), errMachinePathListFetchIntervalPositive)]
  ++ storage_rules (storage c) ++ gcs_rules (gcs c)
  ++ [(bool_decide (MaxBodySize (direct c) < 0), errDirectMaxBodySizeNegative)]
  ++ [(needs_key c && bool_decide (APIKey (direct c) = ""%string), errDirectAPIKeyNotSet)]
  ++ attestation_rules (attestation c) ++ metrics_rules (metrics c).

Lemma first_violation_app l k :
  first_violation (l ++ k) = (_ ← first_violation l; first_violation k).
Proof. induction l as [|[[] e] l IH]; cbn; [by destruct (first_violation k) as [[]| |]|done|exact IH]. Qed.

Lemma first_violation_ok l : first_violation l = Ok tt <-> Forall (fun r : rule => r.1 = false) l.
Proof.
  induction l as [|[v e] l IH]; cbn; [done|]. rewrite Forall_cons, <- IH. cbn. by destruct v; naive_solver.
Qed.

(** One [if violated { return err }] of the code is one rule. *)
Lemma rule_if P `{Decision P} e m l :
  m = first_violation l -> (if decide P then Fail e else m) = first_violation ((bool_decide P, e) :: l).
Proof. intros ->. cbn. by repeat case_decide || case_bool_decide. Qed.
Lemma rule_if_bool (b : bool) e m l :
  m = first_violation l -> (if b then Fail e else m) = first_violation ((b, e) :: l).
Proof. by intros ->. Qed.
Lemma rule_require P `{Decision P} e b :
  b = negb (bool_decide P) -> require P e = first_violation [(b, e)].
Proof. intros ->. unfold require. cbn. by repeat case_decide || case_bool_decide. Qed.
Ltac by_rules := repeat first [apply rule_if | apply rule_if_bool]; try reflexivity.

Lemma Voting_rules_ok v : Voting_validate v = first_violation (voting_rules v).
Proof. by_rules. Qed.
Lemma Addresses_rules_ok a : Addresses_validate a = first_violation (addresses_rules a).
Proof. by_rules. Qed.
Lemma Governance_rules_ok g : Governance_validate g = first_violation (governance_rules g).
Proof.
  unfold Governance_validate, governance_rules. destruct (IsSet g); cbn [negb andb fmap list_fmap fst snd].
  - by_rules.
  - done.
Qed.
Lemma Ports_rules_ok p : Ports_validate p = first_violation (ports_rules p).
Proof. by_rules. Qed.
Lemma InfoTiming_rules_ok t : InfoTiming_validate t = first_violation (timing_rules t).
Proof.
  unfold InfoTiming_validate, timing_rules, timing_wf. cbn.
  case_bool_decide; repeat case_decide; done || lia.
Qed.
Lemma Storage_rules_ok s : Storage_validate s = first_violation (storage_rules s).
Proof.
  unfold Storage_validate, storage_rules, storage_wf. cbn.
  case_bool_decide; repeat case_decide; done || lia.
Qed.
Lemma GCS_rules_ok g : GCS_validate g = first_violation (gcs_rules g).
Proof. by_rules. Qed.
Lemma Attestation_rules_ok a : Attestation_validate a = first_violation (attestation_rules a).
Proof.
  apply rule_if. induction (ExpectedCodeHashes a) as [|h l IH]; [done|]. cbn.
  pose proof (parseCodeHash_no_panic h). by destruct (parseCodeHash h); cbn.
Qed.
Lemma Metrics_rules_ok m : Metrics_validate m = first_violation (metrics_rules m).
Proof.
  unfold Metrics_validate, metrics_rules. destruct (met_Enable m); [|done]. cbn [negb andb first_violation].
  induction (metric_groups m) as [|g l IH]; [done|]. cbn [some_group forallb].
  destruct g as [[]|]; cbn; [done|exact IH|done].
Qed.

(** ** Reading is applying the table *)

Lemma bind_ext {A B} (m m' : res A) (k k' : A -> res B) :
  m = m' -> (forall a, k a = k' a) -> m ≫= k = m' ≫= k'.
Proof. intros -> Hk. destruct m'; cbn; auto. Qed.
Lemma negb_bool_decide_not P `{Decision P} : negb (bool_decide (~ P)) = bool_decide P.
Proof. by repeat case_bool_decide. Qed.

Lemma check_snd c m (k : Proxy -> unit -> stateful Proxy unit) :
  (sbind (check c m) k).2 = (_ ← m; (k c tt).2).
Proof. by destruct m as [[]| |]. Qed.
Lemma check_fst c m (k : Proxy -> unit -> stateful Proxy unit) :
  (sbind (check c m) k).2 = Ok tt -> (sbind (check c m) k).1 = (k c tt).1.
Proof. by destruct m as [[]| |]. Qed.

(** Resolving the key changes nothing but the key. *)
Lemma resolve_key_same c :
  let c' := resolve_key c in
  ChainID c' = ChainID c /\ voting c' = voting c /\ addresses c' = addresses c /\ governance c' = governance c
  /\ ports c' = ports c /\ infoTiming c' = infoTiming c
  /\ SigningPolicyFetchInterval c' = SigningPolicyFetchInterval c
  /\ MachinePathListFetchInterval c' = MachinePathListFetchInterval c
  /\ storage c' = storage c /\ gcs c' = gcs c /\ MaxBodySize (direct c') = MaxBodySize (direct c)
  /\ needs_key c' = needs_key c /\ attestation c' = attestation c /\ metrics c' = metrics c.
Proof. unfold resolve_key. destruct (needs_key c) eqn:Hk; cbn; by split_and!. Qed.

Lemma Read_rules path d :
  ReadTo path default_Proxy = (d, Ok tt) ->
  (Read path).2 = first_violation (proxy_rules (resolve_key d)).
Proof.
  intros Hread. unfold Read. rewrite Hread. cbn [sbind].
  pose proof (resolve_key_same d) as Hsame. cbn zeta in Hsame.
  destruct Hsame as (E1 & E2 & E3 & E4 & E5 & E6 & E7 & E8 & E9 & E10 & E11 & E12 & E13 & E14).
  unfold proxy_rules. rewrite E1, E2, E3, E4, E5, E6, E7, E8, E9, E10, E11, E12, E13, E14.
  repeat rewrite first_violation_app.
  rewrite <- Voting_rules_ok, <- Addresses_rules_ok, <- Governance_rules_ok, <- Ports_rules_ok,
    <- InfoTiming_rules_ok, <- Storage_rules_ok, <- GCS_rules_ok, <- Attestation_rules_ok, <- Metrics_rules_ok.
  repeat rewrite check_snd. rewrite E13, E14.
  repeat (apply bind_ext; [|intros []]); try reflexivity; apply rule_require; rewrite ?negb_bool_decide_not; try done.
  all: destruct (IsSet (governance d)), (needs_key d); cbn; repeat case_bool_decide; tauto.
Qed.

Lemma Read_fst path d :
  ReadTo path default_Proxy = (d, Ok tt) -> (Read path).2 = Ok tt -> (Read path).1 = resolve_key d.
Proof.
  intros Hread. unfold Read. rewrite Hread. cbn [sbind].
  repeat (let Hok := fresh in intros Hok; rewrite check_fst by done; rewrite check_snd in Hok;
          apply res_bind_ok in Hok as ([] & _ & Hok); revert Hok).
  done.
Qed.

Lemma Read_unread path : (ReadTo path default_Proxy).2 <> Ok tt -> Read path = ReadTo path default_Proxy.
Proof. unfold Read. by destruct (ReadTo path default_Proxy) as [d [[]| |]]. Qed.

(** ** The rules say what a well-formed configuration is *)

Abbreviation passes := (Forall (fun r : rule => r.1 = false)).

Ltac by_wf := rewrite ?Forall_cons, ?Forall_nil; cbn [fst]; rewrite ?bool_decide_eq_false.

(** A float that is a number is not less exactly if it is at least. *)
Lemma SFcompare_swap x y : SFcompare y x = CompOpp <$> SFcompare x y.
Proof.
  destruct x as [[]|[]| |[] m e], y as [[]|[]| |[] n f]; cbn; try reflexivity;
    rewrite (Z.compare_antisym e f); destruct (e ?= f); cbn; try reflexivity;
    change (Pos.compare_cont Eq n m) with (n ?= m)%positive; change (Pos.compare_cont Eq m n) with (m ?= n)%positive;
    rewrite (Pos.compare_antisym m n); by destruct (m ?= n)%positive.
Qed.
Lemma SFcompare_number x y : x <> S754_nan -> y <> S754_nan -> is_Some (SFcompare x y).
Proof. destruct x, y; try done; by eexists. Qed.
Lemma SFltb_SFleb x y : x <> S754_nan -> y <> S754_nan -> SFltb x y = false <-> SFleb y x = true.
Proof.
  intros Hx Hy. unfold SFltb, SFleb. rewrite (SFcompare_swap x y).
  destruct (SFcompare_number x y Hx Hy) as [c ->]. by destruct c.
Qed.

Lemma share_wf_number x : share_wf x -> x <> S754_nan.
Proof. intros [Hx _] ->. discriminate Hx. Qed.

Lemma voting_wf_rules v : MaxProviderVote v <> S754_nan -> voting_wf v <-> passes (voting_rules v).
Proof.
  intros Hnan. unfold voting_rules. by_wf. rewrite orb_false_iff, !SFltb_SFleb by done. split.
  - intros [? ? ? ? []]. split_and!; done || lia.
  - intros (? & ? & ? & ? & [? ?] & _). split; try done; lia.
Qed.

Lemma IsSet_false g : IsSet g = false <-> g = mkGovernance [] 0 zero_address zero_address.
Proof.
  destruct g as [l t f m]. unfold IsSet. rewrite bool_decide_eq_false. cbn. split.
  - intros Hn. destruct l; [|exfalso; apply Hn; left; rewrite zlen_cons; pose proof (zlen_nonneg l); lia].
    destruct (decide (t = 0)) as [->|]; [|tauto].
    destruct (decide (f = zero_address)) as [->|]; [|tauto].
    destruct (decide (m = zero_address)) as [->|]; [done|tauto].
  - by intros [= -> -> -> ->] [?|[?|[?|?]]].
Qed.

Lemma zlen_0 {A} (l : list A) : zlen l = 0 <-> l = [].
Proof. destruct l; [done|]. rewrite zlen_cons. pose proof (zlen_nonneg l). split; [lia|done]. Qed.

Lemma governance_wf_rules g : governance_wf g <-> passes (governance_rules g).
Proof.
  unfold governance_wf, governance_rules. rewrite <- IsSet_false.
  destruct (IsSet g); cbn [fmap list_fmap andb fst snd]; by_wf; [|by split; [|left]].
  rewrite zlen_0.
  assert (~ bool_decide (Safe g = zero_address) <> bool_decide (TeeManager g = zero_address)
          <-> (Safe g = zero_address <-> TeeManager g = zero_address)) as ->
    by (repeat case_bool_decide; naive_solver).
  split; [intros [?|?]; [done|]|intros ?; right]; intuition (done || lia).
Qed.

Lemma attestation_wf_rules a : attestation_wf a <-> passes (attestation_rules a).
Proof.
  unfold attestation_wf, attestation_rules, ParsedCodeHashes. by_wf.
  apply Morphisms_Prop.and_iff_morphism; [lia|]. rewrite Forall_fmap.
  induction (ExpectedCodeHashes a) as [|h l IH]; cbn; [split; eauto|].
  rewrite Forall_cons, <- IH. cbn. pose proof (parseCodeHash_no_panic h) as Hp.
  destruct (parseCodeHash h) as [k| |]; cbn; [|naive_solver..].
  destruct (parse_hashes l) as [ks| |]; cbn; naive_solver.
Qed.

Lemma metrics_wf_groups m : metrics_wf m <-> (met_Enable m = true -> Exists (fun g => g <> Some false) (metric_groups m)).
Proof. unfold metrics_wf, metric_groups. rewrite !Exists_cons, Exists_nil. tauto. Qed.

Lemma metrics_wf_rules m : metrics_wf m <-> passes (metrics_rules m).
Proof.
  rewrite metrics_wf_groups. unfold metrics_rules. by_wf. destruct (met_Enable m); cbn [andb]; [|naive_solver].
  rewrite <- not_true_iff_false, forallb_forall. split.
  - intros Hg. specialize (Hg eq_refl). split; [|done]. intros Hall. apply Exists_exists in Hg as (g & Hin & Hg).
    rewrite list_elem_of_In in Hin. apply Hall in Hin. by apply bool_decide_eq_true in Hin.
  - intros [Hn _] _. apply dec_stable. intros Hex. apply not_Exists_Forall in Hex; [|solve_decision].
    apply Hn. intros g Hin. rewrite Forall_forall in Hex. rewrite <- list_elem_of_In in Hin. apply Hex in Hin. cbn in Hin.
    apply bool_decide_eq_true. by apply dec_stable.
Qed.

Lemma gcs_wf_rules g : gcs_wf g <-> passes (gcs_rules g).
Proof.
  unfold gcs_wf, gcs_rules. by_wf.
  destruct (decide (g = mkGCS "" "" "" "")), (decide (Bucket g = ""%string)),
    (decide (URL g = ""%string)), (decide (CredentialsFile g = ""%string)); tauto.
Qed.

Lemma true_imp_or (b : bool) P : b = false \/ P <-> (b = true -> P).
Proof. destruct b; split; try done; [intros [|]; done|auto|auto]. Qed.

Lemma needs_key_true c : needs_key c = true <-> dir_Enable (direct c) = true /\ APIKeyOptional (direct c) = false.
Proof. unfold needs_key. by rewrite andb_true_iff, negb_true_iff. Qed.

Lemma proxy_wf_rules c : MaxProviderVote (voting c) <> S754_nan -> proxy_wf c <-> passes (proxy_rules c).
Proof.
  intros Hnan. unfold proxy_rules. rewrite !Forall_app, <- voting_wf_rules by done. rewrite <- governance_wf_rules, <- attestation_wf_rules,
    <- metrics_wf_rules, <- gcs_wf_rules.
  unfold addresses_rules, ports_rules, timing_rules, storage_rules. by_wf.
  rewrite !andb_false_iff, !bool_decide_eq_false, !true_imp_or, needs_key_true. split.
  - intros [? ? (? & ? & ?) ? ? [? ?] ? ? ? ? ? ? ? ? ?]. split_and!; try done; lia || naive_solver.
  - intros ([? _] & ? & (? & ? & ? & _) & ? & [? _] & (? & ? & _) & [? _] & [? _] & [? _] & [? _] & ? & [? _] & [? _] & ? & ?).
    split; try lia; try done; try (apply dec_stable; assumption). intros Hen Hopt. auto.

Qed.

Lemma accepted_rules c : accepted c <-> passes (proxy_rules c).
Proof.
  assert (Hcase : MaxProviderVote (voting c) = S754_nan \/ MaxProviderVote (voting c) <> S754_nan)
    by (destruct (MaxProviderVote (voting c)); first [by left | by right]).
  unfold accepted. destruct Hcase as [Hnan|Hnan].
  - rewrite (proxy_wf_rules (set_share c f64_0)) by done.
    assert (Hsame : passes (proxy_rules (set_share c f64_0)) <-> passes (proxy_rules c)).
    { unfold proxy_rules. rewrite !Forall_app. unfold voting_rules. cbn [voting set_share MaxProviderVote]. rewrite Hnan.
      cbn [ProposalExpiration MaxPendingRequests HistorySize FinalizedBufferSize]. by_wf. done. }
    rewrite Hsame. split; [|by right]. intros [Hwf|[_ ?]]; [|done]. exfalso. by apply (share_wf_number _ (vw_share _ (pw_voting _ Hwf))).
  - rewrite <- proxy_wf_rules by done. split; [|by left]. by intros [?|[? _]].
Qed.

Lemma accepted_history c : accepted c -> 2 <= HistorySize (voting c).
Proof. intros [Hwf|[_ Hwf]]; exact (vw_history _ (pw_voting _ Hwf)). Qed.
Lemma accepted_manager c : accepted c -> IsSet (governance c) = true -> MachinePathManager (addresses c) <> zero_address.
Proof. intros [Hwf|[_ Hwf]]; exact (pw_manager _ Hwf). Qed.

Lemma resolve_with_key d c : with_key d c <-> c = resolve_key d.
Proof.
  assert (Hid : set_APIKey d (APIKey (direct d)) = d) by (destruct d as [????????????? ? []]; reflexivity).
  unfold with_key, resolve_key, needs_key. destruct (_ && _).
  - unfold resolveDirectAPIKey, DefaultDirectAPIKeyVariable. cbn zeta.
    assert (Hname : match APIKeyVariable (direct d) with EmptyString => "DIRECT_API_KEY"%string | n => n end =
      (if decide (APIKeyVariable (direct d) = ""%string) then "DIRECT_API_KEY"%string else APIKeyVariable (direct d)))
      by (destruct (APIKeyVariable (direct d)); by case_decide).
    rewrite Hname. generalize (if decide (APIKeyVariable (direct d) = ""%string) then "DIRECT_API_KEY"%string
      else APIKeyVariable (direct d)). clear Hname. intros name. split.
    + intros (k & -> & [[-> Hk]|[[->| ->] ->]]); [by rewrite decide_True|done|by rewrite decide_False by tauto].
    + intros ->. eexists. split; [reflexivity|]. destruct (LookupEnv name) as [v|]; [|by right; split; [left|]].
      case_decide as Hv; [by left|]. subst v. right. by split; [right|].
  - split; [by intros (k & -> & ->)|]. intros ->. by eexists.
Qed.

(** ** Properties *)

Lemma Read_ok_accepted path c : Read path = (c, Ok tt) -> accepted c.
Proof.
  intros Hr. rewrite accepted_rules, <- first_violation_ok.
  destruct (ReadTo path default_Proxy) as [d [[]|e|]] eqn:Hd.
  - pose proof (Read_fst path d Hd) as Hfst. pose proof (Read_rules path d Hd) as Hrules.
    rewrite Hr in Hfst, Hrules. cbn in *. specialize (Hfst eq_refl) as ->. by rewrite <- Hrules.
  - rewrite Read_unread, Hd in Hr by by rewrite Hd. done.
  - rewrite Read_unread, Hd in Hr by by rewrite Hd. done.
Qed.

(** C34: [Read] succeeds exactly when the file can be decoded and the configuration
    is well formed (positive times and limits, addresses set, a governance whose
    threshold its signers can reach and that has a list manager, code hashes that all
    decode, an API key where one is needed, a metrics group to serve), or would be but for
    a largest share that is not a number, which slips through the comparisons of the
    validation although it is documented to be 0 or in (0, 1].  The configuration it
    returns is the decoded one with the API key in force, the environment's before the
    file's where the endpoint needs one. *)
Theorem Read_accepts path c :
  Read path = (c, Ok tt) <->
  exists d, ReadTo path default_Proxy = (d, Ok tt) /\ with_key d c /\
    (proxy_wf c \/ (MaxProviderVote (voting c) = S754_nan /\ proxy_wf (set_share c f64_0))).
Proof.
  setoid_rewrite resolve_with_key. fold (accepted c). setoid_rewrite accepted_rules.
  setoid_rewrite <- first_violation_ok. split.
  - intros Hr. destruct (ReadTo path default_Proxy) as [d [[]|e|]] eqn:Hd.
    + exists d. pose proof (Read_fst path d Hd) as Hfst. pose proof (Read_rules path d Hd) as Hrules.
      rewrite Hr in Hfst, Hrules. cbn in *. specialize (Hfst eq_refl) as ->. by rewrite <- Hrules.
    + rewrite Read_unread, Hd in Hr by by rewrite Hd. done.
    + rewrite Read_unread, Hd in Hr by by rewrite Hd. done.
  - intros (d & Hd & -> & Hrules). rewrite <- (Read_rules path d Hd) in Hrules.
    rewrite <- (Read_fst path d Hd) by done. destruct (Read path). cbn in *. by subst.
Qed.

(** A decoded configuration that is rejected is rejected with the error of the
    first violated rule of the table, in the order of the sections; a file that
    cannot be decoded, with the decoder's error. *)
Theorem Read_reports_first path :
  (Read path).2 = match ReadTo path default_Proxy with
                  | (d, Ok _) => first_violation (proxy_rules (resolve_key d))
                  | (_, r) => r
                  end.
Proof.
  destruct (ReadTo path default_Proxy) as [d [[]|e|]] eqn:Hd; [by apply Read_rules|..].
  all: by rewrite Read_unread; rewrite Hd.
Qed.

(** ** Defaults *)

(** [SetDefault] leaves no section that validation would reject: the result has
    positive limits, a setting that was already usable is kept, applying it again
    changes nothing, and a nil pointer gives the defaults of [Read]. *)
Theorem SetDefault_valid (v : option Voting) (s : Storage) :
  let w := Voting_SetDefault v in
  (SFltb (MaxProviderVote w) f64_0 || SFltb f64_1 (MaxProviderVote w) = false -> Voting_validate w = Ok tt) /\
  (forall u, v = Some u -> voting_wf u -> w = u) /\
  Voting_SetDefault (Some w) = w /\
  Voting_SetDefault None = voting default_Proxy /\
  Storage_validate (Storage_SetDefault s) = Ok tt /\
  (storage_wf s -> Storage_SetDefault s = s) /\
  Storage_SetDefault (Storage_SetDefault s) = Storage_SetDefault s /\
  Storage_SetDefault (mkStorage 0 0 0 0) = storage default_Proxy.
Proof.
  set (d := default (mkVoting 0 0 0 0 f64_0) v).
  assert (Hw : Voting_SetDefault v = Voting_SetDefault (Some d)) by (by destruct v).
  cbn zeta. rewrite Hw. clear Hw.
  assert (Hgood : let w := Voting_SetDefault (Some d) in
    0 < ProposalExpiration w /\ MaxPendingRequests w <> 0 /\ 2 <= HistorySize w /\ 1 <= FinalizedBufferSize w).
  { cbn. unfold defaultProposalExpiration, defaultMaxPendingRequests, defaultVotingHistorySize,
      defaultFinalizedBufferSize, second. repeat case_decide; lia. }
  assert (Hkeep : forall u, 0 < ProposalExpiration u /\ MaxPendingRequests u <> 0 /\ 2 <= HistorySize u
            /\ 1 <= FinalizedBufferSize u -> Voting_SetDefault (Some u) = u).
  { intros [] (? & ? & ? & ?). cbn in *. unfold Voting_SetDefault. cbn. by repeat rewrite decide_False by lia. }
  assert (Hs : storage_wf (Storage_SetDefault s)).
  { unfold storage_wf, Storage_SetDefault, defaultActionTTL, defaultResultTTL, defaultSubmitResultTTL,
      defaultBackupTTL, hour, minute, second. cbn -[Z.mul]. repeat case_decide; lia. }
  assert (Hskeep : forall t, storage_wf t -> Storage_SetDefault t = t).
  { intros [] (? & ? & ? & ?). cbn in *. unfold Storage_SetDefault. cbn. by repeat rewrite decide_False by lia. }
  split_and!; auto.
  - intros Hshare. rewrite Voting_rules_ok, first_violation_ok. unfold voting_rules. by_wf.
    destruct Hgood as (? & ? & ? & ?). split_and!; done || lia.
  - intros u -> [? ? ? ? _]. apply Hkeep. split_and!; lia || done.
  - rewrite Storage_rules_ok, first_violation_ok. unfold storage_rules. by_wf. split; [tauto|done].
Qed.

End Read.

(** ** Code hashes *)

(** The prefixes a code hash may have. *)
Definition code_hash_prefixes : list string := [""; "sha256:"; "0x"; "0X"]%string.

Lemma code_hash_body_of p t : p ∈ code_hash_prefixes -> all_hex t -> code_hash_body (p +:+ t) = t.
Proof.
  intros Hp Ht. unfold code_hash_body. unfold code_hash_prefixes in Hp. set_unfold in Hp.
  destruct Hp as [->|[->|[->|[->|[]]]]].
  - change ("" +:+ t) with t. by rewrite !(all_hex_prefix t) by (done || not_hex).
  - by rewrite HasPrefix_app.
  - by rewrite HasPrefix_app.
  - rewrite HasPrefix_app, orb_true_r. by destruct t.
Qed.

Lemma code_hash_body_inv s : exists p, p ∈ code_hash_prefixes /\ s = p +:+ code_hash_body s.
Proof.
  unfold code_hash_body, code_hash_prefixes.
  destruct (HasPrefix s "sha256:") eqn:H1; [|destruct (HasPrefix s "0x") eqn:H2;
    [|destruct (HasPrefix s "0X") eqn:H3]].
  - exists "sha256:"%string. split; [set_solver|by apply HasPrefix_inv in H1].
  - exists "0x"%string. split; [set_solver|by apply HasPrefix_inv in H2].
  - exists "0X"%string. split; [set_solver|by apply HasPrefix_inv in H3].
  - exists ""%string. split; [set_solver|done].
Qed.

(** A code hash printed in hexadecimal is read back, bare or after one of the
    prefixes; what is accepted is a prefix followed by 64 hexadecimal digits, so two
    prefixes are rejected. *)
Theorem parseCodeHash_correct (s : string) :
  (forall h p, hash_ok h -> p ∈ code_hash_prefixes ->
     parseCodeHash (p +:+ hex_EncodeToString (hash_bytes h)) = Ok h) /\
  (forall h, parseCodeHash s = Ok h ->
     hash_ok h /\ exists p body, p ∈ code_hash_prefixes /\ s = p +:+ body /\ all_hex body
                                 /\ String.length body = 64%nat) /\
  is_ok (parseCodeHash ("sha256:0x" +:+ s)) = false.
Proof.
  split_and!.
  - intros h p Hh Hp. unfold parseCodeHash.
    rewrite code_hash_body_of by (done || apply hex_digit_all). rewrite hex_roundtrip. cbn [mbind res_bind].
    rewrite decide_False by (unfold hash_bytes; rewrite be_bytes_length; tauto). f_equal.
    by apply BytesToHash_hash_bytes.
  - intros h (b & Hb & Hlen)%res_bind_ok. case_decide as Hl; [done|]. injection Hlen as <-.
    split.
    + unfold hash_ok, BytesToHash. rewrite Hl, Nat.sub_diag. cbn [drop].
      pose proof (bytes_be_bound b) as Hbound. by rewrite Hl in Hbound.
    + destruct (code_hash_body_inv s) as (p & Hp & Hs). exists p, (code_hash_body s).
      apply hex_DecodeString_all_hex in Hb as [? Hlen]. rewrite Hl in Hlen. done.
  - unfold parseCodeHash. change ("sha256:0x" +:+ s) with ("sha256:" +:+ ("0x" +:+ s)).
    unfold code_hash_body. rewrite HasPrefix_app. change 7%nat with (String.length "sha256:").
    rewrite str_drop_app. destruct (hex_DecodeString ("0x" +:+ s)) as [b| |] eqn:Hb; [|done..].
    apply hex_DecodeString_all_hex in Hb as [Hb _]. unfold all_hex in Hb.
    rewrite list_ascii_app in Hb. apply Forall_app in Hb as [Hb _]. exfalso. revert Hb. not_hex.
Qed.

(** ** The private key *)

(** The key of the environment is accepted only as 63 or 64 hexadecimal digits,
    after at most one of each prefix, and is the 32 bytes these digits encode: the
    padding makes up for one missing digit and no more.  [ToECDSA] takes 32 bytes
    only, as documented. *)
Theorem PrivateKeyFromEnv_correct {K} LookupEnv (ToECDSA : bytes -> res K) (name : string) (k : K)
    (strict : forall b k, ToECDSA b = Ok k -> length b = 32%nat) :
  PrivateKeyFromEnv LookupEnv ToECDSA name = Ok k ->
  exists value p digits b,
    LookupEnv (if decide (name = ""%string) then "PRIVATE_KEY"%string else name) = Some value /\
    p ∈ [""; "0x"; "0X"; "0x0X"]%string /\ value = p +:+ digits /\ all_hex digits /\
    String.length digits ∈ [63; 64]%nat /\ ToECDSA b = Ok k /\
    hex_DecodeString (if decide (String.length digits = 63)%nat then "0" +:+ digits else digits) = Ok b.
Proof.
  unfold PrivateKeyFromEnv. fold DefaultPrivateKeyVariable.
  destruct (LookupEnv (if decide (name = ""%string) then DefaultPrivateKeyVariable else name)) as [value|]; [|done].
  set (s1 := CutPrefix value "0x"). set (digits := CutPrefix s1 "0X").
  assert (Hp : exists p, p ∈ [""; "0x"; "0X"; "0x0X"]%string /\ value = p +:+ digits).
  { destruct (CutPrefix_inv value "0x") as [E1|E1], (CutPrefix_inv s1 "0X") as [E2|E2];
      fold s1 in E1; fold digits in E2; rewrite E1, E2.
    - exists ""%string. split; [set_solver|done].
    - exists "0X"%string. split; [set_solver|done].
    - exists "0x"%string. split; [set_solver|done].
    - exists "0x0X"%string. split; [set_solver|done]. }
  destruct Hp as (p & Hp & Hvalue). clearbody digits. clear s1.
  match goal with |- context [hex_DecodeString ?x] => destruct (hex_DecodeString x) as [b| |] eqn:Hb end; [|done..].
  intros Hk. exists value, p, digits, b. pose proof (strict b k Hk) as Hlen.
  pose proof (hex_DecodeString_all_hex _ _ Hb) as [Hhex Hl]. rewrite Hlen in Hl.
  case_decide as Hodd.
  - unfold all_hex in Hhex. rewrite list_ascii_app in Hhex. apply Forall_app in Hhex as [_ Hhex].
    rewrite <- list_ascii_length, list_ascii_app, length_app, !list_ascii_length in Hl.
    assert (Hlen63 : String.length digits = 63%nat) by (change (String.length "0") with 1%nat in Hl; lia).
    rewrite Hlen63, decide_True by done. split_and!; try done. set_solver.
  - assert (Hlen64 : String.length digits = 64%nat) by lia. rewrite Hlen64, decide_False by lia.
    split_and!; try done. set_solver.
Qed.

Module DemoConfig.
#[local] Instance lib : ConfigLib := {| DBConfig := unit; LoggerConfig := unit; zero_DBConfig := tt; logger_DefaultConfig := tt |}.

Definition key_text : string := "0xabcdef0123456789abcdef0123456789abcdef0123456789abcdef012345678".
Definition env (name : string) : option string :=
  if decide (name = "PRIVATE_KEY"%string) then Some key_text
  else if decide (name = "DIRECT_API_KEY"%string) then Some "from the environment"%string else None.
Definition to_key (b : bytes) : res bytes := if decide (length b = 32%nat) then Ok b else Fail (errorf []).

(** A file that sets the addresses, the ports, a governance and the direct endpoint. *)
Definition file (c : Proxy) : stateful Proxy unit :=
  (mkProxy tt "6379" (gcs c) 14 (mkAddresses 1 2 3 4)%N (mkGovernance [7; 8]%N 2 0%N 0%N) (mkPorts "1" "2")
     (infoTiming c) (voting c) "" (SigningPolicyFetchInterval c) (MachinePathListFetchInterval c)
     (DBSyncMaxSleepTime c) tt (mkDirect true "from the file" "" false 0) (storage c)
     (mkAttestation true "" ["sha256:0101010101010101010101010101010101010101010101010101010101010101"]%string
        [] [] 0 false false) (metrics c), Ok tt).

Lemma PrivateKeyFromEnv_correct_witness :
  exists b digits, String.length digits = 63%nat /\ PrivateKeyFromEnv env to_key "" = Ok b
                   /\ hex_DecodeString ("0" +:+ digits) = Ok b.
Proof.
  destruct (PrivateKeyFromEnv env to_key "") as [b| |] eqn:Hb; [|discriminate Hb..].
  destruct (PrivateKeyFromEnv_correct env to_key "" b) as (v & p & digits & b' & Hv & Hp & Happ & _ & _ & Hk & Hd).
  - intros c k Hk. unfold to_key in Hk. destruct (decide (length c = 32%nat)); [done|discriminate].
  - exact Hb.
  - exists b, (str_drop 2 key_text). split; [reflexivity|split; [reflexivity|]].
    transitivity (PrivateKeyFromEnv env to_key ""); [reflexivity|exact Hb].
Defined.

(** A share that is not a number passes. *)
Definition nan_file (c : Proxy) : stateful Proxy unit := (set_share (file c).1 S754_nan, Ok tt).
Example nan_accepted : (Read (fun _ => nan_file) env "config.toml").2 = Ok tt.
Proof. vm_compute. reflexivity. Qed.

(** The file is accepted, and the environment's key wins. *)
Example file_accepted : exists c, Read (fun _ => file) env "config.toml" = (c, Ok tt)
  /\ APIKey (direct c) = "from the environment"%string.
Proof. eexists. split; [vm_compute; reflexivity|reflexivity]. Qed.
(** Nothing set: the chain is missing first. *)
Example empty_rejected : (Read (fun _ c => (c, Ok tt)) env "config.toml").2 = Fail err_chain_id.
Proof. reflexivity. Qed.
End DemoConfig.

End Config.
