(* ===== verification/Limiter.v ===== *)
(** The per-provider cap on unfinalised proposals
    ([internal/service/instruction/voting/limiter/limiter.go]).  A [Limiter]
    maps each registered provider to its counters; the mutex makes every
    operation atomic, so each is a function on the state. *)

From S2P Require Import Prelude Status.

Module Limiter.

Definition ErrCannotInitialize : error := Status.http_sentinel "limiter.ErrCannotInitialize" 403.
Definition ErrLimitReached : error := Status.http_sentinel "limiter.ErrLimitReached" 429.

Record State : Type := mkState {
  pending : Z;          (* uint *)
  TotalProposed : Z;    (* int *)
  TotalCompleted : Z    (* int *)
}.
#[export] Instance State_eq_dec : EqDecision State.
Proof. solve_decision. Defined.

Definition zero_state : State := mkState 0 0 0.

Record Limiter : Type := mkLimiter {
  counter : gmap Address State;
  maxPendingRequests : Z    (* uint *)
}.

Definition set_counter (l : Limiter) (c : gmap Address State) : Limiter :=
  mkLimiter c (maxPendingRequests l).

(** ** Operations *)

Definition New (voters : list Address) (maxPendingRequests : Z) : Limiter :=
  mkLimiter (foldl (fun c voter => <[voter := zero_state]> c) ∅ voters) maxPendingRequests.

Definition Add (l : Limiter) (address : Address) : Limiter :=
  match counter l !! address with
  | Some _ => l
  | None => set_counter l (<[address := zero_state]> (counter l))
  end.

Definition Increment (l : Limiter) (address : Address) : stateful Limiter unit :=
  match counter l !! address with
  | None => (l, Fail ErrCannotInitialize)
  | Some state =>
      if decide (maxPendingRequests l <= pending state) then (l, Fail ErrLimitReached)
      else
        let state' := mkState (u64 (pending state + 1)) (i64 (TotalProposed state + 1))
                              (TotalCompleted state) in
        (set_counter l (<[address := state']> (counter l)), Ok tt)
  end.

Definition Decrement (l : Limiter) (address : Address) : Limiter :=
  match counter l !! address with
  | None => l
  | Some state =>
      let p := if decide (0 < pending state) then pending state - 1 else pending state in
      let state' := mkState p (TotalProposed state) (i64 (TotalCompleted state + 1)) in
      set_counter l (<[address := state']> (counter l))
  end.

(** [VoterPending], and the order that [SortTopPending] sorts by: pending
    descending, then address ascending. *)
Record VoterPending : Type := mkVP { vp_Address : Address; vp_Pending : Z }.
#[export] Instance VoterPending_eq_dec : EqDecision VoterPending.
Proof. solve_decision. Defined.

(** The [less] function handed to [sort.Slice]. *)
Definition vp_less (a b : VoterPending) : bool :=
  if decide (vp_Pending a <> vp_Pending b) then bool_decide (vp_Pending b < vp_Pending a)
  else bool_decide ((vp_Address a < vp_Address b)%N).

(** [a] may stand before [b] in the sorted slice. *)
Definition vp_le (a b : VoterPending) : Prop := vp_less b a = false.
#[export] Instance vp_le_dec a b : Decision (vp_le a b).
Proof. unfold vp_le. apply _. Defined.

(** [sort.Slice] permutes its argument so that no element is [less] than an
    earlier one; [merge_sort] is one such permutation. *)
Definition SortTopPending (ps : list VoterPending) (n : Z) : list VoterPending :=
  let sorted := merge_sort vp_le ps in
  if decide (0 <= n /\ n < zlen sorted) then take (Z.to_nat n) sorted else sorted.

(** The slice [TopPending] builds from the map visited in the order [order]. *)
Definition pending_voters (order : list (Address * State)) : list VoterPending :=
  omap (fun '(addr, state) =>
          if decide (0 < pending state) then Some (mkVP addr (pending state)) else None) order.

Definition TopPending (l : Limiter) (n : Z) : list VoterPending :=
  SortTopPending (pending_voters (map_to_list (counter l))) n.

(** ** The sorting order is total, so the result is unique *)

Lemma vp_le_spec a b :
  vp_le a b <-> vp_Pending b < vp_Pending a \/
               vp_Pending a = vp_Pending b /\ (vp_Address a <= vp_Address b)%N.
Proof. unfold vp_le, vp_less. repeat case_decide; rewrite bool_decide_eq_false; lia. Qed.

#[export] Instance vp_le_total : Total vp_le.
Proof. intros a b. rewrite !vp_le_spec. lia. Qed.
#[export] Instance vp_le_trans : Transitive vp_le.
Proof. intros a b c. rewrite !vp_le_spec. lia. Qed.
#[export] Instance vp_le_antisymm : AntiSymm (=) vp_le.
Proof.
  intros [a p] [b q]. rewrite !vp_le_spec. cbn. intros ??.
  assert (a = b) by lia. assert (p = q) by lia. congruence.
Qed.

Lemma SortTopPending_sorted_all ps n : n < 0 -> SortTopPending ps n = merge_sort vp_le ps.
Proof. intros. unfold SortTopPending. rewrite decide_False; [done|lia]. Qed.

(** Whatever algorithm [sort.Slice] uses, its output is [merge_sort]'s. *)
Lemma sort_unique ps sorted :
  sorted ≡ₚ ps -> Sorted vp_le sorted -> merge_sort vp_le ps = sorted.
Proof.
  intros Hp Hs. apply (Sorted_unique vp_le).
  - apply Sorted_merge_sort. apply _.
  - done.
  - by rewrite merge_sort_Permutation, Hp.
Qed.

Lemma elem_of_pending_voters l vp :
  vp ∈ pending_voters (map_to_list (counter l)) <->
  exists st, counter l !! vp_Address vp = Some st /\ 0 < pending st /\ vp_Pending vp = pending st.
Proof.
  unfold pending_voters. rewrite list_elem_of_omap. split.
  - intros ([a st] & Hin%elem_of_map_to_list & Hst). case_decide; simplify_eq. eauto.
  - intros (st & Hl & Hp & Heq). exists (vp_Address vp, st).
    rewrite elem_of_map_to_list. split; [done|].
    rewrite decide_True by done. destruct vp; cbn in *; congruence.
Qed.

(** ** Well-formed limiters *)

(** Every counter is within the cap, and the cap fits Go's [uint]. *)
Definition wf (l : Limiter) : Prop :=
  0 <= maxPendingRequests l < 2 ^ 64 /\
  map_Forall (fun _ st => 0 <= pending st <= maxPendingRequests l) (counter l).

Lemma New_lookup voters mx a :
  counter (New voters mx) !! a = if decide (a ∈ voters) then Some zero_state else None.
Proof.
  unfold New; cbn [counter].
  assert (forall c, foldl (fun c voter => <[voter := zero_state]> c) c voters !! a
            = if decide (a ∈ voters) then Some zero_state else c !! a) as ->; [|done].
  induction voters as [|v vs IH]; intros c; cbn; [done|].
  rewrite IH, lookup_insert. repeat case_decide; set_solver.
Qed.

Lemma New_wf voters mx : 0 <= mx < 2 ^ 64 -> wf (New voters mx).
Proof.
  intros Hm. split; [done|]. intros a st. rewrite New_lookup. case_decide; [|done].
  intros [= <-]. cbn. lia.
Qed.

Lemma Add_wf l a : wf l -> wf (Add l a).
Proof.
  intros [Hm Hw]. unfold Add. destruct (counter l !! a) eqn:Ha; [by split|].
  split; cbn; [done|]. apply map_Forall_insert_2; [cbn; lia|done].
Qed.

Lemma Increment_wf l a : wf l -> wf (Increment l a).1.
Proof.
  intros [Hm Hw]. unfold Increment. destruct (counter l !! a) as [st|] eqn:Ha; [|by split].
  case_decide; [by split|]. split; cbn; [done|].
  apply map_Forall_insert_2; [cbn|done].
  specialize (Hw a st Ha). cbn in Hw. rewrite u64_small by lia. lia.
Qed.

Lemma Decrement_wf l a : wf l -> wf (Decrement l a).
Proof.
  intros [Hm Hw]. unfold Decrement. destruct (counter l !! a) as [st|] eqn:Ha; [|by split].
  split; cbn; [done|]. apply map_Forall_insert_2; [cbn|done].
  specialize (Hw a st Ha). cbn in Hw. case_decide; lia.
Qed.
#[export] Hint Resolve New_wf Add_wf Increment_wf Decrement_wf : proxy.

(** The pending count of an address, [0] for an unregistered one. *)
Definition pending_of (l : Limiter) (a : Address) : Z :=
  default 0 (pending <$> counter l !! a).

Lemma pending_of_bound l a : wf l -> 0 <= pending_of l a <= maxPendingRequests l.
Proof.
  intros [Hm Hw]. unfold pending_of. destruct (counter l !! a) as [st|] eqn:Ha; cbn; [|lia].
  by apply (Hw a).
Qed.

(** [Increment] admits an address exactly when it is registered and below the
    cap, adds one to its count and leaves the others alone; otherwise it
    changes nothing and says why. *)
Lemma Increment_spec l a :
  wf l ->
  match Increment l a with
  | (l', Ok _) =>
      is_Some (counter l !! a) /\ pending_of l a < maxPendingRequests l /\
      maxPendingRequests l' = maxPendingRequests l /\
      dom (counter l') = dom (counter l) /\
      forall b, pending_of l' b = pending_of l b + if decide (b = a) then 1 else 0
  | (l', Fail e) =>
      l' = l /\ (counter l !! a = None /\ e = ErrCannotInitialize \/
                 is_Some (counter l !! a) /\ pending_of l a = maxPendingRequests l /\ e = ErrLimitReached)
  | (_, Panic) => False
  end.
Proof.
  intros Hwf. pose proof (pending_of_bound l a Hwf) as Hb.
  destruct Hwf as [Hm Hw]. unfold Increment, pending_of in *.
  destruct (counter l !! a) as [st|] eqn:Ha; cbn in *; [|by auto].
  case_decide; cbn; [split; [done|right; split_and!; [done|lia|done]]|].
  split_and!; [done|lia|done| |].
  - rewrite dom_insert_L. assert (a ∈ dom (counter l)) by (apply elem_of_dom; by eexists).
    set_solver.
  - intros b. rewrite lookup_insert.
    destruct (decide (a = b)) as [<-|]; [|rewrite (decide_False (P := b = a)) by congruence; lia].
    rewrite Ha, (decide_True (P := a = a)) by done. cbn. rewrite u64_small by lia. lia.
Qed.

Lemma Decrement_spec l a :
  wf l ->
  maxPendingRequests (Decrement l a) = maxPendingRequests l /\
  dom (counter (Decrement l a)) = dom (counter l) /\
  forall b, pending_of (Decrement l a) b
            = if decide (b = a) then Z.max 0 (pending_of l b - 1) else pending_of l b.
Proof.
  intros Hwf. pose proof (pending_of_bound l a Hwf) as Hb.
  destruct Hwf as [Hm Hw]. unfold Decrement, pending_of in *.
  destruct (counter l !! a) as [st|] eqn:Ha; cbn in *.
  - split_and!; [done| |].
    + rewrite dom_insert_L. assert (a ∈ dom (counter l)) by (apply elem_of_dom; by eexists).
      set_solver.
    + intros b. rewrite lookup_insert.
      destruct (decide (a = b)) as [<-|]; [|by rewrite (decide_False (P := b = a)) by congruence].
      rewrite Ha, (decide_True (P := a = a)) by done. cbn. case_decide; lia.
  - split_and!; [done|done|]. intros b. case_decide; [|done]. subst b. by rewrite Ha.
Qed.

(** [TopPending] returns the providers with the most unfinalised
    proposals, whatever order the map is visited in and whatever sorting
    algorithm [sort.Slice] uses: any sorted permutation of the providers with
    a positive count, cut to [n] entries, is its result; it lists at most [n]
    providers (all of them for a negative [n]), each with its own count, and
    a provider it leaves out has no larger count than one it lists. *)
Theorem TopPending_correct l n order sorted :
  order ≡ₚ map_to_list (counter l) ->
  sorted ≡ₚ pending_voters order -> Sorted vp_le sorted ->
  let top := TopPending l n in
  top = (if decide (0 <= n) then take (Z.to_nat n) sorted else sorted) /\
  (forall vp, vp ∈ top -> pending_of l (vp_Address vp) = vp_Pending vp /\ 0 < vp_Pending vp) /\
  (forall vp a, vp ∈ top -> a ∉ (vp_Address <$> top) -> pending_of l a <= vp_Pending vp).
Proof.
  intros Hord Hperm Hsorted top.
  assert (Hmem : forall vp, vp ∈ sorted <->
    exists st, counter l !! vp_Address vp = Some st /\ 0 < pending st /\ vp_Pending vp = pending st).
  { intros vp. rewrite <- elem_of_pending_voters, Hperm. unfold pending_voters.
    by rewrite Hord. }
  assert (Htop : top = if decide (0 <= n) then take (Z.to_nat n) sorted else sorted).
  { unfold top, TopPending, SortTopPending.
    rewrite (sort_unique _ sorted); [| |done].
    - repeat case_decide; try done; try lia.
      rewrite take_ge; [done|]. unfold zlen in *. lia.
    - rewrite Hperm. unfold pending_voters. by rewrite Hord. }
  assert (Hsub : forall vp, vp ∈ top -> vp ∈ sorted).
  { intros vp. rewrite Htop. case_decide; [|done].
    intros [i [Hi _]%lookup_take_Some]%list_elem_of_lookup. by eapply list_elem_of_lookup_2. }
  split; [done|split].
  - intros vp Hvp%Hsub%Hmem. destruct Hvp as (st & Hst & Hpos & Heq).
    unfold pending_of. rewrite Hst. cbn. lia.
  - intros vp a Hvp Ha.
    destruct (decide (0 < pending_of l a)) as [Hpos|];
      [|apply Hsub, Hmem in Hvp as (st & _ & ? & ->); lia].
    assert (exists st, counter l !! a = Some st /\ pending_of l a = pending st) as (st & Hst & Hpa).
    { unfold pending_of in *. destruct (counter l !! a) as [st|]; cbn in *; [eauto|lia]. }
    assert (mkVP a (pending st) ∈ sorted) as Hin by (apply Hmem; cbn; eauto with lia).
    assert (mkVP a (pending st) ∉ top) as Hout.
    { intros Hx. apply Ha. apply list_elem_of_fmap. exists (mkVP a (pending st)). done. }
    rewrite Htop in Hvp, Hout. case_decide; [|done].
    rewrite <- (take_drop (Z.to_nat n) sorted) in Hsorted, Hin.
    apply elem_of_app in Hin as [|Hin]; [done|].
    assert (vp_le vp (mkVP a (pending st))) as Hle.
    { apply (StronglySorted_app_1_elem_of vp_le) with (take (Z.to_nat n) sorted) (drop (Z.to_nat n) sorted); [|done..].
      by apply Sorted_StronglySorted; [apply _|]. }
    apply vp_le_spec in Hle. cbn in Hle. lia.
Qed.

Lemma TopPending_correct_witness :
  let l := mkLimiter (<[1%N := mkState 2 2 0]> (<[2%N := mkState 5 6 1]> ∅)) 10 in
  TopPending l 1 = [mkVP 2%N 5].
Proof.
  intros l.
  destruct (TopPending_correct l 1 (map_to_list (counter l)) [mkVP 2%N 5; mkVP 1%N 2]) as [H _].
  - reflexivity.
  - vm_compute. reflexivity.
  - repeat constructor; by vm_compute.
  - rewrite H. reflexivity.
Defined.

End Limiter.
