(* ===== verification/Constraints.v ===== *)
(** Size limits on incoming instructions
    ([internal/service/instruction/voting/constraints.go]).  The limit for
    restore operations multiplies a binary64 configuration value, which is
    computed with the standard library's specification of IEEE 754. *)

From S2P Require Import Prelude Status Types.
From Stdlib Require Import SpecFloat.

Module Constraints.

Definition kib : Z := Z.shiftl 1 10.
Definition mib : Z := Z.shiftl 1 20.
Definition maxTotalVariableMessage : Z := mib.
Definition maxCosigners : Z := 1024.

Record sizeConstraint : Type := mkSizeConstraint {
  originalMessage : Z;
  additionalFixedMessage : Z;
  additionalVariableMessage : Z
}.

Definition defaultConstraint : sizeConstraint := mkSizeConstraint (50 * kib) (100 * kib) (50 * kib).
Definition noAdditional : sizeConstraint := mkSizeConstraint (50 * kib) 0 0.

Definition errNonInstructionCommand : error := Status.http_sentinel "errNonInstructionCommand" 400.
Definition errTooManyCosigners : error := Status.http_sentinel "errTooManyCosigners" 400.
Definition errOriginalMessageTooBig : error := Status.http_sentinel "errOriginalMessageTooBig" 400.
Definition errAdditionalMessageTooBig : error := Status.http_sentinel "errAdditionalMessageTooBig" 400.
Definition errAdditionalVariableTooBig : error := Status.http_sentinel "errAdditionalVariableTooBig" 400.

(** ** binary64 *)

Abbreviation float64 := spec_float (only parsing).

(** [float64(maxTotalVariableMessage)], and the constants [0] and [1]. *)
Definition f64_mib : float64 := binary_normalize 53 1024 maxTotalVariableMessage 0 false.
Definition f64_zero : float64 := S754_zero false.
Definition f64_one : float64 := binary_normalize 53 1024 1 0 false.

Definition f64_mul : float64 -> float64 -> float64 := SFmul 53 1024.
Definition f64_gt (x y : float64) : bool := SFltb y x.

(** [int(x)]: truncation toward zero.  The result for a NaN, an infinity or a
    value outside int64 is implementation-defined in Go and is [0] here. *)
Definition f64_to_int (x : float64) : Z :=
  match x with
  | S754_finite s m e =>
      let a := if decide (0 <= e) then Z.pos m * 2 ^ e else Z.pos m / 2 ^ (- e) in
      if s then - a else a
  | _ => 0
  end.

(** ** Operations *)

Definition restoreConstraint (maxProviderVote : float64) : sizeConstraint :=
  let variableLimit :=
    if f64_gt maxProviderVote f64_zero then
      let v := f64_to_int (f64_mul f64_mib maxProviderVote) in
      if decide (v = 0) then 1 else v
    else maxTotalVariableMessage in
  mkSizeConstraint (50 * kib) (100 * kib) variableLimit.

Definition constraints `{OpLib} (opCommand : Hash) (maxProviderVote : float64) : res sizeConstraint :=
  match HashToOPCommand opCommand with
  | Some (InitializePolicy | UpdatePolicy | KeyInfo | TEEInfo | TEEBackup) => Fail errNonInstructionCommand
  | Some (KeyDataProviderRestore | KeyDataProviderRestoreTest) => Ok (restoreConstraint maxProviderVote)
  | Some (Pay | Reissue | TEEAttestation | KeyGenerate | KeyDelete) => Ok noAdditional
  | Some Prove => Ok defaultConstraint
  | _ => Ok defaultConstraint
  end.

Definition checkSize `{OpLib} (data : Data) (maxProviderVote : float64) : res unit :=
  c ← constraints (OPCommand data) maxProviderVote;
  if decide (zlen (Cosigners data) > maxCosigners) then Fail errTooManyCosigners
  else if decide (zlen (OriginalMessage data) > originalMessage c) then Fail errOriginalMessageTooBig
  else if decide (zlen (AdditionalFixedMessage data) > additionalFixedMessage c)
    then Fail errAdditionalMessageTooBig
  else if decide (zlen (AdditionalVariableMessage data) > additionalVariableMessage c)
    then Fail errAdditionalVariableTooBig
  else Ok tt.

Lemma checkSize_no_panic `{OpLib} data f : checkSize data f <> Panic.
Proof.
  unfold checkSize. assert (constraints (OPCommand data) f <> Panic) as Hc.
  { unfold constraints. by repeat case_match. }
  destruct (constraints (OPCommand data) f); cbn [mbind res_bind]; repeat case_decide; done.
Qed.

(** ** Multiplying a binary64 by 2^20 is exact *)

Lemma iter_pos_nat {A} (f : A -> A) n x : iter_pos f n x = Nat.iter (Pos.to_nat n) f x.
Proof.
  revert x. induction n as [n IH|n IH|]; intros x; cbn [iter_pos].
  - rewrite !IH, <- !Nat.iter_add, <- Nat.iter_succ_r. f_equal. lia.
  - rewrite !IH, <- Nat.iter_add. f_equal. lia.
  - done.
Qed.

(** [m] shifted left by [k] bits. *)
Definition shl (m : positive) (k : nat) : positive := Nat.iter k xO m.

Lemma shl_value m k : Z.pos (shl m k) = Z.pos m * 2 ^ Z.of_nat k.
Proof.
  induction k as [|k IH]; [cbn; lia|].
  change (shl m (S k)) with (xO (shl m k)).
  rewrite Nat2Z.inj_succ, Z.pow_succ_r by lia. lia.
Qed.

Lemma shl_digits m k : Z.pos (digits2_pos (shl m k)) = Z.pos (digits2_pos m) + Z.of_nat k.
Proof.
  induction k as [|k IH]; [cbn; lia|].
  change (shl m (S k)) with (xO (shl m k)). cbn [digits2_pos]. lia.
Qed.

Lemma shr_shl m n k :
  (n <= k)%nat ->
  Nat.iter n shr_1 (Build_shr_record (Z.pos (shl m k)) false false)
  = Build_shr_record (Z.pos (shl m (k - n))) false false.
Proof.
  intros Hn. induction n as [|n IH].
  - by rewrite Nat.sub_0_r.
  - rewrite Nat.iter_succ, IH by lia.
    replace (k - n)%nat with (S (k - S n)) by lia. reflexivity.
Qed.

Lemma digits2_bound m : 2 ^ (Z.pos (digits2_pos m) - 1) <= Z.pos m < 2 ^ Z.pos (digits2_pos m).
Proof.
  induction m as [m IH|m IH|]; cbn [digits2_pos]; [..|cbn; lia];
    rewrite Pos2Z.inj_succ;
    replace (Z.succ (Z.pos (digits2_pos m)) - 1) with (Z.succ (Z.pos (digits2_pos m) - 1)) by lia;
    rewrite !Z.pow_succ_r by lia; lia.
Qed.

Lemma f64_mul_mib m e :
  valid_binary 53 1024 (S754_finite false m e) = true -> e <= 0 ->
  exists n : nat, (n <= 52)%nat /\
  f64_mul f64_mib (S754_finite false m e)
  = S754_finite false (shl m (52 - n)) (e - 32 + Z.of_nat n).
Proof.
  intros Hb He. unfold valid_binary, bounded, canonical_mantissa in Hb.
  apply andb_true_iff in Hb as [Hc%Z.eqb_eq _].
  pose proof (Pos2Z.is_pos (digits2_pos m)) as Hd.
  assert (Hmib : f64_mib = S754_finite false (shl 1 52) (-32)) by reflexivity.
  unfold f64_mul. rewrite Hmib. cbn [SFmul xorb].
  replace (shl 1 52 * m)%positive with (shl m 52)
    by (apply Pos2Z.inj; rewrite Pos2Z.inj_mul, !shl_value; lia).
  set (n := Z.to_nat (fexp 53 1024 (Z.pos (digits2_pos m) + e + 20) - (e - 32))).
  assert (Hn : Z.of_nat n = fexp 53 1024 (Z.pos (digits2_pos m) + e + 20) - (e - 32) /\ (n <= 52)%nat).
  { unfold n, fexp, emin in *. lia. }
  destruct Hn as [Hn Hn52]. exists n. split; [done|].
  unfold binary_round_aux, shr_fexp. cbn [shr_record_of_loc Zdigits2].
  rewrite shl_digits.
  replace (fexp 53 1024 (Z.pos (digits2_pos m) + Z.of_nat 52 + (-32 + e)) - (-32 + e))
    with (Z.of_nat n) by (rewrite Hn; f_equal; [f_equal; lia|lia]).
  assert (Hshr : shr (Build_shr_record (Z.pos (shl m 52)) false false) (-32 + e) (Z.of_nat n)
            = (Build_shr_record (Z.pos (shl m (52 - n))) false false, e - 32 + Z.of_nat n)).
  { clearbody n. destruct n as [|n'].
    { change (Z.of_nat 0) with 0. unfold shr. f_equal. lia. }
    change (Z.of_nat (S n')) with (Z.pos (Pos.of_succ_nat n')). unfold shr.
    rewrite iter_pos_nat, SuccNat2Pos.id_succ, shr_shl by done.
    f_equal. lia. }
  rewrite Hshr. cbn [loc_of_shr_record round_nearest_even SpecFloat.shr_m Zdigits2].
  rewrite shl_digits.
  replace (fexp 53 1024 (Z.pos (digits2_pos m) + Z.of_nat (52 - n) + (e - 32 + Z.of_nat n))
           - (e - 32 + Z.of_nat n)) with 0.
  2:{ replace (Z.pos (digits2_pos m) + Z.of_nat (52 - n) + (e - 32 + Z.of_nat n))
        with (Z.pos (digits2_pos m) + e + 20) by lia. lia. }
  cbn [shr SpecFloat.shr_m]. rewrite (proj2 (Z.leb_le _ _)); [done|].
  unfold fexp, emin in *. lia.
Qed.

(** The value of a binary64 in (0, 1] times 2^20, rounded down. *)
Lemma variable_limit_exact m e :
  valid_binary 53 1024 (S754_finite false m e) = true -> e <= 0 ->
  f64_to_int (f64_mul f64_mib (S754_finite false m e))
  = if decide (0 <= e + 20) then Z.pos m * 2 ^ (e + 20) else Z.pos m / 2 ^ (- (e + 20)).
Proof.
  intros Hv He. destruct (f64_mul_mib m e Hv He) as (n & Hn & ->). cbn [f64_to_int].
  rewrite shl_value.
  replace (e - 32 + Z.of_nat n) with (e + 20 - Z.of_nat (52 - n)) by lia.
  set (k := Z.of_nat (52 - n)). assert (0 <= k) by lia. clearbody k.
  destruct (decide (0 <= e + 20)) as [He20|He20].
  - case_decide as Hk.
    + rewrite <- Z.mul_assoc, <- Z.pow_add_r by lia. f_equal. f_equal. lia.
    + replace k with (e + 20 + - (e + 20 - k)) at 1 by lia.
      rewrite Z.pow_add_r, Z.mul_assoc by lia. apply Z.div_mul.
      apply Z.pow_nonzero; lia.
  - rewrite decide_False by lia.
    replace (- (e + 20 - k)) with (- (e + 20) + k) by lia.
    rewrite Z.pow_add_r by lia. apply Z.div_mul_cancel_r; apply Z.pow_nonzero; lia.
Qed.

(** The configuration values that validation accepts and that turn the cap on:
    binary64 numbers in (0, 1]. *)
Definition provider_vote_set (f : float64) : Prop :=
  valid_binary 53 1024 f = true /\ f64_gt f f64_zero = true /\ SFleb f f64_one = true.

Lemma provider_vote_set_inv f :
  provider_vote_set f ->
  exists m e, f = S754_finite false m e /\ valid_binary 53 1024 f = true /\
              e <= -52 /\ Z.pos m <= 2 ^ (- e).
Proof.
  intros (Hv & Hpos & Hle).
  destruct f as [[]|[]| |[] m e]; try discriminate Hpos; try discriminate Hle.
  exists m, e. split; [done|split; [done|]].
  assert (Hone : f64_one = S754_finite false (shl 1 52) (-52)) by reflexivity.
  pose proof (digits2_bound m) as [_ Hm].
  unfold valid_binary, bounded, canonical_mantissa in Hv.
  apply andb_true_iff in Hv as [Hc%Z.eqb_eq _].
  assert (Hd : Z.pos (digits2_pos m) <= 53) by (unfold fexp, emin in Hc; lia).
  assert (Hm53 : Z.pos m < 2 ^ 53).
  { eapply Z.lt_le_trans; [exact Hm|]. apply Z.pow_le_mono_r; lia. }
  assert (Hp : Z.pos (shl 1 52) = 2 ^ 52) by reflexivity.
  rewrite Hone in Hle. clear Hone. revert Hp Hle. generalize (shl 1 52). intros p Hp Hle.
  unfold SFleb, SFcompare in Hle. cbv beta iota in Hle.
  destruct (Z.compare_spec e (-52)) as [->|Hlt|Hgt]; [| |discriminate].
  - split; [lia|]. change (- -52) with 52. rewrite <- Hp.
    fold (Pos.compare m p) in Hle.
    destruct (Pos.compare_spec m p) as [->|Hc'|]; [lia|lia|discriminate].
  - split; [lia|]. transitivity (2 ^ 53); [lia|]. apply Z.pow_le_mono_r; lia.
Qed.

(** With a provider vote cap [f] in (0, 1], the limit on the variable
    message of one restore vote is [max 1 (floor (2^20 * f))] computed without
    any rounding error, so it is between one byte and the tee-node's total of
    1 MiB, and the limits of all providers together stay within that total:
    [n] votes of weight share at most [f] each with [n * f <= 1] sum to at
    most 1 MiB as soon as the cap is not below one byte. *)
Theorem restoreConstraint_variable_limit (f : float64) (n : Z) :
  provider_vote_set f ->
  exists m e, f = S754_finite false m e /\ e <= 0 /\
              let limit := additionalVariableMessage (restoreConstraint f) in
  limit = Z.max 1 (Z.pos m * 2 ^ 20 / 2 ^ (- e)) /\
              1 <= limit <= maxTotalVariableMessage /\
              (0 <= n -> n * Z.pos m <= 2 ^ (- e) -> 2 ^ (- e) <= Z.pos m * 2 ^ 20 ->
   n * limit <= maxTotalVariableMessage).
Proof.
  intros Hf. destruct (provider_vote_set_inv f Hf) as (m & e & -> & Hv & He & Hm).
  destruct Hf as (_ & Hpos & _). exists m, e. split; [done|split; [lia|]]. cbn zeta.
  set (q := Z.pos m * 2 ^ 20 / 2 ^ (- e)).
  assert (Hpe : 0 < 2 ^ (- e)) by (apply Z.pow_pos_nonneg; lia).
  assert (Hq : f64_to_int (f64_mul f64_mib (S754_finite false m e)) = q).
  { rewrite variable_limit_exact by (done || lia). rewrite decide_False by lia.
    unfold q. replace (- e) with (- (e + 20) + 20) by lia.
    rewrite Z.pow_add_r by lia. symmetry. apply Z.div_mul_cancel_r; lia. }
  assert (Hq0 : 0 <= q <= 2 ^ 20).
  { unfold q. split; [apply Z.div_pos; lia|].
    apply Z.div_le_upper_bound; [done|]. nia. }
  assert (Hlim : additionalVariableMessage (restoreConstraint (S754_finite false m e)) = Z.max 1 q).
  { unfold restoreConstraint. rewrite Hpos. cbn [additionalVariableMessage].
    rewrite Hq. case_decide; lia. }
  rewrite Hlim. change maxTotalVariableMessage with (2 ^ 20).
  split; [done|split; [lia|]]. intros Hn Hnm Hbig.
  assert (1 <= q) by (unfold q; apply Z.div_le_lower_bound; lia).
  rewrite Z.max_r by lia.
  assert (q * 2 ^ (- e) <= Z.pos m * 2 ^ 20) as Hqle
    by (unfold q; rewrite Z.mul_comm; apply Z.mul_div_le; lia).
  nia.
Qed.

(** One quarter of the weight each: four votes of 256 KiB. *)
Lemma restoreConstraint_variable_limit_witness :
  let f := S754_finite false (shl 1 52) (-54) in
  additionalVariableMessage (restoreConstraint f) = 262144 /\ 4 * 262144 <= maxTotalVariableMessage.
Proof.
  intros f. destruct (restoreConstraint_variable_limit f 4) as (m & e & Hme & He & Hl & _ & Hsum).
  - split_and!; reflexivity.
  - injection Hme as <- <-. rewrite Hl in Hsum. split; [rewrite Hl; reflexivity|].
    apply Hsum; vm_compute; discriminate.
Defined.

End Constraints.
