(* ===== verification/VotingData.v ===== *)
(** State of the voting subsystem: the boxes, their grouping and the rounds
    ([internal/service/instruction/voting/{box,round}.go]), the receipts and
    statuses of [pkg/instruction/voting/voting.go], and the [Meta] interface
    of [pkg/instruction/meta/meta.go] that the voting code calls. *)

From S2P Require Import Prelude Status Types Limiter.

(** ** Receipts and statuses *)

Record Receipt : Type := mkReceipt {
  rcpt_InstructionHash : Hash;
  rcpt_Sequence : Z;
  rcpt_Signature : bytes;
  rcpt_AdditionalVariableMessageHash : Hash;
  rcpt_Timestamp : Z;
  rcpt_VoteHash : Hash
}.

Record BoxStatus : Type := mkBoxStatus {
  st_InstructionHash : Hash;
  st_Finalized : bool;
  st_Deleted : bool;
  st_Start : Z;
  st_End : Z;
  st_Weight : Z;
  st_Voters : list Address;
  st_Threshold : Z;
  st_Cosigners : Z;
  st_CosignersThreshold : Z
}.

Record Statuses : Type := mkStatuses {
  sts_InstructionID : Hash;
  sts_FinalizedHash : Hash;
  sts_Status : list BoxStatus
}.

(** ** Boxes *)

Record proposal : Type := mkProposal {
  instruction : option DataFixed;       (* nil once the box is deleted *)
  threshold : Z;                        (* uint16 *)
  cosigners : gset Address;             (* the keys of the map; all values are true *)
  cosignerThreshold : Z                 (* uint16 *)
}.

Record vote : Type := mkVote {
  Sequence : Z;
  vote_Time : Z;
  vote_Signature : bytes;
  vote_AdditionalVariableMessage : bytes
}.

Record voteBox : Type := mkVoteBox {
  iID : Hash;
  iHash : Hash;
  Proposer : Address;
  box_proposal : proposal;
  votes : option (gmap Address vote);   (* None: the nil map *)
  VoteHash : Hash;
  StartTime : Z;
  EndTime : Z;
  weight : Z;                           (* uint16 *)
  cosignerWeight : Z;                   (* uint16 *)
  Finalized : bool;
  deleted : bool
}.

Record voteBoxes : Type := mkVoteBoxes {
  boxes_M : gmap Hash voteBox;
  FinalizedHash : Hash
}.

(** [votingSync] is the map from instruction identifiers; a [Round] owns it
    together with the policy and the limiter. *)
Record Round : Type := mkRound {
  round_policy : SigningPolicy;
  Voting : gmap Hash voteBoxes;
  round_limiter : Limiter.Limiter;
  providerVoters : option (gset Address);   (* None: voters are not collected *)
  proposers : option (gset Address);
  maxVotingWeight : Z                       (* uint16 *)
}.

Definition set_box_times (b : voteBox) (start end_ : Z) : voteBox :=
  mkVoteBox (iID b) (iHash b) (Proposer b) (box_proposal b) (votes b) (VoteHash b)
    start end_ (weight b) (cosignerWeight b) (Finalized b) (deleted b).
Definition set_box_VoteHash (b : voteBox) (h : Hash) : voteBox :=
  mkVoteBox (iID b) (iHash b) (Proposer b) (box_proposal b) (votes b) h
    (StartTime b) (EndTime b) (weight b) (cosignerWeight b) (Finalized b) (deleted b).
Definition set_box_votes (b : voteBox) (m : gmap Address vote) : voteBox :=
  mkVoteBox (iID b) (iHash b) (Proposer b) (box_proposal b) (Some m) (VoteHash b)
    (StartTime b) (EndTime b) (weight b) (cosignerWeight b) (Finalized b) (deleted b).
Definition set_box_weight (b : voteBox) (w : Z) : voteBox :=
  mkVoteBox (iID b) (iHash b) (Proposer b) (box_proposal b) (votes b) (VoteHash b)
    (StartTime b) (EndTime b) w (cosignerWeight b) (Finalized b) (deleted b).
Definition set_box_cosignerWeight (b : voteBox) (w : Z) : voteBox :=
  mkVoteBox (iID b) (iHash b) (Proposer b) (box_proposal b) (votes b) (VoteHash b)
    (StartTime b) (EndTime b) (weight b) w (Finalized b) (deleted b).
Definition set_box_Finalized (b : voteBox) (f : bool) : voteBox :=
  mkVoteBox (iID b) (iHash b) (Proposer b) (box_proposal b) (votes b) (VoteHash b)
    (StartTime b) (EndTime b) (weight b) (cosignerWeight b) f (deleted b).

Definition set_limiter (r : Round) (l : Limiter.Limiter) : Round :=
  mkRound (round_policy r) (Voting r) l (providerVoters r) (proposers r) (maxVotingWeight r).
Definition set_Voting (r : Round) (v : gmap Hash voteBoxes) : Round :=
  mkRound (round_policy r) v (round_limiter r) (providerVoters r) (proposers r) (maxVotingWeight r).
Definition set_providerVoters (r : Round) (s : option (gset Address)) : Round :=
  mkRound (round_policy r) (Voting r) (round_limiter r) s (proposers r) (maxVotingWeight r).
Definition set_proposers (r : Round) (s : option (gset Address)) : Round :=
  mkRound (round_policy r) (Voting r) (round_limiter r) (providerVoters r) s (maxVotingWeight r).
Definition set_maxVotingWeight (r : Round) (w : Z) : Round :=
  mkRound (round_policy r) (Voting r) (round_limiter r) (providerVoters r) (proposers r) w.

(** ** The [Meta] interface *)

(** Its methods consult the wallet state of the moment, so the voting code is
    given the methods as a value.  [ThresholdBIPS] is [-1] for "no specific
    threshold". *)
Record Meta : Type := mkMeta {
  meta_Cosigners : DataFixed -> res (gset Address * Z);
  meta_CheckConsistency : Data -> Address -> res unit;
  meta_ThresholdBIPS : DataFixed -> res Z
}.

(** What the voting code relies on: the cosigner set is not larger than the
    declared list, whose length the size limits bound, the cosigner threshold
    is a uint64, and a threshold is [-1] or in BIPS. *)
Class MetaLaws (m : Meta) : Prop := {
  meta_Cosigners_size d cs t :
    meta_Cosigners m d = Ok (cs, t) -> Z.of_nat (size cs) <= zlen (Cosigners d) /\ 0 <= t < 2 ^ 64;
  meta_ThresholdBIPS_range d t :
    meta_ThresholdBIPS m d = Ok t -> t = -1 \/ 0 <= t < 10000;
  meta_Cosigners_no_panic d : meta_Cosigners m d <> Panic;
  meta_CheckConsistency_no_panic d a : meta_CheckConsistency m d a <> Panic;
  meta_ThresholdBIPS_no_panic d : meta_ThresholdBIPS m d <> Panic
}.

(** A concrete [Meta], for evaluation: the declared cosigners with the declared
    threshold, and no specific vote threshold. *)
Module DemoMeta.

Definition meta : Meta := {|
  meta_Cosigners d :=
    if decide (0 <= CosignersThreshold d < 2 ^ 64)
    then Ok (list_to_set (Cosigners d), CosignersThreshold d) else Fail (errorf []);
  meta_CheckConsistency d a := Ok tt;
  meta_ThresholdBIPS d := Ok (-1)
|}.

Lemma meta_laws : MetaLaws meta.
Proof.
  constructor; cbn; try done.
  - intros d cs t. case_decide; [|done]. intros [= <- <-]. split; [|done].
    unfold zlen. apply inj_le, size_list_to_set_le.
  - intros d t [= <-]. by left.
  - intros d. by case_decide.
Qed.

End DemoMeta.
