(* ===== verification/Box.v ===== *)
(** One voting process ([internal/service/instruction/voting/box.go]).

    Every method of [voteBox] runs under its lock, so each is a function on the
    box; [addVote] also returns the box when it fails, because it has already
    replaced the vote hash then.  Clock readings are arguments. *)

From S2P Require Import Prelude Status Types Limiter VotingData.

Module Box.

(** ** Sentinels *)

Definition errVotingBeforeEvent : error := Status.http_sentinel "errVotingBeforeEvent" 400.
Definition errActionAlreadyDeleted : error := sentinel "errActionAlreadyDeleted".
Definition errActionNotFinalized : error := sentinel "errActionNotFinalized".
Definition errInvalidVoter : error := Status.http_sentinel "errInvalidVoter" 403.
Definition errInvalidCosignerThreshold : error := Status.http_sentinel "errInvalidCosignerThreshold" 400.
Definition errVotingEnded : error := Status.http_sentinel "errVotingEnded" 410.
Definition errSignatureAlreadyStored : error := Status.http_sentinel "errSignatureAlreadyStored" 403.
Definition errZeroPolicyThreshold : error := sentinel "errZeroPolicyThreshold".

Definition eventFutureSlack : Z := 15 * second.
Definition maxBIPS : Z := 10000.

(** [voterGroup], a uint8 bit set. *)
Definition invalidVoter : Z := 0.
Definition provider : Z := 1.
Definition cosigner : Z := 2.
Definition both : Z := 3.
Definition isCosigner (vg : Z) : bool := negb (bool_decide (Z.land vg cosigner = 0)).
Definition isProvider (vg : Z) : bool := negb (bool_decide (Z.land vg provider = 0)).

(** [voterGroupCheck]. *)
Definition voterGroupCheck (signer : Address) (voterDataMap : gmap Address Z)
    (cosigners : gset Address) : Z * Z :=
  let '(vg, w) :=
    match voterDataMap !! signer with
    | Some vd => (Z.lor invalidVoter provider, vd)
    | None => (invalidVoter, 0)
    end in
  (if decide (signer ∈ cosigners) then Z.lor vg cosigner else vg, w).

(** ** Thresholds *)

(** [computeThreshold]: uint64 arithmetic, truncated to uint16. *)
Definition computeThreshold (total bips : Z) : Z :=
  u16 (u64 (u64 total * u64 bips) / maxBIPS).

Section Ops.
Context `{InstructionLib}.

(** ** Creation *)

Definition newProposal (data : DataFixed) (threshold : Z) (cosigners : gset Address)
    (cosignerThreshold : Z) : proposal :=
  mkProposal (Some data) threshold cosigners (u16 cosignerThreshold).

Definition newVoteBox (data : DataFixed) (proposer : Address) (threshold : Z)
    (cosigners : gset Address) (cosignerThreshold : Z) : res voteBox :=
  let proposal := newProposal data threshold cosigners cosignerThreshold in
  hash ← wrap (InitialVoteHash data);
  ih ← HashFixed data;
  Ok (mkVoteBox (InstructionID data) ih proposer proposal (Some ∅) hash 0 0 0 0 false false).

Definition buildVoteBox (data : Data) (signer : Address) (round : Round) (meta : Meta)
    (expirationTime now : Z) : res voteBox :=
  t ← wrap (meta_ThresholdBIPS meta data);
  threshold ←
    (if decide (t = -1) then
       if decide (policy_Threshold (round_policy round) = 0) then Fail errZeroPolicyThreshold
       else Ok (policy_Threshold (round_policy round))
     else if decide (t < -1 \/ t > maxBIPS) then Fail (errorf [])
     else Ok (computeThreshold (policy_TotalWeight (round_policy round)) t));
  '(cosigners, cosignerThreshold) ← wrap (meta_Cosigners meta data);
  if decide (cosignerThreshold > Z.of_nat (size cosigners))
  then Fail (errorf [errInvalidCosignerThreshold])
  else
    box ← wrap (newVoteBox data signer threshold cosigners cosignerThreshold);
    Ok (set_box_times box now (time_Add now expirationTime)).

(** [now] is read for the check against the event time, [start] when the box
    has been built. *)
Definition startVoteBox (data : Data) (signer : Address) (round : Round) (meta : Meta)
    (expirationTime now start : Z) : stateful Round voteBox :=
  let eventTime := time_Unix (i64 (Timestamp data)) in
  let allowedTime := time_Add eventTime (- eventFutureSlack) in
  if time_Before now allowedTime then (round, Fail errVotingBeforeEvent)
  else
    match Limiter.Increment (round_limiter round) signer with
    | (l, Fail e) => (set_limiter round l, Fail e)
    | (l, Panic) => (set_limiter round l, Panic)
    | (l, Ok _) =>
        let round := set_limiter round l in
        match buildVoteBox data signer round meta expirationTime start with
        | Ok box => (round, Ok box)
        | Fail e => (set_limiter round (Limiter.Decrement (round_limiter round) signer), Fail e)
        | Panic => (round, Panic)
        end
    end.

(** ** Votes *)

(** The votes of a box; reading the nil map finds nothing. *)
Definition votes_of (vb : voteBox) : gmap Address vote := default ∅ (votes vb).

Definition addVote (vb : voteBox) (signer : Address) (w : Z) (signature avm : bytes)
    (vg now : Z) : stateful voteBox (Receipt * bool) :=
  if decide (vg = invalidVoter) then (vb, Fail errInvalidVoter)
  else if time_Before (EndTime vb) now then (vb, Fail errVotingEnded)
  else if decide (is_Some (votes_of vb !! signer)) then (vb, Fail errSignatureAlreadyStored)
  else
    let seq := u64 (Z.of_nat (size (votes_of vb))) in
    let v := mkVote seq now signature avm in
    let '(h, err) := NextVoteHash (VoteHash vb) seq signature avm (unix_u64 now) in
    let vb := set_box_VoteHash vb h in
    match err, votes vb with
    | Some e, _ => (vb, Fail (errorf [e]))
    | None, None => (vb, Panic)
    | None, Some m =>
        let vb := set_box_votes vb (<[signer := v]> m) in
        let vb := set_box_weight vb (u16 (weight vb + w)) in
        let vb := if isCosigner vg then set_box_cosignerWeight vb (u16 (cosignerWeight vb + 1))
                  else vb in
        let receipt := mkReceipt (iHash vb) seq signature (Keccak256Hash avm)
                                 (unix_u64 now) (VoteHash vb) in
        if negb (Finalized vb) && bool_decide (threshold (box_proposal vb) < weight vb)
           && bool_decide (cosignerThreshold (box_proposal vb) <= cosignerWeight vb)
        then (set_box_Finalized vb true, Ok (receipt, true))
        else (vb, Ok (receipt, false))
    end.

(** ** Actions *)

(** [signersData]: the loop over the votes in the order [order] fills the
    slots of three slices of length [n]. *)
Definition put_vote (acc : list bytes * list bytes * list Z) (v : vote)
    : res (list bytes * list bytes * list Z) :=
  let '(s, a, t) := acc in
  let j := Z.to_nat (Sequence v) in
  if decide (j < length s)%nat then
    Ok (<[j := vote_Signature v]> s, <[j := vote_AdditionalVariableMessage v]> a,
        <[j := unix_u64 (vote_Time v)]> t)
  else Panic.

Definition signersData_in (n : nat) (order : list vote) : res (list bytes * list bytes * list Z) :=
  foldl (fun acc v => acc ≫= fun x => put_vote x v)
        (Ok (replicate n [], replicate n [], replicate n 0)) order.

Definition signersData (vb : voteBox) : res (list bytes * list bytes * list Z) :=
  signersData_in (size (votes_of vb)) (map_to_list (votes_of vb)).*2.

(** The method [Action]. *)
Definition box_Action (vb : voteBox) (tag : SubmissionTag) : res Action :=
  if deleted vb then Fail errActionAlreadyDeleted
  else if negb (Finalized vb) then Fail errActionNotFinalized
  else
    match instruction (box_proposal vb) with
    | None => Panic
    | Some d =>
        m ← wrap (json_Marshal_DataFixed d);
        '(s, avm, ts) ← signersData vb;
        Ok (mkAction (mkActionData (InstructionID d) InstructionAction tag m) s avm ts [])
    end.

(** ** Status and deletion *)

Definition addr_le (a b : Address) : Prop := (a <= b)%N.
#[export] Instance addr_le_dec a b : Decision (addr_le a b) := N.le_dec a b.

Definition box_Status (vb : voteBox) : BoxStatus :=
  mkBoxStatus (iHash vb) (Finalized vb) (deleted vb)
    (unix_u64 (StartTime vb)) (unix_u64 (EndTime vb)) (weight vb)
    (merge_sort addr_le (map_to_list (votes_of vb)).*1)
    (threshold (box_proposal vb)) (cosignerWeight vb) (cosignerThreshold (box_proposal vb)).

Definition delete (vb : voteBox) : voteBox :=
  let p := box_proposal vb in
  mkVoteBox (iID vb) (iHash vb) (Proposer vb)
    (mkProposal None (threshold p) ∅ (cosignerThreshold p)) None (VoteHash vb)
    (StartTime vb) (EndTime vb) (weight vb) (cosignerWeight vb) (Finalized vb) true.

(** Provider restores send their Threshold action at the end of voting. *)
Definition is_restore `{OpLib} (d : DataFixed) : Prop :=
  OPType d = optype_Hash WalletType /\ OPCommand d = command_Hash KeyDataProviderRestore.
#[export] Instance is_restore_dec `{OpLib} d : Decision (is_restore d).
Proof. unfold is_restore. apply _. Defined.

(** The part of [scheduleEnd] that runs under the locks once the box has
    reached its end time: the deferred [delete] runs on every path, and the
    actions to send are returned.  Failing to build an action is logged and
    counted (the second component), and the action is skipped. *)
Definition closeBox `{OpLib} (finalizedHash : Hash) (vb : voteBox)
    : stateful voteBox (list Action * nat) :=
  match instruction (box_proposal vb) with
  | None => (delete vb, Panic)
  | Some d =>
      let act (tag : SubmissionTag) : res (list Action * nat) :=
        match box_Action vb tag with
        | Ok a => Ok ([a], 0%nat)
        | Fail _ => Ok ([], 1%nat)
        | Panic => Panic
        end in
      let actions :=
        if negb (Finalized vb) then Ok ([], 0%nat)
        else if decide (is_restore d) then
          '(th, lost) ← act Threshold;
          '(en, lost') ← act End;
          Ok (th ++ en, lost + lost')%nat
        else if decide (iHash vb <> finalizedHash) then Ok ([], 0%nat)
        else act End in
      (delete vb, actions)
  end.
End Ops.


(** ** Invariant of a box under its round's policy *)

(** The votes in the order in which they were accepted. *)
Definition in_arrival_order (order : list vote) : Prop :=
  forall i v, order !! i = Some v -> Sequence v = Z.of_nat i.

Definition voter_weight (p : SigningPolicy) (a : Address) : Z := default 0 (policy_VoterData p !! a).

(** The weight and the number of cosigners among the voters of [m]. *)
Definition votes_weight (p : SigningPolicy) (m : gmap Address vote) : Z :=
  map_sum (fun a _ => voter_weight p a) m.
Definition votes_cosigners (cs : gset Address) (m : gmap Address vote) : Z :=
  map_sum (fun a _ => if decide (a ∈ cs) then 1 else 0) m.

(** The finalisation condition on exact (unbounded) sums. *)
Definition reached (p : SigningPolicy) (prop : proposal) (m : gmap Address vote) : Prop :=
  threshold prop < votes_weight p m /\ cosignerThreshold prop <= votes_cosigners (cosigners prop) m.
#[export] Instance reached_dec p prop m : Decision (reached p prop m).
Proof. unfold reached. apply _. Defined.

Record box_open (p : SigningPolicy) (vb : voteBox) (m : gmap Address vote) : Prop := {
  bo_deleted : deleted vb = false;
  bo_instruction : is_Some (instruction (box_proposal vb));
  bo_weight : weight vb = votes_weight p m;
  bo_cosignerWeight : cosignerWeight vb = votes_cosigners (cosigners (box_proposal vb)) m;
  bo_voters a : is_Some (m !! a) ->
    is_Some (policy_VoterData p !! a) \/ a ∈ cosigners (box_proposal vb);
  bo_order : exists order, order ≡ₚ (map_to_list m).*2 /\ in_arrival_order order;
  bo_final : Finalized vb = bool_decide (reached p (box_proposal vb) m);
  bo_threshold : 0 <= threshold (box_proposal vb);
  bo_cosigners : Z.of_nat (size (cosigners (box_proposal vb))) < 65536
}.

(** A box either holds its votes and satisfies [box_open], or it has been
    deleted and its votes are the nil map. *)
Definition box_wf (p : SigningPolicy) (vb : voteBox) : Prop :=
  match votes vb with
  | Some m => box_open p vb m
  | None => deleted vb = true
  end.

Lemma votes_weight_bound p m : policy_wf p -> 0 <= votes_weight p m <= policy_TotalWeight p.
Proof.
  intros Hp. split.
  - apply map_sum_nonneg. intros a v _. unfold voter_weight.
    destruct (policy_VoterData p !! a) as [w|] eqn:Hw; cbn; [|lia]. by eapply policy_wf_weight.
  - rewrite <- (policy_wf_total p Hp). apply map_sum_dom_le.
    + intros a w Hw. by eapply policy_wf_weight.
    + intros a v _. unfold voter_weight. by destruct (policy_VoterData p !! a).
Qed.

Lemma votes_weight_insert p m a v :
  m !! a = None -> votes_weight p (<[a := v]> m) = voter_weight p a + votes_weight p m.
Proof. apply (map_sum_insert_None (fun a _ => voter_weight p a)). Qed.

Lemma votes_cosigners_bound cs m : 0 <= votes_cosigners cs m <= Z.of_nat (size cs).
Proof.
  split; [|apply map_sum_in_set_le].
  apply map_sum_nonneg. intros; case_decide; lia.
Qed.

Lemma votes_cosigners_insert cs m a v :
  m !! a = None ->
  votes_cosigners cs (<[a := v]> m) = (if decide (a ∈ cs) then 1 else 0) + votes_cosigners cs m.
Proof. apply (map_sum_insert_None (fun a _ => if decide (a ∈ cs) then 1 else 0)). Qed.

(** More votes cannot undo finalisation. *)
Lemma reached_insert p prop m a v :
  policy_wf p -> m !! a = None -> reached p prop m -> reached p prop (<[a := v]> m).
Proof.
  intros Hp Ha [H1 H2]. unfold reached. rewrite votes_weight_insert, votes_cosigners_insert by done.
  assert (0 <= voter_weight p a).
  { unfold voter_weight. destruct (policy_VoterData p !! a) eqn:Hw; cbn; [|lia].
    by eapply policy_wf_weight. }
  case_decide; lia.
Qed.

Lemma box_open_size p vb m : policy_wf p -> box_open p vb m -> Z.of_nat (size m) < 131072.
Proof.
  intros Hp Hb.
  assert (dom m ⊆ dom (policy_VoterData p) ∪ cosigners (box_proposal vb)) as Hsub.
  { intros a Ha%elem_of_dom. apply elem_of_union. rewrite elem_of_dom. by apply (bo_voters p vb m Hb). }
  apply subseteq_size in Hsub. rewrite size_union_alt in Hsub.
  assert (size (cosigners (box_proposal vb) ∖ dom (policy_VoterData p))
          <= size (cosigners (box_proposal vb)))%nat by (apply subseteq_size; set_solver).
  rewrite !size_dom in Hsub. pose proof (policy_wf_count p Hp). pose proof (bo_cosigners p vb m Hb). lia.
Qed.

(** ** The slices handed to the node *)

Lemma put_votes_ok order s a t :
  length a = length s -> length t = length s ->
  (forall v, v ∈ order -> (Z.to_nat (Sequence v) < length s)%nat) ->
  let key v := Z.to_nat (Sequence v) in
  foldl (fun acc v => acc ≫= fun x => put_vote x v) (Ok (s, a, t)) order
  = Ok (foldl (fun l v => <[key v := vote_Signature v]> l) s order,
        foldl (fun l v => <[key v := vote_AdditionalVariableMessage v]> l) a order,
        foldl (fun l v => <[key v := unix_u64 (vote_Time v)]> l) t order).
Proof.
  intros Ha Ht Hlt key. revert s a t Ha Ht Hlt.
  induction order as [|v order IH]; intros s a t Ha Ht Hlt; [done|]. cbn [foldl].
  cbn [put_vote mbind res_bind]. rewrite decide_True by (apply Hlt; left).
  rewrite IH; rewrite ?length_insert; try done. intros w Hw. apply Hlt. by right.
Qed.

Lemma signersData_arrival order perm :
  in_arrival_order order -> perm ≡ₚ order ->
  signersData_in (length order) perm
  = Ok (vote_Signature <$> order, vote_AdditionalVariableMessage <$> order,
        (fun v => unix_u64 (vote_Time v)) <$> order).
Proof.
  intros Harr Hperm. unfold signersData_in. rewrite put_votes_ok; rewrite ?length_replicate; try done.
  - rewrite !(fill_permutation (fun v => Z.to_nat (Sequence v)) _ order perm); try done;
      intros i v Hv; rewrite (Harr i v Hv); lia.
  - intros v. rewrite Hperm. intros [i Hi]%list_elem_of_lookup.
    rewrite (Harr i v Hi). apply lookup_lt_Some in Hi. lia.
Qed.

Lemma in_arrival_order_snoc order v :
  in_arrival_order order -> Sequence v = zlen order -> in_arrival_order (order ++ [v]).
Proof.
  intros Harr Hv i w Hw. apply lookup_app_Some in Hw as [Hw|[Hlen Hw]]; [by apply Harr|].
  apply list_lookup_singleton_Some in Hw as [Hi <-]. rewrite Hv. unfold zlen. lia.
Qed.

Lemma in_arrival_order_unique order order' :
  in_arrival_order order -> in_arrival_order order' -> order ≡ₚ order' -> order = order'.
Proof.
  intros H1 H2 Hp. apply list_eq. intros i.
  assert (forall o o', in_arrival_order o -> in_arrival_order o' -> o ≡ₚ o' ->
            forall v, o !! i = Some v -> o' !! i = Some v) as Hone.
  { intros o o' Ho Ho' Hpp v Hv. assert (v ∈ o') as [j Hj]%list_elem_of_lookup
      by (rewrite <- Hpp; by eapply list_elem_of_lookup_2).
    pose proof (Ho i v Hv). pose proof (Ho' j v Hj). assert (i = j) by lia. congruence. }
  apply option_eq. intros v. split; [by apply Hone|apply Hone; [done..|by symmetry]].
Qed.

(** ** The group and weight of a signer *)

Lemma voterGroupCheck_weight p signer cs vg w :
  voterGroupCheck signer (policy_VoterData p) cs = (vg, w) -> w = voter_weight p signer.
Proof.
  unfold voterGroupCheck, voter_weight.
  destruct (policy_VoterData p !! signer); intros [= _ <-]; done.
Qed.

Lemma voterGroupCheck_group p signer cs vg w :
  voterGroupCheck signer (policy_VoterData p) cs = (vg, w) ->
  isCosigner vg = bool_decide (signer ∈ cs) /\
  isProvider vg = bool_decide (is_Some (policy_VoterData p !! signer)) /\
  (vg = invalidVoter <-> policy_VoterData p !! signer = None /\ signer ∉ cs).
Proof.
  unfold voterGroupCheck.
  destruct (policy_VoterData p !! signer) as [x|]; case_decide as Hcs; intros [= <- <-];
    (split_and!; [symmetry|symmetry|]); cbn; rewrite ?bool_decide_eq_true, ?bool_decide_eq_false;
    try done; try naive_solver; split; try discriminate; naive_solver.
Qed.

(** The fields that identify a box and never change while it is open. *)
Definition same_frame (vb vb' : voteBox) : Prop :=
  iID vb' = iID vb /\ iHash vb' = iHash vb /\ Proposer vb' = Proposer vb /\
  box_proposal vb' = box_proposal vb /\ StartTime vb' = StartTime vb /\ EndTime vb' = EndTime vb.

#[export] Instance same_frame_preorder : PreOrder same_frame.
Proof.
  split; [by intros vb|]. intros x y z (?&?&?&?&?&?) (?&?&?&?&?&?).
  unfold same_frame. split_and!; congruence.
Qed.

Section Facts.
Context `{InstructionLib}.

(** The box after an accepted vote. *)
Lemma box_open_insert p vb m signer v h vg w fin :
  policy_wf p -> box_open p vb m -> m !! signer = None ->
  voterGroupCheck signer (policy_VoterData p) (cosigners (box_proposal vb)) = (vg, w) ->
  vg <> invalidVoter -> Sequence v = Z.of_nat (size m) ->
  fin = bool_decide (reached p (box_proposal vb) (<[signer := v]> m)) ->
  let cw := if isCosigner vg then u16 (cosignerWeight vb + 1) else cosignerWeight vb in
  box_open p (mkVoteBox (iID vb) (iHash vb) (Proposer vb) (box_proposal vb)
                (Some (<[signer := v]> m)) h (StartTime vb) (EndTime vb)
                (u16 (weight vb + w)) cw fin (deleted vb)) (<[signer := v]> m).
Proof.
  intros Hp Hb Hnew Hgrp Hvg Hseq Hfin cw.
  pose proof (votes_weight_bound p (<[signer := v]> m) Hp) as Hw.
  pose proof (votes_cosigners_bound (cosigners (box_proposal vb)) (<[signer := v]> m)) as Hc.
  pose proof (policy_wf_total_u16 p Hp). pose proof (bo_cosigners p vb m Hb).
  destruct (voterGroupCheck_group _ _ _ _ _ Hgrp) as (Hcos & _ & Hinv).
  pose proof (voterGroupCheck_weight _ _ _ _ _ Hgrp) as ->.
  constructor; cbn; try apply Hb.
  - rewrite (bo_weight p vb m Hb), Z.add_comm, <- votes_weight_insert with (v := v) by done.
    apply u16_small. lia.
  - unfold cw. rewrite Hcos, (bo_cosignerWeight p vb m Hb), votes_cosigners_insert by done.
    rewrite votes_cosigners_insert in Hc by done.
    destruct (decide (signer ∈ cosigners (box_proposal vb))) as [Hin|Hin];
      [rewrite bool_decide_true by done|rewrite bool_decide_false by done]; [|lia].
    rewrite u16_small by lia. lia.
  - intros a. rewrite lookup_insert_is_Some'. intros [<-|Ha]; [|by apply (bo_voters p vb m Hb)].
    destruct (decide (signer ∈ cosigners (box_proposal vb))); [by right|left].
    destruct (policy_VoterData p !! signer) eqn:Hs; [done|]. exfalso. apply Hvg, Hinv. done.
  - destruct (bo_order p vb m Hb) as (order & Hord & Harr). exists (order ++ [v]). split.
    + rewrite map_to_list_insert by done. cbn. rewrite Hord. symmetry. apply Permutation_cons_append.
    + apply in_arrival_order_snoc; [done|]. rewrite Hseq. unfold zlen.
      rewrite Hord, length_fmap, length_map_to_list. done.
  - done.
Qed.

Lemma box_open_VoteHash p vb m h : box_open p vb m -> box_open p (set_box_VoteHash vb h) m.
Proof. intros []. by constructor. Qed.

(** What [addVote] does on each of its branches, for an open box [vb] with
    votes [m]. *)
Definition addVote_spec (p : SigningPolicy) (vb : voteBox) (m : gmap Address vote)
    (signer : Address) (sig avm : bytes) (vg now : Z)
    (out : stateful voteBox (Receipt * bool)) : Prop :=
  match out with
  | (vb', Ok (r, fin)) =>
      let v := mkVote (Z.of_nat (size m)) now sig avm in
      vg <> invalidVoter /\ now <= EndTime vb /\ m !! signer = None /\
      same_frame vb vb' /\
      votes vb' = Some (<[signer := v]> m) /\ box_open p vb' (<[signer := v]> m) /\
      fin = bool_decide (~ reached p (box_proposal vb) m /\
                         reached p (box_proposal vb) (<[signer := v]> m)) /\
      r = mkReceipt (iHash vb) (Z.of_nat (size m)) sig (Keccak256Hash avm) (unix_u64 now) (VoteHash vb') /\
      NextVoteHash (VoteHash vb) (Z.of_nat (size m)) sig avm (unix_u64 now) = (VoteHash vb', None)
  | (vb', Fail e) =>
      vg = invalidVoter /\ e = errInvalidVoter /\ vb' = vb \/
      vg <> invalidVoter /\ EndTime vb < now /\ e = errVotingEnded /\ vb' = vb \/
      vg <> invalidVoter /\ now <= EndTime vb /\ is_Some (m !! signer) /\
        e = errSignatureAlreadyStored /\ vb' = vb \/
      (exists h e', vg <> invalidVoter /\ now <= EndTime vb /\ m !! signer = None /\
        NextVoteHash (VoteHash vb) (Z.of_nat (size m)) sig avm (unix_u64 now) = (h, Some e') /\
        e = errorf [e'] /\ vb' = set_box_VoteHash vb h)
  | (_, Panic) => False
  end.

Lemma addVote_meets_spec p vb m signer sig avm vg w now :
  policy_wf p -> votes vb = Some m -> box_open p vb m ->
  voterGroupCheck signer (policy_VoterData p) (cosigners (box_proposal vb)) = (vg, w) ->
  addVote_spec p vb m signer sig avm vg now (addVote vb signer w sig avm vg now).
Proof.
  intros Hp Hm Hb Hgrp. pose proof (box_open_size p vb m Hp Hb) as Hsize.
  unfold addVote_spec, addVote, votes_of, time_Before. rewrite Hm. change (default ∅ (Some m)) with m.
  rewrite u64_small by lia.
  destruct (decide (vg = invalidVoter)) as [->|Hvg]; [by left|].
  destruct (bool_decide (EndTime vb < now)) eqn:Htime; bool_to_prop; [by right; left|].
  destruct (decide (is_Some (m !! signer))) as [Hs|Hs]; [by right; right; left; split_and!; try lia|].
  apply eq_None_not_Some in Hs.
  destruct (NextVoteHash (VoteHash vb) (Z.of_nat (size m)) sig avm (unix_u64 now))
    as [h [e'|]] eqn:Hnext.
  { do 3 right. exists h, e'. split_and!; done || lia. }
  cbn [set_box_VoteHash votes]. rewrite Hm.
  set (v := mkVote (Z.of_nat (size m)) now sig avm).
  set (cw := if isCosigner vg then u16 (cosignerWeight vb + 1) else cosignerWeight vb).
  pose proof (box_open_insert p vb m signer v h vg w
    (bool_decide (reached p (box_proposal vb) (<[signer := v]> m))) Hp Hb Hs Hgrp Hvg
    eq_refl eq_refl) as Hopen. cbn zeta in Hopen. fold cw in Hopen.
  pose proof (bo_weight _ _ _ Hopen) as Hw'. pose proof (bo_cosignerWeight _ _ _ Hopen) as Hc'.
  cbn in Hw', Hc'.
  assert (Hcond : bool_decide (threshold (box_proposal vb) < u16 (weight vb + w)) &&
                  bool_decide (cosignerThreshold (box_proposal vb) <= cw)
                  = bool_decide (reached p (box_proposal vb) (<[signer := v]> m))).
  { rewrite <- bool_decide_and. apply bool_decide_ext. unfold reached. by rewrite Hw', Hc'. }
  pose proof (reached_insert p (box_proposal vb) m signer v Hp Hs) as Hmono.
  pose proof (bo_final p vb m Hb) as Hfin.
  unfold cw in *. destruct (isCosigner vg); cbn -[bool_decide]; rewrite <- andb_assoc, Hcond, Hfin;
    (destruct (decide (reached p (box_proposal vb) (<[signer := v]> m))) as [HR'|HR'];
     [rewrite (bool_decide_true (reached p _ (<[signer := v]> m))) in * by done
     |rewrite (bool_decide_false (reached p _ (<[signer := v]> m))) in * by done];
     (destruct (decide (reached p (box_proposal vb) m)) as [HR|HR];
      [rewrite (bool_decide_true (reached p _ m)) in * by done
      |rewrite (bool_decide_false (reached p _ m)) in * by done]));
    try (by destruct (HR' (Hmono HR))); cbn -[bool_decide]; (split_and!; try done; try lia; try (symmetry; first [apply bool_decide_eq_true|apply bool_decide_eq_false]; tauto)).

  all: unfold set_box_cosignerWeight, set_box_weight, set_box_votes, set_box_VoteHash; cbn;
    rewrite Hfin; exact Hopen.
Qed.
(** [addVote] meets its specification on every branch.  A signer outside
    both groups, a late vote and a second vote of the same signer are
    rejected and leave the box untouched; if the vote hash cannot be computed
    the vote is not recorded, but the box keeps the hash value returned with
    the error.  Otherwise the vote is stored under the next sequence number,
    the 16-bit sums stay the exact sums over the recorded votes (they cannot
    wrap), the receipt carries the recorded data, and the call reports
    finalisation exactly when this vote takes the box over its threshold.
    The nil map is never written to. *)
Theorem addVote_correct p vb m signer sig avm vg w now :
  policy_wf p -> votes vb = Some m -> box_open p vb m ->
  voterGroupCheck signer (policy_VoterData p) (cosigners (box_proposal vb)) = (vg, w) ->
  addVote_spec p vb m signer sig avm vg now (addVote vb signer w sig avm vg now).
Proof. apply addVote_meets_spec. Qed.

(** The invariant is kept on every branch. *)
Lemma addVote_wf p vb m signer sig avm vg w now :
  policy_wf p -> votes vb = Some m -> box_open p vb m ->
  voterGroupCheck signer (policy_VoterData p) (cosigners (box_proposal vb)) = (vg, w) ->
  let out := addVote vb signer w sig avm vg now in
  box_wf p out.1 /\ same_frame vb out.1 /\ out.2 <> Panic.
Proof.
  intros Hp Hm Hb Hg. pose proof (addVote_meets_spec p vb m signer sig avm vg w now Hp Hm Hb Hg) as Hs.
  assert (box_wf p vb) as Hwf by (unfold box_wf; by rewrite Hm).
  destruct (addVote vb signer w sig avm vg now) as [vb' [[r fin]|e|]]; cbn in Hs |- *; [| |done].
  - destruct Hs as (_ & _ & _ & Hf & Hv & Ho & _). split_and!; [|done..].
    unfold box_wf. by rewrite Hv.
  - split_and!; [..|done].
    + destruct Hs as [(_&_&->)|[(_&_&_&->)|[(_&_&_&_&->)|(h&e'&_&_&_&_&_&->)]]]; [done..|].
      unfold box_wf. cbn. rewrite Hm. by apply box_open_VoteHash.
    + destruct Hs as [(_&_&->)|[(_&_&_&->)|[(_&_&_&_&->)|(h&e'&_&_&_&_&_&->)]]]; done.
Qed.

(** ** Actions *)

(** What the node receives for a finalised box whose votes arrived in the
    order [order]. *)
Definition arrival_action (d : DataFixed) (tag : SubmissionTag) (m : bytes) (order : list vote) : Action :=
  mkAction (mkActionData (InstructionID d) InstructionAction tag m)
    (vote_Signature <$> order) (vote_AdditionalVariableMessage <$> order)
    ((fun v => unix_u64 (vote_Time v)) <$> order) [].

Lemma signersData_open p vb m order perm :
  box_open p vb m -> order ≡ₚ (map_to_list m).*2 -> in_arrival_order order ->
  perm ≡ₚ (map_to_list m).*2 ->
  signersData_in (size m) perm
  = Ok (vote_Signature <$> order, vote_AdditionalVariableMessage <$> order,
        (fun v => unix_u64 (vote_Time v)) <$> order).
Proof.
  intros Hb Hord Harr Hperm.
  replace (size m) with (length order) by (rewrite Hord, length_fmap, length_map_to_list; done).
  apply signersData_arrival; [done|]. by rewrite Hperm.
Qed.

Lemma box_Action_open p vb m d order tag :
  votes vb = Some m -> box_open p vb m -> Finalized vb = true ->
  instruction (box_proposal vb) = Some d ->
  order ≡ₚ (map_to_list m).*2 -> in_arrival_order order ->
  box_Action vb tag
  = (msg ← wrap (json_Marshal_DataFixed d); Ok (arrival_action d tag msg order)).
Proof.
  intros Hm Hb Hf Hd Hord Harr. unfold box_Action, signersData, votes_of.
  rewrite (bo_deleted p vb m Hb), Hf, Hd, Hm. change (default ∅ (Some m)) with m. cbn [negb].
  destruct (json_Marshal_DataFixed d); cbn; [|done..].
  by rewrite (signersData_open p vb m order) by done.
Qed.

Lemma box_Action_total `{!InstructionLaws} p vb m tag :
  policy_wf p -> votes vb = Some m -> box_open p vb m ->
  box_Action vb tag <> Panic /\
  (forall act, box_Action vb tag = Ok act ->
     Finalized vb = true /\ ad_SubmissionTag (action_Data act) = tag).
Proof.
  intros Hp Hm Hb. destruct (bo_instruction p vb m Hb) as [d Hd].
  destruct (bo_order p vb m Hb) as (order & Hord & Harr).
  destruct (Finalized vb) eqn:Hf.
  - rewrite (box_Action_open p vb m d order) by done.
    pose proof (json_Marshal_DataFixed_no_panic d).
    destruct (json_Marshal_DataFixed d); cbn; split; try done; by intros ? [= <-].
  - unfold box_Action. rewrite (bo_deleted p vb m Hb), Hf. done.
Qed.

(** The action built from a finalised box lists signatures, variable
    messages and timestamps by arrival: slot [j] of all three comes from the
    [j]-th accepted vote, whatever order the vote map is visited in, and no
    slot is written out of bounds.  A box that is not finalised yields an
    error. *)
Theorem Action_arrival_order p vb m tag :
  policy_wf p -> votes vb = Some m -> box_open p vb m ->
  exists d order,
    instruction (box_proposal vb) = Some d /\
    order ≡ₚ (map_to_list m).*2 /\ in_arrival_order order /\
    (forall visited, visited ≡ₚ (map_to_list m).*2 ->
       signersData_in (size m) visited = signersData vb) /\
    box_Action vb tag
    = (if Finalized vb then
         msg ← wrap (json_Marshal_DataFixed d); Ok (arrival_action d tag msg order)
       else Fail errActionNotFinalized).
Proof.
  intros Hp Hm Hb. destruct (bo_instruction p vb m Hb) as [d Hd].
  destruct (bo_order p vb m Hb) as (order & Hord & Harr). exists d, order.
  split_and!; [done..| |].
  - intros visited Hv. unfold signersData, votes_of. rewrite Hm.
    change (default ∅ (Some m)) with m. by rewrite !(signersData_open p vb m order).
  - destruct (Finalized vb) eqn:Hf; [by eapply box_Action_open|].
    unfold box_Action. by rewrite (bo_deleted p vb m Hb), Hf.
Qed.

(** ** Closing *)

Lemma delete_wf p vb : box_wf p (delete vb).
Proof. done. Qed.

(** The tags of the actions a box sends when it ends. *)
Definition closing_tags `{OpLib} (finalizedHash : Hash) (vb : voteBox) (d : DataFixed) : list SubmissionTag :=
  if negb (Finalized vb) then []
  else if decide (is_restore d) then [Threshold; End]
  else if decide (iHash vb = finalizedHash) then [End] else [].

Lemma closeBox_actions `{OpLib, !InstructionLaws} p fh vb m d order :
  votes vb = Some m -> box_open p vb m -> instruction (box_proposal vb) = Some d ->
  order ≡ₚ (map_to_list m).*2 -> in_arrival_order order ->
  closeBox fh vb
  = (delete vb,
     Ok (match json_Marshal_DataFixed d with
         | Ok msg => ((fun tag => arrival_action d tag msg order) <$> closing_tags fh vb d, 0%nat)
         | _ => ([], length (closing_tags fh vb d))
         end)).
Proof.
  intros Hm Hb Hd Hord Harr. pose proof (json_Marshal_DataFixed_no_panic d) as Hj. unfold closeBox, closing_tags. rewrite Hd.
  destruct (Finalized vb) eqn:Hf; cbn [negb]; [|by destruct (json_Marshal_DataFixed d)].
  rewrite !(box_Action_open p vb m d order) by done.
  destruct (json_Marshal_DataFixed d); cbn; [| |done]; repeat case_decide; try done; by cbn.
Qed.

(** When an open box reaches its end it is deleted on every path, keeping
    its outcome ([weight], [Finalized]) but dropping votes and instruction,
    and no step panics.  An expired box sends nothing; a finalised provider
    restore sends its Threshold and its End action; any other finalised box
    sends an End action exactly if it is the box recorded as finalised first;
    and if the instruction cannot be marshalled, nothing is sent and every
    action is counted as lost. *)
Theorem closeBox_correct `{OpLib, !InstructionLaws} p fh vb m :
  policy_wf p -> votes vb = Some m -> box_open p vb m ->
  exists d order,
    instruction (box_proposal vb) = Some d /\ order ≡ₚ (map_to_list m).*2 /\ in_arrival_order order /\
    closeBox fh vb
    = (delete vb,
       Ok (match json_Marshal_DataFixed d with
           | Ok msg => ((fun tag => arrival_action d tag msg order) <$> closing_tags fh vb d, 0%nat)
           | _ => ([], length (closing_tags fh vb d))
           end)) /\
    deleted (delete vb) = true /\ votes (delete vb) = None /\
    Finalized (delete vb) = Finalized vb /\ weight (delete vb) = weight vb.
Proof.
  intros Hp Hm Hb. destruct (bo_instruction p vb m Hb) as [d Hd].
  destruct (bo_order p vb m Hb) as (order & Hord & Harr). exists d, order.
  split_and!; try done. by eapply closeBox_actions.
Qed.

(** ** Creation *)

(** The threshold computed from BIPS is the floor of the exact
    proportion: no intermediate value wraps and the 16-bit truncation loses
    nothing, so it never exceeds the total weight, and a weight above it is a
    weight whose proportion of the total exceeds [bips]. *)
Theorem computeThreshold_floor total bips :
  0 <= total < 65536 -> 0 <= bips <= maxBIPS ->
  let t := computeThreshold total bips in
  t = total * bips / maxBIPS /\ 0 <= t <= total /\
  forall w, t < w <-> total * bips < w * maxBIPS.
Proof.
  intros Ht Hb t. unfold maxBIPS in *.
  assert (0 <= total * bips / 10000 <= total) as Hq
    by (split; [apply Z.div_pos; nia|apply Z.div_le_upper_bound; nia]).
  assert (t = total * bips / 10000) as ->.
  { unfold t, computeThreshold, maxBIPS.
    rewrite (u64_small total), (u64_small bips) by lia. rewrite u64_small by nia. apply u16_small. lia. }
  split_and!; [done|lia|lia|]. intros w.
  pose proof (Z.div_mod (total * bips) 10000 ltac:(lia)).
  pose proof (Z.mod_pos_bound (total * bips) 10000 ltac:(lia)). lia.
Qed.
(** The threshold a new box gets: the policy's, or the proportion of the total
    weight that [Meta] prescribes. *)
Definition required_threshold (p : SigningPolicy) (t : Z) : Z :=
  if decide (t = -1) then policy_Threshold p else policy_TotalWeight p * t / maxBIPS.

Lemma votes_weight_empty p : votes_weight p ∅ = 0.
Proof. apply map_sum_empty. Qed.
Lemma votes_cosigners_empty cs : votes_cosigners cs ∅ = 0.
Proof. apply map_sum_empty. Qed.

Lemma box_open_new p d ih a t cs ct h st en :
  0 <= t -> Z.of_nat (size cs) < 65536 ->
  box_open p (mkVoteBox (InstructionID d) ih a (newProposal d t cs ct) (Some ∅) h st en 0 0 false false) ∅.
Proof.
  intros Ht Hcs. constructor; cbn; try done.
  - intros b Hb. by apply is_Some_None in Hb.
  - exists []. split; [done|]. intros i v Hv. done.
  - symmetry. apply bool_decide_eq_false. intros [Hw _].
    change (t < votes_weight p ∅) in Hw. rewrite votes_weight_empty in Hw. lia.
Qed.

(** What [buildVoteBox] returns. *)
Definition buildVoteBox_spec (data : Data) (signer : Address) (p : SigningPolicy) (mt : Meta)
    (expirationTime now : Z) (out : res voteBox) : Prop :=
  match out with
  | Ok vb =>
      exists t cs ct ih h,
        meta_ThresholdBIPS mt data = Ok t /\ (t = -1 -> policy_Threshold p <> 0) /\
        meta_Cosigners mt data = Ok (cs, ct) /\ ct <= Z.of_nat (size cs) /\
        HashFixed data = Ok ih /\ InitialVoteHash data = Ok h /\
        vb = mkVoteBox (InstructionID data) ih signer
               (mkProposal (Some (data_fixed data)) (required_threshold p t) cs ct)
               (Some ∅) h now (time_Add now expirationTime) 0 0 false false /\
        box_open p vb ∅
  | Fail e =>
      (exists e', meta_ThresholdBIPS mt data = Fail e') \/
      meta_ThresholdBIPS mt data = Ok (-1) /\ policy_Threshold p = 0 /\ e = errZeroPolicyThreshold \/
      (exists e', meta_Cosigners mt data = Fail e') \/
      (exists cs ct, meta_Cosigners mt data = Ok (cs, ct) /\ Z.of_nat (size cs) < ct /\
         errors_Is e "errInvalidCosignerThreshold" = true) \/
      (exists e', InitialVoteHash data = Fail e') \/ (exists e', HashFixed data = Fail e')
  | Panic => False
  end.

Lemma buildVoteBox_meets_spec `{!InstructionLaws} (data : Data) signer r mt expirationTime now :
  policy_wf (round_policy r) -> MetaLaws mt -> zlen (Cosigners data) < 65536 ->
  buildVoteBox_spec data signer (round_policy r) mt expirationTime now
    (buildVoteBox data signer r mt expirationTime now).
Proof.
  intros Hp Hmt Hlen. unfold buildVoteBox_spec, buildVoteBox.
  pose proof (meta_ThresholdBIPS_no_panic (m := mt) data) as Hn1.
  pose proof (meta_Cosigners_no_panic (m := mt) data) as Hn2.
  destruct (meta_ThresholdBIPS mt data) as [t|e|] eqn:Ht; cbn; [|by eauto 10|done].
  pose proof (meta_ThresholdBIPS_range _ _ Ht) as Htr.
  assert (exists th, (if decide (t = -1) then
       if decide (policy_Threshold (round_policy r) = 0) then Fail errZeroPolicyThreshold
       else Ok (policy_Threshold (round_policy r))
     else if decide (t < -1 \/ t > maxBIPS) then Fail (errorf [])
     else Ok (computeThreshold (policy_TotalWeight (round_policy r)) t))
     = (if decide (t = -1 /\ policy_Threshold (round_policy r) = 0) then Fail errZeroPolicyThreshold
        else Ok th) /\ th = required_threshold (round_policy r) t /\ 0 <= th) as (th & -> & -> & Hpos).
  { pose proof (policy_wf_threshold _ Hp). pose proof (policy_total_nonneg _ Hp).
    pose proof (policy_wf_total_u16 _ Hp). unfold required_threshold.
    destruct (decide (t = -1)) as [->|Hne].
    - eexists. split_and!; [|done|lia]. repeat case_decide; try done; lia.
    - destruct Htr as [|Htr]; [done|].
      destruct (computeThreshold_floor (policy_TotalWeight (round_policy r)) t) as (Hc & ? & _);
        [lia|unfold maxBIPS; lia|]. cbn zeta in Hc.
      eexists. split_and!; [|done|lia].
      rewrite decide_False by (unfold maxBIPS; lia). rewrite decide_False by lia. by rewrite Hc. }
  destruct (decide (t = -1 /\ policy_Threshold (round_policy r) = 0)) as [[-> Hz]|Hnz]; cbn.
  { right; left. done. }
  destruct (meta_Cosigners mt data) as [[cs ct]|e|] eqn:Hc; cbn; [|by eauto 10|done].
  destruct (meta_Cosigners_size _ _ _ Hc) as [Hsz Hct].
  case_decide as Hlarge; [right; right; right; left; exists cs, ct; split_and!; done || lia|].
  unfold newVoteBox.
  pose proof (InitialVoteHash_no_panic data) as Hn3. pose proof (HashFixed_no_panic data) as Hn4.
  destruct (InitialVoteHash data) as [h|e|] eqn:Hh; cbn; [|by eauto 10|done].
  destruct (HashFixed data) as [ih|e|] eqn:Hih; cbn; [|by eauto 10|done].
  exists t, cs, ct, ih, h. split_and!; try done; try lia; try tauto.
  - unfold set_box_times, newProposal. cbn. by rewrite u16_small by lia.
  - unfold set_box_times. cbn. apply box_open_new; lia.
Qed.

(** ** The event time *)

(** What [startVoteBox] tests.  [uint64 -> int64] and the epoch offset wrap, so
    seconds from [2^63 - unixToInternal] up count as past. *)
Lemma event_time_check ts now :
  0 <= ts < 2 ^ 64 -> unixToInternal * second <= now ->
  time_Before now (time_Add (time_Unix (i64 ts)) (- eventFutureSlack)) = true <->
  ts < 2 ^ 63 - unixToInternal /\ now + eventFutureSlack < (ts + unixToInternal) * second.
Proof.
  intros Hts Hnow. unfold time_Before, eventFutureSlack, time_Unix, time_Add.
  rewrite bool_decide_eq_true.
  assert (exists s, i64 (i64 ts + unixToInternal) = s /\ - 2 ^ 63 <= s < 2 ^ 63 /\
            (ts < 2 ^ 63 - unixToInternal -> s = ts + unixToInternal) /\
            (2 ^ 63 - unixToInternal <= ts -> s < unixToInternal)) as (s & -> & Hs & Hsmall & Hbig).
  { eexists. split; [done|]. unfold i64, unixToInternal in *.
    change (2 ^ 64) with 18446744073709551616 in *. change (2 ^ 63) with 9223372036854775808 in *.
    Z.div_mod_to_equations; lia. }
  unfold second, maxInt64, unixToInternal in *.
  change (2 ^ 64) with 18446744073709551616 in *. change (2 ^ 63) with 9223372036854775808 in *.
  replace (s * 1000000000 + - (15 * 1000000000)) with ((s - 15) * 1000000000) by lia.
  rewrite Z_div_mult, Z_mod_mult by lia.
  repeat case_decide; lia.
Qed.

(** What [startVoteBox] does to the round, and what it returns. *)
Definition startVoteBox_spec (data : Data) (signer : Address) (r : Round) (mt : Meta)
    (expirationTime now start : Z) (res : stateful Round voteBox) : Prop :=
  let future := Timestamp data < 2 ^ 63 - unixToInternal /\
                now + eventFutureSlack < (Timestamp data + unixToInternal) * second in
  let lim := round_limiter r in
  let '(r', out) := res in
  r' = set_limiter r (round_limiter r') /\ Limiter.wf (round_limiter r') /\
  match out with
  | Ok vb =>
      ~ future /\ Limiter.pending_of lim signer < Limiter.maxPendingRequests lim /\
      (forall b, Limiter.pending_of (round_limiter r') b
                 = Limiter.pending_of lim b + if decide (b = signer) then 1 else 0) /\
      buildVoteBox_spec data signer (round_policy r) mt expirationTime start (Ok vb)
  | Fail e =>
      (forall b, Limiter.pending_of (round_limiter r') b = Limiter.pending_of lim b) /\
      (future /\ e = errVotingBeforeEvent /\ r' = r \/
       ~ future /\ (Limiter.Increment lim signer).2 = Fail e /\ r' = r \/
       ~ future /\ is_ok (Limiter.Increment lim signer).2 = true /\
         buildVoteBox_spec data signer (round_policy r) mt expirationTime start (Fail e))
  | Panic => False
  end.

Lemma startVoteBox_max (data : Data) signer r mt expirationTime now start :
  Limiter.maxPendingRequests (round_limiter (startVoteBox data signer r mt expirationTime now start).1)
  = Limiter.maxPendingRequests (round_limiter r).
Proof.
  unfold startVoteBox, Limiter.Increment, Limiter.Decrement.
  by repeat (case_match; simplify_eq/=).
Qed.

Lemma startVoteBox_meets_spec `{!InstructionLaws} (data : Data) signer r mt expirationTime now start :
  policy_wf (round_policy r) -> MetaLaws mt -> Limiter.wf (round_limiter r) ->
  zlen (Cosigners data) < 65536 -> 0 <= Timestamp data < 2 ^ 64 -> unixToInternal * second <= now ->
  startVoteBox_spec data signer r mt expirationTime now start
    (startVoteBox data signer r mt expirationTime now start).
Proof.
  intros Hp Hmt Hl Hlen Hts Hnow. unfold startVoteBox_spec, startVoteBox.
  pose proof (event_time_check (Timestamp data) now Hts Hnow) as Htime.
  destruct (time_Before now _) eqn:Hbefore.
  { split_and!; [by destruct r|done|done|]. left. split_and!; tauto. }
  assert (~ (Timestamp data < 2 ^ 63 - unixToInternal /\
             now + eventFutureSlack < (Timestamp data + unixToInternal) * second)) as Hnf
    by (intros Hf; apply Htime in Hf; congruence).
  pose proof (Limiter.Increment_spec (round_limiter r) signer Hl) as Hinc.
  pose proof (Limiter.Increment_wf (round_limiter r) signer Hl) as Hwf.
  destruct (Limiter.Increment (round_limiter r) signer) as [l [[]|e|]] eqn:Hi; [| |done].
  2:{ destruct Hinc as [-> Hinc]. assert (set_limiter r (round_limiter r) = r) as -> by by destruct r.
      split_and!; [by destruct r|done|done|]. right; left. done. }
  destruct Hinc as (_ & Hlt & Hmax & Hdom & Hpend). cbn [fst] in Hwf.
  pose proof (buildVoteBox_meets_spec data signer (set_limiter r l) mt expirationTime start Hp Hmt Hlen) as Hb.
  destruct (buildVoteBox data signer (set_limiter r l) mt expirationTime start) as [vb|e|]; [| |done].
  - split_and!; done.
  - destruct (Limiter.Decrement_spec l signer Hwf) as (_ & _ & Hdec).
    split_and!; [done|by apply Limiter.Decrement_wf| |right; right; done].
    intros b. cbn. rewrite Hdec, Hpend. pose proof (Limiter.pending_of_bound (round_limiter r) b Hl).
    case_decide; lia.
Qed.

(** Opening a box.  It is refused, changing nothing, if the event lies more
    than fifteen seconds in the future, or if the limiter does not admit the
    signer.  If building the box fails, the limiter's pending counts are what
    they were, for every provider.  Otherwise the signer's pending count rises
    by one, staying within the cap, and the new box is empty, open, keyed by
    the instruction's hash, and carries the required threshold, the resolved
    cosigners and an untruncated cosigner threshold that they can meet.
    Event seconds from [2^63 - unixToInternal] up wrap around and pass the
    time check.  The rest of the round is untouched, and nothing panics. *)
Theorem startVoteBox_correct `{!InstructionLaws} (data : Data) signer r mt expirationTime now start :
  policy_wf (round_policy r) -> MetaLaws mt -> Limiter.wf (round_limiter r) ->
  zlen (Cosigners data) < 65536 -> 0 <= Timestamp data < 2 ^ 64 -> unixToInternal * second <= now ->
  startVoteBox_spec data signer r mt expirationTime now start
    (startVoteBox data signer r mt expirationTime now start).
Proof. apply startVoteBox_meets_spec. Qed.
End Facts.

(** ** The theorems at concrete inputs *)

#[local] Existing Instance Demo.instruction_lib.
#[local] Existing Instance Demo.op_lib.
#[local] Existing Instance Demo.instruction_laws.

Definition demo_data : Data :=
  mkData (mkDataFixed 9%N 4%N 1700000000 5 5%N 1%N [7%N] 1 [] []) [].

(** A fresh box with threshold 30 and one cosigner, then one vote of a provider
    of weight 40, and one of the cosigner. *)
Definition demo_now : Z := (1700000000 + unixToInternal) * second.
Definition demo_box : voteBox :=
  mkVoteBox 9%N 9002%N 1%N (mkProposal (Some (data_fixed demo_data)) 30 {[7%N]} 1) (Some ∅) 16%N
    demo_now (time_Add demo_now (60 * second)) 0 0 false false.
Definition demo_vote1 := addVote demo_box 1%N 40 [] [] provider demo_now.
Definition demo_vote2 := addVote demo_vote1.1 7%N 0 [] [] cosigner (demo_now + second).

Lemma demo_box_open : box_open Demo.policy demo_box ∅.
Proof.
  apply (box_open_new Demo.policy (data_fixed demo_data) 9002%N 1%N 30 {[7%N]} 1); [lia|by vm_compute].
Qed.

Lemma demo_vote1_open :
  exists m, votes demo_vote1.1 = Some m /\ box_open Demo.policy demo_vote1.1 m.
Proof.
  pose proof (addVote_meets_spec Demo.policy demo_box ∅ 1%N [] [] provider 40 demo_now
                Demo.policy_ok eq_refl demo_box_open eq_refl) as H.
  change (addVote demo_box 1%N 40 [] [] provider demo_now) with demo_vote1 in H.
  assert (exists r, demo_vote1.2 = Ok r) as [[r f] Hok] by (eexists; vm_compute; reflexivity).
  destruct demo_vote1 as [vb' o]. cbn in Hok. subst o.
  cbn in H. destruct H as (_ & _ & _ & _ & Hv & Ho & _). eauto.
Qed.

Lemma demo_vote2_open :
  exists m, votes demo_vote2.1 = Some m /\ box_open Demo.policy demo_vote2.1 m.
Proof.
  destruct demo_vote1_open as (m & Hm & Ho).
  assert (voterGroupCheck 7%N (policy_VoterData Demo.policy) (cosigners (box_proposal demo_vote1.1))
          = (cosigner, 0)) as Hg by (by vm_compute).
  pose proof (addVote_meets_spec Demo.policy demo_vote1.1 m 7%N [] [] cosigner 0 (demo_now + second)
                Demo.policy_ok Hm Ho Hg) as H.
  fold demo_vote2 in H.
  assert (exists r, demo_vote2.2 = Ok r) as [[r f] Hok] by (eexists; vm_compute; reflexivity).
  destruct demo_vote2 as [vb' o]. cbn in Hok. subst o.
  cbn in H. destruct H as (_ & _ & _ & _ & Hv & Ho' & _). eauto.
Qed.

Lemma addVote_correct_witness :
  (snd <$> demo_vote1.2 : res bool) = Ok false /\
  addVote_spec Demo.policy demo_box ∅ 1%N [] [] provider demo_now demo_vote1.
Proof.
  split; [vm_compute; reflexivity|].
  apply (addVote_correct Demo.policy demo_box ∅ 1%N [] [] provider 40 demo_now
           Demo.policy_ok eq_refl demo_box_open eq_refl).
Defined.

Lemma Action_arrival_order_witness :
  Finalized demo_vote2.1 = true /\
  exists d order, instruction (box_proposal demo_vote2.1) = Some d /\ in_arrival_order order /\
    box_Action demo_vote2.1 Threshold
    = (msg ← wrap (json_Marshal_DataFixed d); Ok (arrival_action d Threshold msg order)).
Proof.
  split; [vm_compute; reflexivity|].
  destruct demo_vote2_open as (m & Hm & Ho).
  destruct (Action_arrival_order Demo.policy demo_vote2.1 m Threshold Demo.policy_ok Hm Ho)
    as (d & order & Hd & _ & Harr & _ & Ha).
  exists d, order. split; [exact Hd|split; [exact Harr|]]. rewrite Ha.
  replace (Finalized demo_vote2.1) with true by (vm_compute; reflexivity). reflexivity.
Defined.

Lemma closeBox_correct_witness :
  ((fun x => length x.1) <$> (closeBox 9002%N demo_vote2.1).2 : res nat) = Ok 1%nat /\
  (closeBox 9002%N demo_vote2.1).1 = delete demo_vote2.1.
Proof.
  split; [vm_compute; reflexivity|].
  destruct demo_vote2_open as (m & Hm & Ho).
  destruct (closeBox_correct Demo.policy 9002%N demo_vote2.1 m Demo.policy_ok Hm Ho)
    as (d & order & _ & _ & _ & Hc & _).
  rewrite Hc. reflexivity.
Defined.

Lemma computeThreshold_floor_witness : computeThreshold 101 5000 = 50 /\ 0 <= computeThreshold 101 5000 <= 101.
Proof.
  destruct (computeThreshold_floor 101 5000 ltac:(lia) ltac:(unfold maxBIPS; lia)) as (H1 & H2 & _).
  split; [exact H1|exact H2].
Defined.

Definition demo_round : Round :=
  mkRound Demo.policy ∅ (Limiter.New (policy_Voters Demo.policy) 3) None None 0.

Lemma startVoteBox_correct_witness :
  startVoteBox_spec demo_data 1%N demo_round DemoMeta.meta (60 * second) demo_now demo_now
    (startVoteBox demo_data 1%N demo_round DemoMeta.meta (60 * second) demo_now demo_now) /\
  is_ok (startVoteBox demo_data 1%N demo_round DemoMeta.meta (60 * second) demo_now demo_now).2 = true.
Proof.
  split; [|vm_compute; reflexivity].
  apply (startVoteBox_correct demo_data 1%N demo_round DemoMeta.meta (60 * second) demo_now demo_now
           Demo.policy_ok DemoMeta.meta_laws);
    [by apply Limiter.New_wf|by vm_compute|cbn; lia|by vm_compute].
Defined.

End Box.
