(* ===== verification/Rounds.v ===== *)
(** A voting round ([internal/service/instruction/voting/round.go]): creation,
    the participant sets and the weight gauges.  The sets and the watermark are
    guarded by [votersMu], so each method is a function on the round.  Also the
    round invariant: every box is well formed and filed under its own
    identifiers, and the limiter counts at least the unfinalised boxes. *)

From S2P Require Import Prelude Status Types Limiter Constraints VotingData Box.
From Stdlib Require Import SpecFloat.

Module Rounds.

(** ** Operations *)

Definition newVoting : gmap Hash voteBoxes := ∅.
Definition newVoteBoxes : voteBoxes := mkVoteBoxes ∅ zero_hash.

Definition createRound (policy : SigningPolicy) (maxPendingRequests : Z) (collectVoters : bool) : Round :=
  let limiter := Limiter.New (policy_Voters policy) maxPendingRequests in
  let '(providerVoters, proposers) :=
    if collectVoters then (Some ∅, Some ∅) else (None, None) in
  mkRound policy newVoting limiter providerVoters proposers 0.

Definition markProviderVoter (r : Round) (signer : Address) : Round :=
  match providerVoters r with
  | None => r
  | Some s => set_providerVoters r (Some ({[signer]} ∪ s))
  end.

(** [len] of a nil map is 0. *)
Definition ProviderVoterCount (r : Round) : Z := Z.of_nat (size (default ∅ (providerVoters r))).

(** The loop over the map visits the set in the order [order]. *)
Definition sum_weights (voterData : gmap Address Z) (order : list Address) : Z :=
  foldl (fun sum addr => match voterData !! addr with
                         | None => sum
                         | Some w => u32 (sum + u32 w)
                         end) 0 order.

Definition f64_of_Z (z : Z) : spec_float := binary_normalize 53 1024 z 0 false.
(** [float64(x) * maxBIPS / float64(total)] *)
Definition f64_bips (x total : Z) : spec_float :=
  SFdiv 53 1024 (SFmul 53 1024 (f64_of_Z x) (f64_of_Z Box.maxBIPS)) (f64_of_Z total).

Definition VotedWeightBips (r : Round) : spec_float :=
  let total := policy_TotalWeight (round_policy r) in
  if decide (total = 0) then S754_zero false
  else f64_bips (sum_weights (policy_VoterData (round_policy r))
                   (elements (default ∅ (providerVoters r)))) total.

Definition recordVotingWeight (r : Round) (w : Z) : Round :=
  match providerVoters r with
  | None => r
  | Some _ => set_maxVotingWeight r (Z.max (maxVotingWeight r) w)
  end.

Definition MaxVotingWeightBips (r : Round) : spec_float :=
  let total := policy_TotalWeight (round_policy r) in
  if decide (total = 0) then S754_zero false else f64_bips (maxVotingWeight r) total.

Definition ThresholdBips (r : Round) : spec_float :=
  let total := policy_TotalWeight (round_policy r) in
  if decide (total = 0) then S754_zero false else f64_bips (policy_Threshold (round_policy r)) total.

Definition markProposer (r : Round) (signer : Address) : Round :=
  match proposers r with
  | None => r
  | Some s => set_proposers r (Some ({[signer]} ∪ s))
  end.

Definition ProposerCount (r : Round) : Z := Z.of_nat (size (default ∅ (proposers r))).

Definition TopPendingProposals (r : Round) (n : Z) : list Limiter.VoterPending :=
  Limiter.TopPending (round_limiter r) n.

(** ** Counting unfinalised boxes *)

(** [1] for an unfinalised box opened by [a]. *)
Definition is_pending (a : Address) (vb : voteBox) : Z :=
  if decide (Proposer vb = a /\ Finalized vb = false) then 1 else 0.
Definition boxes_pending (a : Address) (bs : voteBoxes) : Z :=
  map_sum (fun _ vb => is_pending a vb) (boxes_M bs).
Definition round_pending (a : Address) (r : Round) : Z :=
  map_sum (fun _ bs => boxes_pending a bs) (Voting r).

Lemma is_pending_range a vb : 0 <= is_pending a vb <= 1.
Proof. unfold is_pending. case_decide; lia. Qed.
Lemma boxes_pending_nonneg a bs : 0 <= boxes_pending a bs.
Proof. apply map_sum_nonneg. intros ???. apply is_pending_range. Qed.
Lemma round_pending_nonneg a r : 0 <= round_pending a r.
Proof. apply map_sum_nonneg. intros ???. apply boxes_pending_nonneg. Qed.

(** ** Invariant *)

Section Invariant.
Context `{InstructionLib}.

Record boxes_wf (p : SigningPolicy) (id : Hash) (bs : voteBoxes) : Prop := {
  bsw_box h vb : boxes_M bs !! h = Some vb -> Box.box_wf p vb /\ iHash vb = h /\ iID vb = id;
  bsw_hash h vb d : boxes_M bs !! h = Some vb -> instruction (box_proposal vb) = Some d ->
    HashFixed d = Ok h;
  bsw_final : FinalizedHash bs <> zero_hash ->
    exists vb, boxes_M bs !! FinalizedHash bs = Some vb /\ Finalized vb = true
}.

Record round_wf (mx : Z) (r : Round) : Prop := {
  rw_policy : policy_wf (round_policy r);
  rw_limiter : Limiter.wf (round_limiter r);
  rw_max : Limiter.maxPendingRequests (round_limiter r) = mx;
  rw_boxes id bs : Voting r !! id = Some bs -> boxes_wf (round_policy r) id bs;
  rw_pending a : round_pending a r <= Limiter.pending_of (round_limiter r) a;
  rw_voters s a : providerVoters r = Some s -> a ∈ s -> is_Some (policy_VoterData (round_policy r) !! a);
  rw_weight : 0 <= maxVotingWeight r <= policy_TotalWeight (round_policy r)
}.

Lemma newVoteBoxes_wf p id : boxes_wf p id newVoteBoxes.
Proof. by constructor. Qed.

Lemma createRound_wf p mx collect :
  policy_wf p -> 0 <= mx < 2 ^ 64 -> round_wf mx (createRound p mx collect).
Proof.
  intros Hp Hm. pose proof (Limiter.New_wf (policy_Voters p) mx Hm) as Hl.
  pose proof (policy_total_nonneg p Hp).
  assert (forall a pv pr, round_pending a (mkRound p newVoting (Limiter.New (policy_Voters p) mx) pv pr 0)
            <= Limiter.pending_of (Limiter.New (policy_Voters p) mx) a) as Hpend.
  { intros a pv pr. etrans; [|apply (Limiter.pending_of_bound _ a Hl)].
    unfold round_pending. cbn [Voting]. unfold newVoting. by rewrite map_sum_empty. }
  constructor; unfold createRound; destruct collect; try done; cbn.
  intros s a [= <-] Ha. set_solver.
Qed.

(** Filing a box: the count changes by the difference between the new and the
    old box. *)
Definition put_box (bs : voteBoxes) (h : Hash) (vb : voteBox) : voteBoxes :=
  mkVoteBoxes (<[h := vb]> (boxes_M bs)) (FinalizedHash bs).
Definition put_boxes (r : Round) (id : Hash) (bs : voteBoxes) : Round :=
  set_Voting r (<[id := bs]> (Voting r)).

Definition pending_at (a : Address) (o : option voteBox) : Z :=
  match o with Some vb => is_pending a vb | None => 0 end.

Lemma boxes_pending_put a bs h vb :
  boxes_pending a (put_box bs h vb)
  = boxes_pending a bs + is_pending a vb - pending_at a (boxes_M bs !! h).
Proof.
  unfold boxes_pending, put_box; cbn [boxes_M].
  destruct (boxes_M bs !! h) as [vb0|] eqn:Hh; cbn [pending_at].
  - rewrite (map_sum_insert_Some (fun _ vb => is_pending a vb) _ _ _ _ Hh). lia.
  - rewrite (map_sum_insert_None (fun _ vb => is_pending a vb)) by done. lia.
Qed.

Lemma round_pending_put a r id bs :
  round_pending a (put_boxes r id bs)
  = round_pending a r + boxes_pending a bs
    - match Voting r !! id with Some bs0 => boxes_pending a bs0 | None => 0 end.
Proof.
  unfold round_pending, put_boxes; cbn [Voting set_Voting].
  destruct (Voting r !! id) as [bs0|] eqn:Hh.
  - rewrite (map_sum_insert_Some (fun _ bs => boxes_pending a bs) _ _ _ _ Hh). lia.
  - rewrite (map_sum_insert_None (fun _ bs => boxes_pending a bs)) by done. lia.
Qed.

Lemma boxes_wf_put p id bs h vb :
  boxes_wf p id bs -> Box.box_wf p vb -> iHash vb = h -> iID vb = id ->
  (forall d, instruction (box_proposal vb) = Some d -> HashFixed d = Ok h) ->
  (forall vb0, boxes_M bs !! h = Some vb0 -> Finalized vb0 = true -> Finalized vb = true) ->
  boxes_wf p id (put_box bs h vb).
Proof.
  intros [Hbox Hhash Hfin] Hvb Hh Hid Hd Hmono. constructor; cbn.
  - intros h' vb'. rewrite lookup_insert_Some. intros [[<- <-]|[_ Hl]]; eauto.
  - intros h' vb' d. rewrite lookup_insert_Some. intros [[<- <-]|[_ Hl]]; eauto.
  - intros Hz. destruct (Hfin Hz) as (vb0 & Hl & Hf). rewrite lookup_insert.
    case_decide as Heq; [|eauto]. exists vb. split; [done|]. subst h. rewrite Heq in *. eauto.
Qed.

(** ** Theorems *)

Lemma sum_weights_shift p order acc :
  (forall a w, policy_VoterData p !! a = Some w -> 0 <= w < 65536) ->
  0 <= acc -> acc + list_sum (Box.voter_weight p <$> order) < 2 ^ 32 ->
  foldl (fun sum addr => match policy_VoterData p !! addr with
                         | None => sum
                         | Some w => u32 (sum + u32 w)
                         end) acc order
  = acc + list_sum (Box.voter_weight p <$> order).
Proof.
  intros Hw. revert acc.
  assert (forall o, 0 <= list_sum (Box.voter_weight p <$> o)) as Hnn.
  { intros o. apply list_sum_nonneg, Forall_fmap, Forall_forall. intros b _. cbn.
    unfold Box.voter_weight. destruct (policy_VoterData p !! b) eqn:Hb; cbn; [|lia].
    by apply (Hw b). }
  induction order as [|a order IH]; intros acc Hacc Hlt; [cbn; lia|].
  rewrite fmap_cons, list_sum_cons in *. cbn [foldl]. specialize (Hnn order).
  assert (Box.voter_weight p a = default 0 (policy_VoterData p !! a)) as Hva by done.
  destruct (policy_VoterData p !! a) as [w|] eqn:Ha; cbn in Hva; rewrite Hva in *.
  - specialize (Hw _ _ Ha). rewrite (u32_small w), u32_small by lia. rewrite IH; lia.
  - rewrite IH; lia.
Qed.

(** The participation gauges.  In whatever order the voters are visited,
    the 32-bit accumulation of their weights is the exact sum, at most the
    policy's total; recording a voting's weight raises the watermark to the
    larger of the two; and a provider voter is counted once. *)
Theorem voted_weight_exact mx r s order w a :
  round_wf mx r -> providerVoters r = Some s -> order ≡ₚ elements s ->
  sum_weights (policy_VoterData (round_policy r)) order
  = list_sum (Box.voter_weight (round_policy r) <$> elements s) /\
  0 <= sum_weights (policy_VoterData (round_policy r)) order <= policy_TotalWeight (round_policy r) /\
  maxVotingWeight (recordVotingWeight r w) = Z.max (maxVotingWeight r) w /\
  ProviderVoterCount (markProviderVoter r a)
  = ProviderVoterCount r + (if decide (a ∈ s) then 0 else 1).
Proof.
  intros Hr Hs Hord. pose proof (rw_policy mx r Hr) as Hp. pose proof (policy_wf_total_u16 _ Hp).
  assert (list_sum (Box.voter_weight (round_policy r) <$> elements s) <= policy_TotalWeight (round_policy r))
    as Hle.
  { rewrite list_sum_elements, <- (policy_wf_total _ Hp). apply map_sum_dom_le.
    - apply (policy_wf_weight _ Hp).
    - intros b [] _. unfold Box.voter_weight. by destruct (policy_VoterData (round_policy r) !! b). }
  assert (forall a w, policy_VoterData (round_policy r) !! a = Some w -> 0 <= w < 65536) as Hw.
  { clear w a. intros a w Ha. pose proof (policy_wf_weight _ Hp _ _ Ha). split; [done|].
    pose proof (map_sum_lookup_le (fun _ w => w) _ a w (policy_wf_weight _ Hp) Ha).
    rewrite (policy_wf_total _ Hp) in *. lia. }
  assert (0 <= list_sum (Box.voter_weight (round_policy r) <$> elements s)) as Hnn.
  { rewrite list_sum_elements. apply map_sum_nonneg. intros b [] _. unfold Box.voter_weight.
    destruct (policy_VoterData (round_policy r) !! b) eqn:Hb; cbn; [|lia]. by apply (Hw b). }
  assert (list_sum (Box.voter_weight (round_policy r) <$> order)
          = list_sum (Box.voter_weight (round_policy r) <$> elements s)) as Hsum by (by rewrite Hord).
  unfold sum_weights. rewrite (sum_weights_shift (round_policy r) order 0 Hw), Hsum, Z.add_0_l by lia. split_and!; try done.
  - unfold recordVotingWeight. by rewrite Hs.
  - unfold markProviderVoter, ProviderVoterCount. rewrite Hs.
    change (Z.of_nat (size ({[a]} ∪ s)) = Z.of_nat (size s) + (if decide (a ∈ s) then 0 else 1)).
    rewrite size_union_alt, size_singleton. case_decide as Ha.
    + assert (size s = 1 + size (s ∖ {[a]}))%nat as ->; [|lia].
      rewrite <- (size_singleton (C := gset Address) a), <- size_union by set_solver.
      f_equal. apply leibniz_equiv, union_difference. set_solver.
    + assert (s ∖ {[a]} = s) as -> by set_solver. lia.
Qed.

End Invariant.

#[local] Existing Instance Demo.instruction_lib.

(** *** At a concrete round: three voters, of whom two voted. *)
Definition demo_round : Round :=
  set_providerVoters (createRound Demo.policy 3 true) (Some {[1%N; 3%N]}).

Lemma demo_round_wf : round_wf 3 demo_round.
Proof.
  pose proof (createRound_wf Demo.policy 3 true Demo.policy_ok ltac:(lia)) as Hr.
  destruct Hr. constructor; try done.
  intros s a [= <-] Ha. apply (policy_wf_voters _ Demo.policy_ok). set_unfold in Ha. set_unfold. naive_solver.
Qed.

Lemma voted_weight_exact_witness :
  sum_weights (policy_VoterData Demo.policy) (reverse (elements ({[1%N; 3%N]} : gset Address))) = 65 /\
  ProviderVoterCount (markProviderVoter demo_round 2%N) = 3.
Proof.
  destruct (voted_weight_exact 3 demo_round {[1%N; 3%N]} (reverse (elements {[1%N; 3%N]})) 0 2%N
              demo_round_wf eq_refl (reverse_Permutation _)) as (H1 & _ & _ & H2).
  split; [etrans; [exact H1|vm_compute; reflexivity]|].
  rewrite H2. rewrite decide_False by set_solver. vm_compute. reflexivity.
Defined.

End Rounds.
