(* ===== verification/VotingStorage.v ===== *)
(** The voting storage ([internal/service/instruction/voting/voting.go]): the
    cyclic buffer of rounds, [AddVote], the end-of-voting goroutines and the
    participation gauges.

    A round stays alive after it leaves the buffer, because the goroutines of
    its boxes hold it, so rounds live in a heap and the buffer holds pointers.
    The closure of [AddVote] runs under the locks of the instruction's boxes and
    is one step; so is the locked part of [scheduleEnd].  [step] interleaves
    them in any order. *)

From S2P Require Import Prelude Status Types Limiter Constraints VotingData Box Cyclic Rounds Config.
From Stdlib Require Import SpecFloat.

Module VotingStorage.

Definition errNoRound : error := Status.http_sentinel "errNoRound" 404.
Definition errInconsistentData : error := Status.http_sentinel "errInconsistentData" 400.

(** What the methods report to the metrics. *)
Inductive Event : Type :=
| VotingStarted
| VotingThresholdReached (d : Z)
| FinalizedActionLost (reason : string).

(** A box is identified by its round's pointer, the instruction identifier and
    the instruction hash. *)
Abbreviation path := (nat * Hash * Hash)%type (only parsing).

Section Storage.
Context `{OpLib, InstructionLib, CyclicLib}.

(** [heap], [next] are the allocated rounds; [timers] the boxes whose
    [scheduleEnd] goroutine is running.  [Out] lists the actions sent so far,
    each with the box it was built from. *)
Record Storage : Type := mkStorage {
  heap : gmap nat Round;
  next : nat;
  rounds : Cyclic nat;
  config : Config.Voting;
  Out : list (path * Action);
  timers : gset path;
  events : list Event;
  collectVoters : bool;
  currentEpoch : Z;          (* uint32 *)
  maxConsensusEpoch : Z      (* uint32 *)
}.

Definition set_round (s : Storage) (p : nat) (r : Round) : Storage :=
  mkStorage (<[p := r]> (heap s)) (next s) (rounds s) (config s) (Out s) (timers s) (events s)
    (collectVoters s) (currentEpoch s) (maxConsensusEpoch s).
Definition set_timers (s : Storage) (t : gset path) : Storage :=
  mkStorage (heap s) (next s) (rounds s) (config s) (Out s) t (events s)
    (collectVoters s) (currentEpoch s) (maxConsensusEpoch s).
Definition emit (s : Storage) (e : list Event) : Storage :=
  mkStorage (heap s) (next s) (rounds s) (config s) (Out s) (timers s) (events s ++ e)
    (collectVoters s) (currentEpoch s) (maxConsensusEpoch s).
Definition send (s : Storage) (o : list (path * Action)) : Storage :=
  mkStorage (heap s) (next s) (rounds s) (config s) (Out s ++ o) (timers s) (events s)
    (collectVoters s) (currentEpoch s) (maxConsensusEpoch s).
Definition set_maxConsensusEpoch (s : Storage) (e : Z) : Storage :=
  mkStorage (heap s) (next s) (rounds s) (config s) (Out s) (timers s) (events s)
    (collectVoters s) (currentEpoch s) e.

(** ** Rounds *)

Definition NewStorage (config : Config.Voting) (collectVoters : bool) : Storage :=
  mkStorage ∅ 0 (cyclic_New (Config.HistorySize config)) config [] ∅ [] collectVoters 0 0.

Definition Get (s : Storage) (epoch : Z) : option (nat * Round) :=
  match cyclic_Get (rounds s) epoch with
  | Some p => r ← heap s !! p; Some (p, r)
  | None => None
  end.

Definition StoreNewRound (s : Storage) (policy : SigningPolicy) : Storage :=
  let epoch := policy_RewardEpochID policy in
  match Get s epoch with
  | Some _ => s
  | None =>
      let r := Rounds.createRound policy (Config.MaxPendingRequests (config s)) (collectVoters s) in
      mkStorage (<[next s := r]> (heap s)) (S (next s)) (cyclic_Store (rounds s) epoch (next s))
        (config s) (Out s) (timers s) (events s) (collectVoters s)
        (if decide (currentEpoch s < epoch) then epoch else currentEpoch s) (maxConsensusEpoch s)
  end.

(** The compare-and-swap loop, which has the effect of one atomic maximum. *)
Definition recordConsensusEpoch (s : Storage) (epoch : Z) : Storage :=
  if decide (epoch <= maxConsensusEpoch s) then s else set_maxConsensusEpoch s epoch.

(** ** Gauges *)

Definition activeParticipantEpochs (s : Storage) : list Z :=
  let cur := currentEpoch s in
  if decide (cur = 0) then [0] else [cur; u32 (cur - 1)].

Definition participantRound (s : Storage) : option Round :=
  let cur := currentEpoch s in
  let r := snd <$> Get s cur in
  let fallback :=
    if decide (0 < cur) then
      match Get s (u32 (cur - 1)) with Some (_, prev) => Some prev | None => r end
    else r in
  match r with
  | Some r0 => if decide (0 < Rounds.ProviderVoterCount r0) then Some r0 else fallback
  | None => fallback
  end.

Definition gauge {A} (zero : A) (f : Round -> A) (s : Storage) : A :=
  match participantRound s with None => zero | Some r => f r end.

Definition CurrentRoundProviderVoterCount : Storage -> Z := gauge 0 Rounds.ProviderVoterCount.
Definition CurrentRoundInitiatorCount : Storage -> Z := gauge 0 Rounds.ProposerCount.
Definition CurrentVotedWeightBips : Storage -> spec_float := gauge (S754_zero false) Rounds.VotedWeightBips.
Definition CurrentMaxVotingWeightBips : Storage -> spec_float :=
  gauge (S754_zero false) Rounds.MaxVotingWeightBips.
Definition CurrentVotingThresholdBips : Storage -> spec_float :=
  gauge (S754_zero false) Rounds.ThresholdBips.

Definition merge_pending (merged : gmap Address Z) (vps : list Limiter.VoterPending) : gmap Address Z :=
  foldl (fun m vp => let a := Limiter.vp_Address vp in
                     <[a := Z.max (default 0 (m !! a)) (Limiter.vp_Pending vp)]> m) merged vps.

Definition merged_pending (s : Storage) : gmap Address Z :=
  foldl (fun m e => match Get s e with
                    | None => m
                    | Some (_, r) => merge_pending m (Rounds.TopPendingProposals r (-1))
                    end) ∅ (activeParticipantEpochs s).

Definition CurrentRoundTopPending (s : Storage) (n : Z) : list Limiter.VoterPending :=
  let merged := merged_pending s in
  if decide (size merged = 0%nat) then []
  else Limiter.SortTopPending ((fun '(addr, p) => Limiter.mkVP addr p) <$> map_to_list merged) n.

(** The loop of [OldestStoredEpoch] from index [i] on, with [fuel] iterations
    left. *)
Fixpoint oldest_from (s : Storage) (top : Z) (fuel : nat) (i : Z) (acc : option Z) : option Z :=
  match fuel with
  | O => acc
  | S fuel =>
      if decide (top < i) then acc
      else
        let e := u32 (top - i) in
        let acc := match Get s e with Some _ => Some e | None => acc end in
        if decide (e = 0) then acc else oldest_from s top fuel (i + 1) acc
  end.

Definition OldestStoredEpoch (s : Storage) : option Z :=
  oldest_from s (currentEpoch s) (Z.to_nat (u32 (cyclic_Size (rounds s)))) 0 None.

(** ** [AddVote] *)

(** The clock readings of one call: for the event time, for the start of a new
    box, for the vote and for the duration metric. *)
Record Clock : Type := mkClock { c_event : Z; c_start : Z; c_vote : Z; c_since : Z }.

(** The variables the closure of [AddVote] assigns. *)
Record Locked : Type := mkLocked {
  lk_receipt : Receipt;
  lk_actionToSend : option Action;
  lk_reached : bool;
  lk_startedBox : bool;
  lk_isProvider : bool;
  lk_votedWeight : Z;
  lk_buildErr : bool;
  lk_thresholdDuration : Z
}.

Definition boxes_at (r : Round) (id : Hash) : voteBoxes := default Rounds.newVoteBoxes (Voting r !! id).

Definition get_box (r : Round) (mt : Meta) (data : Data) (hash : Hash) (signer : Address)
    (expiration : Z) (c : Clock) : stateful Round voteBox :=
  match boxes_M (boxes_at r (InstructionID data)) !! hash with
  | Some box => (r, Ok box)
  | None => Box.startVoteBox data signer r mt expiration (c_event c) (c_start c)
  end.

Definition locked_section (r : Round) (mt : Meta) (data : Data) (hash : Hash) (signer : Address)
    (signature : bytes) (expiration : Z) (c : Clock) : stateful Round Locked :=
  let id := InstructionID data in
  let boxes := boxes_at r id in
  let existing := boxes_M boxes !! hash in
  let* (r, box) := get_box r mt data hash signer expiration c in
  if deleted box then (r, Fail (errorf [Box.errVotingEnded]))
  else
    let '(vg, w) := Box.voterGroupCheck signer (policy_VoterData (round_policy r))
                      (cosigners (box_proposal box)) in
    let isProvider := Box.isProvider vg in
    match Box.addVote box signer w signature (AdditionalVariableMessage data) vg (c_vote c) with
    | (box, Ok (receipt, finalized)) =>
        let boxes := Rounds.put_box boxes hash box in
        let r := Rounds.put_boxes r id boxes in
        let started := match existing with None => true | Some _ => false end in
        let out a b := mkLocked receipt a finalized started isProvider (weight box) b
                         (if finalized then c_since c - StartTime box else 0) in
        if negb finalized then (r, Ok (out None false))
        else
          let r := set_limiter r (Limiter.Decrement (round_limiter r) (Proposer box)) in
          if decide (Box.is_restore data) then (r, Ok (out None false))
          else
            let boxes := if decide (FinalizedHash boxes = zero_hash)
                         then mkVoteBoxes (boxes_M boxes) hash else boxes in
            let r := Rounds.put_boxes r id boxes in
            match Box.box_Action box Threshold with
            | Ok a => (r, Ok (out (Some a) false))
            | Fail _ => (r, Ok (out None true))
            | Panic => (r, Panic)
            end
    | (box, Fail e) =>
        (* a box that was filed before is shared, so its new vote hash stays *)
        (match existing with
         | Some _ => Rounds.put_boxes r id (Rounds.put_box boxes hash box)
         | None => r
         end, Fail (errorf [e]))
    | (_, Panic) => (r, Panic)
    end.

(** The part of [AddVote] after the closure: goroutine and metrics of a new
    box, the participation gauges, the watermark of consensus epochs, and the
    final send.  [sent] resolves the [select]: the action is taken from the
    channel, or the service context ends first. *)
Definition mark_participation (s : Storage) (r : Round) (l : Locked) (signer : Address) : Round :=
  let r := if collectVoters s && lk_isProvider l
           then Rounds.recordVotingWeight (Rounds.markProviderVoter r signer) (lk_votedWeight l)
           else r in
  if collectVoters s && lk_startedBox l then Rounds.markProposer r signer else r.

Definition finish_vote (s : Storage) (b : path) (r : Round) (l : Locked) (epoch : Z)
    (signer : Address) (sent : bool) : stateful Storage Receipt :=
  let '(p, id, hash) := b in
  let s := if lk_startedBox l
           then emit (set_timers s ({[b]} ∪ timers s)) [VotingStarted] else s in
  let s := set_round s p (mark_participation s r l signer) in
  let s := if lk_reached l
           then recordConsensusEpoch (emit s [VotingThresholdReached (lk_thresholdDuration l)]) epoch
           else s in
  let s := if lk_buildErr l then emit s [FinalizedActionLost "build_error"] else s in
  match lk_actionToSend l with
  | None => (s, Ok (lk_receipt l))
  | Some a =>
      if sent then (send s [(b, a)], Ok (lk_receipt l))
      else (emit s [FinalizedActionLost "send_cancelled"], Fail (errorf [sentinel "context.Canceled"]))
  end.

Definition AddVote (s : Storage) (mt : Meta) (data : Data) (signer : Address) (signature : bytes)
    (c : Clock) (sent : bool) : stateful Storage Receipt :=
  let id := InstructionID data in
  match _ ← Constraints.checkSize data (Config.MaxProviderVote (config s)); HashFixed data with
  | Fail e => (s, Fail e)
  | Panic => (s, Panic)
  | Ok hash =>
      match Get s (RewardEpochID data) with
      | None => (s, Fail (errorf [errNoRound]))
      | Some (p, r) =>
          match meta_CheckConsistency mt data signer with
          | Panic => (s, Panic)
          | Fail _ => (s, Fail (errorf [errInconsistentData]))
          | Ok _ =>
              match locked_section r mt data hash signer signature
                      (Config.ProposalExpiration (config s)) c with
              | (r, Fail e) => (set_round s p r, Fail e)
              | (r, Panic) => (set_round s p r, Panic)
              | (r, Ok l) => finish_vote s (p, id, hash) r l (RewardEpochID data) signer sent
              end
          end
      end
  end.

(** ** The end of voting *)

Definition box_in (r : Round) (id h : Hash) : option voteBox :=
  bs ← Voting r !! id; boxes_M bs !! h.
Definition box_at (s : Storage) (b : path) : option voteBox :=
  let '(p, id, h) := b in r ← heap s !! p; box_in r id h.

(** The goroutine of a box, woken at [now].  [taken] of the actions it sends
    are taken from the channel before the service context ends. *)
Definition scheduleEnd (s : Storage) (b : path) (now : Z) (taken : nat) : stateful Storage unit :=
  let '(p, id, h) := b in
  match heap s !! p with
  | None => (s, Ok tt)
  | Some r =>
      let boxes := boxes_at r id in
      match boxes_M boxes !! h with
      | None => (s, Ok tt)
      | Some vb =>
          if decide (now < EndTime vb) then (s, Ok tt)
          else
            let '(vb, out) := Box.closeBox (FinalizedHash boxes) vb in
            let s := set_round s p (Rounds.put_boxes r id (Rounds.put_box boxes h vb)) in
            let s := set_timers s (timers s ∖ {[b]}) in
            match out with
            | Ok (actions, lost) =>
                let s := emit s (replicate lost (FinalizedActionLost "build_error")) in
                let s := send s ((fun a => (b, a)) <$> take taken actions) in
                (if decide (taken < length actions)%nat
                 then emit s [FinalizedActionLost "send_cancelled"] else s, Ok tt)
            | Fail e => (s, Fail e)
            | Panic => (s, Panic)
            end
      end
  end.
End Storage.

End VotingStorage.
