(* ===== verification/VotingProofs.v ===== *)
(** Correctness of the voting storage: the critical section of [AddVote], the
    invariant of all interleavings, the per-provider cap, and the actions that
    leave the subsystem. *)

From S2P Require Import Prelude Status Types Limiter Constraints VotingData Box Cyclic Rounds Config VotingStorage.

Module VotingProofs.
Import VotingStorage.

Section Locked.
Context `{OpLib, InstructionLib, CyclicLib}.
Context `{!InstructionLaws, !InstructionHashInj}.

Lemma boxes_at_lookup r id h : boxes_M (boxes_at r id) !! h = box_in r id h.
Proof. unfold boxes_at, box_in. by destruct (Voting r !! id). Qed.

(** Filing a box, with a new finalised hash and a new limiter. *)
Definition file (r : Round) (id h : Hash) (vb : voteBox) (fh : Hash) (l : Limiter.Limiter) : Round :=
  set_limiter (Rounds.put_boxes r id (mkVoteBoxes (<[h := vb]> (boxes_M (boxes_at r id))) fh)) l.

Lemma box_in_file r id h vb fh l id' h' :
  box_in (file r id h vb fh l) id' h'
  = if decide (id' = id /\ h' = h) then Some vb else box_in r id' h'.
Proof.
  unfold file, box_in. cbn. rewrite lookup_insert. case_decide as Hid.
  - subst id'. cbn. rewrite lookup_insert. unfold boxes_at.
    repeat case_decide; try naive_solver. by destruct (Voting r !! id).
  - rewrite decide_False by naive_solver. done.
Qed.

Lemma boxes_at_wf mx r id : Rounds.round_wf mx r -> Rounds.boxes_wf (round_policy r) id (boxes_at r id).
Proof.
  intros Hr. unfold boxes_at. destruct (Voting r !! id) as [bs|] eqn:Hbs; cbn.
  - by eapply Rounds.rw_boxes.
  - apply Rounds.newVoteBoxes_wf.
Qed.

Lemma box_in_wf mx r id h vb :
  Rounds.round_wf mx r -> box_in r id h = Some vb ->
  Box.box_wf (round_policy r) vb /\ iHash vb = h /\ iID vb = id.
Proof.
  intros Hr Hvb. rewrite <- boxes_at_lookup in Hvb.
  by apply (Rounds.bsw_box _ _ _ (boxes_at_wf mx r id Hr)).
Qed.

Lemma box_in_hash mx r id h vb d :
  Rounds.round_wf mx r -> box_in r id h = Some vb -> instruction (box_proposal vb) = Some d ->
  HashFixed d = Ok h.
Proof.
  intros Hr Hvb. rewrite <- boxes_at_lookup in Hvb.
  by apply (Rounds.bsw_hash _ _ _ (boxes_at_wf mx r id Hr)).
Qed.

Lemma round_pending_file a r id h vb fh l :
  Rounds.round_pending a (file r id h vb fh l)
  = Rounds.round_pending a r - Rounds.pending_at a (box_in r id h) + Rounds.is_pending a vb.
Proof.
  unfold file.
  change (Rounds.round_pending a (set_limiter ?r l)) with (Rounds.round_pending a r).
  rewrite Rounds.round_pending_put.
  change (Rounds.boxes_pending a (mkVoteBoxes ?m fh))
    with (Rounds.boxes_pending a (Rounds.put_box (boxes_at r id) h vb)).
  rewrite Rounds.boxes_pending_put, boxes_at_lookup.
  assert (Rounds.boxes_pending a (boxes_at r id)
          = match Voting r !! id with Some bs => Rounds.boxes_pending a bs | None => 0 end) as ->; [|lia].
  unfold boxes_at. by destruct (Voting r !! id).
Qed.

Lemma file_wf mx r id h vb fh l :
  Rounds.round_wf mx r -> Limiter.wf l -> Limiter.maxPendingRequests l = mx ->
  Box.box_wf (round_policy r) vb -> iHash vb = h -> iID vb = id ->
  (forall d, instruction (box_proposal vb) = Some d -> HashFixed d = Ok h) ->
  (forall vb0, box_in r id h = Some vb0 -> Finalized vb0 = true -> Finalized vb = true) ->
  fh = FinalizedHash (boxes_at r id) \/ fh = h /\ Finalized vb = true ->
  (forall a, Rounds.round_pending a r - Rounds.pending_at a (box_in r id h) + Rounds.is_pending a vb
             <= Limiter.pending_of l a) ->
  Rounds.round_wf mx (file r id h vb fh l).
Proof.
  intros Hr Hl Hmx Hvb Hh Hid Hd Hmono Hfh Hpend. constructor; try done; try apply Hr.
  - intros id' bs. cbn. rewrite lookup_insert_Some. intros [[<- <-]|[_ Hbs]];
      [|by eapply Rounds.rw_boxes].
    destruct (Rounds.boxes_wf_put _ _ _ h vb (boxes_at_wf mx r id Hr) Hvb Hh Hid Hd) as [Hb Hx Hf].
    { intros vb0. rewrite boxes_at_lookup. apply Hmono. }
    constructor; [done|done|]. destruct Hfh as [->|[-> Hfin]]; [done|].
    intros _. exists vb. cbn. by rewrite lookup_insert_eq.
  - intros a. rewrite round_pending_file. apply Hpend.
Qed.

Lemma set_limiter_wf mx r l :
  Rounds.round_wf mx r -> Limiter.wf l -> Limiter.maxPendingRequests l = mx ->
  (forall a, Rounds.round_pending a r <= Limiter.pending_of l a) ->
  Rounds.round_wf mx (set_limiter r l).
Proof. intros [] ???. by constructor. Qed.

(** ** Getting the box to vote in *)

(** What the caller guarantees of the data: the fields are of their Go type,
    the size check has passed, and the clocks read dates after 1970. *)
Record call_ok (data : Data) (c : Clock) : Prop := {
  call_cosigners : zlen (Cosigners data) < 65536;
  call_timestamp : 0 <= Timestamp data < 2 ^ 64;
  call_clock : unixToInternal * second <= c_event c
}.

(** The limiter after a request: the slot of the signer is [k] higher. *)
Definition slots (r : Round) (l : Limiter.Limiter) (signer : Address) (k : Z) : Prop :=
  Limiter.maxPendingRequests l = Limiter.maxPendingRequests (round_limiter r) /\
  forall a, Limiter.pending_of l a = Limiter.pending_of (round_limiter r) a + if decide (a = signer) then k else 0.

Lemma get_box_spec mx r mt data hash signer expiration c :
  Rounds.round_wf mx r -> MetaLaws mt -> call_ok data c -> HashFixed data = Ok hash ->
  match get_box r mt data hash signer expiration c with
  | (r', Ok vb) =>
      exists l, r' = set_limiter r l /\ Limiter.wf l /\ Limiter.maxPendingRequests l = mx /\
        Box.box_wf (round_policy r) vb /\ iHash vb = hash /\ iID vb = InstructionID data /\
        (box_in r (InstructionID data) hash = Some vb /\ l = round_limiter r \/
         box_in r (InstructionID data) hash = None /\ deleted vb = false /\ Proposer vb = signer /\
         Finalized vb = false /\ votes vb = Some ∅ /\
         instruction (box_proposal vb) = Some (data_fixed data) /\ slots r l signer 1) /\
        (forall a, Rounds.round_pending a r - Rounds.pending_at a (box_in r (InstructionID data) hash)
                   + Rounds.is_pending a vb <= Limiter.pending_of l a)
  | (r', Fail e) =>
      box_in r (InstructionID data) hash = None /\
      exists l, r' = set_limiter r l /\ Rounds.round_wf mx r' /\ slots r l signer 0
  | (_, Panic) => False
  end.
Proof.
  intros Hr Hmt [Hcos Hts Hclk] Hhash. unfold get_box. rewrite boxes_at_lookup.
  destruct (box_in r (InstructionID data) hash) as [vb|] eqn:Hin.
  - destruct (box_in_wf mx r _ _ _ Hr Hin) as (Hwf & Hh & Hid).
    exists (round_limiter r). split_and!; try done; try apply Hr; [by destruct r|by left|].
    intros a. cbn [Rounds.pending_at]. pose proof (Rounds.rw_pending mx r Hr a). lia.
  - pose proof (Box.startVoteBox_meets_spec data signer r mt expiration (c_event c) (c_start c)
      (Rounds.rw_policy mx r Hr) Hmt (Rounds.rw_limiter mx r Hr) Hcos Hts Hclk) as Hs.
    unfold Box.startVoteBox_spec in Hs.
    pose proof (Box.startVoteBox_max data signer r mt expiration (c_event c) (c_start c)) as Hmax.
    destruct (Box.startVoteBox data signer r mt expiration (c_event c) (c_start c)) as [r' [vb|e|]];
      destruct Hs as (Hr' & Hl & Hs); cbn [fst] in Hmax; rewrite (Rounds.rw_max mx r Hr) in Hmax; [| |done].
    + destruct Hs as (_ & _ & Hpend & (t & cs & ct & ih & h & _ & _ & _ & _ & Hih & _ & -> & Hopen)).
      exists (round_limiter r'). split_and!; try done; [cbn; congruence| |].
      { right. split_and!; try done. split; [by rewrite Hmax, (Rounds.rw_max mx r Hr)|done]. }
      intros a. rewrite Hpend. cbn [Rounds.pending_at]. unfold Rounds.is_pending; cbn.
      pose proof (Rounds.rw_pending mx r Hr a). repeat case_decide; naive_solver lia.
    + destruct Hs as [Hpend _]. split; [done|]. exists (round_limiter r'). split; [done|].
      split; [|split; [by rewrite Hmax, (Rounds.rw_max mx r Hr)|intros a; rewrite Hpend; case_decide; lia]].
      rewrite Hr'. apply set_limiter_wf; try done.
      intros a. rewrite Hpend. apply Hr.
Qed.

(** ** The critical section *)

(** A round after a refused vote: exactly as before, or with another vote hash in the box
    that was voted in, or, without a box, with the signer's slot of the limiter taken,
    which is so when a new box refused its first vote. *)
Definition refused (r r' : Round) (id hash : Hash) (signer : Address) : Prop :=
  r' = r \/
  (exists vb h, box_in r id hash = Some vb /\
     r' = Rounds.put_boxes r id (Rounds.put_box (boxes_at r id) hash (set_box_VoteHash vb h))) \/
  (exists l k, box_in r id hash = None /\ r' = set_limiter r l /\ slots r l signer k /\ 0 <= k <= 1).

(** What the critical section does to the round [r].  Only the box of the
    instruction hash is touched.  A failure changes at most the vote hash of
    an existing box (and the limiter's counters); a success leaves a live box
    of the same instruction, which this call opened if it did not exist. *)
Definition locked_spec (mx : Z) (r : Round) (data : Data) (hash : Hash) (signer : Address)
    (out : stateful Round Locked) : Prop :=
  let id := InstructionID data in
  let '(r', res) := out in
  Rounds.round_wf mx r' /\
  r' = mkRound (round_policy r) (Voting r') (round_limiter r') (providerVoters r) (proposers r)
         (maxVotingWeight r) /\
  (forall id' h', ~ (id' = id /\ h' = hash) -> box_in r' id' h' = box_in r id' h') /\
  match res with
  | Ok l =>
      exists vb', box_in r' id hash = Some vb' /\ deleted vb' = false /\
        instruction (box_proposal vb') = Some (data_fixed data) /\
        lk_startedBox l = bool_decide (box_in r id hash = None) /\
        match box_in r id hash with
        | Some vb => deleted vb = false /\ Box.same_frame vb vb' /\
                     lk_reached l = negb (Finalized vb) && Finalized vb' /\
                     (Finalized vb = true -> Finalized vb' = true) /\
                     instruction (box_proposal vb) = Some (data_fixed data)
        | None => Proposer vb' = signer /\ lk_reached l = Finalized vb'
        end /\
        (exists m, votes vb' = Some m /\ is_Some (m !! signer)) /\
        match lk_actionToSend l with
        | Some a => lk_reached l = true /\ ~ Box.is_restore data /\ Box.box_Action vb' Threshold = Ok a
        | None => lk_reached l = false \/ Box.is_restore data \/ lk_buildErr l = true
        end /\
        (lk_isProvider l = true -> is_Some (policy_VoterData (round_policy r) !! signer)) /\
        lk_votedWeight l = weight vb' /\ 0 <= weight vb' <= policy_TotalWeight (round_policy r)
  | Fail e =>
      refused r r' id hash signer /\
      match box_in r id hash with
      | Some vb => exists h, box_in r' id hash = Some (set_box_VoteHash vb h)
      | None => box_in r' id hash = None
      end
  | Panic => False
  end.

Lemma set_box_VoteHash_id vb : set_box_VoteHash vb (VoteHash vb) = vb.
Proof. by destruct vb. Qed.

Lemma box_wf_open p vb :
  Box.box_wf p vb -> deleted vb = false -> exists m, votes vb = Some m /\ Box.box_open p vb m.
Proof. unfold Box.box_wf. destruct (votes vb); [eauto|congruence]. Qed.

Lemma is_pending_mono a vb vb' :
  Proposer vb' = Proposer vb -> (Finalized vb = true -> Finalized vb' = true) ->
  Rounds.is_pending a vb' <= Rounds.is_pending a vb.
Proof.
  intros Hp Hm. unfold Rounds.is_pending. rewrite Hp.
  destruct (Finalized vb) eqn:Hf; [rewrite Hm by done|]; repeat case_decide; intuition lia.
Qed.
Lemma is_pending_done a vb : Finalized vb = true -> Rounds.is_pending a vb = 0.
Proof. intros Hf. unfold Rounds.is_pending. rewrite Hf. case_decide; intuition congruence. Qed.
Lemma is_pending_live a vb :
  Finalized vb = false -> Rounds.is_pending a vb = if decide (a = Proposer vb) then 1 else 0.
Proof. intros Hf. unfold Rounds.is_pending. rewrite Hf. repeat case_decide; naive_solver. Qed.

(** A box after a vote is filed under its own identifiers. *)
Lemma file_voted mx r id h vb vb' fh l :
  Rounds.round_wf mx r -> Limiter.wf l -> Limiter.maxPendingRequests l = mx ->
  Box.box_wf (round_policy r) vb' -> Box.same_frame vb vb' -> iHash vb = h -> iID vb = id ->
  (forall d, instruction (box_proposal vb) = Some d -> HashFixed d = Ok h) ->
  (box_in r id h = Some vb \/ box_in r id h = None) ->
  (Finalized vb = true -> Finalized vb' = true) ->
  fh = FinalizedHash (boxes_at r id) \/ fh = h /\ Finalized vb' = true ->
  (forall a, Rounds.round_pending a r - Rounds.pending_at a (box_in r id h) + Rounds.is_pending a vb'
             <= Limiter.pending_of l a) ->
  Rounds.round_wf mx (file r id h vb' fh l).
Proof.
  intros Hr Hl Hmx Hwf (Hi & Hh & _ & Hp & _) Hhash Hid Hd Hin Hmono Hfh Hpend.
  apply file_wf; try done; try congruence.
  - rewrite Hp. done.
  - intros vb0 Hvb0 Hf. destruct Hin as [Hin|Hin]; [apply Hmono|]; congruence.
Qed.

Lemma put_boxes_twice r id b1 b2 l :
  Rounds.put_boxes (set_limiter (Rounds.put_boxes r id b1) l) id b2
  = set_limiter (Rounds.put_boxes r id b2) l.
Proof. unfold Rounds.put_boxes, set_limiter, set_Voting; cbn. by rewrite insert_insert_eq. Qed.

(** A successful critical section files the voted box. *)
Lemma locked_spec_file mx r (data : Data) hash signer vb vb' fh l lk :
  let id := InstructionID data in
  Rounds.round_wf mx (file r id hash vb' fh l) ->
  Box.same_frame vb vb' -> deleted vb = false -> deleted vb' = false ->
  instruction (box_proposal vb) = Some (data_fixed data) ->
  box_in r id hash = Some vb \/ box_in r id hash = None /\ Proposer vb = signer /\ Finalized vb = false ->
  (Finalized vb = true -> Finalized vb' = true) ->
  lk_startedBox lk = match box_in r id hash with None => true | Some _ => false end ->
  lk_reached lk = negb (Finalized vb) && Finalized vb' ->
  (exists m, votes vb' = Some m /\ is_Some (m !! signer)) ->
  match lk_actionToSend lk with
  | Some a => lk_reached lk = true /\ ~ Box.is_restore data /\ Box.box_Action vb' Threshold = Ok a
  | None => lk_reached lk = false \/ Box.is_restore data \/ lk_buildErr lk = true
  end ->
  (lk_isProvider lk = true -> is_Some (policy_VoterData (round_policy r) !! signer)) ->
  lk_votedWeight lk = weight vb' -> 0 <= weight vb' <= policy_TotalWeight (round_policy r) ->
  locked_spec mx r data hash signer (file r id hash vb' fh l, Ok lk).
Proof.
  intros id. unfold id; clear id. intros Hwf Hf Hd Hd' Hi Hin Hmono Hst Hre Hvt Hact Hprov Hw Hwb.
  pose proof Hf as (_ & _ & Hprop & Hpp & _). split_and!; [done|done| |].
  - intros id' h' Hne. rewrite box_in_file, decide_False by done. done.
  - exists vb'. rewrite box_in_file, decide_True by done. rewrite Hpp.
    split_and!; try done; try apply Hwb.
    + rewrite Hst. destruct (box_in r (InstructionID data) hash); [rewrite bool_decide_false by done|]; done.
    + destruct Hin as [Hin|(Hin & Hs & Hfin)]; rewrite Hin; [done|].
      rewrite Hre, Hfin. split; [congruence|done].
Qed.

Lemma locked_section_spec mx r mt (data : Data) hash signer sig expiration c :
  Rounds.round_wf mx r -> MetaLaws mt -> call_ok data c -> HashFixed data = Ok hash ->
  locked_spec mx r data hash signer (locked_section r mt data hash signer sig expiration c).
Proof.
  intros Hr Hmt Hc Hhash. unfold locked_section. rewrite boxes_at_lookup.
  pose proof (get_box_spec mx r mt data hash signer expiration c Hr Hmt Hc Hhash) as Hbox.
  destruct (get_box r mt data hash signer expiration c) as [r1 [vb|e|]]; cbn [sbind]; [| |done].
  2:{ destruct Hbox as (Hin & l & -> & Hwf & Hsl). split_and!; [done|done|done| |by rewrite Hin].
      right; right. exists l, 0. split_and!; [done|done|done|lia|lia]. }
  destruct Hbox as (l & -> & Hl & Hmx & Hwf & Hih & Hid & Hcase & Hpend).
  assert (Hd : forall d, instruction (box_proposal vb) = Some d -> d = data_fixed data).
  { intros d Hd. destruct Hcase as [[Hin _]|(_ & _ & _ & _ & _ & Hi & _)]; [|congruence].
    pose proof (box_in_hash mx r _ _ _ _ Hr Hin Hd). by eapply HashFixed_inj. }
  assert (Hdh : forall d, instruction (box_proposal vb) = Some d -> HashFixed d = Ok hash)
    by (intros d Hd'; by rewrite (Hd d Hd')).
  assert (Hin : box_in r (InstructionID data) hash = Some vb \/ box_in r (InstructionID data) hash = None)
    by (destruct Hcase as [[? _]|[? _]]; auto).
  destruct (deleted vb) eqn:Hdel.
  { destruct Hcase as [[Hin' ->]|(_ & Hdel' & _)]; [|congruence].
    assert (set_limiter r (round_limiter r) = r) as -> by by destruct r.
    split_and!; [done|by destruct r|done|by left|]. rewrite Hin'. exists (VoteHash vb).
    by rewrite set_box_VoteHash_id. }
  destruct (box_wf_open _ _ Hwf Hdel) as (m & Hm & Hopen).
  change (round_policy (set_limiter r l)) with (round_policy r).
  destruct (Box.voterGroupCheck signer (policy_VoterData (round_policy r)) (cosigners (box_proposal vb)))
    as [vg w] eqn:Hg.
  pose proof (Box.addVote_meets_spec (round_policy r) vb m signer sig (AdditionalVariableMessage data)
    vg w (c_vote c) (Rounds.rw_policy mx r Hr) Hm Hopen Hg) as Hadd.
  pose proof (Box.voterGroupCheck_group _ _ _ _ _ Hg) as (_ & Hprov & _).
  destruct (Box.addVote vb signer w sig (AdditionalVariableMessage data) vg (c_vote c))
    as [vb' [[receipt fin]|e|]]; cbn [Box.addVote_spec] in Hadd; [| |done].
  - pose proof Hadd as Hadd0. destruct Hadd as (_ & _ & _ & Hframe & Hv' & Ho' & Hfin & _).
    pose proof Hframe as (_ & _ & Hprop & Hpp & _).
    pose proof (Box.bo_final _ _ _ Hopen) as Hf. pose proof (Box.bo_final _ _ _ Ho') as Hf'.
    rewrite Hpp in Hf'. rewrite bool_decide_and, bool_decide_not, <- Hf, <- Hf' in Hfin.
    assert (Hmono : Finalized vb = true -> Finalized vb' = true).
    { rewrite Hf, Hf', !bool_decide_eq_true. apply Box.reached_insert; [apply Hr|].
      destruct Hadd0 as (_ & _ & Hn & _). done. }
    assert (Hdel' : deleted vb' = false) by apply Ho'.
    assert (Hwf' : Box.box_wf (round_policy r) vb') by (unfold Box.box_wf; by rewrite Hv').
    assert (Hi : instruction (box_proposal vb) = Some (data_fixed data)).
    { destruct (Box.bo_instruction _ _ _ Hopen) as [d Hi]. by rewrite <- (Hd d Hi). }
    assert (Hwb : 0 <= weight vb' <= policy_TotalWeight (round_policy r)).
    { rewrite (Box.bo_weight _ _ _ Ho'). apply Box.votes_weight_bound, Hr. }
    assert (Hin3 : box_in r (InstructionID data) hash = Some vb \/
      box_in r (InstructionID data) hash = None /\ Proposer vb = signer /\ Finalized vb = false)
      by (destruct Hcase as [[? _]|(?&?&?&?&?&?)]; auto).
    assert (Hprov' : Box.isProvider vg = true -> is_Some (policy_VoterData (round_policy r) !! signer))
      by (rewrite Hprov; apply bool_decide_eq_true).
    assert (Hvt : exists m0, votes vb' = Some m0 /\ is_Some (m0 !! signer))
      by (eexists; split; [exact Hv'|rewrite lookup_insert_eq; eauto]).
    destruct fin; cbn [negb].
    + symmetry in Hfin. apply andb_true_iff in Hfin as [Hnf%negb_true_iff Hf2].
      assert (Hfile : forall fh, fh = FinalizedHash (boxes_at r (InstructionID data)) \/ fh = hash ->
        Rounds.round_wf mx (file r (InstructionID data) hash vb' fh (Limiter.Decrement l (Proposer vb')))).
      { intros fh Hfh. destruct (Limiter.Decrement_spec l (Proposer vb') Hl) as (Hmax & _ & Hdec).
        eapply (file_voted mx r _ _ vb); try done; [by apply Limiter.Decrement_wf|congruence|tauto|].
        intros a. specialize (Hpend a). rewrite Hdec, Hprop.
        rewrite is_pending_done by done. rewrite is_pending_live in Hpend by done.
        pose proof (Limiter.pending_of_bound l a Hl). case_decide; lia. }
      destruct (decide (Box.is_restore data)) as [Hres|Hres].
      * eapply (locked_spec_file mx r data hash signer vb vb' _ (Limiter.Decrement l (Proposer vb')));
          try done; [apply Hfile; by left|..]; cbn; [by rewrite Hnf, Hf2|by right; left].
      * rewrite put_boxes_twice.
        change (FinalizedHash (Rounds.put_box (boxes_at r (InstructionID data)) hash vb'))
          with (FinalizedHash (boxes_at r (InstructionID data))).
        destruct (Box.box_Action_total _ _ _ Threshold (Rounds.rw_policy mx r Hr) Hv' Ho') as [Hnp Hok].
        destruct (decide (FinalizedHash (boxes_at r (InstructionID data)) = zero_hash)) as [Hz|Hz];
          (destruct (Box.box_Action vb' Threshold) as [a|e|] eqn:Ha; [| |done]);
          eapply (locked_spec_file mx r data hash signer vb vb' _ (Limiter.Decrement l (Proposer vb')));
          try done; try (apply Hfile; tauto); cbn; try (by rewrite Hnf, Hf2); by right; right.
    + change (Rounds.put_boxes _ _ _) with
        (file r (InstructionID data) hash vb' (FinalizedHash (boxes_at r (InstructionID data))) l).
      eapply (locked_spec_file mx r data hash signer vb vb'); try done; cbn; [|by left].
      eapply (file_voted mx r _ _ vb); try done; [by left|].
      intros a. specialize (Hpend a).
      pose proof (is_pending_mono a vb vb' Hprop Hmono). lia.
  - destruct Hcase as [[Hin' ->]|(Hin' & _ & _ & _ & _ & _ & Hsl)]; rewrite Hin'.
    + assert (exists h, vb' = set_box_VoteHash vb h) as [h ->].
      { destruct Hadd as [(_&_&->)|[(_&_&_&->)|[(_&_&_&_&->)|(h&_&_&_&_&_&_&->)]]];
          [exists (VoteHash vb); by rewrite set_box_VoteHash_id..|by exists h]. }
      change (Rounds.put_boxes _ _ _) with
        (file r (InstructionID data) hash (set_box_VoteHash vb h)
           (FinalizedHash (boxes_at r (InstructionID data))) (round_limiter r)).
      split_and!; [|done| | |].
      * eapply (file_voted mx r _ _ vb); try done; [|by left].
        unfold Box.box_wf. cbn. rewrite Hm. by apply Box.box_open_VoteHash.
      * intros id' h' Hne. by rewrite box_in_file, decide_False.
      * right; left. exists vb, h. split; [done|]. by destruct r.
      * rewrite Hin'. exists h. by rewrite box_in_file, decide_True.
    + split_and!; [|done|done| |by rewrite Hin'].
      2:{ right; right. exists l, 1. split_and!; [done|done|done|lia|lia]. }
      apply set_limiter_wf; try done. intros a. specialize (Hpend a). rewrite Hin' in Hpend.
      cbn in Hpend. pose proof (Rounds.is_pending_range a vb). lia.
Qed.
End Locked.
Section System.
Context `{OpLib, InstructionLib, CyclicLib}.
Context `{!InstructionLaws, !InstructionHashInj, !CyclicLaws}.

(** ** Interleavings *)

(** One step of the service: the policy service stores a round, a request
    votes, the goroutine of a box runs, or it is cancelled on shutdown. *)
Record request_ok (data : Data) (c : Clock) : Prop := {
  req_timestamp : 0 <= Timestamp data < 2 ^ 64;
  req_epoch : 0 <= RewardEpochID data < 2 ^ 32;
  req_clock : unixToInternal * second <= c_event c
}.

Inductive step (s : Storage) : Storage -> Prop :=
| step_store policy : policy_wf policy -> step s (StoreNewRound s policy)
| step_vote mt data signer sig c sent :
    MetaLaws mt -> request_ok data c -> step s (AddVote s mt data signer sig c sent).1
| step_end b now taken : b ∈ timers s -> step s (scheduleEnd s b now taken).1
| step_cancel b : b ∈ timers s -> step s (set_timers s (timers s ∖ {[b]})).

Definition config_ok (c : Config.Voting) : Prop :=
  0 < Config.HistorySize c < 2 ^ 32 /\ 0 <= Config.MaxPendingRequests c < 2 ^ 64.

Definition reachable (s : Storage) : Prop :=
  exists config collect, config_ok config /\ rtc step (NewStorage config collect) s.

(** ** Invariant *)

Definition tag_of (a : Action) : SubmissionTag := ad_SubmissionTag (action_Data a).
Definition sent_tags (s : Storage) : list (path * SubmissionTag) :=
  (fun x => (x.1, tag_of x.2)) <$> Out s.

(** What a box looks like from which an action with a tag has been sent. *)
Definition has_sent (vb : voteBox) (tag : SubmissionTag) : Prop :=
  Finalized vb = true /\
  match tag with
  | Threshold => deleted vb = true \/
                 exists d, instruction (box_proposal vb) = Some d /\ ~ Box.is_restore d
  | End => deleted vb = true
  | _ => False
  end.

Record inv (s : Storage) : Prop := {
  inv_size : 0 < cyclic_Size (rounds s) < 2 ^ 32;
  inv_max : 0 <= Config.MaxPendingRequests (config s) < 2 ^ 64;
  inv_heap p r : heap s !! p = Some r ->
    Rounds.round_wf (Config.MaxPendingRequests (config s)) r /\ (p < next s)%nat;
  inv_get e p : 0 <= e -> cyclic_Get (rounds s) e = Some p ->
    exists r, heap s !! p = Some r /\ policy_RewardEpochID (round_policy r) = e;
  inv_timers b : b ∈ timers s -> exists vb, box_at s b = Some vb /\ deleted vb = false;
  inv_out b a : (b, a) ∈ Out s -> exists vb, box_at s b = Some vb /\ has_sent vb (tag_of a);
  inv_nodup : NoDup (sent_tags s);
  inv_epoch : 0 <= currentEpoch s < 2 ^ 32;
  inv_newest e : 0 <= e -> is_Some (cyclic_Get (rounds s) e) -> e <= currentEpoch s
}.

Lemma inv_ext s s' :
  heap s' = heap s -> next s' = next s -> rounds s' = rounds s -> config s' = config s ->
  Out s' = Out s -> timers s' = timers s -> currentEpoch s' = currentEpoch s -> inv s -> inv s'.
Proof.
  destruct s, s'; cbn. intros -> -> -> -> -> -> -> []. by constructor.
Qed.

(** How a box may change once it exists. *)
Definition evolves (vb vb' : voteBox) : Prop :=
  (Finalized vb = true -> Finalized vb' = true) /\
  (deleted vb' = true \/
   deleted vb = false /\ deleted vb' = false /\ box_proposal vb' = box_proposal vb).

#[export] Instance evolves_refl : Reflexive evolves.
Proof. intros vb. split; [done|]. destruct (deleted vb); auto. Qed.

Lemma has_sent_evolves vb vb' tag : evolves vb vb' -> has_sent vb tag -> has_sent vb' tag.
Proof.
  intros [Hf Hd] [Hfin Ht]. split; [auto|].
  destruct tag; try done; destruct Hd as [|(Hd & _ & Hp)]; try rewrite Hp; try (by left);
    try congruence; destruct Ht; [congruence|auto].
Qed.

Lemma box_at_set_round s p r b :
  box_at (set_round s p r) b
  = let '(p', id, h) := b in if decide (p' = p) then box_in r id h else box_at s b.
Proof.
  destruct b as [[p' id] h]. cbn. rewrite lookup_insert. repeat case_decide; naive_solver.
Qed.

(** Replacing a round by one in which every box has evolved. *)
Lemma inv_set_round s p r r' :
  inv s -> heap s !! p = Some r ->
  Rounds.round_wf (Config.MaxPendingRequests (config s)) r' ->
  round_policy r' = round_policy r ->
  (forall id h vb, box_in r id h = Some vb -> exists vb', box_in r' id h = Some vb' /\ evolves vb vb') ->
  (forall id h, (p, id, h) ∈ timers s -> exists vb', box_in r' id h = Some vb' /\ deleted vb' = false) ->
  inv (set_round s p r').
Proof.
  intros Hinv Hp Hwf Hpol Hbox Htim. constructor; try apply Hinv.
  - intros p' r0. cbn. rewrite lookup_insert_Some. intros [[<- <-]|[_ Hr0]]; [|by apply Hinv].
    split; [done|]. by apply (inv_heap s Hinv p r).
  - intros e p' He Hg. destruct (inv_get s Hinv e p' He Hg) as (r0 & Hr0 & He0).
    cbn. rewrite lookup_insert. case_decide as Heq; [|eauto]. subst p'. exists r'. split; [done|].
    rewrite Hpol. congruence.
  - intros b Hb. rewrite box_at_set_round. destruct b as [[p' id] h].
    case_decide; [subst p'; eauto|by apply (inv_timers s Hinv)].
  - intros b a Hba. destruct (inv_out s Hinv b a Hba) as (vb & Hvb & Hs).
    rewrite box_at_set_round. destruct b as [[p' id] h]. case_decide; [|eauto]. subst p'.
    cbn in Hvb. rewrite Hp in Hvb. cbn in Hvb.
    destruct (Hbox id h vb Hvb) as (vb' & Hvb' & Hev). exists vb'. split; [done|].
    by eapply has_sent_evolves.
Qed.

Lemma inv_set_timers s T :
  inv s -> (forall b, b ∈ T -> exists vb, box_at s b = Some vb /\ deleted vb = false) ->
  inv (set_timers s T).
Proof. intros [] HT. by constructor. Qed.

Lemma inv_drop_timer s T : inv s -> inv (set_timers s (timers s ∖ T)).
Proof. intros Hinv. apply inv_set_timers; [done|]. intros b Hb. apply Hinv. set_solver. Qed.

(** Sending actions with fresh tags. *)
Lemma inv_send s b vb acts :
  inv s -> box_at s b = Some vb ->
  Forall (fun a => has_sent vb (tag_of a) /\ (b, tag_of a) ∉ sent_tags s) acts ->
  NoDup (tag_of <$> acts) ->
  inv (send s ((fun a => (b, a)) <$> acts)).
Proof.
  intros Hinv Hb Hacts Hnd. constructor; try apply Hinv.
  - intros b' a'. cbn. rewrite elem_of_app. intros [Hin|Hin]; [by apply (inv_out s Hinv)|].
    apply list_elem_of_fmap in Hin as (a & [= -> ->] & Ha). exists vb. split; [done|].
    rewrite Forall_forall in Hacts. by apply Hacts.
  - unfold sent_tags. cbn. rewrite fmap_app. apply NoDup_app. split_and!.
    + apply (inv_nodup s Hinv).
    + intros x Hx Hin. rewrite <- list_fmap_compose in Hin.
      apply list_elem_of_fmap in Hin as (a & -> & Ha). rewrite Forall_forall in Hacts.
      by destruct (Hacts a Ha).
    + rewrite <- list_fmap_compose.
      change ((fun x : path * Action => (x.1, tag_of x.2)) ∘ (fun a => (b, a)))
        with (pair b ∘ tag_of).
      rewrite list_fmap_compose. apply NoDup_fmap; [|done]. intros x y [= ->]. done.
Qed.

(** ** Every step keeps the invariant *)

Lemma inv_init config collect : config_ok config -> inv (NewStorage config collect).
Proof.
  intros [Hh Hm]. constructor; cbn; try done.
  - rewrite cyclic_Size_New; lia.
  - intros e p _. by rewrite cyclic_Get_New.
  - intros b a Hb. by apply elem_of_nil in Hb.
  - constructor.
  - intros e _. rewrite cyclic_Get_New. by intros [].
Qed.

Lemma Get_Some s e p r : Get s e = Some (p, r) <-> cyclic_Get (rounds s) e = Some p /\ heap s !! p = Some r.
Proof. unfold Get. destruct (cyclic_Get (rounds s) e) as [q|]; [|naive_solver].
  destruct (heap s !! q) eqn:Hq; cbn; naive_solver. Qed.

Lemma inv_Get_None s e : inv s -> 0 <= e -> Get s e = None -> cyclic_Get (rounds s) e = None.
Proof.
  intros Hinv He Hg. destruct (cyclic_Get (rounds s) e) as [p|] eqn:Hp; [|done].
  destruct (inv_get s Hinv e p He Hp) as (r & Hr & _). unfold Get in Hg. by rewrite Hp, Hr in Hg.
Qed.

(** A fresh pointer is in use nowhere. *)
Lemma inv_next s : inv s -> heap s !! next s = None.
Proof.
  intros Hinv. destruct (heap s !! next s) as [r|] eqn:Hr; [|done].
  destruct (inv_heap s Hinv _ _ Hr). lia.
Qed.

Lemma inv_StoreNewRound s policy : inv s -> policy_wf policy -> inv (StoreNewRound s policy).
Proof.
  intros Hinv Hp. unfold StoreNewRound.
  destruct (Get s (policy_RewardEpochID policy)) eqn:Hg; [done|].
  pose proof (inv_next s Hinv) as Hnext. pose proof (policy_wf_epoch _ Hp) as He.
  assert (Hat : forall b vb, box_at s b = Some vb ->
    box_at (mkStorage (<[next s := Rounds.createRound policy
        (Config.MaxPendingRequests (config s)) (collectVoters s)]> (heap s)) (S (next s))
        (cyclic_Store (rounds s) (policy_RewardEpochID policy) (next s)) (config s) (Out s) (timers s)
        (events s) (collectVoters s)
        (if decide (currentEpoch s < policy_RewardEpochID policy) then policy_RewardEpochID policy
         else currentEpoch s) (maxConsensusEpoch s)) b = Some vb).
  { intros [[p id] h] vb. cbn. rewrite lookup_insert. case_decide as Hq; [|done].
    subst p. rewrite Hnext. done. }
  constructor; cbn; try apply Hinv.
  - rewrite cyclic_Size_Store. apply Hinv.
  - intros p r. rewrite lookup_insert_Some. intros [[<- <-]|[_ Hr]].
    + split; [|lia]. apply Rounds.createRound_wf; [done|apply Hinv].
    + destruct (inv_heap s Hinv p r Hr). split; [done|lia].
  - intros e p He' Hg'. apply cyclic_Get_Store_Some in Hg'; [|apply Hinv|lia..].
    destruct Hg' as [[-> ->]|[_ Hg']].
    + eexists. split; [apply lookup_insert_eq|]. unfold Rounds.createRound.
      by destruct (collectVoters s).
    + destruct (inv_get s Hinv e p He' Hg') as (r & Hr & Hre). exists r. split; [|done].
      rewrite lookup_insert_ne; [done|congruence].
  - intros b Hb. destruct (inv_timers s Hinv b Hb) as (vb & Hvb & Hd). eauto.
  - intros b a Hba. destruct (inv_out s Hinv b a Hba) as (vb & Hvb & Hs). eauto.
  - pose proof (inv_epoch s Hinv). case_decide; lia.
  - intros e He' [p Hg']. apply cyclic_Get_Store_Some in Hg'; [|apply Hinv|lia..].
    assert (Hle : cyclic_Get (rounds s) e = Some p -> e <= currentEpoch s)
      by (intros; apply (inv_newest s Hinv); eauto).
    destruct Hg' as [[? _]|[_ Hg'']]; [|specialize (Hle Hg'')]; case_decide; lia.
Qed.

(** *** The gauges' bookkeeping after a vote *)

Lemma mark_participation_wf mx s r l signer :
  Rounds.round_wf mx r ->
  (lk_isProvider l = true -> is_Some (policy_VoterData (round_policy r) !! signer)) ->
  0 <= lk_votedWeight l <= policy_TotalWeight (round_policy r) ->
  Rounds.round_wf mx (mark_participation s r l signer) /\
  round_policy (mark_participation s r l signer) = round_policy r.
Proof.
  intros Hr Ha Hw. unfold mark_participation.
  set (r1 := if collectVoters s && lk_isProvider l then _ else r).
  assert (Rounds.round_wf mx r1 /\ round_policy r1 = round_policy r) as Hone.
  { unfold r1. destruct (collectVoters s && lk_isProvider l) eqn:Hp; [|done].
    apply andb_true_iff in Hp as [_ Hp].
    unfold Rounds.recordVotingWeight, Rounds.markProviderVoter.
    destruct (providerVoters r) as [S|] eqn:HS; cbn; [|by rewrite HS]. split; [|done].
    destruct Hr as [? ? ? ? ? Hv ?]. constructor; try done; cbn; [|lia].
    intros S' a' [= <-] Ha'%elem_of_union. destruct Ha' as [->%elem_of_singleton|Ha']; [by apply Ha|eauto]. }
  clearbody r1. destruct Hone as (Hr1 & Hp). destruct (collectVoters s && lk_startedBox l); [|done].
  unfold Rounds.markProposer. destruct (proposers r1); [|done].
  split; [|done]. destruct Hr1. by constructor.
Qed.

Lemma mark_participation_Voting s r l signer :
  Voting (mark_participation s r l signer) = Voting r.
Proof.
  unfold mark_participation, Rounds.recordVotingWeight, Rounds.markProviderVoter, Rounds.markProposer.
  repeat case_match; done.
Qed.

Lemma mark_participation_same s s' r l signer :
  collectVoters s' = collectVoters s ->
  mark_participation s' r l signer = mark_participation s r l signer.
Proof. unfold mark_participation. by intros ->. Qed.

(** What is left of [finish_vote] when metrics are ignored. *)
Lemma finish_vote_fields s p id hash r l epoch signer sent :
  let '(s', res) := finish_vote s (p, id, hash) r l epoch signer sent in
  heap s' = <[p := mark_participation s r l signer]> (heap s) /\ next s' = next s /\
  rounds s' = rounds s /\ config s' = config s /\
  timers s' = (if lk_startedBox l then {[(p, id, hash)]} ∪ timers s else timers s) /\
  currentEpoch s' = currentEpoch s /\
  match lk_actionToSend l with
  | Some a => Out s' = Out s ++ (if sent then [((p, id, hash), a)] else []) /\
              res = (if sent then Ok (lk_receipt l) else Fail (errorf [sentinel "context.Canceled"]))
  | None => Out s' = Out s /\ res = Ok (lk_receipt l)
  end.
Proof.
  unfold finish_vote.
  set (s1 := if lk_startedBox l then _ else s).
  assert (H1' : heap s1 = heap s /\ next s1 = next s /\ rounds s1 = rounds s /\ config s1 = config s /\
    timers s1 = (if lk_startedBox l then {[(p, id, hash)]} ∪ timers s else timers s) /\ Out s1 = Out s /\
    collectVoters s1 = collectVoters s /\ currentEpoch s1 = currentEpoch s) by (unfold s1; by destruct (lk_startedBox l)).
  clearbody s1. destruct H1' as (Hh & Hn & Hr & Hc & Ht & Ho & Hcv & He).
  rewrite (mark_participation_same s s1) by done.
  set (s2 := set_round s1 p _).
  set (s3 := if lk_reached l then _ else s2).
  assert (H3' : heap s3 = <[p := mark_participation s r l signer]> (heap s) /\ next s3 = next s /\
    rounds s3 = rounds s /\ config s3 = config s /\
    timers s3 = (if lk_startedBox l then {[(p, id, hash)]} ∪ timers s else timers s) /\ Out s3 = Out s /\
    currentEpoch s3 = currentEpoch s).
  { unfold s3, recordConsensusEpoch. rewrite <- Hh, <- Hn, <- Hr, <- Hc, <- Ht, <- Ho, <- He.
    destruct (lk_reached l); [case_decide|]; done. }
  clearbody s3. destruct H3' as (Hh3 & Hn3 & Hr3 & Hc3 & Ht3 & Ho3 & He3).
  destruct (lk_actionToSend l); [destruct sent|]; destruct (lk_buildErr l); cbn;
    rewrite ?Hh3, ?Hn3, ?Hr3, ?Hc3, ?Ht3, ?Ho3, ?He3, ?app_nil_r; done.
Qed.

(** *** A vote *)

Lemma locked_evolves mx r data hash signer r' res :
  locked_spec mx r data hash signer (r', res) ->
  forall id h vb, box_in r id h = Some vb -> exists vb', box_in r' id h = Some vb' /\ evolves vb vb' /\
    (deleted vb = false -> deleted vb' = false).
Proof.
  intros (_ & _ & Hframe & Hres) id h vb Hvb.
  destruct (decide (id = InstructionID data /\ h = hash)) as [[-> ->]|Hne].
  - destruct res as [l|e|]; [| |done].
    + destruct Hres as (vb' & Hvb' & Hd' & _ & _ & Hold & _). rewrite Hvb in Hold.
      destruct Hold as (Hd & (_ & _ & _ & Hp & _) & _ & Hmono & _).
      exists vb'. split_and!; [done| |done]. split; [done|]. right. done.
    + destruct Hres as [_ Hres]. rewrite Hvb in Hres. destruct Hres as (hh & ->). eexists. split_and!; [done| |done].
      split; [done|]. destruct (deleted vb) eqn:Hd; cbn; [by left|by right].
  - exists vb. rewrite Hframe by done. split_and!; [done|done|done].
Qed.

(** An accepted vote that finalises a box sends its first Threshold action. *)
Lemma fresh_threshold s p r id hash :
  inv s -> heap s !! p = Some r ->
  match box_in r id hash with
  | Some vb => Finalized vb = false
  | None => True
  end ->
  forall tag, ((p, id, hash), tag) ∉ sent_tags s.
Proof.
  intros Hinv Hp Hold tag Hin.
  apply list_elem_of_fmap in Hin as ([b a] & [= <- ->] & Hba).
  destruct (inv_out s Hinv _ _ Hba) as (vb & Hvb & Hf & _). cbn in Hvb. rewrite Hp in Hvb. cbn in Hvb.
  rewrite Hvb in Hold. congruence.
Qed.







Lemma checkSize_cosigners data f : Constraints.checkSize data f = Ok tt -> zlen (Cosigners data) <= 1024.
Proof.
  unfold Constraints.checkSize. intros (c & _ & Hc)%res_bind_ok. revert Hc.
  unfold Constraints.maxCosigners. case_decide; [done|]. lia.
Qed.

(** The requests that get as far as the critical section. *)
Lemma admitted_call s data c hash :
  request_ok data c ->
  (_ ← Constraints.checkSize data (Config.MaxProviderVote (config s)); HashFixed data) = Ok hash ->
  call_ok data c /\ HashFixed data = Ok hash.
Proof.
  intros [Hts Hep Hc] ([] & Hsz%checkSize_cosigners & Hh)%res_bind_ok. split; [|done].
  constructor; [lia|done|done].
Qed.

(** Putting the round back after the critical section. *)
Lemma inv_locked s p r data hash signer r' res r2 :
  inv s -> heap s !! p = Some r ->
  locked_spec (Config.MaxPendingRequests (config s)) r data hash signer (r', res) ->
  Rounds.round_wf (Config.MaxPendingRequests (config s)) r2 ->
  round_policy r2 = round_policy r' -> Voting r2 = Voting r' ->
  inv (set_round s p r2).
Proof.
  intros Hinv Hp Hl Hwf Hpol Hv. pose proof (locked_evolves _ _ _ _ _ _ _ Hl) as Hev.
  assert (Hbox : forall id h, box_in r2 id h = box_in r' id h) by (intros; unfold box_in; by rewrite Hv).
  eapply inv_set_round; try done.
  - destruct Hl as (_ & Hr' & _). rewrite Hpol, Hr'. done.
  - intros id h vb Hvb. destruct (Hev id h vb Hvb) as (vb' & ? & ? & _). rewrite Hbox. eauto.
  - intros id h Ht. destruct (inv_timers s Hinv _ Ht) as (vb & Hvb & Hd).
    cbn in Hvb. rewrite Hp in Hvb. cbn in Hvb.
    destruct (Hev id h vb Hvb) as (vb' & ? & ? & Hd'). rewrite Hbox. eauto.
Qed.

Lemma AddVote_inv s mt data signer sig c sent :
  inv s -> MetaLaws mt -> request_ok data c -> inv (AddVote s mt data signer sig c sent).1.
Proof.
  intros Hinv Hmt Hreq. unfold AddVote.
  destruct (_ ← Constraints.checkSize data (Config.MaxProviderVote (config s)); HashFixed data)
    as [hash|e|] eqn:Hsz; [|done..].
  apply (admitted_call s data c hash Hreq) in Hsz as [Hcall Hhash].
  destruct (Get s (RewardEpochID data)) as [[p r]|] eqn:Hg; [|done].
  apply Get_Some in Hg as [_ Hp].
  destruct (meta_CheckConsistency mt data signer); [|done..].
  pose proof (inv_heap s Hinv p r Hp) as [Hr _].
  pose proof (locked_section_spec _ r mt data hash signer sig (Config.ProposalExpiration (config s)) c
    Hr Hmt Hcall Hhash) as Hl.
  destruct (locked_section r mt data hash signer sig (Config.ProposalExpiration (config s)) c)
    as [r' [l|e|]]; cbn [fst]; [|eapply inv_locked; try done; apply Hl..].
  pose proof Hl as (Hwf' & Hr' & _ & vb' & Hvb' & Hd' & Hi' & Hst & Hold & _ & Hact & Hprov & Hw & Hwb).
  assert (Hpol : round_policy r' = round_policy r) by by rewrite Hr'.
  destruct (mark_participation_wf _ s r' l signer Hwf') as (Hwf2 & Hpol2); [by rewrite Hpol|rewrite Hpol; lia|].
  pose proof (mark_participation_Voting s r' l signer) as Hv2.
  pose proof (finish_vote_fields s p (InstructionID data) hash r' l (RewardEpochID data) signer sent) as Hfin.
  destruct (finish_vote s (p, InstructionID data, hash) r' l (RewardEpochID data) signer sent) as [s' res].
  destruct Hfin as (Hh & Hn & Hrs & Hc & Ht & Hep & Hout). cbn [fst].
  set (r2 := mark_participation s r' l signer) in *.
  pose proof (inv_locked s p r data hash signer r' (Ok l) r2 Hinv Hp Hl Hwf2 Hpol2 Hv2) as Hinv2.
  set (b := (p, InstructionID data, hash)) in *.
  assert (Hb : box_at (set_round s p r2) b = Some vb').
  { unfold b. cbn. rewrite lookup_insert_eq. cbn. unfold box_in. by rewrite Hv2. }
  assert (Hinv3 : inv (set_timers (set_round s p r2)
            (if lk_startedBox l then {[b]} ∪ timers s else timers s))).
  { apply inv_set_timers; [done|]. intros b' Hb'.
    destruct (decide (b' = b)) as [->|Hne]; [eauto|].
    apply (inv_timers _ Hinv2). cbn. destruct (lk_startedBox l); set_solver. }
  destruct (lk_actionToSend l) as [act|] eqn:Ha.
  2:{ destruct Hout as [Hout _]. by eapply inv_ext; [..|exact Hinv3]. }
  destruct Hout as [Hout _]. destruct sent.
  2:{ rewrite app_nil_r in Hout. by eapply inv_ext; [..|exact Hinv3]. }
  destruct Hact as (Hreach & Hnres & Hok).
  destruct (box_wf_open (round_policy r') vb') as (m & Hm & Hopen); [|done|].
  { by apply (box_in_wf _ _ _ _ _ Hwf' Hvb'). }
  destruct (Box.box_Action_total _ _ _ Threshold (Rounds.rw_policy _ _ Hwf') Hm Hopen) as [_ Htag].
  apply Htag in Hok as [Hfin Htg].
  assert (Hfresh : forall tag, (b, tag) ∉ sent_tags s).
  { eapply fresh_threshold; try done. destruct (box_in r (InstructionID data) hash) as [vb|]; [|done].
    destruct Hold as (_ & _ & Hre & _). rewrite Hreach in Hre. symmetry in Hre.
    apply andb_true_iff in Hre as [Hn' _]. by apply negb_true_iff in Hn'. }
  eapply inv_ext; [..|apply (inv_send _ b vb' [act] Hinv3 Hb)]; try done.
  - constructor; [|done]. unfold tag_of. rewrite Htg. split; [|apply Hfresh].
    split; [done|]. right. eauto.
  - apply NoDup_singleton.
Qed.

(** *** The end of a box *)

Lemma closing_tags_cases fh vb d :
  Box.closing_tags fh vb d = [] \/
  Finalized vb = true /\ (Box.is_restore d /\ Box.closing_tags fh vb d = [Threshold; End] \/
                          ~ Box.is_restore d /\ Box.closing_tags fh vb d = [End]).
Proof.
  unfold Box.closing_tags. destruct (Finalized vb); [|by left]. cbn [negb].
  repeat case_decide; auto.
Qed.

Lemma scheduleEnd_inv s b now taken :
  inv s -> b ∈ timers s -> inv (scheduleEnd s b now taken).1 /\ (scheduleEnd s b now taken).2 = Ok tt.
Proof.
  intros Hinv Hb. destruct b as [[p id] h]. unfold scheduleEnd.
  destruct (inv_timers s Hinv _ Hb) as (vb & Hvb & Hd). cbn in Hvb.
  destruct (heap s !! p) as [r|] eqn:Hp; [|done]. cbn in Hvb.
  rewrite boxes_at_lookup, Hvb. case_decide as Hnow; [done|].
  destruct (inv_heap s Hinv p r Hp) as [Hr _].
  destruct (box_in_wf _ r id h vb Hr Hvb) as (Hwf & Hih & Hid).
  destruct (box_wf_open _ _ Hwf Hd) as (m & Hm & Hopen).
  destruct (Box.bo_instruction _ _ _ Hopen) as [d Hi].
  destruct (Box.bo_order _ _ _ Hopen) as (order & Hord & Harr).
  rewrite (Box.closeBox_actions _ (FinalizedHash (boxes_at r id)) vb m d order Hm Hopen Hi Hord Harr).
  change (Rounds.put_boxes r id (Rounds.put_box (boxes_at r id) h (Box.delete vb)))
    with (file r id h (Box.delete vb) (FinalizedHash (boxes_at r id)) (round_limiter r)).
  set (r' := file r id h (Box.delete vb) (FinalizedHash (boxes_at r id)) (round_limiter r)).
  assert (Hev : evolves vb (Box.delete vb)) by (split; [done|by left]).
  assert (Hwf' : Rounds.round_wf (Config.MaxPendingRequests (config s)) r').
  { apply file_wf; try done; try apply Hr; [intros vb0 Hvb0 Hf; by assert (vb0 = vb) as -> by congruence|by left|].
    intros a. rewrite Hvb. cbn [Rounds.pending_at].
    change (Rounds.is_pending a (Box.delete vb)) with (Rounds.is_pending a vb).
    pose proof (Rounds.rw_pending _ r Hr a). lia. }
  assert (Hinv1 : inv (set_timers s (timers s ∖ {[(p, id, h)]}))) by by apply inv_drop_timer.
  assert (Hinv2 : inv (set_round (set_timers s (timers s ∖ {[(p, id, h)]})) p r')).
  { eapply inv_set_round; try done.
    - intros id' h' vb0 Hvb0. unfold r'. rewrite box_in_file. case_decide as Heq; [|by exists vb0].
      destruct Heq as [-> ->]. exists (Box.delete vb). split; [done|].
      by assert (vb0 = vb) as -> by congruence.
    - intros id' h' Ht. destruct (inv_timers _ Hinv1 _ Ht) as (vb0 & Hvb0 & Hd0).
      cbn in Hvb0. rewrite Hp in Hvb0. cbn in Hvb0. unfold r'. rewrite box_in_file.
      rewrite decide_False; [eauto|]. intros [-> ->]. cbn in Ht. set_solver. }
  assert (Hat : box_at (set_round (set_timers s (timers s ∖ {[(p, id, h)]})) p r') (p, id, h)
                = Some (Box.delete vb)).
  { cbn. rewrite lookup_insert_eq. cbn. unfold r'. by rewrite box_in_file, decide_True. }
  set (acts := match json_Marshal_DataFixed d with
               | Ok msg => (fun tag => Box.arrival_action d tag msg order)
                             <$> Box.closing_tags (FinalizedHash (boxes_at r id)) vb d
               | _ => []
               end).
  assert (Htags : exists k, tag_of <$> take taken acts
                  = take k (Box.closing_tags (FinalizedHash (boxes_at r id)) vb d)).
  { unfold acts. destruct (json_Marshal_DataFixed d) as [msg|e|].
    - exists taken. rewrite <- fmap_take, <- list_fmap_compose.
      etrans; [by apply (list_fmap_ext _ (fun x => x))|apply list_fmap_id].
    - exists 0%nat. by rewrite take_nil.
    - exists 0%nat. by rewrite take_nil. }
  assert (Hlast : inv (send (set_round (set_timers s (timers s ∖ {[(p, id, h)]})) p r')
                         ((fun a => ((p, id, h), a)) <$> take taken acts))).
  { destruct Htags as [k Hk]. eapply inv_send; [done|exact Hat|..].
    - apply Forall_forall. intros a Ha.
      assert (tag_of a ∈ Box.closing_tags (FinalizedHash (boxes_at r id)) vb d) as Htag.
      { apply (list_elem_of_fmap_2 tag_of) in Ha. rewrite Hk in Ha. apply elem_of_take in Ha as (i & Hi' & _). by eapply list_elem_of_lookup_2. }
      clear Ha Hk. destruct (closing_tags_cases (FinalizedHash (boxes_at r id)) vb d)
        as [He|(Hf & Hcases)]; [rewrite He in Htag; by apply elem_of_nil in Htag|].
      assert (Hnot : forall tag, (((p, id, h), tag) ∈ sent_tags s) -> has_sent vb tag).
      { intros tag Hin. apply list_elem_of_fmap in Hin as ([b0 a0] & [= <- ->] & Hba).
        destruct (inv_out s Hinv _ _ Hba) as (vb0 & Hvb0 & Hs0). cbn in Hvb0. rewrite Hp in Hvb0.
        cbn in Hvb0. by assert (vb0 = vb) as -> by congruence. }
      assert (tag_of a = Threshold /\ Box.is_restore d \/ tag_of a = End) as Hta.
      { destruct Hcases as [[Hres Ht]|[_ Ht]]; rewrite Ht in Htag; set_unfold; naive_solver. }
      split.
      + destruct Hta as [ [-> _] | -> ]; (split; [done|]); [by left|done].
      + intros Hin. apply Hnot in Hin as [_ Hs]. destruct Hta as [[Ht Hres]|Ht]; rewrite Ht in Hs; [|congruence].
        destruct Hs as [|(d0 & Hd0 & Hnr)]; [congruence|]. assert (d0 = d) as -> by congruence. done.
    - rewrite Hk. eapply sublist_NoDup; [|apply sublist_take]. destruct (closing_tags_cases (FinalizedHash (boxes_at r id)) vb d)
        as [He|(_ & Hc)]; [rewrite He; constructor|destruct Hc as [Hc|Hc]; destruct Hc as [_ He]; rewrite He]; by (repeat constructor; set_solver). }
  destruct (json_Marshal_DataFixed d); cbn [fst snd]; split; try case_decide; try done;
    (eapply inv_ext; [..|exact Hlast]); try done; unfold acts; cbn; by rewrite ?take_nil.
Qed.
(** ** Properties *)

Lemma step_inv s s' : inv s -> step s s' -> inv s'.
Proof.
  intros Hinv []; [by apply inv_StoreNewRound|by apply AddVote_inv|by apply scheduleEnd_inv
                  |by apply inv_drop_timer].
Qed.

Lemma reachable_inv s : reachable s -> inv s.
Proof.
  intros (config & collect & Hc & Hsteps). pose proof (inv_init config collect Hc) as Hinv.
  induction Hsteps; [done|]. eauto using step_inv.
Qed.

(** The vote of an admitted request is recorded in a live box of its
    instruction, which holds the signer's vote. *)
Definition recorded (s s' : Storage) (data : Data) (signer : Address) : Prop :=
  exists p r hash vb m, Get s (RewardEpochID data) = Some (p, r) /\ HashFixed data = Ok hash /\
    box_at s' (p, InstructionID data, hash) = Some vb /\ deleted vb = false /\
    votes vb = Some m /\ is_Some (m !! signer) /\
    instruction (box_proposal vb) = Some (data_fixed data) /\
    timers s' = (if decide (box_at s (p, InstructionID data, hash) = None)
                 then {[(p, InstructionID data, hash)]} ∪ timers s else timers s).

(** Nothing has changed but the round of the named epoch, and there only the vote hash of
    the instruction's own box or the signer's slot of the limiter. *)
Definition rejected (s s' : Storage) (data : Data) (signer : Address) : Prop :=
  s' = s \/
  exists p r r' hash, Get s (RewardEpochID data) = Some (p, r) /\ HashFixed data = Ok hash /\
    refused r r' (InstructionID data) hash signer /\ s' = set_round s p r'.

Definition AddVote_spec (s : Storage) (data : Data) (signer : Address) (sent : bool)
    (out : stateful Storage Receipt) : Prop :=
  let '(s', res) := out in
  match res with
  | Ok _ => recorded s s' data signer /\ exists acts, Out s' = Out s ++ acts /\ (length acts <= 1)%nat
  | Fail e =>
      rejected s s' data signer \/
      sent = false /\ errors_Is e "context.Canceled" = true /\ recorded s s' data signer /\ Out s' = Out s
  | Panic => False
  end.

Lemma locked_recorded mx s p r (data : Data) hash signer r' l r2 s' :
  heap s !! p = Some r -> Get s (RewardEpochID data) = Some (p, r) -> HashFixed data = Ok hash ->
  locked_spec mx r data hash signer (r', Ok l) -> Voting r2 = Voting r' ->
  heap s' !! p = Some r2 ->
  timers s' = (if lk_startedBox l then {[(p, InstructionID data, hash)]} ∪ timers s else timers s) ->
  recorded s s' data signer.
Proof.
  intros Hp Hg Hh (_ & _ & _ & vb' & Hvb' & Hd & Hi & Hst & _ & (m & Hm & Hsig) & _) Hv Hp' Ht.
  exists p, r, hash, vb', m. split_and!; try done.
  - cbn. rewrite Hp'. cbn. unfold box_in. by rewrite Hv.
  - rewrite Ht, Hst. cbn. rewrite Hp. cbn.
    destruct (box_in r (InstructionID data) hash); [|by rewrite decide_True].
    rewrite bool_decide_false by done. by rewrite decide_False.
Qed.

Lemma AddVote_meets_spec s mt (data : Data) signer sig c sent :
  inv s -> MetaLaws mt -> request_ok data c ->
  AddVote_spec s data signer sent (AddVote s mt data signer sig c sent).
Proof.
  intros Hinv Hmt Hreq. unfold AddVote.
  pose proof (Constraints.checkSize_no_panic data (Config.MaxProviderVote (config s))) as Hnp.
  pose proof (HashFixed_no_panic data) as Hnh.
  assert (Hrefl : rejected s s data signer) by by left.
  destruct (Constraints.checkSize data (Config.MaxProviderVote (config s))) as [[]|e|] eqn:Hsz;
    cbn [mbind res_bind]; [|by left|done].
  destruct (HashFixed data) as [hash|e|] eqn:Hh; [|by left|done].
  destruct (Get s (RewardEpochID data)) as [[p r]|] eqn:Hg; [|by left].
  pose proof (proj1 (Get_Some _ _ _ _) Hg) as [_ Hp].
  pose proof (meta_CheckConsistency_no_panic (m := mt) data signer).
  destruct (meta_CheckConsistency mt data signer); [|by left|done].
  pose proof (inv_heap s Hinv p r Hp) as [Hr _].
  destruct (admitted_call s data c hash Hreq) as [Hcall _]; [by rewrite Hsz|].
  pose proof (locked_section_spec _ r mt data hash signer sig (Config.ProposalExpiration (config s)) c
    Hr Hmt Hcall Hh) as Hl.
  destruct (locked_section r mt data hash signer sig (Config.ProposalExpiration (config s)) c)
    as [r' [l|e|]]; [| |by destruct Hl as (_ & _ & _ & [])].
  2:{ left. right. exists p, r, r', hash. split_and!; try done. by destruct Hl as (_ & _ & _ & ? & _). }
  pose proof (finish_vote_fields s p (InstructionID data) hash r' l (RewardEpochID data) signer sent) as Hfin.
  destruct (finish_vote s (p, InstructionID data, hash) r' l (RewardEpochID data) signer sent) as [s' res].
  destruct Hfin as (Hheap & _ & _ & _ & Ht & _ & Hout).
  assert (Hrec : recorded s s' data signer).
  { eapply (locked_recorded _ s p r data hash signer r' l (mark_participation s r' l signer)); try done.
    - apply mark_participation_Voting.
    - by rewrite Hheap, lookup_insert_eq. }
  destruct (lk_actionToSend l) as [act|]; [destruct sent|]; destruct Hout as [Hout ->]; cbn [AddVote_spec].
  - split; [done|]. by eexists.
  - right. rewrite app_nil_r in Hout. done.
  - split; [done|]. exists []. rewrite app_nil_r. split; [done|]. cbn. lia.
Qed.

Lemma AddVote_no_panic s mt data signer sig c sent :
  inv s -> MetaLaws mt -> request_ok data c -> (AddVote s mt data signer sig c sent).2 <> Panic.
Proof.
  intros Hinv Hmt Hreq. pose proof (AddVote_meets_spec s mt data signer sig c sent Hinv Hmt Hreq) as Hs.
  destruct (AddVote s mt data signer sig c sent) as [s' [| |]]; done.
Qed.

(** C1: in every reachable state, whatever the interleaving of votes, new
    rounds, expiring boxes and shutdown, the invariant holds, and no vote and
    no end of voting panics: no nil map is written, no nil instruction is
    dereferenced, no slice is indexed out of range. *)
Theorem reachable_safe s :
  reachable s ->
  inv s /\
  (forall mt data signer sig c sent, MetaLaws mt -> request_ok data c ->
     (AddVote s mt data signer sig c sent).2 <> Panic) /\
  (forall b now taken, b ∈ timers s -> (scheduleEnd s b now taken).2 = Ok tt).
Proof.
  intros Hs%reachable_inv. split_and!; [done| |].
  - intros. by apply AddVote_no_panic.
  - intros. by apply scheduleEnd_inv.
Qed.

(** C2: a call of [AddVote] in a reachable state.  When a receipt is returned
    the signer's vote is recorded in a live box of that very instruction,
    filed in the round of the named epoch under the instruction's hash, whose
    closing goroutine has been started if the box is new; at most one action
    has been sent.  When an error is returned, the storage is what it was, but for
    the vote hash of the instruction's own box or the signer's slot of the limiter
    in that round: no vote counts, no box appears, nothing is sent, no set of
    voters or proposers, no finalised hash, no other round changes -- except when
    the service context ended during the final send, where the vote stays
    recorded. *)
Theorem AddVote_correct s mt (data : Data) signer sig c sent :
  reachable s -> MetaLaws mt -> request_ok data c ->
  AddVote_spec s data signer sent (AddVote s mt data signer sig c sent).
Proof. intros Hs%reachable_inv. by apply AddVote_meets_spec. Qed.

Lemma AddVote_evolves s mt data signer sig c sent b vb :
  inv s -> MetaLaws mt -> request_ok data c -> box_at s b = Some vb ->
  exists vb', box_at (AddVote s mt data signer sig c sent).1 b = Some vb' /\ evolves vb vb'.
Proof.
  intros Hinv Hmt Hreq Hb. unfold AddVote.
  destruct (_ ← Constraints.checkSize data (Config.MaxProviderVote (config s)); HashFixed data)
    as [hash|e|] eqn:Hsz; [|by exists vb..].
  apply (admitted_call s data c hash Hreq) in Hsz as [Hcall Hhash].
  destruct (Get s (RewardEpochID data)) as [[p r]|] eqn:Hg; [|by exists vb].
  apply Get_Some in Hg as [_ Hp].
  destruct (meta_CheckConsistency mt data signer); [|by exists vb..].
  pose proof (inv_heap s Hinv p r Hp) as [Hr _].
  pose proof (locked_section_spec _ r mt data hash signer sig (Config.ProposalExpiration (config s)) c
    Hr Hmt Hcall Hhash) as Hl.
  destruct (locked_section r mt data hash signer sig (Config.ProposalExpiration (config s)) c) as [r' res].
  pose proof (locked_evolves _ _ _ _ _ _ _ Hl) as Hev.
  assert (Hupd : forall r2 s', Voting r2 = Voting r' -> heap s' = <[p := r2]> (heap s) ->
    exists vb', box_at s' b = Some vb' /\ evolves vb vb').
  { intros r2 s' Hv Hh. destruct b as [[p' id] h]. cbn in Hb |- *. rewrite Hh, lookup_insert.
    case_decide as Hq; [|by exists vb]. subst p'. rewrite Hp in Hb. cbn in Hb |- *.
    destruct (Hev id h vb Hb) as (vb' & Hvb' & Hevb & _). exists vb'. split; [|done].
    unfold box_in. by rewrite Hv. }
  destruct res as [l|e|]; cbn [fst]; [|by apply (Hupd r')..].
  pose proof (finish_vote_fields s p (InstructionID data) hash r' l (RewardEpochID data) signer sent) as Hfin.
  destruct (finish_vote s (p, InstructionID data, hash) r' l (RewardEpochID data) signer sent) as [s' res].
  destruct Hfin as (Hh & _). eapply Hupd; [|exact Hh]. apply mark_participation_Voting.
Qed.

Lemma StoreNewRound_box_at s policy b vb :
  inv s -> box_at s b = Some vb -> box_at (StoreNewRound s policy) b = Some vb.
Proof.
  intros Hinv. unfold StoreNewRound. destruct (Get s _); [done|].
  destruct b as [[p id] h]. cbn. rewrite lookup_insert. case_decide as Hq; [|done].
  subst p. by rewrite (inv_next s Hinv).
Qed.

Lemma scheduleEnd_evolves s b now taken b' vb :
  box_at s b' = Some vb ->
  exists vb', box_at (scheduleEnd s b now taken).1 b' = Some vb' /\ evolves vb vb'.
Proof.
  intros Hb. destruct b as [[p id] h]. unfold scheduleEnd.
  destruct (heap s !! p) as [r|] eqn:Hp; [|by exists vb].
  rewrite boxes_at_lookup. destruct (box_in r id h) as [vb0|] eqn:Hin; [|by exists vb].
  case_decide; [by exists vb|].
  assert (Hdel : (Box.closeBox (FinalizedHash (boxes_at r id)) vb0).1 = Box.delete vb0)
    by (unfold Box.closeBox; by destruct (instruction (box_proposal vb0))).
  destruct (Box.closeBox (FinalizedHash (boxes_at r id)) vb0) as [vb1 out]. cbn in Hdel. subst vb1.
  assert (Hupd : forall s', heap s' = <[p := Rounds.put_boxes r id (Rounds.put_box (boxes_at r id) h (Box.delete vb0))]> (heap s) ->
    exists vb', box_at s' b' = Some vb' /\ evolves vb vb').
  { intros s' Hh. destruct b' as [[p' id'] h']. cbn in Hb |- *. rewrite Hh, lookup_insert.
    case_decide as Hq; [|by exists vb]. subst p'. rewrite Hp in Hb. cbn in Hb |- *.
    change (Rounds.put_boxes r id (Rounds.put_box (boxes_at r id) h (Box.delete vb0)))
      with (file r id h (Box.delete vb0) (FinalizedHash (boxes_at r id)) (round_limiter r)).
    rewrite box_in_file. case_decide as Heq; [|by exists vb]. destruct Heq as [-> ->].
    exists (Box.delete vb0). split; [done|]. assert (vb0 = vb) as -> by congruence.
    split; [done|by left]. }
  destruct out as [[acts lost]|e|]; apply Hupd; [case_decide|..]; done.
Qed.

(** C21: the life cycle of a box.  From the step that files it on, a box never
    disappears and is never replaced by another proposal: finalisation is
    permanent, deletion is permanent, and until it is deleted its proposal --
    thresholds, cosigners, instruction -- is the one it was opened with. *)
Theorem box_lifecycle s s' b vb :
  reachable s -> rtc step s s' -> box_at s b = Some vb ->
  exists vb', box_at s' b = Some vb' /\
    (Finalized vb = true -> Finalized vb' = true) /\
    (deleted vb = true -> deleted vb' = true) /\
    (deleted vb' = false -> box_proposal vb' = box_proposal vb).
Proof.
  intros Hs%reachable_inv Hsteps Hb.
  assert (exists vb', box_at s' b = Some vb' /\ evolves vb vb') as (vb' & Hvb' & Hf & Hd).
  { revert vb Hb. induction Hsteps as [s|s1 s2 s3 Hstep _ IH]; intros vb Hb; [by exists vb|].
    assert (exists vb', box_at s2 b = Some vb' /\ evolves vb vb') as (vb2 & Hvb2 & Hev).
    { destruct Hstep; [exists vb; split; [by apply StoreNewRound_box_at|done]
                      |by apply AddVote_evolves|by apply scheduleEnd_evolves|by exists vb]. }
    destruct (IH (step_inv _ _ Hs Hstep) vb2 Hvb2) as (vb3 & Hvb3 & Hev3).
    exists vb3. split; [done|]. destruct Hev as [Hf Hd], Hev3 as [Hf3 Hd3]. split; [auto|].
    destruct Hd as [|(?&?&?)], Hd3 as [|(?&?&?)]; try (by left); [congruence|].
    right. split_and!; congruence. }
  exists vb'. split_and!; [done|done|..]; destruct Hd as [|(?&?&?)]; congruence.
Qed.

(** C7: a provider never has more unfinalised votings in a round than its
    limiter count says, and that count stays within the configured cap; an
    expired voting keeps counting. *)
Theorem pending_capped s p r a :
  reachable s -> heap s !! p = Some r ->
  Rounds.round_pending a r <= Limiter.pending_of (round_limiter r) a
  <= Config.MaxPendingRequests (config s).
Proof.
  intros Hs%reachable_inv Hp. destruct (inv_heap s Hs p r Hp) as [Hr _].
  split; [apply Hr|]. rewrite <- (Rounds.rw_max _ _ Hr). apply Limiter.pending_of_bound, Hr.
Qed.

(** C4: a live box is finalised exactly when the exact weight of its
    recorded voters exceeds its threshold and enough of its cosigners voted;
    its 16-bit sums are those exact sums, so no overflow can finalise a box
    early. *)
Theorem finalised_iff_reached s p r id h vb m :
  reachable s -> heap s !! p = Some r -> box_at s (p, id, h) = Some vb -> votes vb = Some m ->
  weight vb = Box.votes_weight (round_policy r) m /\
  cosignerWeight vb = Box.votes_cosigners (cosigners (box_proposal vb)) m /\
  (Finalized vb = true <-> Box.reached (round_policy r) (box_proposal vb) m).
Proof.
  intros Hs%reachable_inv Hp Hb Hm. destruct (inv_heap s Hs p r Hp) as [Hr _].
  cbn in Hb. rewrite Hp in Hb. cbn in Hb.
  destruct (box_in_wf _ r id h vb Hr Hb) as (Hwf & _). unfold Box.box_wf in Hwf. rewrite Hm in Hwf.
  split_and!; [apply Hwf..|]. rewrite (Box.bo_final _ _ _ Hwf). apply bool_decide_eq_true.
Qed.

(** C3: over a whole run, each box sends at most one Threshold and at most
    one End action and nothing else; an action is sent only from a finalised
    box; an End action, and the Threshold action of a provider restore, only
    once the box is closed. *)
Theorem actions_sent_once s :
  reachable s ->
  NoDup (sent_tags s) /\
  (forall b a, (b, a) ∈ Out s ->
     exists vb, box_at s b = Some vb /\ Finalized vb = true /\
       (tag_of a = Threshold /\
          (deleted vb = true \/
           exists d, instruction (box_proposal vb) = Some d /\ ~ Box.is_restore d) \/
        tag_of a = End /\ deleted vb = true)).
Proof.
  intros Hs%reachable_inv. split; [apply Hs|].
  intros b a Hba. destruct (inv_out s Hs b a Hba) as (vb & Hvb & Hf & Ht).
  exists vb. split_and!; [done|done|]. destruct (tag_of a); try done; auto.
Qed.
End System.

(** ** A concrete run: a round is stored, two providers and a cosigner vote,
    the box is finalised and sends its Threshold action, then it ends. *)

Module DemoRun.
#[local] Existing Instance Demo.instruction_lib.
#[local] Existing Instance Demo.op_lib.
#[local] Existing Instance Demo.instruction_laws.
#[local] Existing Instance Demo.instruction_hash_inj.
#[local] Existing Instance DemoCyclic.cyclic_lib.
#[local] Existing Instance DemoCyclic.cyclic_laws.

Definition config : Config.Voting := Config.mkVoting (60 * second) 3 4 10 Constraints.f64_zero.
Definition now : Z := Box.demo_now.
Definition clock : Clock := mkClock now now now now.
Definition vote (s : Storage) (signer : Address) : Storage :=
  (AddVote s DemoMeta.meta Box.demo_data signer [] clock true).1.

Definition s0 : Storage := StoreNewRound (NewStorage config true) Demo.policy.
Definition s1 : Storage := vote s0 1%N.
Definition s2 : Storage := vote (vote s1 2%N) 7%N.
Definition hash : Hash := Npos (encode (Demo.fixed_numbers Box.demo_data)).
Definition box : path := (0%nat, 9%N, hash).
Definition s3 : Storage := (scheduleEnd s2 box (now + 61 * second) 1).1.

Lemma request : request_ok Box.demo_data clock.
Proof. constructor; [cbn; lia|cbn; lia|by vm_compute]. Qed.

Lemma config_is_ok : config_ok config.
Proof. split; cbn; lia. Qed.

Lemma vote_step s signer : step s (vote s signer).
Proof. apply step_vote; [apply DemoMeta.meta_laws|apply request]. Qed.

Lemma s1_reachable : reachable s1.
Proof.
  exists config, true. split; [apply config_is_ok|].
  eapply rtc_l; [apply step_store, Demo.policy_ok|]. eapply rtc_l; [apply vote_step|]. apply rtc_refl.
Qed.

Lemma s2_reachable : reachable s2.
Proof.
  destruct s1_reachable as (c & b & Hc & Hs). exists c, b. split; [done|].
  eapply rtc_r; [eapply rtc_r; [exact Hs|apply vote_step]|apply vote_step].
Qed.

Lemma s2_timer : box ∈ timers s2.
Proof. apply (bool_decide_unpack _). vm_compute. exact I. Qed.

Lemma s3_reachable : reachable s3.
Proof.
  destruct s2_reachable as (c & b & Hc & Hs). exists c, b. split; [done|].
  eapply rtc_r; [exact Hs|]. apply step_end, s2_timer.
Qed.

Lemma reachable_safe_witness :
  inv s2 /\ (scheduleEnd s2 box (now + 61 * second) 1).2 = Ok tt.
Proof.
  destruct (reachable_safe s2 s2_reachable) as (Hi & _ & He). split; [exact Hi|apply He, s2_timer].
Defined.

Lemma AddVote_correct_witness :
  is_ok (AddVote s0 DemoMeta.meta Box.demo_data 1%N [] clock true).2 = true /\
  AddVote_spec s0 Box.demo_data 1%N true (AddVote s0 DemoMeta.meta Box.demo_data 1%N [] clock true).
Proof.
  split; [vm_compute; reflexivity|].
  apply (AddVote_correct s0 DemoMeta.meta Box.demo_data 1%N [] clock true); [|apply DemoMeta.meta_laws|apply request].
  exists config, true. split; [apply config_is_ok|].
  eapply rtc_l; [apply step_store, Demo.policy_ok|apply rtc_refl].
Defined.

Lemma box_lifecycle_witness :
  exists vb vb', box_at s2 box = Some vb /\ box_at s3 box = Some vb' /\
    Finalized vb = true /\ Finalized vb' = true /\ deleted vb' = true.
Proof.
  assert (Hb : exists vb, box_at s2 box = Some vb /\ Finalized vb = true)
    by (eexists; split; vm_compute; reflexivity).
  assert (Hd : exists vb, box_at s3 box = Some vb /\ deleted vb = true)
    by (eexists; split; vm_compute; reflexivity).
  destruct Hb as (vb & Hb & Hf), Hd as (vd & Hvd & Hd).
  destruct (box_lifecycle s2 s3 box vb s2_reachable) as (vb' & Hvb' & Hf' & _).
  { apply rtc_once, step_end, s2_timer. }
  { exact Hb. }
  exists vb, vb'. assert (vd = vb') as <- by congruence.
  split; [exact Hb|split; [exact Hvb'|split; [exact Hf|split; [apply Hf', Hf|exact Hd]]]].
Defined.

Lemma pending_capped_witness :
  exists r, heap s1 !! 0%nat = Some r /\ Rounds.round_pending 1%N r = 1 /\
    Rounds.round_pending 1%N r <= Limiter.pending_of (round_limiter r) 1%N <= 3.
Proof.
  assert (Hr : exists r, heap s1 !! 0%nat = Some r /\ Rounds.round_pending 1%N r = 1)
    by (eexists; split; vm_compute; reflexivity).
  destruct Hr as (r & Hr & Hp). exists r. split; [exact Hr|split; [exact Hp|]].
  exact (pending_capped s1 0 r 1%N s1_reachable Hr).
Defined.

Lemma finalised_iff_reached_witness :
  exists r vb m, heap s2 !! 0%nat = Some r /\ box_at s2 box = Some vb /\ votes vb = Some m /\
    Finalized vb = true /\ Box.reached (round_policy r) (box_proposal vb) m.
Proof.
  assert (Hb : exists r vb m, heap s2 !! 0%nat = Some r /\ box_at s2 box = Some vb /\
    votes vb = Some m /\ Finalized vb = true)
    by (do 3 eexists; split; [|split; [|split]]; vm_compute; reflexivity).
  destruct Hb as (r & vb & m & Hr & Hb & Hm & Hf). exists r, vb, m.
  destruct (finalised_iff_reached s2 0 r 9%N hash vb m s2_reachable Hr Hb Hm) as (_ & _ & Hfin).
  split; [exact Hr|split; [exact Hb|split; [exact Hm|split; [exact Hf|apply Hfin, Hf]]]].
Defined.

Lemma actions_sent_once_witness :
  sent_tags s3 = [(box, Threshold); (box, End)] /\ NoDup (sent_tags s3).
Proof.
  destruct (actions_sent_once s3 s3_reachable) as [H _].
  split; [vm_compute; reflexivity|exact H].
Defined.

End DemoRun.

End VotingProofs.
