(* ===== verification/Ballots.v ===== *)
(** Where the votes of a box come from: what each operation of the voting storage does to
    the votes that are recorded in it.  The service's theorem on signed votes rests on
    these facts ([Instructions.v]). *)

From S2P Require Import Prelude Status Types Limiter Constraints VotingData Box Cyclic Rounds Config VotingStorage VotingProofs.

Module Ballots.
Import VotingStorage VotingProofs.

Section Votes.
Context `{OpLib, InstructionLib, CyclicLib}.

(** The votes of a box of a round, and of a box of the storage. *)
Definition votes_in (r : Round) (id h : Hash) : gmap Address vote :=
  match box_in r id h with Some vb => Box.votes_of vb | None => ∅ end.
Definition votes_at (s : Storage) (b : path) : gmap Address vote :=
  match box_at s b with Some vb => Box.votes_of vb | None => ∅ end.
Definition epoch_at (s : Storage) (p : nat) : option Z := (fun r => policy_RewardEpochID (round_policy r)) <$> heap s !! p.

Lemma votes_at_round s p id h : votes_at s (p, id, h) = match heap s !! p with Some r => votes_in r id h | None => ∅ end.
Proof. unfold votes_at, votes_in. cbn. by destruct (heap s !! p). Qed.

(** [m'] are votes of [m] and the vote that a request of [signer] makes. *)
Definition adds_vote (data : Data) (signer : Address) (sig : bytes) (m m' : gmap Address vote) : Prop :=
  forall a v, m' !! a = Some v -> m !! a = Some v \/
    (a = signer /\ vote_Signature v = sig /\ vote_AdditionalVariableMessage v = AdditionalVariableMessage data).

Lemma adds_vote_refl data signer sig m : adds_vote data signer sig m m.
Proof. intros a v. auto. Qed.
Hint Resolve adds_vote_refl : core.

Lemma addVote_adds vb signer w sig data vg now :
  adds_vote data signer sig (Box.votes_of vb)
    (Box.votes_of (Box.addVote vb signer w sig (AdditionalVariableMessage data) vg now).1).
Proof.
  unfold Box.addVote. case_decide; [auto|]. destruct (time_Before _ _); [auto|]. case_decide; [auto|].
  destruct (NextVoteHash _ _ _ _ _) as [h [e|]]; [apply adds_vote_refl|].
  change (votes (set_box_VoteHash vb h)) with (votes vb). destruct (votes vb) as [m|] eqn:Hm; [|apply adds_vote_refl].
  assert (Hv : Box.votes_of vb = m) by (unfold Box.votes_of; by rewrite Hm).
  assert (Hadd : forall vb', votes vb' = Some (<[signer := mkVote (u64 (Z.of_nat (size (Box.votes_of vb)))) now sig
      (AdditionalVariableMessage data)]> m) -> adds_vote data signer sig (Box.votes_of vb) (Box.votes_of vb')).
  { intros vb' Hvb'. unfold Box.votes_of at 2. rewrite Hvb', Hv. cbn. intros a v. rewrite lookup_insert. case_decide as Ha; [|auto].
    intros [= <-]. right. by rewrite Ha. }
  destruct (Box.isCosigner vg); (destruct (negb _ && _ && _); apply Hadd; reflexivity).
Qed.

Lemma startVoteBox_votes data signer r mt expiration now start vb :
  (Box.startVoteBox data signer r mt expiration now start).2 = Ok vb -> Box.votes_of vb = ∅.
Proof.
  unfold Box.startVoteBox. destruct (time_Before _ _); [done|].
  destruct (Limiter.Increment _ _) as [l [u|e|]]; [|done..].
  destruct (Box.buildVoteBox _ _ _ _ _ _) as [vb'|e|] eqn:Hb; [|done..]. intros [= <-].
  unfold Box.buildVoteBox in Hb. apply res_bind_ok in Hb as (t & _ & Hb). apply res_bind_ok in Hb as (th & _ & Hb).
  apply res_bind_ok in Hb as ([cs ct] & _ & Hb). case_decide; [done|]. apply res_bind_ok in Hb as (vb0 & Hn & Hb).
  injection Hb as <-. rewrite wrap_ok in Hn. unfold Box.newVoteBox in Hn. apply res_bind_ok in Hn as (h & _ & Hn).
  apply res_bind_ok in Hn as (ih & _ & Hn). by injection Hn as <-.
Qed.

(** Filing a box, whatever the limiter and the finalised hash. *)
Lemma votes_in_file r id h vb fh l id' h' :
  votes_in (file r id h vb fh l) id' h' = if decide (id' = id /\ h' = h) then Box.votes_of vb else votes_in r id' h'.
Proof. unfold votes_in. rewrite box_in_file. by case_decide. Qed.

(** The critical section records at most the vote of its request, in the box of its
    instruction. *)
Definition section_votes (r : Round) (data : Data) (hash : Hash) (signer : Address) (sig : bytes) (r' : Round) : Prop :=
  round_policy r' = round_policy r /\
  adds_vote data signer sig (votes_in r (InstructionID data) hash) (votes_in r' (InstructionID data) hash) /\
  forall id' h', ~ (id' = InstructionID data /\ h' = hash) -> votes_in r' id' h' = votes_in r id' h'.

Lemma section_votes_file r data hash signer sig vb fh l :
  adds_vote data signer sig (votes_in r (InstructionID data) hash) (Box.votes_of vb) ->
  section_votes r data hash signer sig (file r (InstructionID data) hash vb fh l).
Proof.
  intros Ha. split; [done|]. split; [by rewrite votes_in_file, decide_True|].
  intros id' h' Hne. by rewrite votes_in_file, decide_False.
Qed.
Lemma section_votes_limiter r data hash signer sig l : section_votes r data hash signer sig (set_limiter r l).
Proof. by split; [|split]. Qed.

Lemma get_box_votes r mt data hash signer expiration c :
  exists l, (get_box r mt data hash signer expiration c).1 = set_limiter r l /\
  match (get_box r mt data hash signer expiration c).2 with
  | Ok vb => Box.votes_of vb = votes_in r (InstructionID data) hash
  | _ => True
  end.
Proof.
  unfold get_box, votes_in. rewrite boxes_at_lookup. destruct (box_in r _ hash) as [vb|].
  { exists (round_limiter r). split; [by destruct r|done]. }
  pose proof (startVoteBox_votes data signer r mt expiration (c_event c) (c_start c)) as Hv. revert Hv.
  unfold Box.startVoteBox. destruct (time_Before _ _); [exists (round_limiter r); split; [by destruct r|done]|].
  destruct (Limiter.Increment _ _) as [l [u|e|]]; [|by exists l..].
  destruct (Box.buildVoteBox _ _ _ _ _ _) as [vb'|e|]; cbn; intros Hv; eexists; (split; [reflexivity|]); auto.
Qed.

Lemma locked_section_votes r mt data hash signer sig expiration c :
  section_votes r data hash signer sig (locked_section r mt data hash signer sig expiration c).1.
Proof.
  unfold locked_section. rewrite boxes_at_lookup.
  destruct (get_box_votes r mt data hash signer expiration c) as (l & Hr1 & Hvb).
  destruct (get_box r mt data hash signer expiration c) as [r1 [vb|e|]]; cbn [fst snd sbind] in *; subst r1;
    [|apply section_votes_limiter..].
  destruct (deleted vb); [apply section_votes_limiter|].
  destruct (Box.voterGroupCheck _ _ _) as [vg w].
  pose proof (addVote_adds vb signer w sig data vg (c_vote c)) as Ha. rewrite Hvb in Ha.
  destruct (Box.addVote vb signer w sig _ vg (c_vote c)) as [vb' [[receipt fin]|e|]]; cbn [fst] in Ha.
  - assert (Hfile : forall fh l', section_votes r data hash signer sig
      (set_limiter (Rounds.put_boxes (set_limiter r l) (InstructionID data)
         (mkVoteBoxes (<[hash := vb']> (boxes_M (boxes_at r (InstructionID data)))) fh)) l')).
    { intros fh l'. exact (section_votes_file (set_limiter r l) data hash signer sig vb' fh l' Ha). }
    assert (Hfile0 : section_votes r data hash signer sig
      (Rounds.put_boxes (set_limiter r l) (InstructionID data) (Rounds.put_box (boxes_at r (InstructionID data)) hash vb')))
      by apply (Hfile (FinalizedHash (boxes_at r (InstructionID data))) l).
    destruct (negb fin); [exact Hfile0|]. case_decide; [apply Hfile|]. rewrite put_boxes_twice.
    case_decide; (destruct (Box.box_Action vb' Threshold); apply Hfile).
  - destruct (box_in r (InstructionID data) hash); [|apply section_votes_limiter].
    by apply (section_votes_file r data hash signer sig vb' (FinalizedHash (boxes_at r (InstructionID data))) l).
  - apply section_votes_limiter.
Qed.

Lemma mark_participation_policy s r l signer : round_policy (mark_participation s r l signer) = round_policy r.
Proof.
  unfold mark_participation, Rounds.recordVotingWeight, Rounds.markProviderVoter, Rounds.markProposer.
  repeat case_match; done.
Qed.

(** ** The operations *)

(** The request of [AddVote] names the box [b], in the round of its epoch. *)
Definition addressed (s : Storage) (data : Data) (b : path) : Prop :=
  exists p r hash, b = (p, InstructionID data, hash) /\ Get s (RewardEpochID data) = Some (p, r) /\ HashFixed data = Ok hash.

Lemma AddVote_votes s mt data signer sig c sent b :
  adds_vote data signer sig (votes_at s b) (votes_at (AddVote s mt data signer sig c sent).1 b) /\
  (votes_at (AddVote s mt data signer sig c sent).1 b = votes_at s b \/ addressed s data b) /\
  forall p, epoch_at (AddVote s mt data signer sig c sent).1 p = epoch_at s p.
Proof.
  unfold AddVote.
  destruct (_ ← Constraints.checkSize data (Config.MaxProviderVote (config s)); HashFixed data) as [hash|e|] eqn:Hsz;
    [|by split_and!; [..|left|]..].
  apply res_bind_ok in Hsz as (_ & _ & Hhash).
  destruct (Get s (RewardEpochID data)) as [[p r]|] eqn:Hg; [|by split_and!; [..|left|]].
  pose proof Hg as [_ Hp]%Get_Some.
  destruct (meta_CheckConsistency mt data signer); [|by split_and!; [..|left|]..].
  pose proof (locked_section_votes r mt data hash signer sig (Config.ProposalExpiration (config s)) c) as Hl.
  destruct (locked_section r mt data hash signer sig (Config.ProposalExpiration (config s)) c) as [r' res].
  cbn [fst] in Hl. destruct Hl as (Hpol & Hadd & Hother).
  assert (Hupd : forall r2 s', Voting r2 = Voting r' -> round_policy r2 = round_policy r -> heap s' = <[p := r2]> (heap s) ->
    adds_vote data signer sig (votes_at s b) (votes_at s' b) /\
    (votes_at s' b = votes_at s b \/ addressed s data b) /\ forall p', epoch_at s' p' = epoch_at s p').
  { intros r2 s' Hv Hp2 Hh. destruct b as [[p' id] h]. rewrite !votes_at_round, Hh, lookup_insert. split_and!.
    - case_decide as Hq; [subst p'|auto]. rewrite Hp. unfold votes_in at 2, box_in. rewrite Hv.
      destruct (decide (id = InstructionID data /\ h = hash)) as [[-> ->]|Hne]; [exact Hadd|].
      pose proof (Hother id h Hne) as Ho. unfold votes_in at 1, box_in in Ho. rewrite Ho. auto.
    - case_decide as Hq; [subst p'|by left]. rewrite Hp. unfold votes_in at 1, box_in. rewrite Hv.
      destruct (decide (id = InstructionID data /\ h = hash)) as [[-> ->]|Hne]; [right; by exists p, r, hash|left].
      exact (Hother id h Hne).
    - intros p1. unfold epoch_at. rewrite Hh, lookup_insert. case_decide as Hq; [subst p1|done]. rewrite Hp. cbn. by rewrite Hp2. }
  destruct res as [l|e|]; cbn [fst]; [|by apply (Hupd r')..].
  pose proof (finish_vote_fields s p (InstructionID data) hash r' l (RewardEpochID data) signer sent) as Hfin.
  destruct (finish_vote s (p, InstructionID data, hash) r' l (RewardEpochID data) signer sent) as [s' res].
  destruct Hfin as (Hh & _). eapply Hupd; [| |exact Hh]; [apply mark_participation_Voting|].
  by rewrite mark_participation_policy.
Qed.

(** The other operations record nothing; a round keeps its epoch. *)
Definition keeps_votes (s s' : Storage) : Prop :=
  (forall b a v, votes_at s' b !! a = Some v -> votes_at s b !! a = Some v) /\
  forall p e, epoch_at s p = Some e -> epoch_at s' p = Some e.

Lemma StoreNewRound_votes s policy : inv s -> keeps_votes s (StoreNewRound s policy).
Proof.
  intros Hinv. unfold StoreNewRound. destruct (Get s _); [done|]. split.
  - intros [[p id] h] a v. rewrite !votes_at_round. cbn [heap]. rewrite lookup_insert. case_decide as Hq; [|done]. subst p.
    rewrite (inv_next s Hinv). unfold votes_in, box_in, Rounds.createRound. by destruct (collectVoters s).
  - intros p e. unfold epoch_at. cbn [heap]. rewrite lookup_insert. case_decide as Hq; [|done]. subst p.
    by rewrite (inv_next s Hinv).
Qed.

Lemma scheduleEnd_votes s b now taken : keeps_votes s (scheduleEnd s b now taken).1.
Proof.
  destruct b as [[p id] h]. unfold scheduleEnd. destruct (heap s !! p) as [r|] eqn:Hp; [|done].
  rewrite boxes_at_lookup. destruct (box_in r id h) as [vb0|] eqn:Hin; [|done]. case_decide; [done|].
  assert (Hdel : (Box.closeBox (FinalizedHash (boxes_at r id)) vb0).1 = Box.delete vb0)
    by (unfold Box.closeBox; by destruct (instruction (box_proposal vb0))).
  destruct (Box.closeBox (FinalizedHash (boxes_at r id)) vb0) as [vb1 out]. cbn in Hdel. subst vb1.
  assert (Hupd : forall s', heap s' = <[p := Rounds.put_boxes r id (Rounds.put_box (boxes_at r id) h (Box.delete vb0))]> (heap s) ->
    keeps_votes s s').
  { intros s' Hh. split.
    - intros [[p' id'] h'] a v. rewrite !votes_at_round, Hh, lookup_insert. case_decide as Hq; [|done]. subst p'. rewrite Hp.
      change (Rounds.put_boxes r id (Rounds.put_box (boxes_at r id) h (Box.delete vb0)))
        with (file r id h (Box.delete vb0) (FinalizedHash (boxes_at r id)) (round_limiter r)).
      rewrite votes_in_file. by case_decide.
    - intros p' e. unfold epoch_at. rewrite Hh, lookup_insert. case_decide as Hq; [|done]. subst p'. by rewrite Hp. }
  destruct out as [[acts lost]|e|]; apply Hupd; [case_decide|..]; done.
Qed.
End Votes.
End Ballots.
