(* ===== verification/VotingGauges.v ===== *)
(** The gauges of the voting storage that search or merge rounds
    ([OldestStoredEpoch], [CurrentRoundTopPending] of
    [internal/service/instruction/voting/voting.go]). *)

From S2P Require Import Prelude Status Types Limiter Constraints VotingData Box Cyclic Rounds Config VotingStorage VotingProofs.

Module VotingGauges.
Import VotingStorage VotingProofs.

Section Gauges.
Context `{OpLib, InstructionLib, CyclicLib}.
Context `{!InstructionLaws, !InstructionHashInj, !CyclicLaws}.

(** ** Gauges *)

(** The epochs between [lo] and [hi] with a stored round. *)
Lemma oldest_from_spec s top fuel i acc :
  0 <= i -> top < 2 ^ 32 ->
  match acc with
  | Some e => is_Some (Get s e) /\ top - i < e <= top /\
              (forall e', top - i < e' < e -> Get s e' = None)
  | None => forall e', top - i < e' <= top -> Get s e' = None
  end ->
  match oldest_from s top fuel i acc with
  | Some e => is_Some (Get s e) /\ (0 <= e \/ acc = Some e) /\ top - i - Z.of_nat fuel < e <= top /\
              (forall e', 0 <= e' -> top - i - Z.of_nat fuel < e' < e -> Get s e' = None)
  | None => forall e', 0 <= e' -> top - i - Z.of_nat fuel < e' <= top -> Get s e' = None
  end.
Proof.
  intros Hi Htop. revert i Hi acc. induction fuel as [|fuel IH]; intros i Hi acc Hacc; cbn [oldest_from].
  { rewrite Z.sub_0_r. destruct acc as [e|]; [|intros; by apply Hacc].
    destruct Hacc as (? & ? & Hlow). split_and!; try done; try lia; [by right|]. intros. by apply Hlow. }
  case_decide as Hti.
  { destruct acc as [e|].
    - destruct Hacc as (? & ? & Hlow). split_and!; try done; try lia; [by right|]. intros. apply Hlow. lia.
    - intros. apply Hacc. lia. }
  rewrite u32_small by lia.
  set (acc' := match Get s (top - i) with Some _ => Some (top - i) | None => acc end).
  assert (Hacc' : match acc' with
    | Some e => is_Some (Get s e) /\ top - (i + 1) < e <= top /\
                (forall e', top - (i + 1) < e' < e -> Get s e' = None)
    | None => forall e', top - (i + 1) < e' <= top -> Get s e' = None
    end).
  { unfold acc'. destruct (Get s (top - i)) eqn:Hg.
    - split_and!; [by rewrite Hg|lia|lia|]. intros. lia.
    - destruct acc as [e|].
      + destruct Hacc as (? & ? & Hlow). split_and!; [done|lia|lia|]. intros e' He'.
        destruct (decide (e' = top - i)) as [->|]; [done|]. apply Hlow. lia.
      + intros e' He'. destruct (decide (e' = top - i)) as [->|]; [done|]. apply Hacc. lia. }
  case_decide as Hz.
  - destruct acc' as [e|] eqn:Ha.
    + destruct Hacc' as (? & ? & Hlow). split_and!; try done; try lia. intros. apply Hlow. lia.
    + intros. apply Hacc'. lia.
  - specialize (IH (i + 1) ltac:(lia) acc' Hacc').
    destruct (oldest_from s top fuel (i + 1) acc') as [e|].
    + destruct IH as (? & He & ? & Hlow). split_and!; try done; try lia.
      * left. destruct He as [|He]; [done|]. rewrite He in Hacc'. lia.
      * intros. apply Hlow; lia.
    + intros. apply IH; lia.
Qed.

(** [OldestStoredEpoch] finds the oldest epoch among the last
    [Size] ones, up to the newest stored, that has a round: no stored epoch
    of the window is older, and it answers none only if the window is empty. *)
Theorem OldestStoredEpoch_correct s :
  reachable s ->
  let window e := 0 <= e <= currentEpoch s /\ currentEpoch s - cyclic_Size (rounds s) < e in
  match OldestStoredEpoch s with
  | Some e => window e /\ is_Some (Get s e) /\ (forall e', window e' -> e' < e -> Get s e' = None)
  | None => forall e, window e -> Get s e = None
  end.
Proof.
  intros Hs%reachable_inv window. pose proof (inv_epoch s Hs). pose proof (inv_size s Hs).
  unfold OldestStoredEpoch. rewrite u32_small by lia.
  pose proof (oldest_from_spec s (currentEpoch s) (Z.to_nat (cyclic_Size (rounds s))) 0 None
    ltac:(lia) ltac:(lia)) as Hspec. rewrite Z2Nat.id in Hspec by lia.
  destruct (oldest_from s (currentEpoch s) _ 0 None) as [e|].
  - destruct Hspec as (? & He & ? & Hlow); [intros; lia|].
    destruct He as [He|He]; [|done]. unfold window. split_and!; try done; try lia.
    intros e' He' Hlt. apply Hlow; lia.
  - intros e He. apply Hspec; unfold window in He; lia || (intros; lia).
Qed.

(** Merging a list of counts takes the maximum per address. *)
Lemma merge_pending_spec m vps a :
  (forall vp, vp ∈ vps -> 0 < Limiter.vp_Pending vp) ->
  (forall q, m !! a = Some q -> 0 < q) ->
  let v := default 0 (merge_pending m vps !! a) in
  default 0 (m !! a) <= v /\
  (forall vp, vp ∈ vps -> Limiter.vp_Address vp = a -> Limiter.vp_Pending vp <= v) /\
  (v = default 0 (m !! a) \/ exists vp, vp ∈ vps /\ Limiter.vp_Address vp = a /\ v = Limiter.vp_Pending vp) /\
  (forall q, merge_pending m vps !! a = Some q -> 0 < q).
Proof.
  unfold merge_pending. revert m. induction vps as [|vp vps IH]; intros m Hpos Hm; cbn [foldl].
  { split_and!; [lia|intros vp Hvp; by apply elem_of_nil in Hvp|by left|done]. }
  set (m' := <[Limiter.vp_Address vp := Z.max (default 0 (m !! Limiter.vp_Address vp)) (Limiter.vp_Pending vp)]> m).
  pose proof (Hpos vp ltac:(left)) as Hvp.
  assert (Hm' : default 0 (m' !! a) = (if decide (Limiter.vp_Address vp = a)
      then Z.max (default 0 (m !! a)) (Limiter.vp_Pending vp) else default 0 (m !! a))).
  { unfold m'. rewrite lookup_insert. case_decide as Heq; [by rewrite Heq|done]. }
  destruct (IH m') as (H1' & H2' & H3' & H4').
  { intros vp' ?. apply Hpos. by right. }
  { intros q. unfold m'. rewrite lookup_insert. case_decide; [intros [= <-]; lia|apply Hm]. }
  cbn zeta in *. set (v := default 0 (foldl _ m' vps !! a)) in *. rewrite Hm' in H1', H3'.
  split_and!; [case_decide; lia| | |done].
  - intros vp' [->|Hin]%elem_of_cons Ha; [rewrite decide_True in H1' by done; lia|by apply H2'].
  - destruct H3' as [Hv|(vp' & Hin & Ha & Hv)].
    + case_decide as Heq; [|by left].
      destruct (Z.max_spec (default 0 (m !! a)) (Limiter.vp_Pending vp)) as [[_ Hmx]|[_ Hmx]];
        rewrite Hmx in Hv; [right|by left]. exists vp. split_and!; [left|done|done].
    + right. exists vp'. split_and!; [by right|done|done].
Qed.

(** The unfinalised count of an address in the round of an epoch. *)
Definition pending_in (s : Storage) (e : Z) (a : Address) : Z :=
  match Get s e with Some (_, r) => Limiter.pending_of (round_limiter r) a | None => 0 end.

Lemma elem_of_TopPendingProposals r vp :
  vp ∈ Rounds.TopPendingProposals r (-1) <->
  0 < Limiter.vp_Pending vp /\ Limiter.pending_of (round_limiter r) (Limiter.vp_Address vp) = Limiter.vp_Pending vp.
Proof.
  unfold Rounds.TopPendingProposals, Limiter.TopPending.
  rewrite Limiter.SortTopPending_sorted_all by lia. rewrite merge_sort_Permutation.
  rewrite Limiter.elem_of_pending_voters. unfold Limiter.pending_of.
  destruct (Limiter.counter (round_limiter r) !! Limiter.vp_Address vp) as [st|]; cbn; naive_solver lia.
Qed.

Lemma merge_round m r a :
  Limiter.wf (round_limiter r) -> (forall q, m !! a = Some q -> 0 < q) ->
  default 0 (merge_pending m (Rounds.TopPendingProposals r (-1)) !! a)
  = Z.max (default 0 (m !! a)) (Limiter.pending_of (round_limiter r) a) /\
  (forall q, merge_pending m (Rounds.TopPendingProposals r (-1)) !! a = Some q -> 0 < q).
Proof.
  intros Hwf Hm.
  destruct (merge_pending_spec m (Rounds.TopPendingProposals r (-1)) a) as (Hge & Hall & Hone & Hpos).
  { intros vp Hvp. by apply elem_of_TopPendingProposals in Hvp as [? _]. }
  { done. }
  split; [|done]. cbn zeta in *. set (v := default 0 (merge_pending _ _ !! a)) in *.
  pose proof (Limiter.pending_of_bound (round_limiter r) a Hwf) as Hb.
  assert (0 <= default 0 (m !! a)) as Hm0.
  { destruct (m !! a) as [q|] eqn:Hq; cbn; [|lia]. specialize (Hm q eq_refl). lia. }
  destruct (decide (Limiter.pending_of (round_limiter r) a = 0)) as [Hz|Hz].
  - rewrite Hz. destruct Hone as [->|(vp & Hvp & <- & Hv)]; [lia|].
    apply elem_of_TopPendingProposals in Hvp as [? Hvp]. lia.
  - assert (Limiter.mkVP a (Limiter.pending_of (round_limiter r) a) ∈ Rounds.TopPendingProposals r (-1))
      as Hin by (apply elem_of_TopPendingProposals; cbn; split; [lia|done]).
    specialize (Hall _ Hin eq_refl). cbn in Hall.
    destruct Hone as [Hv|(vp & Hvp & <- & Hv)]; [lia|].
    apply elem_of_TopPendingProposals in Hvp as [? Hvp]. lia.
Qed.

Lemma merged_pending_spec s a :
  inv s ->
  default 0 (merged_pending s !! a)
  = foldl Z.max 0 ((fun e => pending_in s e a) <$> activeParticipantEpochs s) /\
  (forall q, merged_pending s !! a = Some q -> 0 < q).
Proof.
  intros Hinv. unfold merged_pending.
  assert (Hgen : forall es m, (forall q, m !! a = Some q -> 0 < q) -> 0 <= default 0 (m !! a) ->
    let m' := foldl (fun m e => match Get s e with
                    | None => m
                    | Some (_, r) => merge_pending m (Rounds.TopPendingProposals r (-1))
                    end) m es in
    default 0 (m' !! a) = foldl Z.max (default 0 (m !! a)) ((fun e => pending_in s e a) <$> es) /\
    (forall q, m' !! a = Some q -> 0 < q)).
  { induction es as [|e es IH]; intros m Hm Hm0; [done|]. cbn [foldl fmap list_fmap].
    assert (Hpe : pending_in s e a = match Get s e with
                                     | Some (_, r) => Limiter.pending_of (round_limiter r) a
                                     | None => 0 end) by done.
    destruct (Get s e) as [[p r]|] eqn:Hg; rewrite Hpe.
    - apply Get_Some in Hg as [_ Hp]. destruct (inv_heap s Hinv p r Hp) as [Hr _].
      destruct (merge_round m r a (Rounds.rw_limiter _ _ Hr) Hm) as [Heq Hpos].
      rewrite <- Heq. apply IH; [done|]. rewrite Heq. lia.
    - rewrite Z.max_l by done. by apply IH. }
  specialize (Hgen (activeParticipantEpochs s) ∅). rewrite lookup_empty in Hgen.
  by apply Hgen.
Qed.

(** The pending-proposals gauge merges the newest round and its
    predecessor: a provider appears with the larger of its two unfinalised
    counts (never their sum), providers with none do not appear, each appears
    once, and asking for [n] gives the first [n] of the full ranking. *)
Theorem CurrentRoundTopPending_correct s n :
  reachable s ->
  let full := CurrentRoundTopPending s (-1) in
  (forall vp, vp ∈ full <->
     0 < Limiter.vp_Pending vp /\
     Limiter.vp_Pending vp
     = foldl Z.max 0 ((fun e => pending_in s e (Limiter.vp_Address vp)) <$> activeParticipantEpochs s)) /\
  NoDup (Limiter.vp_Address <$> full) /\
  Sorted Limiter.vp_le full /\
  CurrentRoundTopPending s n = (if decide (0 <= n) then take (Z.to_nat n) full else full).
Proof.
  intros Hs%reachable_inv. unfold CurrentRoundTopPending.
  case_decide as Hsz.
  { apply map_size_empty_inv in Hsz. split_and!; try by constructor.
    - intros vp. split; [intros Hvp; by apply elem_of_nil in Hvp|]. intros [Hpos Hv]. exfalso.
      destruct (merged_pending_spec s (Limiter.vp_Address vp) Hs) as [Hm _].
      rewrite Hsz, lookup_empty in Hm. cbn in Hm. lia.
    - by rewrite take_nil; case_decide. }
  rewrite Limiter.SortTopPending_sorted_all by lia.
  set (l := (fun '(addr, p) => Limiter.mkVP addr p) <$> map_to_list (merged_pending s)).
  split_and!.
  - intros vp. rewrite merge_sort_Permutation. unfold l. rewrite list_elem_of_fmap.
    destruct (merged_pending_spec s (Limiter.vp_Address vp) Hs) as [Hm Hpos]. split.
    + intros ([a p] & -> & Hin%elem_of_map_to_list). cbn in *. rewrite Hin in *. cbn in Hm.
      split; [by apply Hpos|done].
    + intros [Hp Hv]. exists (Limiter.vp_Address vp, Limiter.vp_Pending vp).
      split; [by destruct vp|]. apply elem_of_map_to_list.
      destruct (merged_pending s !! Limiter.vp_Address vp) as [q|]; cbn in Hm; [congruence|lia].
  - rewrite merge_sort_Permutation. unfold l. rewrite <- list_fmap_compose.
    rewrite (list_fmap_ext _ fst) by (by intros ? [] ?). apply NoDup_fst_map_to_list.
  - apply Sorted_merge_sort, Limiter.vp_le_total.
  - unfold Limiter.SortTopPending. destruct (decide (0 <= n)) as [Hn|Hn].
    + case_decide as Hlt; [done|]. rewrite take_ge; [done|]. unfold zlen in Hlt. lia.
    + rewrite decide_False; [done|lia].
Qed.
End Gauges.

#[local] Existing Instance Demo.instruction_lib.
#[local] Existing Instance Demo.op_lib.
#[local] Existing Instance Demo.instruction_laws.
#[local] Existing Instance Demo.instruction_hash_inj.
#[local] Existing Instance DemoCyclic.cyclic_lib.
#[local] Existing Instance DemoCyclic.cyclic_laws.

Lemma OldestStoredEpoch_correct_witness :
  OldestStoredEpoch DemoRun.s3 = Some 5 /\ is_Some (Get DemoRun.s3 5).
Proof.
  assert (Heq : OldestStoredEpoch DemoRun.s3 = Some 5) by (vm_compute; reflexivity).
  split; [exact Heq|].
  pose proof (OldestStoredEpoch_correct DemoRun.s3 DemoRun.s3_reachable) as Hs. cbn zeta in Hs.
  rewrite Heq in Hs. apply Hs.
Defined.

Lemma CurrentRoundTopPending_correct_witness :
  CurrentRoundTopPending DemoRun.s1 5 = take 5 (CurrentRoundTopPending DemoRun.s1 (-1)) /\
  CurrentRoundTopPending DemoRun.s1 (-1) = [Limiter.mkVP 1%N 1].
Proof.
  destruct (CurrentRoundTopPending_correct DemoRun.s1 5 DemoRun.s1_reachable) as (_ & _ & _ & H).
  split; [exact H|vm_compute; reflexivity].
Defined.

End VotingGauges.
