(* ===== verification/Redis.v ===== *)
(** Persistent storage: the key-value store and queue on Redis
    ([pkg/storage/redis.go]), the interface of a store ([pkg/storage/storage.go])
    and the metrics wrapper ([pkg/storage/observer.go]).

    The client is a parameter: a type of server states with views of what it
    holds, and operations whose laws say how a call changes the views.  A write
    that reports an error may or may not have reached the server. *)

From S2P Require Import Prelude.

(** ** The Redis client *)

(** [kv r k] is the string value under a key with its absolute expiry ([None]
    for none), [lists r k] the list under a key, left end first. *)
Class RedisLib : Type := {
  redis : Type;
  kv : redis -> string -> option (bytes * option Z);
  lists : redis -> string -> list bytes;
  redis_Set : redis -> Z -> string -> bytes -> Z -> redis * res unit;
  redis_Get : redis -> Z -> string -> redis * res (option bytes);      (* None: redis.Nil *)
  redis_Del : redis -> list string -> redis * res unit;
  redis_Keys : redis -> string -> redis * res (list string);
  redis_LPush : redis -> string -> bytes -> redis * res unit;
  redis_RPush : redis -> string -> bytes -> redis * res unit;
  redis_RPop : redis -> string -> redis * res (option bytes);          (* None: redis.Nil *)
  redis_LLen : redis -> string -> redis * res Z
}.

(** The value of an entry that has not expired. *)
Definition live (now : Z) (o : option (bytes * option Z)) : option bytes :=
  match o with
  | Some (d, None) => Some d
  | Some (d, Some exp) => if decide (now < exp) then Some d else None
  | None => None
  end.

(** What a server holds. *)
Definition view `{RedisLib} (r : redis) : (string -> option (bytes * option Z)) * (string -> list bytes) :=
  (kv r, lists r).

Definition same_view `{RedisLib} (r r' : redis) : Prop :=
  (forall k, kv r' k = kv r k) /\ (forall k, lists r' k = lists r k).

(** The errors of a library do not wrap this package's sentinels. *)
Definition foreign (e : error) : Prop :=
  errors_Is e "storage.ErrNotFound" = false /\ errors_Is e "storage.ErrEmptyQueue" = false.

(** A call whose effect on the views is [Q]: it took place if the call
    succeeded, and may have taken place if the call failed. *)
Definition effect `{RedisLib} {A} (r : redis) (out : redis * res A) (Q : redis -> Prop) : Prop :=
  match out with
  | (r', Ok _) => Q r'
  | (r', Fail _) => same_view r r' \/ Q r'
  | (_, Panic) => False
  end.

(** [r'] is [r] with the string under [key] replaced, resp. the list. *)
Definition kv_put `{RedisLib} (r r' : redis) (keys : list string) (v : option (bytes * option Z)) : Prop :=
  (forall k, kv r' k = if decide (k ∈ keys) then v else kv r k) /\ (forall k, lists r' k = lists r k).
Definition list_put `{RedisLib} (r r' : redis) (key : string) (l : list bytes) : Prop :=
  (forall k, kv r' k = kv r k) /\ (forall k, lists r' k = if decide (k = key) then l else lists r k).

(** The documented behaviour of the commands. *)
Class RedisLaws `{RedisLib} : Prop := {
  redis_Set_law r now key d ttl :
    effect r (redis_Set r now key d ttl)
      (fun r' => kv_put r r' [key] (Some (d, if decide (ttl = 0) then None else Some (now + ttl))));
  redis_Get_law r now key :
    let '(r', out) := redis_Get r now key in
    same_view r r' /\ out <> Panic /\ (forall o, out = Ok o -> o = live now (kv r key)) /\
    (forall e, out = Fail e -> foreign e);
  redis_Del_law r keys : effect r (redis_Del r keys) (fun r' => kv_put r r' keys None);
  redis_LPush_law r key d : effect r (redis_LPush r key d) (fun r' => list_put r r' key (d :: lists r key));
  redis_RPush_law r key d : effect r (redis_RPush r key d) (fun r' => list_put r r' key (lists r key ++ [d]));
  redis_RPop_law r key :
    match redis_RPop r key with
    | (r', Ok (Some d)) => exists l, lists r key = l ++ [d] /\ list_put r r' key l
    | (r', Ok None) => lists r key = [] /\ same_view r r'
    | (r', Fail e) => foreign e /\
        (same_view r r' \/ exists l d, lists r key = l ++ [d] /\ list_put r r' key l)
    | (_, Panic) => False
    end;
  redis_LLen_law r key :
    let '(r', out) := redis_LLen r key in
    same_view r r' /\ out <> Panic /\ (forall n, out = Ok n -> n = zlen (lists r key))
}.

(** ** JSON *)

(** [json.Marshal]/[json.Unmarshal] at a type; decoding an encoding gives the
    value back. *)
Class Json (T : Type) : Type := {
  json_Marshal : T -> res bytes;
  json_Unmarshal : bytes -> res T
}.
Class JsonLaws (T : Type) `{Json T} : Prop := {
  json_roundtrip x d : json_Marshal x = Ok d -> json_Unmarshal d = Ok x;
  json_Marshal_no_panic x : json_Marshal x <> Panic;
  json_Unmarshal_no_panic d : json_Unmarshal d <> Panic;
  json_Unmarshal_error d e : json_Unmarshal d = Fail e -> foreign e
}.

Definition ErrNotFound : error := sentinel "storage.ErrNotFound".
Definition ErrEmptyKey : error := sentinel "storage.ErrEmptyKey".
Definition ErrEmptyQueue : error := sentinel "storage.ErrEmptyQueue".

Module RedisStorage.

(** [prefix]: keyPrefix, a hyphen and the key. *)
Definition prefix (keyPrefix key : string) : string := keyPrefix +:+ "-" +:+ key.

Section Ops.
Context `{RedisLib} {T : Type} `{Json T}.

Definition lift {A B} (r : redis) (m : res A) (k : A -> redis * res B) : redis * res B :=
  match wrap m with
  | Ok a => k a
  | Fail e => (r, Fail e)
  | Panic => (r, Panic)
  end.

(** [if err := ...; err != nil { return fmt.Errorf("...: %w", err) }] *)
Definition wrapped {A} (out : redis * res A) : redis * res A := (out.1, wrap out.2).

Definition SetWithTTL (keyPrefix : string) (r : redis) (now : Z) (key : string) (item : T)
    (expiration : Z) : redis * res unit :=
  if decide (key = "") then (r, Fail ErrEmptyKey)
  else lift r (json_Marshal item) (fun data =>
         wrapped (redis_Set r now (prefix keyPrefix key) data expiration)).

Definition Set_ (keyPrefix : string) (r : redis) (now : Z) (key : string) (item : T) : redis * res unit :=
  if decide (key = "") then (r, Fail ErrEmptyKey)
  else lift r (json_Marshal item) (fun data =>
         wrapped (redis_Set r now (prefix keyPrefix key) data 0)).

Definition Get (keyPrefix : string) (r : redis) (now : Z) (key : string) : redis * res T :=
  match redis_Get r now (prefix keyPrefix key) with
  | (r, Ok None) => (r, Fail ErrNotFound)
  | (r, Ok (Some data)) => (r, wrap (json_Unmarshal data))
  | (r, Fail e) => (r, Fail (errorf [e]))
  | (r, Panic) => (r, Panic)
  end.

Definition Remove (keyPrefix : string) (r : redis) (key : string) : redis * res unit :=
  wrapped (redis_Del r [prefix keyPrefix key]).

(** A queue lives under the empty key. *)
Definition Enqueue (keyPrefix : string) (r : redis) (item : T) : redis * res unit :=
  lift r (json_Marshal item) (fun data => wrapped (redis_LPush r (prefix keyPrefix "") data)).

Definition Requeue (keyPrefix : string) (r : redis) (item : T) : redis * res unit :=
  lift r (json_Marshal item) (fun data => wrapped (redis_RPush r (prefix keyPrefix "") data)).

Definition Dequeue (keyPrefix : string) (r : redis) : redis * res T :=
  match redis_RPop r (prefix keyPrefix "") with
  | (r, Ok None) => (r, Fail ErrEmptyQueue)
  | (r, Ok (Some data)) => (r, wrap (json_Unmarshal data))
  | (r, Fail e) => (r, Fail (errorf [e]))
  | (r, Panic) => (r, Panic)
  end.

Definition QueueLength (keyPrefix : string) (r : redis) : redis * res Z :=
  wrapped (redis_LLen r (prefix keyPrefix "")).

Definition Clear (keyPrefix : string) (r : redis) : redis * res unit :=
  match redis_Keys r (prefix keyPrefix "*") with
  | (r, Ok []) => (r, Ok tt)
  | (r, Ok keys) => wrapped (redis_Del r keys)
  | (r, Fail e) => (r, Fail (errorf [e]))
  | (r, Panic) => (r, Panic)
  end.
End Ops.

(** ** What the operations do to the server *)

Section Laws.
Context `{RedisLib, !RedisLaws} {T : Type} `{Json T, !JsonLaws T}.

(** The decoded, unexpired value under a key. *)
Definition stored (keyPrefix : string) (r : redis) (now : Z) (key : string) : option T :=
  match live now (kv r (prefix keyPrefix key)) with
  | Some d => match json_Unmarshal d with Ok x => Some x | _ => None end
  | None => None
  end.

(** The decoded queue, the next item to be dequeued first; [None] if some entry
    does not decode. *)
Definition decoded (d : bytes) : option T :=
  match json_Unmarshal d with Ok x => Some x | _ => None end.
Definition queued (keyPrefix : string) (r : redis) : option (list T) :=
  mapM decoded (reverse (lists r (prefix keyPrefix ""))).

Lemma prefix_inj p k k' : prefix p k = prefix p k' -> k = k'.
Proof. unfold prefix. intros Hp. by repeat apply (inj (String.append _)) in Hp. Qed.

Lemma same_view_refl r : same_view r r.
Proof. done. Qed.

Lemma same_view_trans r1 r2 r3 : same_view r1 r2 -> same_view r2 r3 -> same_view r1 r3.
Proof. intros [Ha Hb] [Hc Hd]. split; intros k; by rewrite ?Hc, ?Hd. Qed.

Lemma effect_wrapped {A} r (out : redis * res A) Q : effect r out Q -> effect r (wrapped out) Q.
Proof. by destruct out as [r' []]. Qed.

(** Marshalling first: a value that cannot be encoded leaves the server alone. *)
Lemma effect_lift {A} r (x : T) (k : bytes -> redis * res A) (Q : redis -> Prop) :
  (forall d, json_Marshal x = Ok d -> effect r (k d) Q) -> effect r (lift r (json_Marshal x) k) Q.
Proof.
  intros Hk. unfold lift. pose proof (json_Marshal_no_panic x).
  destruct (json_Marshal x); cbn; [by apply Hk|by left|done].
Qed.

(** Storing and reading back: after a successful write the value is found under
    exactly that key until it expires, and no other key and no queue changes. *)
Lemma SetWithTTL_spec p r now key x ttl :
  effect r (SetWithTTL p r now key x ttl) (fun r' =>
    (forall now', (ttl = 0 \/ now' < now + ttl) -> stored p r' now' key = Some x) /\
    (forall k, k <> prefix p key -> kv r' k = kv r k) /\ (forall k, lists r' k = lists r k)).
Proof.
  unfold SetWithTTL. case_decide; [by left|]. apply effect_lift. intros d Hd. apply effect_wrapped.
  pose proof (redis_Set_law r now (prefix p key) d ttl) as Hlaw.
  assert (Himp : forall r', kv_put r r' [prefix p key] (Some (d, if decide (ttl = 0) then None else Some (now + ttl))) ->
    (forall now', (ttl = 0 \/ now' < now + ttl) -> stored p r' now' key = Some x) /\
    (forall k, k <> prefix p key -> kv r' k = kv r k) /\ (forall k, lists r' k = lists r k)).
  { intros r' [Hkv Hl]. split_and!; [|intros k Hk; rewrite Hkv, decide_False; [done|set_solver]|done].
    intros now' Hnow. unfold stored. rewrite Hkv, decide_True by set_solver. cbn [live].
    destruct (decide (ttl = 0)); [|rewrite decide_True by lia]; by rewrite (json_roundtrip x d Hd). }
  destruct (redis_Set r now (prefix p key) d ttl) as [r' [[]|e|]]; cbn in *; [auto| |done].
  destruct Hlaw; auto.
Qed.

(** Reading does not change the server; a missing or expired key gives
    [ErrNotFound]. *)
Lemma Get_spec p r now key :
  let '(r', out) := Get p r now key in
  same_view r r' /\ out <> Panic /\
  (forall x, out = Ok x -> stored p r now key = Some x) /\
  (forall e, out = Fail e -> errors_Is e "storage.ErrEmptyQueue" = false /\
     if errors_Is e "storage.ErrNotFound" then live now (kv r (prefix p key)) = None else True).
Proof.
  unfold Get. pose proof (redis_Get_law r now (prefix p key)) as Hlaw.
  destruct (redis_Get r now (prefix p key)) as [r' [[d|]|e|]]; destruct Hlaw as (Hv & Hnp & Hok & Herr).
  - specialize (Hok _ eq_refl). pose proof (json_Unmarshal_no_panic d).
    pose proof (json_Unmarshal_error d) as Hj. unfold stored. rewrite <- Hok.
    destruct (json_Unmarshal d) as [x|e|]; cbn; split_and!; try done.
    + by intros ? [= ->].
    + intros ? [= <-]. rewrite !errors_Is_errorf by done. by destruct (Hj _ eq_refl) as [-> ->].
  - specialize (Hok _ eq_refl). split_and!; try done. by intros ? [= <-].
  - split_and!; try done. intros ? [= <-]. rewrite !errors_Is_errorf by done.
    by destruct (Herr _ eq_refl) as [-> ->].
  - done.
Qed.

Lemma Remove_spec p r key :
  effect r (Remove p r key) (fun r' => kv_put r r' [prefix p key] None).
Proof. apply effect_wrapped, redis_Del_law. Qed.

Lemma mapM_snoc {A B} (f : A -> option B) l a q b :
  mapM f l = Some q -> f a = Some b -> mapM f (l ++ [a]) = Some (q ++ [b]).
Proof.
  rewrite !mapM_Some. intros Hl Ha. apply Forall2_app; [done|]. by constructor.
Qed.

(** Queue laws: [Enqueue] adds at the far end, [Requeue] at the near end, and
    [Dequeue] takes from the near end. *)
Definition queue_put (p : string) (r r' : redis) (q : list T) : Prop :=
  queued p r' = Some q /\ (forall k, kv r' k = kv r k) /\
  (forall k, k <> prefix p "" -> lists r' k = lists r k).

Lemma list_put_queue p r r' l q :
  list_put r r' (prefix p "") l -> mapM decoded (reverse l) = Some q -> queue_put p r r' q.
Proof.
  intros [Hkv Hl] Hq. split_and!; [|done|].
  - unfold queued. by rewrite Hl, decide_True.
  - intros k Hk. by rewrite Hl, decide_False.
Qed.

Lemma effect_impl {A} r (out : redis * res A) (Q Q' : redis -> Prop) :
  (forall r', Q r' -> Q' r') -> effect r out Q -> effect r out Q'.
Proof. intros HQ. destruct out as [r' []]; cbn; naive_solver. Qed.

Lemma Enqueue_spec p r x q :
  queued p r = Some q -> effect r (Enqueue p r x) (fun r' => queue_put p r r' (q ++ [x])).
Proof.
  intros Hq. apply effect_lift. intros d Hd. apply effect_wrapped.
  eapply effect_impl; [|apply redis_LPush_law]. intros r' Hr'. eapply list_put_queue; [exact Hr'|].
  rewrite reverse_cons. apply mapM_snoc; [done|]. unfold decoded. by rewrite (json_roundtrip x d Hd).
Qed.

Lemma Requeue_spec p r x q :
  queued p r = Some q -> effect r (Requeue p r x) (fun r' => queue_put p r r' (x :: q)).
Proof.
  intros Hq. apply effect_lift. intros d Hd. apply effect_wrapped.
  eapply effect_impl; [|apply redis_RPush_law]. intros r' Hr'. eapply list_put_queue; [exact Hr'|].
  rewrite reverse_snoc. apply mapM_Some. constructor; [|by apply mapM_Some].
  unfold decoded. by rewrite (json_roundtrip x d Hd).
Qed.

Lemma same_view_queued p r r' : same_view r r' -> queued p r' = queued p r.
Proof. intros [_ Hl]. unfold queued. by rewrite Hl. Qed.

Lemma same_view_stored p r r' now k : same_view r r' -> stored p r' now k = stored p r now k.
Proof. intros [Hk _]. unfold stored. by rewrite Hk. Qed.

Lemma Dequeue_spec p r q :
  queued p r = Some q ->
  match Dequeue p r with
  | (r', Ok x) => exists q', q = x :: q' /\ queue_put p r r' q'
  | (r', Fail e) =>
      if errors_Is e "storage.ErrEmptyQueue" then q = [] /\ same_view r r'
      else same_view r r' \/ exists x q', q = x :: q' /\ queue_put p r r' q'
  | (_, Panic) => False
  end.
Proof.
  intros Hq. unfold Dequeue. pose proof (redis_RPop_law r (prefix p "")) as Hlaw.
  assert (Hpop : forall r' l d, lists r (prefix p "") = l ++ [d] -> list_put r r' (prefix p "") l ->
    exists x q', json_Unmarshal d = Ok x /\ q = x :: q' /\ queue_put p r r' q').
  { intros r' l d Hl Hput. unfold queued in Hq. rewrite Hl, reverse_snoc in Hq. cbn in Hq.
    destruct (decoded d) as [x|] eqn:Hd; cbn in Hq; [|done].
    destruct (mapM decoded (reverse l)) as [q'|] eqn:Hm; cbn in Hq; [|done]. injection Hq as <-.
    exists x, q'. split_and!; [|done|by eapply list_put_queue].
    unfold decoded in Hd. destruct (json_Unmarshal d); naive_solver. }
  destruct (redis_RPop r (prefix p "")) as [r' [[d|]|e|]].
  - destruct Hlaw as (l & Hl & Hput). destruct (Hpop r' l d Hl Hput) as (x & q' & -> & -> & Hqp). cbn. eauto.
  - destruct Hlaw as [Hl Hv]. unfold queued in Hq. rewrite Hl in Hq. cbn in Hq. injection Hq as <-.
    by change (errors_Is ErrEmptyQueue "storage.ErrEmptyQueue") with true.
  - destruct Hlaw as [[_ He] Hlaw]. rewrite errors_Is_errorf, He by done.
    destruct Hlaw as [Hv|(l & d & Hl & Hput)]; [by left|].
    destruct (Hpop r' l d Hl Hput) as (x & q' & _ & -> & Hqp). eauto.
  - done.
Qed.

Lemma QueueLength_spec p r q :
  queued p r = Some q ->
  let '(r', out) := QueueLength p r in
  same_view r r' /\ out <> Panic /\ (forall n, out = Ok n -> n = zlen q).
Proof.
  intros Hq. unfold QueueLength, wrapped. pose proof (redis_LLen_law r (prefix p "")) as Hlaw.
  destruct (redis_LLen r (prefix p "")) as [r' [n|e|]]; destruct Hlaw as (Hv & Hnp & Hn); cbn;
    split_and!; try done.
  intros ? [= <-]. rewrite (Hn _ eq_refl). unfold queued in Hq.
  apply length_mapM in Hq. rewrite length_reverse in Hq. unfold zlen. by rewrite Hq.
Qed.
End Laws.

End RedisStorage.

(** ** The storage interface ([pkg/storage/storage.go])

    What the services rely on: a store with time-dependent contents
    [st_view].  A write that succeeded is visible until its time to live has
    passed, touches no other key, and may or may not have happened if it failed;
    a read changes nothing that is still visible, and reports [ErrNotFound] only if nothing is
    there. *)

Class StorageI (W T : Type) : Type := {
  st_SetWithTTL : W -> Z -> string -> T -> Z -> W * res unit;
  st_Get : W -> Z -> string -> W * res T;
  st_view : W -> Z -> string -> option T
}.

(** From [now] on: a read may remove what has expired. *)
Definition same_contents {W T} `{StorageI W T} (now : Z) (w w' : W) : Prop :=
  forall now' k, now <= now' -> st_view w' now' k = st_view w now' k.

(** [w'] is [w] with [x] under [k] until [now + ttl]. *)
Definition set_contents {W T} `{StorageI W T} (w w' : W) (now : Z) (k : string) (x : T) (ttl : Z) : Prop :=
  (forall now', now <= now' < now + ttl -> st_view w' now' k = Some x) /\
  (forall now' k', now <= now' -> k' <> k -> st_view w' now' k' = st_view w now' k').

Class StorageLaws (W T : Type) `{StorageI W T} : Prop := {
  st_SetWithTTL_law w now k x ttl :
    match st_SetWithTTL w now k x ttl with
    | (w', Ok _) => set_contents w w' now k x ttl
    | (w', Fail _) => same_contents now w w' \/ set_contents w w' now k x ttl
    | (_, Panic) => False
    end;
  st_Get_law w now k :
    let '(w', out) := st_Get w now k in
    same_contents now w w' /\ out <> Panic /\
    (forall x, out = Ok x -> st_view w now k = Some x) /\
    (forall e, out = Fail e -> errors_Is e "storage.ErrNotFound" = true -> st_view w now k = None);
  st_view_mono w now now' k x : now <= now' -> st_view w now' k = Some x -> st_view w now k = Some x
}.

(** A Redis store with a key prefix implements the interface. *)
Module RedisImplements.
Import RedisStorage.
Section Impl.
Context `{RedisLib} {T : Type} `{Json T} (p : string).

#[local] Instance redis_storage : StorageI redis T := {|
  st_SetWithTTL := SetWithTTL p;
  st_Get := Get p;
  st_view := stored p
|}.

#[local] Instance redis_storage_laws `{!RedisLaws, !JsonLaws T} : StorageLaws redis T.
Proof.
  assert (Hset : forall w w' now k (x : T) ttl,
    (forall now', (ttl = 0 \/ now' < now + ttl) -> stored p w' now' k = Some x) /\
    (forall k', k' <> prefix p k -> kv w' k' = kv w k') /\ (forall k, lists w' k = lists w k) ->
    set_contents w w' now k x ttl).
  { intros w w' now k x ttl (Hs & Ho & _). split; [intros now' ?; apply Hs; right; lia|].
    intros now' k' _ Hk. cbn. unfold stored. rewrite Ho; [done|]. by intros ?%prefix_inj. }
  constructor.
  - intros w now k x ttl. pose proof (SetWithTTL_spec p w now k x ttl) as Hspec. cbn.
    destruct (SetWithTTL p w now k x ttl) as [w' [[]|e|]]; cbn in Hspec; [auto| |done].
    destruct Hspec as [Hv|Hs]; [left|right; auto]. intros now' k' _. by apply same_view_stored.
  - intros w now k. cbn. pose proof (Get_spec (T := T) p w now k) as Hspec.
    destruct (Get p w now k) as [w' out]. destruct Hspec as (Hv & Hnp & Hok & Herr).
    split_and!; try done.
    + intros now' k' _. by apply same_view_stored.
    + intros e He Hnf. destruct (Herr e He) as [_ Hn]. rewrite Hnf in Hn. cbn. unfold stored. by rewrite Hn.
  - intros w now now' k x Hle. cbn. unfold stored.
    destruct (kv w (prefix p k)) as [[d [exp|]]|]; cbn; [|done|done].
    repeat case_decide; try done. lia.
Qed.
End Impl.
End RedisImplements.

(** ** The metrics wrapper *)

Module Observer.

(** [outcome]: how the result of an operation is classified. *)
Definition outcome (err : option error) (preExpired : bool) : string :=
  match err with
  | None => "success"
  | Some e =>
      if errors_Is e "storage.ErrNotFound" then "not_found"
      else if errors_Is e "context.Canceled" then "cancelled"
      else if errors_Is e "context.DeadlineExceeded" then
        if preExpired then "cancelled" else "timeout"
      else "error"
  end.

Record observation : Type := mkObservation {
  ob_backend : string; ob_namespace : string; ob_operation : string; ob_outcome : string
}.

Definition error_of {A} (m : res A) : option error := match m with Fail e => Some e | _ => None end.

(** One wrapped operation: the inner call, then the observation.  A panic is not
    observed. *)
Definition instrumented {W A} (backend namespace operation : string) (preExpired : bool)
    (inner : W -> W * res A) (s : W * list observation) : (W * list observation) * res A :=
  let '(w, m) := inner s.1 in
  ((w, match m with
       | Panic => s.2
       | _ => s.2 ++ [mkObservation backend namespace operation (outcome (error_of m) preExpired)]
       end), m).

End Observer.

(** ** Concrete instances, for evaluation *)

Module DemoRedis.

Record server : Type := mkServer {
  d_kv : gmap string (bytes * option Z);
  d_lists : gmap string (list bytes)
}.

Definition list_of (s : server) (k : string) : list bytes := default [] (d_lists s !! k).
Definition put_list (s : server) (k : string) (l : list bytes) : server :=
  mkServer (d_kv s) (<[k := l]> (d_lists s)).

#[export] Instance redis_lib : RedisLib := {|
  redis := server;
  kv s k := d_kv s !! k;
  lists := list_of;
  redis_Set s now k d ttl :=
    (mkServer (<[k := (d, if decide (ttl = 0) then None else Some (now + ttl))]> (d_kv s)) (d_lists s), Ok tt);
  redis_Get s now k := (s, Ok (live now (d_kv s !! k)));
  redis_Del s ks := (mkServer (foldr (fun k m => base.delete k m) (d_kv s) ks) (d_lists s), Ok tt);
  redis_Keys s p := (s, Ok []);
  redis_LPush s k d := (put_list s k (d :: list_of s k), Ok tt);
  redis_RPush s k d := (put_list s k (list_of s k ++ [d]), Ok tt);
  redis_RPop s k :=
    match reverse (list_of s k) with
    | [] => (s, Ok None)
    | d :: l => (put_list s k (reverse l), Ok (Some d))
    end;
  redis_LLen s k := (s, Ok (zlen (list_of s k)))
|}.

Lemma list_of_put s k l k' : list_of (put_list s k l) k' = if decide (k' = k) then l else list_of s k'.
Proof. unfold list_of, put_list; cbn. rewrite lookup_insert. by repeat case_decide; subst. Qed.

#[export] Instance redis_laws : RedisLaws.
Proof.
  constructor.
  - intros s now k d ttl. split; [|done]. intros k'. cbn. rewrite lookup_insert.
    repeat case_decide; set_solver.
  - intros s now k. cbn. split_and!; try done. by intros o [= <-].
  - intros s ks. split; [|done]. intros k'. cbn. induction ks as [|k ks IH]; cbn.
    + rewrite decide_False; [done|set_solver].
    + rewrite lookup_delete, IH. repeat case_decide; set_solver.
  - intros s k d. split; [done|]. intros k'. cbn. by rewrite list_of_put.
  - intros s k d. split; [done|]. intros k'. cbn. by rewrite list_of_put.
  - intros s k. cbn. destruct (reverse (list_of s k)) as [|d l] eqn:Hr.
    + split; [|done]. by rewrite <- (reverse_involutive (list_of s k)), Hr.
    + exists (reverse l). split; [by rewrite <- (reverse_involutive (list_of s k)), Hr, reverse_cons|].
      split; [done|]. intros k'. cbn. by rewrite list_of_put.
  - intros s k. cbn. split_and!; try done. by intros n [= <-].
Qed.

(** Encoding through a numbering, bit by bit. *)
Fixpoint pos_bytes (p : positive) : bytes :=
  match p with
  | xH => []
  | xO p => Byte.x00 :: pos_bytes p
  | xI p => Byte.x01 :: pos_bytes p
  end.
Fixpoint bytes_pos (l : bytes) : positive :=
  match l with
  | [] => xH
  | Byte.x00 :: l => xO (bytes_pos l)
  | _ :: l => xI (bytes_pos l)
  end.
Lemma bytes_pos_bytes p : bytes_pos (pos_bytes p) = p.
Proof. induction p; cbn; congruence. Qed.

#[export] Instance countable_json {T} `{Countable T} : Json T := {|
  json_Marshal x := Ok (pos_bytes (encode x));
  json_Unmarshal d := match decode (bytes_pos d) with Some x => Ok x | None => Fail (errorf []) end
|}.

#[export] Instance countable_json_laws {T} `{Countable T} : JsonLaws T.
Proof.
  constructor; cbn; try done.
  - intros x d [= <-]. by rewrite bytes_pos_bytes, decode_encode.
  - intros d. by destruct (decode _).
  - intros d e. destruct (decode _); [done|]. by intros [= <-].
Qed.

End DemoRedis.
