(* ===== verification/Notifier.v ===== *)
(** Notifications between the requests of the proxy ([Notifier] and [Subscription] of
    [pkg/storage/storage.go], their implementation on Redis in [pkg/storage/redis.go]): a
    subscription is active once [Subscribe] has returned it, so that what is published
    afterwards is received. *)

From S2P Require Import Prelude Types Redis.

Module Notifier.

(** What [PubSub.Receive] can deliver. *)
Inductive reply : Type := Subscription (channel : string) | OtherReply.

(** Publishing and subscribing of the Redis client.  [asked]: the client has sent a
    subscription, not yet confirmed; [registered]: the server delivers the channel to it;
    [inbox]: the payloads that wait in it; [others]: what the rest of the world does
    meanwhile, while the connection lasts. *)
Class PubSubLib : Type := {
  net : Type;
  PubSub : Type;
  asked : net -> PubSub -> string -> Prop;
  registered : net -> PubSub -> string -> Prop;
  inbox : net -> PubSub -> list string;
  closed : net -> PubSub -> Prop;
  others : net -> net -> Prop;
  client_Publish : net -> string -> string -> net * res unit;
  client_Subscribe : net -> string -> net * PubSub;
  ps_Receive : net -> PubSub -> net * res reply;
  ps_ReceiveMessage : net -> PubSub -> net * res string;
  ps_Close : net -> PubSub -> net * res unit
}.

(** The documented behaviour.  The first reply to a new subscription is its confirmation,
    when it is one. *)
Class PubSubLaws `{PubSubLib} : Prop := {
  Subscribe_law n ch : asked (client_Subscribe n ch).1 (client_Subscribe n ch).2 ch;
  Receive_law n n' ps ch c : asked n ps ch -> ps_Receive n ps = (n', Ok (Subscription c)) -> registered n' ps ch;
  Receive_no_panic n ps : (ps_Receive n ps).2 <> Panic;
  Publish_law n n' ps ch c payload out : registered n ps ch -> client_Publish n c payload = (n', out) ->
    registered n' ps ch /\ (inbox n' ps = inbox n ps \/ inbox n' ps = inbox n ps ++ [payload]) /\
    (out = Ok tt -> c = ch -> inbox n' ps = inbox n ps ++ [payload]);
  ReceiveMessage_law n ps ch m l : registered n ps ch -> inbox n ps = m :: l ->
    exists n', ps_ReceiveMessage n ps = (n', Ok m) /\ registered n' ps ch /\ inbox n' ps = l;
  Close_law n ps : closed (ps_Close n ps).1 ps;
  others_law n n' ps ch : others n n' -> registered n ps ch -> registered n' ps ch /\ exists l, inbox n' ps = inbox n ps ++ l
}.

Section Ops.
Context `{PubSubLib}.

Definition Publish (n : net) (channel : string) : net * res unit :=
  let '(n, out) := client_Publish n channel "stored" in (n, wrap out).

(** The confirmation is awaited; without one the subscription is closed, the error of
    closing being ignored. *)
Definition Subscribe (n : net) (channel : string) : net * res PubSub :=
  let '(n, ps) := client_Subscribe n channel in
  match ps_Receive n ps with
  | (n, Fail err) => ((ps_Close n ps).1, Fail (errorf [err]))
  | (n, Panic) => (n, Panic)
  | (n, Ok (Subscription _)) => (n, Ok ps)
  | (n, Ok OtherReply) => ((ps_Close n ps).1, Fail (errorf []))
  end.

Definition ReceiveMessage (n : net) (ps : PubSub) : net * res string :=
  let '(n, out) := ps_ReceiveMessage n ps in (n, wrap out).

Definition Close (n : net) (ps : PubSub) : net * res unit := ps_Close n ps.
End Ops.
Section Facts.
Context `{PubSubLib, !PubSubLaws}.

(** A step of anything but the subscriber. *)
Definition elsewhere (n n' : net) : Prop := others n n' \/ exists c out, Publish n c = (n', out).

Lemma Publish_registered n n' ps ch c out :
  registered n ps ch -> Publish n c = (n', out) ->
  registered n' ps ch /\ (exists l, inbox n' ps = inbox n ps ++ l) /\
  (out = Ok tt -> c = ch -> inbox n' ps = inbox n ps ++ ["stored"%string]).
Proof.
  unfold Publish. intros Hr. destruct (client_Publish n c "stored") as [n1 out1] eqn:Hp. intros [= <- <-].
  destruct (Publish_law _ _ _ _ _ _ _ Hr Hp) as (Hr1 & Hi & Hok). split_and!; [done| |].
  - destruct Hi as [->| ->]; [exists []; by rewrite app_nil_r|by eexists].
  - intros Ho. apply Hok. by destruct out1 as [[]| |].
Qed.

Lemma elsewhere_registered n n' ps ch :
  rtc elsewhere n n' -> registered n ps ch -> registered n' ps ch /\ exists l, inbox n' ps = inbox n ps ++ l.
Proof.
  induction 1 as [n|n n1 n' Hs _ IH]; intros Hr; [split; [done|exists []; by rewrite app_nil_r]|].
  assert (registered n1 ps ch /\ exists l, inbox n1 ps = inbox n ps ++ l) as [Hr1 [l Hl]].
  { destruct Hs as [Ho|(c & out & Hp)]; [by eapply others_law|].
    destruct (Publish_registered _ _ _ _ _ _ Hr Hp) as (? & ? & _). done. }
  destruct (IH Hr1) as [Hr' [l' ->]]. split; [done|]. rewrite Hl, <- app_assoc. by eexists.
Qed.

(** A subscription that is returned is active, whatever the server did before it; one that
    is not returned has been closed. *)
Lemma Subscribe_outcome n n' ch out :
  Subscribe n ch = (n', out) ->
  match out with
  | Ok ps => registered n' ps ch
  | Fail _ => exists ps, closed n' ps
  | Panic => False
  end.
Proof.
  unfold Subscribe. pose proof (Subscribe_law n ch) as Ha. destruct (client_Subscribe n ch) as [n0 ps].
  pose proof (Receive_no_panic n0 ps) as Hp. destruct (ps_Receive n0 ps) as [n1 [[c|]|e|]] eqn:Hr; [| | |done];
    intros [= <- <-]; [by eapply Receive_law|eexists; apply Close_law..].
Qed.

(** No notification is lost.  Once [Subscribe] has returned a subscription, a notification
    that is published on its channel at any time later, whatever happens in between and
    afterwards while the connection lasts, is there for [ReceiveMessage], which then returns
    and leaves the subscription active. *)
Theorem subscribed_is_notified n n1 n2 n3 n4 ps ch :
  Subscribe n ch = (n1, Ok ps) -> rtc elsewhere n1 n2 -> Publish n2 ch = (n3, Ok tt) -> rtc elsewhere n3 n4 ->
  exists n5 m, ReceiveMessage n4 ps = (n5, Ok m) /\ registered n5 ps ch /\ inbox n4 ps = m :: inbox n5 ps.
Proof.
  intros Hs H12 Hp H34. pose proof (Subscribe_outcome _ _ _ _ Hs) as Hr1. cbn in Hr1.
  destruct (elsewhere_registered _ _ _ _ H12 Hr1) as [Hr2 _].
  destruct (Publish_registered _ _ _ _ _ _ Hr2 Hp) as (Hr3 & _ & Hi3). specialize (Hi3 eq_refl eq_refl).
  destruct (elsewhere_registered _ _ _ _ H34 Hr3) as [Hr4 [l Hi4]].
  destruct (inbox n4 ps) as [|m l'] eqn:Hi; [rewrite Hi3 in Hi4; by destruct (inbox n2 ps)|].
  destruct (ReceiveMessage_law _ _ _ _ _ Hr4 Hi) as (n5 & Hm & Hr5 & Hl). exists n5, m.
  unfold ReceiveMessage. rewrite Hm, Hl. done.
Qed.
End Facts.

(** ** A server with its subscribers *)

Module DemoNotifier.
Record world : Type := mkWorld { subs : list (option string * list string) }.
Definition channel (n : world) (ps : nat) : option string := match subs n !! ps with Some (c, _) => c | None => None end.
Definition box (n : world) (ps : nat) : list string := match subs n !! ps with Some (_, l) => l | None => [] end.
Definition deliver (c payload : string) (s : option string * list string) : option string * list string :=
  if decide (s.1 = Some c) then (s.1, s.2 ++ [payload]) else s.

#[export] Instance pubsub : PubSubLib := {|
  net := world; PubSub := nat;
  asked n ps ch := channel n ps = Some ch;
  registered n ps ch := channel n ps = Some ch;
  inbox := box;
  closed n ps := channel n ps = None;
  others n n' := n' = n;
  client_Publish n c payload := (mkWorld (deliver c payload <$> subs n), Ok tt);
  client_Subscribe n c := (mkWorld (subs n ++ [(Some c, [])]), length (subs n));
  ps_Receive n ps := (n, match channel n ps with Some c => Ok (Subscription c) | None => Fail (errorf []) end);
  ps_ReceiveMessage n ps :=
    match subs n !! ps with
    | Some (c, m :: l) => (mkWorld (<[ps := (c, l)]> (subs n)), Ok m)
    | _ => (n, Fail (errorf []))
    end;
  ps_Close n ps := (mkWorld (<[ps := (None, [])]> (subs n)), Ok tt)
|}.

#[export] Instance pubsub_laws : PubSubLaws.
Proof.
  split.
  - intros [l] ch. cbn. unfold channel. cbn. by rewrite lookup_app_r, Nat.sub_diag by lia.
  - intros n n' ps ch c Ha. cbn in *. rewrite Ha. by intros [= <- _].
  - intros n ps. cbn. by destruct (channel n ps).
  - intros [l] n' ps ch c payload out; change PubSub with nat in ps. cbn. unfold channel, box. cbn. intros Hr [= <- <-]. cbn.
    rewrite list_lookup_fmap. destruct (l !! ps) as [[c0 b]|]; [|discriminate Hr]. cbn in Hr |- *. subst c0.
    unfold deliver. cbn. destruct (decide (Some ch = Some c)) as [Hc|Hc]; cbn.
    + split_and!; [done|by right|done].
    + split_and!; [done|by left|intros _ ->; done].
  - intros [l] ps ch m k; change PubSub with nat in ps. cbn. unfold channel, box. cbn. destruct (l !! ps) as [[c b]|] eqn:Hl; [|discriminate 1].
    intros -> ->. eexists. split; [done|]. cbn. rewrite list_lookup_insert_eq by (by eapply lookup_lt_Some). done.
  - intros [l] ps; change PubSub with nat in ps. cbn. unfold channel. cbn. destruct (decide (ps < length l)%nat) as [Hlt|Hge].
    + by rewrite list_lookup_insert_eq by done.
    + by rewrite list_insert_ge, lookup_ge_None_2 by lia.
  - intros n n' ps ch ->. cbn. split; [done|]. exists []. by rewrite app_nil_r.
Qed.

Lemma subscribed_is_notified_witness :
  let n := mkWorld [] in
  exists n1 n2, Subscribe n "result" = (n1, Ok 0%nat) /\ Publish n1 "result" = (n2, Ok tt) /\
  exists n3 m, ReceiveMessage n2 0%nat = (n3, Ok m) /\ registered n3 0%nat "result" /\ inbox n2 0%nat = m :: inbox n3 0%nat.
Proof.
  intros n. eexists. eexists. split; [reflexivity|]. split; [reflexivity|].
  by apply (subscribed_is_notified (H := pubsub) n (mkWorld [(Some "result"%string, [])]) (mkWorld [(Some "result"%string, [])])
    (mkWorld [(Some "result"%string, ["stored"%string])]) _ 0%nat "result").
Defined.
End DemoNotifier.
End Notifier.
