(* ===== verification/GCS.v ===== *)
(** The Google Cloud store ([pkg/storage/gcs.go]): values in an envelope with their
    expiry, one object per key, and lazy removal of what has expired.  It implements
    the interface [StorageI] the services are proved against, as the Redis store does. *)

From S2P Require Import Prelude Types Redis.

Module GCS.

(** [gcsDoc]; the zero time is [0]. *)
Record gcsDoc : Type := mkDoc { Data : bytes; ExpiresAt : Z }.

(** A bucket of the client library.  [objects] is what it holds: the content and the
    generation of an object.  A reader is opened for an object, knows its generation,
    and is read to the end; a writer collects data and commits it when it is closed. *)
Class GCSLib : Type := {
  bucket : Type;
  Reader : Type;
  Writer : Type;
  objects : bucket -> string -> option (bytes * Z);
  NewReader : bucket -> string -> res Reader;
  ReadAll : Reader -> res bytes;
  Generation : Reader -> Z;
  NewWriter : string -> Writer;
  Write : Writer -> bytes -> Writer * res unit;
  Close : bucket -> Writer -> bucket * res unit;
  Delete : bucket -> string -> option Z -> bucket * res unit     (* with a condition on the generation *)
}.

Definition ErrObjectNotExist : string := "gcs.ErrObjectNotExist".

Section Ops.
Context `{GCSLib, !Json gcsDoc} {T : Type} `{Json T}.
(** The name prefix of the store. *)
Variable prefix : string.

Definition object (key : string) : string := prefix +:+ "/" +:+ key.

Definition write (b : bucket) (key : string) (item : T) (expiresAt : Z) : bucket * res unit :=
  if decide (key = ""%string) then (b, Fail ErrEmptyKey)
  else
    match wrap (json_Marshal item) with
    | Fail e => (b, Fail e)
    | Panic => (b, Panic)
    | Ok data =>
        match wrap (json_Marshal (mkDoc data expiresAt)) with
        | Fail e => (b, Fail e)
        | Panic => (b, Panic)
        | Ok doc =>
            match Write (NewWriter (object key)) doc with
            | (w, Panic) => (b, Panic)
            | (w, Fail e) => ((Close b w).1, Fail (errorf [e]))
            | (w, Ok _) =>
                match Close b w with
                | (b, Ok _) => (b, Ok tt)
                | (b, Fail e) => (b, Fail (errorf [e]))
                | (b, Panic) => (b, Panic)
                end
            end
        end
    end.

Definition Set_ (b : bucket) (key : string) (item : T) : bucket * res unit := write b key item 0.
Definition SetWithTTL (b : bucket) (now : Z) (key : string) (item : T) (expiration : Z) : bucket * res unit :=
  write b key item (time_Add now expiration).

(** [deleteGeneration]: only the generation that was read, whatever the outcome. *)
Definition deleteGeneration (b : bucket) (key : string) (generation : Z) : bucket :=
  (Delete b (object key) (Some generation)).1.

Definition Get (b : bucket) (now : Z) (key : string) : bucket * res T :=
  match NewReader b (object key) with
  | Panic => (b, Panic)
  | Fail e => if errors_Is e ErrObjectNotExist then (b, Fail ErrNotFound) else (b, Fail (errorf [e]))
  | Ok reader =>
      match wrap (ReadAll reader) with
      | Fail e => (b, Fail e)
      | Panic => (b, Panic)
      | Ok raw =>
          match wrap (json_Unmarshal raw : res gcsDoc) with
          | Fail e => (b, Fail e)
          | Panic => (b, Panic)
          | Ok doc =>
              if decide (ExpiresAt doc <> 0 /\ ExpiresAt doc < now)
              then (deleteGeneration b key (Generation reader), Fail ErrNotFound)
              else (b, wrap (json_Unmarshal (Data doc)))
          end
      end
  end.

Definition Remove (b : bucket) (key : string) : bucket * res unit :=
  match Delete b (object key) None with
  | (b, Fail e) => if errors_Is e ErrObjectNotExist then (b, Ok tt) else (b, Fail (errorf [e]))
  | out => out
  end.
End Ops.

(** ** Documented behaviour of the library *)

Section Laws.
Context `{GCSLib}.

Definition same_objects (b b' : bucket) : Prop := forall n, objects b' n = objects b n.
(** One object replaced, with a new generation, or removed. *)
Definition put_object (b b' : bucket) (name : string) (d : bytes) : Prop :=
  (exists g, objects b' name = Some (d, g) /\ forall d0 g0, objects b name = Some (d0, g0) -> g <> g0) /\
  forall n, n <> name -> objects b' n = objects b n.
Definition drop_object (b b' : bucket) (name : string) : Prop :=
  objects b' name = None /\ forall n, n <> name -> objects b' n = objects b n.

(** A write is visible only when [Close] succeeds, and then as a whole: a writer that
    has failed never commits.  A deletion under a condition removes the object only if
    its generation is the given one. *)
Class GCSLaws : Prop := {
  NewReader_law b name :
    match NewReader b name with
    | Ok r => exists d, objects b name = Some (d, Generation r) /\
                ReadAll r <> Panic /\ (forall d', ReadAll r = Ok d' -> d' = d) /\
                (forall e, ReadAll r = Fail e -> foreign e)
    | Fail e => foreign e /\ (errors_Is e ErrObjectNotExist = true -> objects b name = None)
    | Panic => False
    end;
  Write_law b name d :
    match Write (NewWriter name) d with
    | (w, Ok _) => match Close b w with
                   | (b', Ok _) => put_object b b' name d
                   | (b', Fail e) => same_objects b b' \/ put_object b b' name d
                   | (_, Panic) => False
                   end
    | (w, Fail e) => same_objects b (Close b w).1
    | (_, Panic) => False
    end;
  Delete_law b name g :
    match Delete b name g with
    | (b', Ok _) => drop_object b b' name
    | (b', Fail e) => (same_objects b b' \/ drop_object b b' name) /\
                      (errors_Is e ErrObjectNotExist = true -> objects b' name = None)
    | (_, Panic) => False
    end;
  Delete_generation_law b name g d g' :
    objects b name = Some (d, g') -> g' <> g -> same_objects b (Delete b name (Some g)).1
}.
End Laws.

(** The year 10000: [time.Time] marshals to JSON only between the years 0 and 9999. *)
Definition year_10000 : Z := 315537897600 * second.
Class DocLaws `{!Json gcsDoc} : Prop := {
  doc_json :: JsonLaws gcsDoc;
  doc_year d raw : json_Marshal d = Ok raw -> - 366 * 86400 * second <= ExpiresAt d < year_10000
}.

(** ** The store implements the interface *)

Section Impl.
Context `{GCSLib, !GCSLaws, !Json gcsDoc, !DocLaws} {T : Type} `{Json T, !JsonLaws T}.
Variable prefix : string.

(** What a key holds at a time. *)
Definition stored (b : bucket) (now : Z) (key : string) : option T :=
  match objects b (object prefix key) with
  | None => None
  | Some (raw, _) =>
      match (json_Unmarshal raw : res gcsDoc) with
      | Ok doc =>
          if decide (ExpiresAt doc <> 0 /\ ExpiresAt doc < now) then None
          else match json_Unmarshal (Data doc) with Ok x => Some x | _ => None end
      | _ => None
      end
  end.

Lemma object_inj key key' : object prefix key = object prefix key' -> key = key'.
Proof.
  unfold object. intros Heq. induction prefix as [|c p IH].
  - by injection Heq.
  - apply IH. by injection Heq.
Qed.

Lemma same_objects_stored b b' now key : same_objects b b' -> stored b' now key = stored b now key.
Proof. intros Hs. unfold stored. by rewrite Hs. Qed.

Lemma year_time_Add t d :
  - 366 * 86400 * second <= time_Add t d < year_10000 -> time_Add t d = t + d.
Proof.
  unfold time_Add, year_10000, maxInt64, second. intros Hr.
  pose proof (Z.mod_pos_bound (t + d) 1000000000 ltac:(lia)). repeat case_decide; lia.
Qed.

#[local] Instance gcs_storage : StorageI bucket T := {|
  st_SetWithTTL := SetWithTTL prefix;
  st_Get := Get prefix;
  st_view := stored
|}.

Lemma put_object_contents b b' now key (x : T) ttl data doc :
  json_Marshal x = Ok data -> json_Marshal (mkDoc data (time_Add now ttl)) = Ok doc ->
  put_object b b' (object prefix key) doc -> set_contents b b' now key x ttl.
Proof.
  intros Hx Hdoc [[g [Hg _]] Ho]. pose proof (doc_year _ _ Hdoc) as Hyear. cbn [ExpiresAt] in Hyear.
  apply year_time_Add in Hyear. split.
  - intros now' Hn. cbn. unfold stored. rewrite Hg, (json_roundtrip _ _ Hdoc). cbn [ExpiresAt Data].
    rewrite decide_False by lia. by rewrite (json_roundtrip _ _ Hx).
  - intros now' k' _ Hk. cbn. unfold stored. rewrite Ho; [done|]. by intros ?%object_inj.
Qed.

Lemma write_contents b now key (x : T) ttl :
  match write prefix b key x (time_Add now ttl) with
  | (b', Ok _) => set_contents b b' now key x ttl
  | (b', Fail _) => same_objects b b' \/ set_contents b b' now key x ttl
  | (_, Panic) => False
  end.
Proof.
  unfold write. case_decide; [by left|].
  pose proof (json_Marshal_no_panic x) as Hnp. destruct (json_Marshal x) as [data|e|] eqn:Hx; cbn [wrap]; [|by left|done].
  pose proof (json_Marshal_no_panic (mkDoc data (time_Add now ttl))) as Hnp'.
  destruct (json_Marshal (mkDoc data (time_Add now ttl))) as [doc|e|] eqn:Hdoc; cbn [wrap]; [|by left|done].
  pose proof (Write_law b (object prefix key) doc) as Hw.
  destruct (Write (NewWriter (object prefix key)) doc) as [w [[]|e|]]; [|by left|done].
  destruct (Close b w) as [b' [[]|e|]]; [| |done].
  - by eapply put_object_contents.
  - destruct Hw as [Hs|Hp]; [by left|right]. by eapply put_object_contents.
Qed.

Lemma gcs_Get_spec b now key :
  let '(b', out) := Get (T := T) prefix b now key in
  same_contents now b b' /\ out <> Panic /\
  (forall x, out = Ok x -> stored b now key = Some x) /\
  (forall e, out = Fail e -> errors_Is e "storage.ErrNotFound" = true -> stored b now key = None).
Proof.
  assert (Hforeign : forall (e : error) (P : Prop), foreign e -> errors_Is (errorf [e]) "storage.ErrNotFound" = true -> P).
  { intros e P [He _]. rewrite errors_Is_errorf by done. congruence. }
  unfold Get. pose proof (NewReader_law b (object prefix key)) as Hr.
  destruct (NewReader b (object prefix key)) as [r|e|]; [| |done].
  2:{ destruct Hr as [Hf Hne]. destruct (errors_Is e ErrObjectNotExist).
      - split_and!; try done. intros ? _ _. unfold stored. by rewrite Hne.
      - split_and!; try done. intros ? [= <-]. by apply Hforeign. }
  destruct Hr as (d & Hobj & Hnp & Hd & Hf).
  destruct (ReadAll r) as [raw|e|]; cbn [wrap]; [|split_and!; try done; intros ? [= <-]; apply Hforeign; auto|done].
  specialize (Hd raw eq_refl) as ->.
  pose proof (json_Unmarshal_no_panic (T := gcsDoc) d) as Hdp. pose proof (json_Unmarshal_error (T := gcsDoc) d) as Hde.
  destruct (json_Unmarshal d : res gcsDoc) as [doc|e|] eqn:Hdoc; cbn [wrap];
    [|split_and!; try done; intros ? [= <-]; apply Hforeign; auto|done].
  assert (Hst : forall now', stored b now' key =
    if decide (ExpiresAt doc <> 0 /\ ExpiresAt doc < now') then None
    else match json_Unmarshal (Data doc) with Ok x => Some x | _ => None end)
    by (intros now'; unfold stored; by rewrite Hobj, Hdoc).
  destruct (decide (ExpiresAt doc <> 0 /\ ExpiresAt doc < now)) as [Hexp|Hexp].
  - assert (Hnone : stored b now key = None) by (by rewrite Hst, decide_True).
    split_and!; try done. intros now' k Hn. cbn. unfold deleteGeneration.
    pose proof (Delete_law b (object prefix key) (Some (Generation r))) as Hdel.
    assert (Hdrop : forall b', drop_object b b' (object prefix key) -> stored b' now' k = stored b now' k).
    { intros b' [Hgone Hrest]. destruct (decide (k = key)) as [->|Hk].
      - rewrite Hst, decide_True by lia. unfold stored. by rewrite Hgone.
      - unfold stored. rewrite Hrest; [done|]. by intros ?%object_inj. }
    destruct (Delete b (object prefix key) (Some (Generation r))) as [b' [[]|e|]]; cbn; [auto| |done].
    destruct Hdel as [[Hs|Hdr] _]; [by apply same_objects_stored|auto].
  - pose proof (json_Unmarshal_no_panic (T := T) (Data doc)) as Hvp.
    pose proof (json_Unmarshal_error (T := T) (Data doc)) as Hve.
    split_and!; try done.
    + by destruct (json_Unmarshal (Data doc)).
    + intros x Hx. rewrite Hst, decide_False by done. by destruct (json_Unmarshal (Data doc)) as [y| |]; [injection Hx as ->|..].
    + intros e He. destruct (json_Unmarshal (Data doc)) as [x|e'|]; cbn in He; try done.
      injection He as <-. apply Hforeign. auto.
Qed.

Lemma gcs_laws : StorageLaws bucket T.
Proof.
  constructor.
  - intros b now key x ttl. pose proof (write_contents b now key x ttl) as Hw. cbn. unfold SetWithTTL.
    destruct (write prefix b key x (time_Add now ttl)) as [b' [[]|e|]]; [done| |done].
    destruct Hw as [Hs|Hs]; [left|by right]. intros now' k _. by apply same_objects_stored.
  - apply gcs_Get_spec.
  - intros b now now' key x Hle. cbn. unfold stored. destruct (objects b (object prefix key)) as [[raw g]|]; [|done].
    destruct (json_Unmarshal raw) as [doc| |]; [|done..].
    destruct (decide (ExpiresAt doc <> 0 /\ ExpiresAt doc < now')); [done|]. by rewrite decide_False by lia.
Qed.

(** C25: the Google Cloud store keeps the promises of the storage interface that the
    results and backups services are proved against: a value is readable for its time
    to live, other keys are untouched, an expired value is reported as not found --
    removing it is invisible --, and a failed write happened as a whole or not at all. *)
Theorem gcs_refines_storage : @StorageLaws bucket T gcs_storage.
Proof. apply gcs_laws. Qed.

(** Lazy removal spares what is written in between: when the object a reader found
    expired is replaced before the removal, the removal leaves the new one. *)
Theorem expired_removal_spares_fresh_write b b' key r d :
  NewReader b (object prefix key) = Ok r -> put_object b b' (object prefix key) d ->
  same_objects b' (deleteGeneration prefix b' key (Generation r)).
Proof.
  intros Hr [[g [Hg Hnew]] _]. pose proof (NewReader_law b (object prefix key)) as Hlaw. rewrite Hr in Hlaw.
  destruct Hlaw as (d0 & Hobj & _). eapply Delete_generation_law; [exact Hg|by eapply Hnew].
Qed.

(** [Remove] leaves nothing under the key, also when there was nothing. *)
Lemma Remove_gone b key now b' : Remove prefix b key = (b', Ok tt) -> stored b' now key = None.
Proof.
  unfold Remove. pose proof (Delete_law b (object prefix key) None) as Hdel.
  destruct (Delete b (object prefix key) None) as [b1 [[]|e|]]; [| |done].
  - intros [= <-]. unfold stored. destruct Hdel as [Hgone _]. by rewrite Hgone.
  - destruct (errors_Is e ErrObjectNotExist); [|done]. intros [= <-]. unfold stored.
    destruct Hdel as [_ Hne]. by rewrite Hne.
Qed.
End Impl.

(** ** A concrete bucket *)

Module DemoGCS.
Import DemoRedis.

Definition demo_objects (b : gmap string (bytes * Z)) (n : string) : option (bytes * Z) := b !! n.
(** A rewritten object gets the next generation. *)
Definition demo_put (b : gmap string (bytes * Z)) (n : string) (d : bytes) : gmap string (bytes * Z) :=
  <[n := (d, match b !! n with Some (_, g) => g + 1 | None => 0 end)]> b.
Definition demo_drop (b : gmap string (bytes * Z)) (n : string) : gmap string (bytes * Z) := base.delete n b.

#[export] Instance gcs_lib : GCSLib := {|
  bucket := gmap string (bytes * Z);
  Reader := bytes * Z;
  Writer := string * bytes;
  objects := demo_objects;
  NewReader b n := match demo_objects b n with Some r => Ok r | None => Fail (sentinel ErrObjectNotExist) end;
  ReadAll r := Ok r.1;
  Generation r := r.2;
  NewWriter n := (n, []);
  Write w d := ((w.1, w.2 ++ d), Ok tt);
  Close b w := (demo_put b w.1 w.2, Ok tt);
  Delete b n g := match demo_objects b n with
    | None => (b, Fail (sentinel ErrObjectNotExist))
    | Some (_, g') => if decide (g = None \/ g = Some g') then (demo_drop b n, Ok tt) else (b, Fail (errorf []))
    end
|}.

#[export] Instance gcs_lib_laws : GCSLaws.
Proof.
  constructor; intros b n; cbn.
  - destruct (demo_objects b n) as [[d g]|]; [|done]. exists d. split_and!; try done. by intros ? [= <-].
  - intros d. unfold put_object. cbn. unfold demo_objects, demo_put. split.
    + eexists. rewrite lookup_insert_eq. split; [done|]. intros d0 g0 ->. lia.
    + intros m Hm. by rewrite lookup_insert_ne.
  - intros g. destruct (demo_objects b n) as [[d g']|] eqn:Hn; [|by split; [left|]].
    destruct (decide (g = None \/ g = Some g')); [|by split; [left|]].
    unfold drop_object. cbn. unfold demo_objects, demo_drop.
    split; [apply lookup_delete_eq|]. intros m Hm. by rewrite lookup_delete_ne.
  - intros g d g' Hn Hg. rewrite Hn.
    destruct (decide (Some g = None \/ Some g = Some g')) as [[?|[= ?]]|?]; [done|congruence|]. by intros m.
Qed.

#[export] Instance gcsDoc_eq_dec : EqDecision gcsDoc.
Proof. solve_decision. Defined.
#[export] Instance byte_countable : Countable Byte.byte.
Proof.
  refine (inj_countable' (fun b => Byte.to_N b) (fun n => default Byte.x00 (Byte.of_N n)) _).
  intros b. by rewrite Byte.of_to_N.
Defined.
#[export] Instance gcsDoc_countable : Countable gcsDoc.
Proof. refine (inj_countable' (fun d => (Data d, ExpiresAt d)) (fun x => mkDoc x.1 x.2) _). by intros []. Defined.

(** Documents of the years 0 to 9999. *)
#[export] Instance doc_json_demo : Json gcsDoc := {|
  json_Marshal d := if decide (- 366 * 86400 * second <= ExpiresAt d < year_10000)
                    then @json_Marshal _ countable_json d else Fail (errorf []);
  json_Unmarshal := @json_Unmarshal _ countable_json
|}.
#[export] Instance doc_laws_demo : DocLaws.
Proof.
  split.
  - split.
    + intros x d. cbn -[year_10000 second]. case_decide; [|done]. apply (json_roundtrip (H := countable_json)).
    + intros x. cbn -[year_10000 second]. by case_decide.
    + apply (json_Unmarshal_no_panic (H := countable_json)).
    + apply (json_Unmarshal_error (H := countable_json)).
  - intros d raw. cbn -[year_10000 second]. by case_decide.
Qed.

Lemma gcs_refines_storage_witness :
  @StorageLaws (@bucket gcs_lib) Z (gcs_storage "results") /\
  (Get (T := Z) "results" (SetWithTTL "results" ∅ 100 "k" 7 50).1 150 "k").2 = Ok 7.
Proof. split; [apply (gcs_refines_storage "results")|vm_compute; reflexivity]. Defined.

(** The value has expired, and its removal is seen by nobody. *)
Example expired : (Get (T := Z) "results" (SetWithTTL "results" ∅ 100 "k" 7 50).1 151 "k") = (∅, Fail ErrNotFound).
Proof. vm_compute. reflexivity. Qed.

Lemma expired_removal_spares_fresh_write_witness :
  let b := <["results/k"%string := ([Byte.x00], 4)]> ∅ : gmap string (bytes * Z) in
  let b' := <["results/k"%string := ([Byte.x01], 5)]> ∅ : gmap string (bytes * Z) in
  same_objects (H := gcs_lib) b' (deleteGeneration "results" b' "k" 4).
Proof.
  intros b b'. apply (expired_removal_spares_fresh_write (H := gcs_lib) "results" b b' "k" ([Byte.x00], 4) [Byte.x01]).
  - reflexivity.
  - split.
    + exists 5. split; [reflexivity|]. intros d0 g0 Hg. change (Some ([Byte.x00], 4) = Some (d0, g0)) in Hg.
      injection Hg as _ <-. discriminate.
    + intros n Hn. change (n <> "results/k"%string) in Hn. cbn. unfold demo_objects, b, b'. rewrite !lookup_insert_ne by congruence. done.
Defined.
End DemoGCS.

End GCS.
