(* ===== verification/Queue.v ===== *)
(** The action queues ([internal/queue/queue.go], [action.go]): three queues of
    submission identifiers and a store of action bodies, all on one Redis
    server.  An action taken off a queue is a [Delivery], to be committed or
    restored. *)

From S2P Require Import Prelude Types Redis.
From Stdlib Require Import Ascii.

Module Queue.
Import RedisStorage.

Definition Actions : string := "Action".
Definition queueDepthWarnThreshold : Z := 100.
Definition MaxDeliveryAttempts : Z := 5.

Definition ErrInvalidQueueID : error := sentinel "queue.ErrInvalidQueueID".
Definition ErrDeliveryExhausted : error := sentinel "queue.ErrDeliveryExhausted".

(** [processorutils.QueueID]. *)
Inductive QueueID : Type := Main | Direct | Backup | OtherQueue (s : string).
#[export] Instance QueueID_eq_dec : EqDecision QueueID.
Proof. solve_decision. Defined.

Record ActionSubmissionID : Type := mkSubmissionID {
  ActionID : Hash;
  id_SubmissionTag : SubmissionTag;
  Attempt : Z                          (* uint8 *)
}.
#[export] Instance ActionSubmissionID_eq_dec : EqDecision ActionSubmissionID.
Proof. solve_decision. Defined.

(** [common.Hash.String] and the tag constants of the node, as strings. *)
Class NameLib : Type := {
  hash_String : Hash -> string;
  tag_String : SubmissionTag -> string
}.
(** A hash prints in hexadecimal, without a colon, and distinct values print
    differently. *)
Class NameLaws `{NameLib} : Prop := {
  hash_String_no_colon h : Forall (fun c => c <> ":"%char) (String.list_ascii_of_string (hash_String h));
  hash_String_inj h h' : hash_String h = hash_String h' -> h = h';
  tag_String_inj t t' : tag_String t = tag_String t' -> t = t'
}.

(** What the queues report to the metrics. *)
Inductive QueueEvent : Type :=
| ActionEnqueued (queue outcome : string)
| ActionDequeued (queue outcome : string)
| ActionRedelivery (queue outcome : string)
| QueueDepthReadFailed (queue : string).

Definition queueLabel (queueID : QueueID) : string :=
  match queueID with
  | Main => "main" | Direct => "direct" | Backup => "backup" | OtherQueue _ => "other"
  end.

(** The key prefix of each queue. *)
Definition queueByID (queueID : QueueID) : res string :=
  match queueID with
  | Main => Ok "MainQueue"
  | Direct => Ok "DirectQueue"
  | Backup => Ok "BackupQueue"
  | OtherQueue _ => Fail ErrInvalidQueueID
  end%string.

Section Ops.
Context `{RedisLib, NameLib, !Json Action, !Json ActionSubmissionID}.

(** [ActionSubmissionID.String]: the attempt is not part of it. *)
Definition String_ (id : ActionSubmissionID) : string :=
  hash_String (ActionID id) +:+ ":" +:+ tag_String (id_SubmissionTag id).

Record ActionQueues : Type := mkQueues {
  client : redis;
  actionTTL : Z;
  qevents : list QueueEvent
}.

Definition set_client (s : ActionQueues) (r : redis) : ActionQueues :=
  mkQueues r (actionTTL s) (qevents s).
Definition report (s : ActionQueues) (e : QueueEvent) : ActionQueues :=
  mkQueues (client s) (actionTTL s) (qevents s ++ [e]).

Definition NewActionQueues (r : redis) (ttl : Z) : ActionQueues := mkQueues r ttl [].

Definition Enqueue (s : ActionQueues) (now : Z) (action : Action) (queueID : QueueID)
    : stateful ActionQueues unit :=
  let id := mkSubmissionID (ad_ID (action_Data action)) (ad_SubmissionTag (action_Data action)) 0 in
  let ql := queueLabel queueID in
  match queueByID queueID with
  | Fail e => (report s (ActionEnqueued ql "invalid_queue"), Fail e)
  | Panic => (s, Panic)
  | Ok queue =>
      match SetWithTTL Actions (client s) now (String_ id) action (actionTTL s) with
      | (r, Fail e) => (report (set_client s r) (ActionEnqueued ql "store_error"), Fail (errorf [e]))
      | (r, Panic) => (set_client s r, Panic)
      | (r, Ok _) =>
          match RedisStorage.Enqueue queue r id with
          | (r, Fail e) => (report (set_client s r) (ActionEnqueued ql "queue_error"), Fail (errorf [e]))
          | (r, Panic) => (set_client s r, Panic)
          | (r, Ok _) =>
              (* the length is read for a warning only *)
              let '(r, _) := RedisStorage.QueueLength queue r in
              (report (set_client s r) (ActionEnqueued ql "success"), Ok tt)
          end
      end
  end.

Record Delivery : Type := mkDelivery {
  del_Action : Action;
  del_id : ActionSubmissionID;
  del_queue : string;
  del_queueID : QueueID
}.

Definition Commit (s : ActionQueues) (d : Delivery) : stateful ActionQueues unit :=
  match Remove Actions (client s) (String_ (del_id d)) with
  | (r, Ok _) => (set_client s r, Ok tt)
  | (r, Fail e) => (set_client s r, Fail (errorf [e]))
  | (r, Panic) => (set_client s r, Panic)
  end.

Definition Restore (s : ActionQueues) (d : Delivery) : stateful ActionQueues unit :=
  let ql := queueLabel (del_queueID d) in
  let next := mkSubmissionID (ActionID (del_id d)) (id_SubmissionTag (del_id d))
                (u8 (Attempt (del_id d) + 1)) in
  if decide (MaxDeliveryAttempts <= Attempt next) then
    let s := report s (ActionRedelivery ql "exhausted") in
    (* best effort *)
    let '(r, _) := Remove Actions (client s) (String_ (del_id d)) in
    (set_client s r, Fail (errorf [ErrDeliveryExhausted]))
  else
    match RedisStorage.Requeue (del_queue d) (client s) next with
    | (r, Fail e) => (report (set_client s r) (ActionRedelivery ql "requeue_failed"), Fail (errorf [e]))
    | (r, Panic) => (set_client s r, Panic)
    | (r, Ok _) => (report (set_client s r) (ActionRedelivery ql "requeued"), Ok tt)
    end.

(** [cancelled] is [ctx.Err()] when the call starts. *)
Definition Dequeue (s : ActionQueues) (now : Z) (cancelled : option error) (queueID : QueueID)
    : stateful ActionQueues Delivery :=
  match queueByID queueID with
  | Fail e => (s, Fail e)
  | Panic => (s, Panic)
  | Ok queue =>
      let ql := queueLabel queueID in
      match cancelled with
      | Some e => (report s (ActionDequeued ql "cancelled"), Fail (errorf [e]))
      | None =>
          match RedisStorage.Dequeue queue (client s) with
          | (r, Fail e) =>
              let outcome := if errors_Is e "storage.ErrEmptyQueue" then "empty" else "dequeue_error" in
              (report (set_client s r) (ActionDequeued ql outcome), Fail (errorf [e]))
          | (r, Panic) => (set_client s r, Panic)
          | (r, Ok storingID) =>
              match RedisStorage.Get Actions r now (String_ storingID) with
              | (r, Fail e) =>
                  if errors_Is e "storage.ErrNotFound"
                  then (report (set_client s r) (ActionDequeued ql "action_not_found"), Fail (errorf []))
                  else (report (set_client s r) (ActionDequeued ql "error"), Fail (errorf [e]))
              | (r, Panic) => (set_client s r, Panic)
              | (r, Ok action) =>
                  (report (set_client s r) (ActionDequeued ql "success"),
                   Ok (mkDelivery action storingID queue queueID))
              end
          end
      end
  end%string.

Definition QueueLength (s : ActionQueues) : stateful ActionQueues Z :=
  let '(r, n) := RedisStorage.QueueLength "MainQueue" (client s) in (set_client s r, n).

(** The queues with a depth gauge ([registerDepthGauges]), and what a scrape reads of one: a
    failure is counted and reported as depth 0. *)
Definition depth_gauges : list QueueID := [Direct; Main; Backup].
Definition read_depth (s : ActionQueues) (queueID : QueueID) : stateful ActionQueues Z :=
  match queueByID queueID with
  | Ok queue =>
      match RedisStorage.QueueLength queue (client s) with
      | (r, Ok n) => (set_client s r, Ok n)
      | (r, Fail _) => (report (set_client s r) (QueueDepthReadFailed (queueLabel queueID)), Ok 0)
      | (r, Panic) => (set_client s r, Panic)
      end
  | _ => (s, Panic)
  end.

(** The gauges of a scrape, in the order the collectors come. *)
Fixpoint read_depths (s : ActionQueues) (queueIDs : list QueueID) : stateful ActionQueues (list (QueueID * Z)) :=
  match queueIDs with
  | [] => (s, Ok [])
  | k :: ks => let* (s, n) := read_depth s k in let* (s, rest) := read_depths s ks in (s, Ok ((k, n) :: rest))
  end.

(** ** Direct actions *)

Record DirectInstruction : Type := mkDirect { di_OPType : Hash; di_OPCommand : Hash; di_Message : bytes }.

(** [id] is the result of [random.Hash]. *)
Definition DirectInstructionToAction `{!Json DirectInstruction} (i : DirectInstruction) (id : res Hash) : res Action :=
  id ← id;
  dim ← json_Marshal i;
  Ok (mkAction (mkActionData id DirectAction Submit dim) [] [] [] []).

Definition PrepareDirectAction `{OpLib, !Json DirectInstruction} (opType : OpType) (opCommand : Command)
    (msg : bytes) (id : res Hash) : res Action :=
  DirectInstructionToAction (mkDirect (optype_Hash opType) (command_Hash opCommand) msg) id.
End Ops.

(** What reading depths may change: nothing that Redis holds, and the count of the failures. *)
Definition only_read `{RedisLib} (s s' : ActionQueues) : Prop :=
  (RedisLaws -> same_view (client s) (client s')) /\ actionTTL s' = actionTTL s /\
  exists failures, qevents s' = qevents s ++ (QueueDepthReadFailed <$> failures).

Section Depths.
Context `{RedisLib, NameLib, !Json Action, !Json ActionSubmissionID}.

Lemma only_read_refl s : only_read s s.
Proof. split_and!; [done|done|]. exists []. by rewrite app_nil_r. Qed.
Lemma only_read_trans s1 s2 s3 : only_read s1 s2 -> only_read s2 s3 -> only_read s1 s3.
Proof.
  intros (Hv1 & Ht1 & l1 & He1) (Hv2 & Ht2 & l2 & He2). split_and!; [|congruence|].
  - intros HL. destruct (Hv1 HL), (Hv2 HL). split; congruence.
  - exists (l1 ++ l2). by rewrite He2, He1, fmap_app, app_assoc.
Qed.

Lemma read_depth_only_reads s k : only_read s (read_depth s k).1.
Proof.
  unfold read_depth. destruct (queueByID k) as [p|e|]; [|apply only_read_refl..].
  assert (Hv : RedisLaws -> same_view (client s) (RedisStorage.QueueLength p (client s)).1).
  { intros HL. unfold RedisStorage.QueueLength, RedisStorage.wrapped. pose proof (redis_LLen_law (client s) (RedisStorage.prefix p "")) as Hlaw.
    destruct (redis_LLen _ _) as [r out]. destruct Hlaw as [Hlaw _]. by destruct out. }
  destruct (RedisStorage.QueueLength p (client s)) as [r [n|e|]]; (split_and!; [exact Hv|done|]).
  1, 3: exists []; by rewrite app_nil_r.
  by exists [queueLabel k].
Qed.
Lemma read_depths_only_read s ks : only_read s (read_depths s ks).1.
Proof.
  revert s. induction ks as [|k ks IH]; intros s; cbn [read_depths]; [apply only_read_refl|].
  pose proof (read_depth_only_reads s k) as H1. destruct (read_depth s k) as [s1 [n|e|]]; cbn [sbind fst] in *; [|done..].
  pose proof (IH s1) as H2. destruct (read_depths s1 ks) as [s2 [rest|e|]]; cbn [sbind fst] in *; by eapply only_read_trans.
Qed.
End Depths.

(** ** Specification

    The three queues as lists of identifiers, the next to be delivered first. *)

Section Spec.
Context `{RedisLib, !RedisLaws, NameLib, !NameLaws, !Json Action, !Json ActionSubmissionID}.
Context `{!JsonLaws Action, !JsonLaws ActionSubmissionID}.

Definition queues_of (r : redis) (q : QueueID -> list ActionSubmissionID) : Prop :=
  forall k p, queueByID k = Ok p -> queued p r = Some (q k).

Definition upd (q : QueueID -> list ActionSubmissionID) (k : QueueID) (l : list ActionSubmissionID)
    : QueueID -> list ActionSubmissionID :=
  fun k' => if decide (k' = k) then l else q k'.

Lemma upd_eq q k l : upd q k l k = l.
Proof. unfold upd. by destruct (decide (k = k)). Qed.
Lemma queues_of_ext r q q' : (forall k, q k = q' k) -> queues_of r q -> queues_of r q'.
Proof. intros Hq Hr k p Hp. rewrite <- Hq. by apply Hr. Qed.
Lemma upd_upd r q k l l' : queues_of r (upd (upd q k l) k l') -> queues_of r (upd q k l').
Proof. apply queues_of_ext. intros k'. unfold upd. by destruct (decide (k' = k)). Qed.
Lemma upd_self r q k l : q k = l -> queues_of r q -> queues_of r (upd q k l).
Proof.
  intros Hl. apply queues_of_ext. intros k'. unfold upd. destruct (decide (k' = k)) as [->|]; [done|done].
Qed.

(** The body stored for an identifier at a time. *)
Definition body (s : ActionQueues) (now : Z) (id : ActionSubmissionID) : option Action :=
  stored Actions (client s) now (String_ id).

Lemma String_inj id id' :
  String_ id = String_ id' -> ActionID id = ActionID id' /\ id_SubmissionTag id = id_SubmissionTag id'.
Proof.
  unfold String_. intros Heq.
  pose proof (hash_String_no_colon (ActionID id)) as H1'. pose proof (hash_String_no_colon (ActionID id')) as H2'.
  assert (Hsplit : forall a b c d,
    Forall (fun x => x <> ":"%char) (String.list_ascii_of_string a) ->
    Forall (fun x => x <> ":"%char) (String.list_ascii_of_string b) ->
    a +:+ ":" +:+ c = b +:+ ":" +:+ d -> a = b /\ c = d).
  { induction a as [|x a IH]; intros [|y b] c d Ha Hb Hs; cbn in *.
    - by injection Hs.
    - injection Hs as <- _. by inversion Hb.
    - injection Hs as -> _. by inversion Ha.
    - injection Hs as -> Hs. inversion Ha; inversion Hb; subst.
      by destruct (IH b c d) as [-> ->]. }
  apply Hsplit in Heq as [Hh Ht]; [|done..].
  split; [by apply hash_String_inj|by apply tag_String_inj].
Qed.

(** The keys of the queues differ from each other and from those of the
    bodies. *)
Lemma queue_keys k k' p p' :
  queueByID k = Ok p -> queueByID k' = Ok p' -> k <> k' -> prefix p "" <> prefix p' "".
Proof. destruct k, k'; cbn; intros [= <-] [= <-]; done. Qed.

Lemma body_key_not_queue k p key : queueByID k = Ok p -> prefix Actions key <> prefix p "".
Proof. destruct k; cbn; intros [= <-]; done. Qed.

Lemma queues_of_lists r r' q :
  (forall k, lists r' k = lists r k) -> queues_of r q -> queues_of r' q.
Proof. intros Hl Hq k p Hp. unfold queued. rewrite Hl. by apply Hq. Qed.

Lemma queues_of_put r r' q k p l :
  queueByID k = Ok p -> queue_put p r r' l -> queues_of r q -> queues_of r' (upd q k l).
Proof.
  intros Hp (Hl & _ & Hothers) Hq k' p' Hp'. unfold upd. case_decide as Hk.
  - subst k'. assert (p' = p) as -> by congruence. done.
  - unfold queued. rewrite Hothers; [by apply Hq|]. by eapply queue_keys.
Qed.

Lemma stored_kv r r' now key :
  (forall k, kv r' k = kv r k) -> stored (T := Action) Actions r' now key = stored Actions r now key.
Proof. intros Hk. unfold stored. by rewrite Hk. Qed.

(** What [Enqueue] does. *)
Definition Enqueue_spec (s : ActionQueues) (now : Z) (action : Action) (queueID : QueueID)
    (q : QueueID -> list ActionSubmissionID) (out : stateful ActionQueues unit) : Prop :=
  let id := mkSubmissionID (ad_ID (action_Data action)) (ad_SubmissionTag (action_Data action)) 0 in
  match out with
  | (s', Ok _) =>
      is_ok (queueByID queueID) = true /\ queues_of (client s') (upd q queueID (q queueID ++ [id])) /\
      (forall now', actionTTL s = 0 \/ now' < now + actionTTL s -> body s' now' id = Some action) /\
      (forall now' id', String_ id' <> String_ id -> body s' now' id' = body s now' id')
  | (s', Fail e) =>
      (queueID <> Main -> queueID <> Direct -> queueID <> Backup -> e = ErrInvalidQueueID) /\
      (queues_of (client s') q \/ queues_of (client s') (upd q queueID (q queueID ++ [id])))
  | (_, Panic) => False
  end.

Lemma Enqueue_no_panic s now action queueID : (Enqueue s now action queueID).2 <> Panic.
Proof.
  unfold Enqueue. set (id := mkSubmissionID _ _ 0). destruct (queueByID queueID) as [p|e|] eqn:Hp; [|done|by destruct queueID].
  pose proof (SetWithTTL_spec Actions (client s) now (String_ id) action (actionTTL s)) as Hset.
  destruct (SetWithTTL _ _ _ _ _ _) as [r1 [[]|e|]]; [|done..].
  assert (Henq : effect r1 (RedisStorage.Enqueue p r1 id) (fun _ => True)).
  { apply effect_lift. intros d _. apply effect_wrapped. eapply effect_impl; [|apply redis_LPush_law]. done. }
  destruct (RedisStorage.Enqueue p r1 id) as [r2 [[]|e|]]; [|done..].
  by destruct (RedisStorage.QueueLength p r2).
Qed.

Lemma Enqueue_meets_spec s now action queueID q :
  queues_of (client s) q -> Enqueue_spec s now action queueID q (Enqueue s now action queueID).
Proof.
  intros Hq. unfold Enqueue_spec, Enqueue.
  set (id := mkSubmissionID _ _ 0).
  destruct (queueByID queueID) as [p|e|] eqn:Hp; [| |by destruct queueID].
  2:{ split; [|by left]. destruct queueID; naive_solver. }
  pose proof (SetWithTTL_spec Actions (client s) now (String_ id) action (actionTTL s)) as Hset.
  destruct (SetWithTTL Actions (client s) now (String_ id) action (actionTTL s)) as [r1 [[]|e|]];
    cbn [effect] in Hset; [| |done].
  2:{ split; [by destruct queueID|]. left. cbn.
      destruct Hset as [[_ Hl]|(_ & _ & Hl)]; by eapply queues_of_lists. }
  destruct Hset as (Hbody & Hother & Hl1).
  assert (Hq1 : queues_of r1 q) by by eapply queues_of_lists.
  pose proof (RedisStorage.Enqueue_spec p r1 id (q queueID) (Hq1 _ _ Hp)) as Henq.
  destruct (RedisStorage.Enqueue p r1 id) as [r2 [[]|e|]]; cbn [effect] in Henq; [| |done].
  - assert (Hq2 : queues_of r2 (upd q queueID (q queueID ++ [id]))) by by eapply queues_of_put.
    pose proof (QueueLength_spec p r2 (q queueID ++ [id])) as Hlen.
    destruct (RedisStorage.QueueLength p r2) as [r3 n]; cbn [snd] in *.
    destruct Hlen as ([Hk3 Hl3] & _); [apply Henq|]. destruct Henq as (_ & Hk2 & _).
    split_and!; [done|by eapply queues_of_lists|..].
    + intros now' Hn. unfold body. cbn [client report set_client].
      rewrite (stored_kv r2) by done. rewrite (stored_kv r1) by done. by apply Hbody.
    + intros now' id' Hne. unfold body. cbn [client report set_client].
      rewrite (stored_kv r2) by done. rewrite (stored_kv r1) by done.
      unfold stored. rewrite Hother; [done|]. intros Heq%prefix_inj. done.
  - split; [by destruct queueID|]. cbn.
    destruct Henq as [[_ Hl2]|Hput]; [left; by eapply queues_of_lists|right; by eapply queues_of_put].
Qed.

(** What [Dequeue] does. *)
Definition Dequeue_post (s : ActionQueues) (now : Z) (queueID : QueueID)
    (q : QueueID -> list ActionSubmissionID) (out : stateful ActionQueues Delivery) : Prop :=
  match out with
  | (s', Ok d) =>
      exists rest, q queueID = del_id d :: rest /\ queues_of (client s') (upd q queueID rest) /\
        body s now (del_id d) = Some (del_Action d) /\
        (forall now' id, body s' now' id = body s now' id) /\
        del_queueID d = queueID /\ queueByID queueID = Ok (del_queue d)
  | (s', Fail e) =>
      (queues_of (client s') q \/
       exists id rest, q queueID = id :: rest /\ queues_of (client s') (upd q queueID rest)) /\
      (forall now' id, body s' now' id = body s now' id)
  | (_, Panic) => False
  end.

Lemma Dequeue_meets_spec s now cancelled queueID q :
  queues_of (client s) q -> Dequeue_post s now queueID q (Dequeue s now cancelled queueID).
Proof.
  intros Hq. unfold Dequeue_post, Dequeue.
  destruct (queueByID queueID) as [p|e|] eqn:Hp; [|by split; [left|]|by destruct queueID].
  destruct cancelled as [e|]; [by split; [left|]|].
  pose proof (Dequeue_spec p (client s) (q queueID) (Hq _ _ Hp)) as Hd.
  destruct (RedisStorage.Dequeue p (client s)) as [r1 [x|e|]]; [| |done].
  - destruct Hd as (rest & Hhd & Hput). pose proof Hput as (_ & Hk1 & _).
    pose proof (queues_of_put _ _ q queueID p rest Hp Hput Hq) as Hq1.
    pose proof (Get_spec (T := Action) Actions r1 now (String_ x)) as Hg.
    assert (Hbody : forall r2, same_view r1 r2 -> forall now' id,
      stored (T := Action) Actions r2 now' (String_ id) = body s now' id).
    { intros r2 [Hk2 _] now' id. unfold body. apply stored_kv. intros k. by rewrite Hk2. }
    destruct (RedisStorage.Get Actions r1 now (String_ x)) as [r2 [a|e|]];
      destruct Hg as (Hv & Hnp & Hok & _); [| |done].
    + exists rest. split_and!; try done; [by eapply queues_of_lists; [apply Hv|]| |].
      * rewrite <- (Hbody r1) by done. by apply Hok.
      * intros now' id. by apply (Hbody r2).
    + destruct (errors_Is e "storage.ErrNotFound"); (split; [right; exists x, rest; split; [done|]
        |intros now' id; by apply (Hbody r2)]); by eapply queues_of_lists; [apply Hv|].
  - assert (Hcases : queues_of r1 q /\ (forall k, kv r1 k = kv (client s) k) \/
      (exists id rest, q queueID = id :: rest /\ queues_of r1 (upd q queueID rest)) /\
      (forall k, kv r1 k = kv (client s) k)).
    { destruct (errors_Is e "storage.ErrEmptyQueue").
      - destruct Hd as [_ [Hk Hl]]. left. split; [by eapply queues_of_lists|done].
      - destruct Hd as [[Hk Hl]|(x & rest & Hhd & Hput)].
        + left. split; [by eapply queues_of_lists|done].
        + right. split; [|apply Hput]. exists x, rest. split; [done|]. by eapply queues_of_put. }
    split; [|intros now' id; unfold body; cbn; apply stored_kv; naive_solver].
    destruct Hcases as [[? _]|[? _]]; auto.
Qed.

(** An empty-queue error means the queue is empty. *)
Lemma Dequeue_empty s now queueID q s' e :
  queues_of (client s) q -> Dequeue s now None queueID = (s', Fail e) ->
  errors_Is e "storage.ErrEmptyQueue" = true -> is_ok (queueByID queueID) = true -> q queueID = [].
Proof.
  intros Hq Hd He Hok. unfold Dequeue in Hd. destruct (queueByID queueID) as [p| |] eqn:Hp; [|done..].
  pose proof (Dequeue_spec p (client s) (q queueID) (Hq _ _ Hp)) as Hspec.
  destruct (RedisStorage.Dequeue p (client s)) as [r1 [x|e1|]]; [| |done].
  - pose proof (Get_spec (T := Action) Actions r1 now (String_ x)) as Hg.
    destruct (RedisStorage.Get Actions r1 now (String_ x)) as [r2 [a|e2|]]; [done| |done].
    destruct Hg as (_ & _ & _ & Herr). destruct (Herr e2 eq_refl) as [Hne _].
    destruct (errors_Is e2 "storage.ErrNotFound"); injection Hd as <- <-; [done|].
    rewrite errors_Is_errorf in He by done. congruence.
  - injection Hd as <- <-. rewrite errors_Is_errorf in He by done. rewrite He in Hspec. apply Hspec.
Qed.

(** What [Restore] does with a delivery of an identifier [id]. *)
Definition Restore_post (s : ActionQueues) (d : Delivery) (q : QueueID -> list ActionSubmissionID)
    (out : stateful ActionQueues unit) : Prop :=
  let id := del_id d in
  let next := mkSubmissionID (ActionID id) (id_SubmissionTag id) (Attempt id + 1) in
  let requeued := upd q (del_queueID d) (next :: q (del_queueID d)) in
  match out with
  | (s', Ok _) =>
      Attempt id + 1 < MaxDeliveryAttempts /\ queues_of (client s') requeued /\
      (forall now i, body s' now i = body s now i)
  | (s', Fail e) =>
      Attempt id + 1 < MaxDeliveryAttempts /\ (queues_of (client s') q \/ queues_of (client s') requeued) /\
        (forall now i, body s' now i = body s now i) \/
      MaxDeliveryAttempts <= Attempt id + 1 /\ errors_Is e "queue.ErrDeliveryExhausted" = true /\
        queues_of (client s') q /\
        (forall now i, String_ i <> String_ id -> body s' now i = body s now i)
  | (_, Panic) => False
  end.

Lemma Restore_meets_spec s d q :
  queues_of (client s) q -> queueByID (del_queueID d) = Ok (del_queue d) ->
  0 <= Attempt (del_id d) < 255 -> Restore_post s d q (Restore s d).
Proof.
  intros Hq Hp Ha. unfold Restore_post, Restore. rewrite u8_small by lia. cbn [Attempt].
  case_decide as Hmax.
  - pose proof (Remove_spec Actions (client s) (String_ (del_id d))) as Hrm.
    cbn [client report set_client].
    destruct (Remove Actions (client s) (String_ (del_id d))) as [r1 o].
    assert (Hr1 : (forall k, lists r1 k = lists (client s) k) /\
      (forall k, k <> prefix Actions (String_ (del_id d)) -> kv r1 k = kv (client s) k)).
    { destruct o as [[]|e|]; cbn [effect] in Hrm; [..|done].
      - destruct Hrm as [Hk Hl]. split; [done|]. intros k Hne. rewrite Hk, decide_False; [done|set_solver].
      - destruct Hrm as [[Hk Hl]|[Hk Hl]]; (split; [done|]); [done|].
        intros k Hne. rewrite Hk, decide_False; [done|set_solver]. }
    destruct Hr1 as [Hl Hk]. right. split_and!; [done|done|by eapply queues_of_lists|].
    intros now i Hne. unfold body, stored. cbn [client set_client]. rewrite Hk; [done|].
    intros Heq%prefix_inj. done.
  - set (next := mkSubmissionID _ _ _).
    pose proof (Requeue_spec (del_queue d) (client s) next (q (del_queueID d)) (Hq _ _ Hp)) as Hrq.
    destruct (Requeue (del_queue d) (client s) next) as [r1 [[]|e|]]; cbn [effect] in Hrq; [| |done].
    + split_and!; [lia|by eapply queues_of_put|]. intros now i. apply stored_kv, Hrq.
    + left. split_and!; [lia| |].
      * destruct Hrq as [[_ Hl]|Hput]; [left; by eapply queues_of_lists|right; by eapply queues_of_put].
      * intros now i. apply stored_kv. destruct Hrq as [[Hk _]|(_ & Hk & _)]; done.
Qed.


(** [Enqueue] is a FIFO append: on success the action's identifier, with no
    attempt spent, is last in the named queue, the other queues are as before,
    the body is readable until its time to live has passed, and no other body
    has changed.  On failure the queues are as before or, if the connection
    failed during the push, hold the new entry; an unknown queue is refused. *)
Theorem Enqueue_correct s now action queueID q :
  queues_of (client s) q -> Enqueue_spec s now action queueID q (Enqueue s now action queueID).
Proof. apply Enqueue_meets_spec. Qed.

Lemma stored_live_unique r now now' key (a b : Action) :
  stored Actions r now key = Some a -> stored Actions r now' key = Some b -> a = b.
Proof.
  unfold stored. destruct (kv r (prefix Actions key)) as [[d [exp|]]|]; cbn; [|naive_solver|done].
  repeat case_decide; try done. naive_solver.
Qed.

(** Redelivery.  [Dequeue] takes the identifier at the head of the queue
    and returns the body stored for it; if that delivery is restored, the next
    delivery from the queue is the same action again, with one more attempt
    counted, before anything else in the queue. *)
Theorem restored_action_is_next s now now' queueID q s1 d s2 s3 d' :
  queues_of (client s) q -> 0 <= Attempt (del_id d) < 255 ->
  Dequeue s now None queueID = (s1, Ok d) -> Restore s1 d = (s2, Ok tt) ->
  Dequeue s2 now' None queueID = (s3, Ok d') ->
  exists rest, q queueID = del_id d :: rest /\
    body s now (del_id d) = Some (del_Action d) /\
    del_Action d' = del_Action d /\
    del_id d' = mkSubmissionID (ActionID (del_id d)) (id_SubmissionTag (del_id d)) (Attempt (del_id d) + 1) /\
    Attempt (del_id d') < MaxDeliveryAttempts /\
    queues_of (client s3) (upd q queueID rest).
Proof.
  intros Hq Ha Hd1 Hr Hd2.
  pose proof (Dequeue_meets_spec s now None queueID q Hq) as Hp1. rewrite Hd1 in Hp1.
  destruct Hp1 as (rest & Hhd & Hq1 & Hb & Hbs1 & Hk & Hpk).
  pose proof (Restore_meets_spec s1 d _ Hq1 ltac:(by rewrite Hk) Ha) as Hp2. rewrite Hr in Hp2.
  destruct Hp2 as (Hlt & Hq2 & Hbs2).
  pose proof (Dequeue_meets_spec s2 now' None queueID _ Hq2) as Hp3. rewrite Hd2 in Hp3.
  destruct Hp3 as (rest' & Hhd' & Hq3 & Hb' & _ & _ & _).
  unfold upd in Hhd'. rewrite Hk, !decide_True in Hhd' by done. injection Hhd' as Hid <-.
  exists rest. split_and!; try done.
  - rewrite <- Hid in Hb'. rewrite Hbs2, Hbs1 in Hb'. cbn in Hb'.
    symmetry. by eapply (stored_live_unique (client s) now now').
  - rewrite <- Hid. done.
  - intros k p Hkp. rewrite (Hq3 k p Hkp). unfold upd. rewrite Hk. by repeat case_decide.
Qed.

(** ** Runs *)

(** The queues together with the deliveries taken off and not yet settled; the submissions
    whose actions [Enqueue] was called with, and those that [Dequeue] has offered, each as
    often as it was. *)
Record Traffic : Type := mkTraffic {
  queues : ActionQueues;
  unsettled : list Delivery;
  submitted : list ActionSubmissionID;
  offered : list ActionSubmissionID
}.

Definition submission (a : Action) : ActionSubmissionID :=
  mkSubmissionID (ad_ID (action_Data a)) (ad_SubmissionTag (action_Data a)) 0.

Inductive qstep : Traffic -> Traffic -> Prop :=
| q_enqueue s ds en off now a k :
    qstep (mkTraffic s ds en off) (mkTraffic (Enqueue s now a k).1 ds (submission a :: en) off)
| q_deliver s ds en off now c k s' d : Dequeue s now c k = (s', Ok d) ->
    qstep (mkTraffic s ds en off) (mkTraffic s' (d :: ds) en (del_id d :: off))
| q_no_delivery s ds en off now c k s' e : Dequeue s now c k = (s', Fail e) ->
    qstep (mkTraffic s ds en off) (mkTraffic s' ds en off)
| q_commit s ds1 d ds2 en off :
    qstep (mkTraffic s (ds1 ++ d :: ds2) en off) (mkTraffic (Commit s d).1 (ds1 ++ ds2) en off)
| q_restore s ds1 d ds2 en off :
    qstep (mkTraffic s (ds1 ++ d :: ds2) en off) (mkTraffic (Restore s d).1 (ds1 ++ ds2) en off).

Definition attempt_ok (id : ActionSubmissionID) : Prop := 0 <= Attempt id < MaxDeliveryAttempts.

(** How often the action of [a] is in a list, whatever the attempts. *)
Definition same_action (a id : ActionSubmissionID) : bool :=
  bool_decide (ActionID id = ActionID a /\ id_SubmissionTag id = id_SubmissionTag a).
Definition times (a : ActionSubmissionID) (l : list ActionSubmissionID) : Z :=
  list_sum ((fun id => if same_action a id then 1 else 0) <$> l).

(** The offers of the action that are left to submissions in a queue ([c] is 0), and to
    those that have been taken ([c] is 1). *)
Definition offers_left (a : ActionSubmissionID) (c : Z) (l : list ActionSubmissionID) : Z :=
  list_sum ((fun id => if same_action a id then MaxDeliveryAttempts - Attempt id - c else 0) <$> l).
Definition queued_left (a : ActionSubmissionID) (q : QueueID -> list ActionSubmissionID) : Z :=
  offers_left a 0 (q Main) + offers_left a 0 (q Direct) + offers_left a 0 (q Backup).

Lemma offers_left_cons a c id l :
  offers_left a c (id :: l) = (if same_action a id then MaxDeliveryAttempts - Attempt id - c else 0) + offers_left a c l.
Proof. done. Qed.
Lemma offers_left_app a c l k : offers_left a c (l ++ k) = offers_left a c l + offers_left a c k.
Proof. induction l as [|id l IH]; [done|]. cbn [app]. rewrite !offers_left_cons, IH. lia. Qed.
Lemma offers_left_nonneg a c l : c <= 1 -> Forall attempt_ok l -> 0 <= offers_left a c l.
Proof.
  intros Hc. induction 1 as [|id l Hid _ IH]; [done|]. rewrite offers_left_cons. unfold attempt_ok in Hid.
  destruct (same_action a id); lia.
Qed.
Lemma queued_left_upd a q k l :
  queued_left a (upd q k l) = queued_left a q +
    if is_ok (queueByID k) then offers_left a 0 l - offers_left a 0 (q k) else 0.
Proof. unfold queued_left, upd. destruct k; repeat (case_decide; try done); cbn; lia. Qed.

Definition qinv (x : Traffic) : Prop :=
  exists q, queues_of (client (queues x)) q /\ (forall k, Forall attempt_ok (q k)) /\
    Forall (fun d => attempt_ok (del_id d) /\ queueByID (del_queueID d) = Ok (del_queue d)) (unsettled x) /\
    forall a, times a (offered x) + queued_left a q + offers_left a 1 (del_id <$> unsettled x)
              <= MaxDeliveryAttempts * times a (submitted x).

Lemma qinv_upd s ds en off q k l :
  queues_of (client s) (upd q k l) -> (forall k, Forall attempt_ok (q k)) -> Forall attempt_ok l ->
  Forall (fun d => attempt_ok (del_id d) /\ queueByID (del_queueID d) = Ok (del_queue d)) ds ->
  (forall a, times a off + (queued_left a q + if is_ok (queueByID k) then offers_left a 0 l - offers_left a 0 (q k) else 0)
     + offers_left a 1 (del_id <$> ds) <= MaxDeliveryAttempts * times a en) ->
  qinv (mkTraffic s ds en off).
Proof.
  intros Hq Ho Hl Hds Hpot. exists (upd q k l). split_and!; try done.
  - intros k'. unfold upd. by case_decide.
  - intros a. rewrite queued_left_upd. apply Hpot.
Qed.

Lemma Commit_no_panic s d : (Commit s d).2 <> Panic.
Proof.
  unfold Commit. pose proof (Remove_spec Actions (client s) (String_ (del_id d))) as Hrm.
  by destruct (Remove Actions (client s) (String_ (del_id d))) as [r1 [[]|e|]].
Qed.
(** The body of a committed action is gone, unless the store failed; no other is touched. *)
Definition Commit_post (s : ActionQueues) (d : Delivery) (out : stateful ActionQueues unit) : Prop :=
  (forall now id, String_ id <> String_ (del_id d) -> body out.1 now id = body s now id) /\
  (out.2 = Ok tt -> forall now, body out.1 now (del_id d) = None).

Lemma Commit_meets_spec s d : Commit_post s d (Commit s d).
Proof.
  unfold Commit_post, Commit. pose proof (Remove_spec Actions (client s) (String_ (del_id d))) as Hrm.
  assert (Hbody : forall r1, (forall k, k <> prefix Actions (String_ (del_id d)) -> kv r1 k = kv (client s) k) ->
    forall now id, String_ id <> String_ (del_id d) -> stored (T := Action) Actions r1 now (String_ id) = body s now id).
  { intros r1 Hk now id Hne. unfold body, stored. rewrite Hk; [done|]. intros Heq%prefix_inj. done. }
  destruct (Remove Actions (client s) (String_ (del_id d))) as [r1 [[]|e|]]; cbn [effect] in Hrm; [| |done]; cbn [fst snd].
  - destruct Hrm as [Hk _]. split.
    + intros now id Hne. apply Hbody; [|done]. intros k Hkne. rewrite Hk, decide_False; [done|set_solver].
    + intros _ now. unfold body, stored. cbn [client set_client]. rewrite Hk, decide_True; [done|set_solver].
  - split; [|done]. intros now id Hne. apply Hbody; [|done]. intros k Hkne.
    destruct Hrm as [[Hk _]|[Hk _]]; [done|]. rewrite Hk, decide_False; [done|set_solver].
Qed.

Lemma Commit_queues s d q : queues_of (client s) q -> queues_of (client (Commit s d).1) q.
Proof.
  intros Hq. unfold Commit. pose proof (Remove_spec Actions (client s) (String_ (del_id d))) as Hrm.
  destruct (Remove Actions (client s) (String_ (del_id d))) as [r1 [[]|e|]]; cbn in *; [..|done].
  - eapply queues_of_lists; [apply Hrm|done].
  - destruct Hrm as [[_ Hl]|[_ Hl]]; by eapply queues_of_lists.
Qed.

Lemma times_cons a id l : times a (id :: l) = (if same_action a id then 1 else 0) + times a l.
Proof. done. Qed.
Lemma same_action_next a id n :
  same_action a (mkSubmissionID (ActionID id) (id_SubmissionTag id) n) = same_action a id.
Proof. done. Qed.

Ltac in_flight H := apply Forall_app in H as [? H]; inversion H as [|? ? [? ?] ?]; subst.

Lemma qstep_inv x y : qinv x -> qstep x y -> qinv y.
Proof.
  intros (q & Hq & Ho & Hds & Hpot) Hstep.
  destruct Hstep as [s ds en off now action k|s ds en off now c k s' d Hd|s ds en off now c k s' e Hd
    |s ds1 d ds2 en off|s ds1 d ds2 en off]; cbn [queues unsettled submitted offered] in *.
  - pose proof (Enqueue_meets_spec s now action k q Hq) as Hs. fold (submission action) in Hs.
    assert (Hnew : Forall attempt_ok (q k ++ [submission action])).
    { apply Forall_app. split; [done|]. constructor; [|done]. unfold attempt_ok, MaxDeliveryAttempts; cbn. lia. }
    assert (Hmore : forall a, times a off + (queued_left a q + (if is_ok (queueByID k)
        then offers_left a 0 (q k ++ [submission action]) - offers_left a 0 (q k) else 0))
        + offers_left a 1 (del_id <$> ds) <= MaxDeliveryAttempts * times a (submission action :: en)).
    { intros a. specialize (Hpot a). rewrite times_cons, offers_left_app, offers_left_cons.
      change (Attempt (submission action)) with 0. change (offers_left a 0 []) with 0.
      unfold MaxDeliveryAttempts in *. destruct (is_ok (queueByID k)), (same_action a (submission action)); lia. }
    destruct (Enqueue s now action k) as [s' [[]|e|]]; cbn in Hs |- *; [| |done].
    + destruct Hs as (_ & Hq' & _). by eapply qinv_upd.
    + destruct Hs as (_ & [Hq'|Hq']); [|by eapply qinv_upd].
      exists q. split_and!; [done..|]. intros a. specialize (Hpot a). cbn [offered submitted unsettled].
      rewrite times_cons. unfold MaxDeliveryAttempts in *. destruct (same_action a _); lia.
  - pose proof (Dequeue_meets_spec s now c k q Hq) as Hs. rewrite Hd in Hs.
    destruct Hs as (rest & Hhd & Hq' & _ & _ & Hk & Hp). pose proof (Ho k) as Hok. rewrite Hhd in Hok.
    inversion Hok as [|? ? Hid Hrest]; subst. eapply qinv_upd; [done|done|done|by constructor|].
    intros a. specialize (Hpot a). rewrite times_cons, fmap_cons, offers_left_cons, Hhd, offers_left_cons, Hp. cbn [is_ok].
    destruct (same_action a (del_id d)); lia.
  - pose proof (Dequeue_meets_spec s now c k q Hq) as Hs. rewrite Hd in Hs.
    destruct Hs as ([Hq'|(id & rest & Hhd & Hq')] & _); [by exists q|].
    pose proof (Ho k) as Hok. rewrite Hhd in Hok. inversion Hok as [|? ? Hid Hrest]; subst.
    eapply qinv_upd; [done..|]. intros a. specialize (Hpot a). rewrite Hhd, offers_left_cons.
    unfold attempt_ok in Hid. destruct (is_ok (queueByID k)), (same_action a id); lia.
  - exists q. cbn [queues unsettled submitted offered]. split_and!; [by apply Commit_queues|done| |].
    + in_flight Hds. by apply Forall_app.
    + intros a. specialize (Hpot a). rewrite fmap_app, fmap_cons, offers_left_app, offers_left_cons in Hpot.
      rewrite fmap_app, offers_left_app. in_flight Hds. unfold attempt_ok in *. destruct (same_action a (del_id d)); lia.
  - assert (Hall : Forall (fun d => attempt_ok (del_id d) /\ queueByID (del_queueID d) = Ok (del_queue d))
      (ds1 ++ ds2)) by (in_flight Hds; by apply Forall_app).
    in_flight Hds. set (nx := mkSubmissionID (ActionID (del_id d)) (id_SubmissionTag (del_id d)) (Attempt (del_id d) + 1)).
    pose proof (Restore_meets_spec s d q Hq ltac:(done) ltac:(unfold attempt_ok, MaxDeliveryAttempts in *; lia)) as Hs.
    cbn zeta in Hs. unfold Restore_post in Hs. fold nx in Hs.
    assert (Hnext : Attempt (del_id d) + 1 < MaxDeliveryAttempts -> Forall attempt_ok (nx :: q (del_queueID d))).
    { intros Hlt. constructor; [|done]. unfold attempt_ok in *; cbn. lia. }
    assert (Hless : forall a, times a off + queued_left a q + offers_left a 1 (del_id <$> ds1 ++ ds2)
        + (if same_action a (del_id d) then MaxDeliveryAttempts - Attempt (del_id d) - 1 else 0)
        <= MaxDeliveryAttempts * times a en).
    { intros a. specialize (Hpot a). rewrite fmap_app, fmap_cons, offers_left_app, offers_left_cons in Hpot.
      rewrite fmap_app, offers_left_app. lia. }
    assert (Hkeep : queues_of (client (Restore s d).1) q -> qinv (mkTraffic (Restore s d).1 (ds1 ++ ds2) en off)).
    { intros Hq'. exists q. split_and!; try done. intros a. specialize (Hless a). cbn [queues unsettled submitted offered].
      unfold attempt_ok in *. destruct (same_action a (del_id d)); lia. }
    assert (Hput : Attempt (del_id d) + 1 < MaxDeliveryAttempts ->
        queues_of (client (Restore s d).1) (upd q (del_queueID d) (nx :: q (del_queueID d))) ->
        qinv (mkTraffic (Restore s d).1 (ds1 ++ ds2) en off)).
    { intros Hlt Hq'. eapply qinv_upd; [done|done|by apply Hnext|done|]. intros a. specialize (Hless a).
      rewrite offers_left_cons. unfold nx. rewrite same_action_next. cbn [Attempt].
      destruct (is_ok (queueByID (del_queueID d))), (same_action a (del_id d)); lia. }
    destruct (Restore s d) as [s' [[]|e|]]; cbn [fst] in *; [| |done].
    + destruct Hs as (Hlt & Hq' & _). by apply Hput.
    + destruct Hs as [(Hlt & [Hq'|Hq'] & _)|(_ & _ & Hq' & _)]; [by apply Hkeep|by apply Hput|by apply Hkeep].
Qed.

End Spec.

(** ** A concrete run *)

Module DemoQueue.
Import DemoRedis.

Fixpoint pos_string (p : positive) : string :=
  match p with
  | xH => "1"
  | xO p => "0" +:+ pos_string p
  | xI p => "1" +:+ pos_string p
  end.
Definition name (n : N) : string := match n with N0 => "z" | Npos p => "x" +:+ pos_string p end.

Lemma pos_string_inj p p' : pos_string p = pos_string p' -> p = p'.
Proof.
  assert (Hne : forall p, pos_string p <> ""%string) by (intros []; cbn; discriminate).
  revert p'. induction p as [p IH|p IH|]; intros [p'|p'|] Heq; cbn in Heq;
    first [discriminate Heq | reflexivity
          | injection Heq as Heq; first [f_equal; by apply IH | by destruct (Hne p) | by destruct (Hne p')]].
Qed.

Lemma pos_string_no_colon p : Forall (fun c => c <> ":"%char) (String.list_ascii_of_string (pos_string p)).
Proof. induction p; cbn; repeat constructor; done. Qed.

#[export] Instance name_lib : NameLib := {|
  hash_String := name;
  tag_String t := match t with
                  | Threshold => "threshold" | End => "end" | Submit => "submit"
                  | OtherTag s => "other-" +:+ s
                  end
|}.

#[export] Instance name_laws : NameLaws.
Proof.
  constructor.
  - intros [|p]; cbn; [by repeat constructor|]. constructor; [done|apply pos_string_no_colon].
  - intros [|p] [|p'] Heq; cbn in Heq; try done. injection Heq as Heq. f_equal. by apply pos_string_inj.
  - intros [] [] Heq; cbn in Heq; try done. injection Heq as Heq.
    change (s = s0) in Heq. by subst.
Qed.

#[export] Instance Byte_countable : Countable Byte.byte := inj_countable Byte.to_N Byte.of_N Byte.of_to_N.
#[export] Instance tag_countable : Countable SubmissionTag.
Proof.
  refine (inj_countable' (fun t => match t with
    | Threshold => inl (inl tt) | End => inl (inr tt) | Submit => inr (inl tt) | OtherTag s => inr (inr s) end)
    (fun x => match x with
    | inl (inl _) => Threshold | inl (inr _) => End | inr (inl _) => Submit | inr (inr s) => OtherTag s end) _).
  by intros [].
Defined.
#[export] Instance id_countable : Countable ActionSubmissionID.
Proof.
  refine (inj_countable' (fun i => (ActionID i, id_SubmissionTag i, Attempt i))
    (fun '(a, t, n) => mkSubmissionID a t n) _). by intros [].
Defined.
#[export] Instance type_countable : Countable ActionType.
Proof.
  refine (inj_countable' (fun t => match t with InstructionAction => true | DirectAction => false end)
    (fun b : bool => if b then InstructionAction else DirectAction) _). by intros [].
Defined.
#[export] Instance action_countable : Countable Action.
Proof.
  refine (inj_countable' (fun a =>
      (ad_ID (action_Data a), ad_Type (action_Data a), ad_SubmissionTag (action_Data a), ad_Message (action_Data a),
       (action_Signatures a, action_AdditionalVariableMessages a, action_Timestamps a, action_AdditionalActionData a)))
    (fun '(i, t, g, m, (s, v, ts, x)) => mkAction (mkActionData i t g m) s v ts x) _).
  by intros [[] ? ? ? ?].
Defined.

Definition action (i : Hash) : Action := mkAction (mkActionData i DirectAction Submit []) [] [] [] [].
Definition empty : ActionQueues := NewActionQueues (mkServer ∅ ∅ : redis) 1000.
Definition s1 : ActionQueues := (Enqueue empty 0 (action 1%N) Main).1.
Definition s2 : ActionQueues := (Enqueue s1 0 (action 2%N) Main).1.

Lemma empty_queues : queues_of (client empty) (fun _ => []).
Proof. intros k p Hp. unfold queued. reflexivity. Qed.

Lemma Enqueue_correct_witness :
  is_ok (Enqueue empty 0 (action 1%N) Main).2 = true /\
  Enqueue_spec empty 0 (action 1%N) Main (fun _ => []) (Enqueue empty 0 (action 1%N) Main).
Proof.
  split; [vm_compute; reflexivity|]. apply Enqueue_correct. exact empty_queues.
Defined.

Lemma s1_queues : queues_of (client s1) (upd (fun _ => []) Main [mkSubmissionID 1 Submit 0]).
Proof.
  pose proof (Enqueue_meets_spec empty 0 (action 1%N) Main _ empty_queues) as Hs.
  unfold s1. destruct (Enqueue empty 0 (action 1%N) Main) as [s [[]|e|]] eqn:He.
  - apply Hs.
  - exfalso. apply (f_equal (fun x => is_ok x.2)) in He. vm_compute in He. discriminate.
  - done.
Qed.

Definition dequeued : stateful ActionQueues Delivery := Dequeue s1 1 None Main.
Definition delivery : Delivery :=
  match dequeued.2 with Ok d => d | _ => mkDelivery (action 0%N) (mkSubmissionID 0 Submit 0) "" Main end.
Definition restored : stateful ActionQueues unit := Restore dequeued.1 delivery.
Definition again : stateful ActionQueues Delivery := Dequeue restored.1 2 None Main.
Definition delivery' : Delivery :=
  match again.2 with Ok d => d | _ => mkDelivery (action 0%N) (mkSubmissionID 0 Submit 0) "" Main end.

Lemma ok_pair {S A} (x : stateful S A) (a0 : A) :
  is_ok x.2 = true -> x = (x.1, Ok (match x.2 with Ok a => a | _ => a0 end)).
Proof. by destruct x as [s []]. Qed.

Lemma dequeued_ok : Dequeue s1 1 None Main = (dequeued.1, Ok delivery).
Proof. apply (ok_pair dequeued (mkDelivery (action 0%N) (mkSubmissionID 0 Submit 0) "" Main)). vm_compute. reflexivity. Qed.
Lemma restored_ok : Restore dequeued.1 delivery = (restored.1, Ok tt).
Proof.
  assert (H : is_ok restored.2 = true) by (vm_compute; reflexivity).
  apply (ok_pair restored tt) in H. revert H.
  generalize (match restored.2 with Ok a => a | _ => tt end). intros [] H. exact H.
Qed.
Lemma again_ok : Dequeue restored.1 2 None Main = (again.1, Ok delivery').
Proof. apply (ok_pair again (mkDelivery (action 0%N) (mkSubmissionID 0 Submit 0) "" Main)). vm_compute. reflexivity. Qed.

Lemma restored_action_is_next_witness :
  del_Action delivery' = del_Action delivery /\ Attempt (del_id delivery') = 1 /\
  del_Action delivery = action 1%N.
Proof.
  destruct (restored_action_is_next s1 1 2 Main _ dequeued.1 delivery restored.1 again.1 delivery' s1_queues)
    as (rest & _ & _ & Ha & Hi & _); [vm_compute; split; [discriminate|reflexivity]
    |exact dequeued_ok|exact restored_ok|exact again_ok|].
  split; [exact Ha|split; [rewrite Hi; vm_compute; reflexivity|vm_compute; reflexivity]].
Defined.

(** The second delivery of an action that was not sent the first time. *)
Definition redelivered : Traffic :=
  mkTraffic again.1 [delivery'] [submission (action 1%N)] [del_id delivery'; del_id delivery].


End DemoQueue.

End Queue.
