(* ===== verification/Results.v ===== *)
(** Results of actions ([internal/service/result/storage.go] and [result.go]):
    the result store with its override guard, the wait for a response, and the
    processing of the responses the node sends. *)

From S2P Require Import Prelude Status Types Redis Queue.

Module Results.

(** ** Data (tee-node [types]) *)

Record ActionResult : Type := mkResult {
  ar_ID : Hash;
  ar_SubmissionTag : SubmissionTag;
  ar_Status : Z;                 (* uint8 *)
  ar_OPType : Hash;
  ar_OPCommand : Hash;
  ar_Data : bytes
}.

Record ActionResponse : Type := mkResponse {
  Result : ActionResult;
  resp_Signature : bytes
}.

Definition keyActionsChanSize : Z := 1000.
Definition backupsChanSize : Z := 1000.
Definition backupTriggerChanSize : Z := 1.

Definition errAddressAlreadySet : error := sentinel "errAddressAlreadySet".
Definition errInvalidTeeID : error := Status.http_sentinel "errInvalidTeeID" 403.
Definition errBootstrapNotTeeInfo : error := Status.http_sentinel "errBootstrapNotTeeInfo" 403.
Definition errOverrideFinal : error := sentinel "errOverrideFinal".
Definition errOverrideTransient : error := sentinel "errOverrideTransient".

#[export] Instance ActionResult_eq_dec : EqDecision ActionResult.
Proof. solve_decision. Defined.
#[export] Instance ActionResponse_eq_dec : EqDecision ActionResponse.
Proof. solve_decision. Defined.

(** ** The store *)

Section Store.
Context {W : Type} `{StorageI W ActionResponse, Queue.NameLib}.

(** [resultTTL], [submitResultTTL]. *)
Record ResultStorage : Type := mkResultStorage {
  s : W;
  resultTTL : Z;
  submitResultTTL : Z;
  published : list string          (* the notifications published, in order *)
}.

Definition set_s (rs : ResultStorage) (w : W) : ResultStorage :=
  mkResultStorage w (resultTTL rs) (submitResultTTL rs) (published rs).

Definition NewStorage (w : W) (resultTTL submitResultTTL : Z) : ResultStorage :=
  mkResultStorage w resultTTL submitResultTTL [].

(** The key of a submission. *)
Definition key_of (actionID : Hash) (tag : SubmissionTag) : string :=
  Queue.String_ (Queue.mkSubmissionID actionID tag 0).
Definition response_key (r : ActionResponse) : string :=
  key_of (ar_ID (Result r)) (ar_SubmissionTag (Result r)).

Definition storingDur (rs : ResultStorage) (r : ActionResponse) : Z :=
  if decide (ar_SubmissionTag (Result r) = Submit) then submitResultTTL rs else resultTTL rs.

(** The write at the end of [StoreResponse], with its best-effort
    notification. *)
Definition write_response (rs : ResultStorage) (now : Z) (response : ActionResponse)
    : stateful ResultStorage unit :=
  let id := response_key response in
  match st_SetWithTTL (s rs) now id response (storingDur rs response) with
  | (w, Ok _) => (mkResultStorage w (resultTTL rs) (submitResultTTL rs) (published rs ++ [id]), Ok tt)
  | (w, Fail e) => (set_s rs w, Fail (errorf [e]))
  | (w, Panic) => (set_s rs w, Panic)
  end.

(** The mutex makes [StoreResponse] atomic; [now] is read by the store. *)
Definition StoreResponse (rs : ResultStorage) (now : Z) (response : ActionResponse)
    : stateful ResultStorage unit :=
  match st_Get (s rs) now (response_key response) with
  | (w, Panic) => (set_s rs w, Panic)
  | (w, Fail e) =>
      if errors_Is e "storage.ErrNotFound" then write_response (set_s rs w) now response
      else (set_s rs w, Fail (errorf [e]))
  | (w, Ok res) =>
      if decide (ar_Status (Result res) < 2) then (set_s rs w, Fail (errorf [errOverrideFinal]))
      else if decide (2 <= ar_Status (Result response) /\
                      ar_Status (Result response) <= ar_Status (Result res))
      then (set_s rs w, Fail (errorf [errOverrideTransient]))
      else write_response (set_s rs w) now response
  end.

Definition fetchByID (rs : ResultStorage) (now : Z) (id : string) : stateful ResultStorage ActionResponse :=
  match st_Get (s rs) now id with
  | (w, Ok r) => (set_s rs w, Ok r)
  | (w, Fail e) =>
      if errors_Is e "storage.ErrNotFound" then (set_s rs w, Fail (errorf [Status.HTTP 404]))
      else (set_s rs w, Fail (errorf [e]))
  | (w, Panic) => (set_s rs w, Panic)
  end.

Definition FetchResponse (rs : ResultStorage) (now : Z) (actionID : Hash) (tag : SubmissionTag)
    : stateful ResultStorage ActionResponse := fetchByID rs now (key_of actionID tag).
End Store.

(** ** Waiting for a response

    [WaitOnResponse] interleaved with the writer: the writer stores the response
    and then publishes a notification, with the best effort; a subscription that is
    active when the notification is published receives it.  The waiter's program
    counter is the call it makes next.  Each of its calls may fail: a fetch (the store
    failed, or the context has ended), subscribing and receiving; the waiter then
    looks once more, and gives up when the last look fails or finds nothing. *)

Section Wait.
Context {R : Type}.

Inductive wait_pc : Type :=
| FastPath                  (* the fetch before subscribing *)
| Subscribing
| SubscribeFailed           (* the fetch after a failed Subscribe *)
| ReCheck                   (* the fetch once the subscription is active *)
| Receiving                 (* blocked in ReceiveMessage *)
| ReceiveFailed             (* the fetch after a failed receive *)
| LastFetch                 (* the fetch after a message *)
| Returned (r : option R).  (* None: an error *)

Record wait_sys : Type := mkWait {
  w_stored : option R;        (* what the store holds now *)
  w_unpublished : nat;        (* stores whose notification is still to come *)
  w_publish_failed : bool;    (* a Publish has failed and its notification is lost *)
  w_active : bool;            (* the subscription is active *)
  w_inbox : bool;             (* a message is waiting *)
  w_fetch_failed : bool;      (* the last fetch failed, otherwise than by finding nothing *)
  w_pc : wait_pc
}.

Definition at_pc (x : wait_sys) (pc : wait_pc) : wait_sys :=
  mkWait (w_stored x) (w_unpublished x) (w_publish_failed x) (w_active x) (w_inbox x) (w_fetch_failed x) pc.
Definition activate (x : wait_sys) : wait_sys :=
  mkWait (w_stored x) (w_unpublished x) (w_publish_failed x) true (w_inbox x) (w_fetch_failed x) ReCheck.
Definition fetched (x : wait_sys) (failed : bool) (pc : wait_pc) : wait_sys :=
  mkWait (w_stored x) (w_unpublished x) (w_publish_failed x) (w_active x) (w_inbox x) failed pc.

(** A fetch returns what is stored, or goes on at [otherwise]: when nothing is stored,
    and, whatever is stored, when it fails. *)
Inductive fetch (x : wait_sys) (otherwise : wait_pc) : wait_sys -> Prop :=
| fetch_finds r : w_stored x = Some r -> fetch x otherwise (fetched x false (Returned (Some r)))
| fetch_finds_nothing : w_stored x = None -> fetch x otherwise (fetched x false otherwise)
| fetch_fails : fetch x otherwise (fetched x true otherwise).

(** The steps of the writer and of the store, which drops the response at the end of its
    time to live. *)
Inductive env_step (x : wait_sys) : wait_sys -> Prop :=
| env_store r : env_step x
    (mkWait (Some r) (S (w_unpublished x)) (w_publish_failed x) (w_active x) (w_inbox x) (w_fetch_failed x) (w_pc x))
| env_publish n : w_unpublished x = S n -> env_step x
    (mkWait (w_stored x) n (w_publish_failed x) (w_active x) (w_inbox x || w_active x) (w_fetch_failed x) (w_pc x))
| env_publish_fails n : w_unpublished x = S n -> env_step x
    (mkWait (w_stored x) n true (w_active x) (w_inbox x) (w_fetch_failed x) (w_pc x))
| env_expires : env_step x
    (mkWait None (w_unpublished x) (w_publish_failed x) (w_active x) (w_inbox x) (w_fetch_failed x) (w_pc x)).

(** The steps of the waiter. *)
Inductive own_step (x : wait_sys) : wait_sys -> Prop :=
| do_fast y : w_pc x = FastPath -> fetch x Subscribing y -> own_step x y
| do_subscribe : w_pc x = Subscribing -> own_step x (activate x)
| do_subscribe_fail : w_pc x = Subscribing -> own_step x (at_pc x SubscribeFailed)
| do_subscribe_failed y : w_pc x = SubscribeFailed -> fetch x (Returned None) y -> own_step x y
| do_recheck y : w_pc x = ReCheck -> fetch x Receiving y -> own_step x y
| do_receive : w_pc x = Receiving -> w_inbox x = true -> own_step x (at_pc x LastFetch)
| do_receive_fail : w_pc x = Receiving -> own_step x (at_pc x ReceiveFailed)
| do_receive_failed y : w_pc x = ReceiveFailed -> fetch x (Returned None) y -> own_step x y
| do_last y : w_pc x = LastFetch -> fetch x (Returned None) y -> own_step x y.

(** Blocked in [ReceiveMessage] with an empty inbox: only a message or the end of the
    context gets the waiter on. *)
Definition blocked (x : wait_sys) : Prop := w_pc x = Receiving /\ w_inbox x = false.

Definition wait_step (x y : wait_sys) : Prop := env_step x y \/ own_step x y.

Definition wait_start (stored : option R) : wait_sys := mkWait stored 0 false false false false FastPath.
End Wait.
Arguments wait_sys R : clear implicits.
Arguments wait_pc R : clear implicits.

(** ** Processing *)

(** The cryptographic calls of [recoverSigner]. *)
Class SignerLib : Type := {
  ActionResult_Hash : ActionResult -> bytes;          (* Result.Hash *)
  BytesToHash : bytes -> Hash;
  TEEActionResult_Hash : Z -> Hash -> res Hash;       (* signing.NewPayload(TEEActionResult, ..).Hash *)
  TextHash : Hash -> Hash;                            (* accounts.TextHash *)
  PublicKey : Type;
  SigToPub : Hash -> bytes -> res PublicKey;
  PubkeyToAddress : PublicKey -> Address
}.

Definition recoverSigner `{SignerLib} (ar : ActionResponse) (chainID : Z) : res Address :=
  signHash ← TEEActionResult_Hash chainID (BytesToHash (ActionResult_Hash (Result ar)));
  pub ← SigToPub (TextHash signHash) (resp_Signature ar);
  Ok (PubkeyToAddress pub).

Inductive ResultEvent : Type :=
| ResultMissingActionID
| ResultRejected (reason : string)
| ResultChannelDropped (channel : string)
| ResultProcessed (opCommand : Hash) (status : Z)
| ResultLost.

Section Service.
Context {W : Type} `{StorageI W ActionResponse, Queue.NameLib, OpLib, SignerLib}.

(** The channels hold what has been sent and not yet received. *)
Record Service : Type := mkService {
  rs : @ResultStorage W;
  KeyActions : list ActionResult;
  Backups : list ActionResult;
  BackupTrigger : list bool;
  teeID : Address;
  chainID : Z;
  lastStorageErr : option error;
  revents : list ResultEvent
}.

Definition NewService (rs : @ResultStorage W) (chainID : Z) : Service :=
  mkService rs [] [] [] zero_address chainID None [].

Definition SetIdentity (sv : Service) (id : Address) : stateful Service unit :=
  if decide (teeID sv <> zero_address) then (sv, Fail errAddressAlreadySet)
  else (mkService (rs sv) (KeyActions sv) (Backups sv) (BackupTrigger sv) id (chainID sv)
          (lastStorageErr sv) (revents sv), Ok tt).

Definition emit (sv : Service) (e : ResultEvent) : Service :=
  mkService (rs sv) (KeyActions sv) (Backups sv) (BackupTrigger sv) (teeID sv) (chainID sv)
    (lastStorageErr sv) (revents sv ++ [e]).
Definition set_rs (sv : Service) (r : @ResultStorage W) : Service :=
  mkService r (KeyActions sv) (Backups sv) (BackupTrigger sv) (teeID sv) (chainID sv)
    (lastStorageErr sv) (revents sv).
Definition recordStorageResult (sv : Service) (err : option error) : Service :=
  mkService (rs sv) (KeyActions sv) (Backups sv) (BackupTrigger sv) (teeID sv) (chainID sv)
    err (revents sv).

(** The hooks of a successful result: a send that does not block. *)
Definition trigger_hooks (sv : Service) (r : ActionResult) : Service :=
  let c := ar_OPCommand r in
  if decide (c = command_Hash KeyGenerate \/ c = command_Hash KeyDataProviderRestore \/
             c = command_Hash KeyDirectRestore \/ c = command_Hash KeyDelete) then
    if decide (zlen (KeyActions sv) < keyActionsChanSize)
    then mkService (rs sv) (KeyActions sv ++ [r]) (Backups sv) (BackupTrigger sv) (teeID sv) (chainID sv)
           (lastStorageErr sv) (revents sv)
    else emit sv (ResultChannelDropped "key_actions")
  else if decide (c = command_Hash TEEBackup) then
    if decide (zlen (Backups sv) < backupsChanSize)
    then mkService (rs sv) (KeyActions sv) (Backups sv ++ [r]) (BackupTrigger sv) (teeID sv) (chainID sv)
           (lastStorageErr sv) (revents sv)
    else emit sv (ResultChannelDropped "backups")
  else if decide (c = command_Hash UpdatePolicy) then
    if decide (zlen (BackupTrigger sv) < backupTriggerChanSize)
    then mkService (rs sv) (KeyActions sv) (Backups sv) (BackupTrigger sv ++ [true]) (teeID sv) (chainID sv)
           (lastStorageErr sv) (revents sv)
    else emit sv (ResultChannelDropped "backup_trigger")
  else sv.

(** Who may report a result: the node, once its identity is known, and before
    that anybody, but only node information. *)
Definition admit_response (sv : Service) (r : ActionResponse) : stateful Service unit :=
  if decide (teeID sv <> zero_address) then
    match recoverSigner r (chainID sv) with
    | Fail e => (emit sv (ResultRejected "bad_signer"), Fail (errorf [e]))
    | Panic => (sv, Panic)
    | Ok signer =>
        if decide (signer <> teeID sv)
        then (emit sv (ResultRejected "wrong_tee_id"), Fail (errorf [errInvalidTeeID]))
        else (sv, Ok tt)
    end
  else if decide (ar_OPCommand (Result r) <> command_Hash TEEInfo)
  then (emit sv (ResultRejected "bootstrap"), Fail errBootstrapNotTeeInfo)
  else (sv, Ok tt).

Definition ProcessAndStore (sv : Service) (now : Z) (r : ActionResponse) : stateful Service unit :=
  if decide (ar_ID (Result r) = zero_hash) then (emit sv ResultMissingActionID, Ok tt)
  else
    let* (sv, _) := admit_response sv r in
    let sv := if decide (ar_Status (Result r) = 1 /\ ar_SubmissionTag (Result r) <> End)
              then trigger_hooks sv (Result r) else sv in
    let sv := emit sv (ResultProcessed (ar_OPCommand (Result r)) (ar_Status (Result r))) in
    match StoreResponse (rs sv) now r with
    | (w, Ok _) => (recordStorageResult (set_rs sv w) None, Ok tt)
    | (w, Panic) => (set_rs sv w, Panic)
    | (w, Fail e) =>
        if errors_Is e "errOverrideFinal" || errors_Is e "errOverrideTransient"
        then (set_rs sv w, Fail e)
        else (emit (recordStorageResult (set_rs sv w) (Some e)) ResultLost, Fail e)
    end.

Definition LastStorageErr (sv : Service) : option error := lastStorageErr sv.

Definition Serve (sv : Service) (now : Z) (actionID : Hash) (tag : SubmissionTag)
    : stateful Service ActionResponse :=
  let '(w, out) := FetchResponse (rs sv) now actionID tag in (set_rs sv w, out).
End Service.

(** ** Theorems *)

Section StoreFacts.
Context {W : Type} `{StorageI W ActionResponse, !StorageLaws W ActionResponse, Queue.NameLib}.

(** What the override guard lets through. *)
Definition may_store (old : option ActionResponse) (new : ActionResponse) : Prop :=
  match old with
  | None => True
  | Some res => 2 <= ar_Status (Result res) /\
                (ar_Status (Result new) < 2 \/ ar_Status (Result res) < ar_Status (Result new))
  end.

Definition StoreResponse_spec (rs : ResultStorage) (now : Z) (r : ActionResponse)
    (out : stateful ResultStorage unit) : Prop :=
  let id := response_key r in
  match out with
  | (rs', Ok _) =>
      may_store (st_view (s rs) now id) r /\
      set_contents (s rs) (s rs') now id r (storingDur rs r) /\
      published rs' = published rs ++ [id]
  | (rs', Fail e) =>
      published rs' = published rs /\
      ((exists old, st_view (s rs) now id = Some old /\ ~ may_store (Some old) r /\
          e = errorf [if decide (ar_Status (Result old) < 2) then errOverrideFinal else errOverrideTransient] /\
          same_contents now (s rs) (s rs')) \/
       same_contents now (s rs) (s rs') \/
       may_store (st_view (s rs) now id) r /\ set_contents (s rs) (s rs') now id r (storingDur rs r))
  | (_, Panic) => False
  end.

Lemma set_contents_same w w1 w2 now k (x : ActionResponse) ttl :
  same_contents now w w1 -> set_contents w1 w2 now k x ttl -> set_contents w w2 now k x ttl.
Proof. intros Hs [Ha Hb]. split; [done|]. intros now' k' Hn Hk. rewrite Hb by done. by apply Hs. Qed.

Lemma same_contents_trans now (w w1 w2 : W) :
  same_contents now w w1 -> same_contents now w1 w2 -> same_contents now w w2.
Proof. intros Ha Hb now' k Hn. by rewrite Hb, Ha. Qed.

Lemma StoreResponse_meets_spec rs now r : StoreResponse_spec rs now r (StoreResponse rs now r).
Proof.
  unfold StoreResponse_spec, StoreResponse. set (id := response_key r) in *.
  pose proof (st_Get_law (s rs) now id) as Hget.
  destruct (st_Get (s rs) now id) as [w1 out]. destruct Hget as (Hsame & Hnp & Hok & Hnf).
  assert (Hstore : may_store (st_view (s rs) now id) r ->
    match write_response (set_s rs w1) now r with
    | (rs', Ok _) => may_store (st_view (s rs) now id) r /\
        set_contents (s rs) (s rs') now id r (storingDur rs r) /\ published rs' = published rs ++ [id]
    | (rs', Fail e) => published rs' = published rs /\
        (same_contents now (s rs) (s rs') \/ may_store (st_view (s rs) now id) r /\
         set_contents (s rs) (s rs') now id r (storingDur rs r))
    | (_, Panic) => False
    end).
  { intros Hmay. unfold write_response. fold id. change (s (set_s rs w1)) with w1.
    change (storingDur (set_s rs w1) r) with (storingDur rs r).
    pose proof (st_SetWithTTL_law w1 now id r (storingDur rs r)) as Hset.
    destruct (st_SetWithTTL w1 now id r (storingDur rs r)) as [w2 [[]|e|]]; cbn; [| |done].
    - split_and!; [done| |done]. by eapply set_contents_same.
    - split; [done|]. destruct Hset as [Hset|Hset]; [left; by eapply same_contents_trans|right].
      split; [done|]. by eapply set_contents_same. }
  destruct out as [old|e|]; [| |done].
  - specialize (Hok old eq_refl). rewrite Hok in *. case_decide as Hfin.
    { split; [done|]. left. exists old. split_and!; try done; [cbn; lia|by rewrite decide_True]. }
    case_decide as Htr.
    { split; [done|]. left. exists old. split_and!; try done; [cbn; lia|by rewrite decide_False]. }
    assert (Hmay : may_store (Some old) r) by (cbn; lia). specialize (Hstore Hmay).
    destruct (write_response (set_s rs w1) now r) as [rs' [[]|e|]]; [done| |done].
    destruct Hstore as (Hp & Hc). split; [done|]. by right.
  - destruct (errors_Is e "storage.ErrNotFound") eqn:He; [|by split; [|right; left]].
    specialize (Hnf e eq_refl He). rewrite Hnf in *. specialize (Hstore I).
    destruct (write_response (set_s rs w1) now r) as [rs' [[]|e'|]]; [done| |done].
    destruct Hstore as (Hp & Hc). split; [done|]. by right.
Qed.

(** The override guard.  A response is stored exactly when the guard lets
    it: nothing is stored under its key, or what is stored is transient (status
    2 or more) and the new status is final or strictly higher.  On success the
    response is readable under its key for its time to live, no other key is
    touched, and its notification is published; a refusal changes nothing and
    says which rule it broke. *)
Theorem StoreResponse_correct rs now r : StoreResponse_spec rs now r (StoreResponse rs now r).
Proof. apply StoreResponse_meets_spec. Qed.

(** The store after a sequence of calls at given times. *)
Definition store_all (rs : ResultStorage) (calls : list (Z * ActionResponse)) : ResultStorage :=
  foldl (fun rs c => (StoreResponse rs c.1 c.2).1) rs calls.

(** C13: a final result is never overridden: while it has not expired (at [t]),
    no sequence of responses -- for the same or for other submissions, whatever
    their status, with the store failing at any call -- changes what is served
    for it. *)
Theorem final_result_stable rs t k res calls :
  st_view (s rs) t k = Some res -> ar_Status (Result res) < 2 ->
  Forall (fun c => c.1 <= t) calls ->
  st_view (s (store_all rs calls)) t k = Some res.
Proof.
  intros Hk Hfin Hcalls. revert rs Hk. induction Hcalls as [|[now r] calls Hnow Hcalls IH]; intros rs Hk; [done|].
  cbn [store_all foldl]. apply IH. cbn [fst snd] in *.
  pose proof (StoreResponse_meets_spec rs now r) as Hs. unfold StoreResponse_spec in Hs.
  assert (Hset : forall rs', may_store (st_view (s rs) now (response_key r)) r ->
    set_contents (s rs) (s rs') now (response_key r) r (storingDur rs r) -> st_view (s rs') t k = Some res).
  { intros rs' Hmay [_ Hother]. destruct (decide (k = response_key r)) as [->|Hne].
    - exfalso. rewrite (st_view_mono _ _ _ _ _ Hnow Hk) in Hmay. cbn in Hmay. lia.
    - rewrite Hother by done. done. }
  destruct (StoreResponse rs now r) as [rs' [[]|e|]]; cbn; [| |done].
  - destruct Hs as (Hmay & Hc & _). by eapply Hset.
  - destruct Hs as (_ & [(old & _ & _ & _ & Hsame)|[Hsame|[Hmay Hc]]]);
      [by rewrite Hsame..|by eapply Hset].
Qed.
End StoreFacts.

Section WaitFacts.
Context {R : Type}.

(** While the waiter is blocked, a stored response is still to be announced, or its
    announcement was lost, or the fetch that follows subscribing has failed. *)
Definition wait_inv (x : wait_sys R) : Prop :=
  (w_pc x = ReCheck \/ w_pc x = Receiving -> w_active x = true) /\
  (blocked x -> is_Some (w_stored x) -> w_unpublished x = 0%nat ->
   w_fetch_failed x = true \/ w_publish_failed x = true).

Lemma wait_inv_step x y : wait_inv x -> wait_step x y -> wait_inv y.
Proof.
  destruct x as [st un pf act inbox ff pc]. intros [H1 H2]. unfold blocked in *. cbn in *.
  intros [Hstep|Hstep].
  - unfold wait_inv, blocked. destruct Hstep; cbn in *; subst; rewrite ?orb_false_iff; (split; [done|]).
    + done.
    + intros [Hpc [Hi Ha]] _ _. rewrite H1 in Ha by auto. done.
    + auto.
    + by intros _ [? ?].
  - destruct Hstep as [y Hpc Hf|Hpc|Hpc|y Hpc Hf|y Hpc Hf|Hpc Hi|Hpc|y Hpc Hf|y Hpc Hf]; cbn in *; subst; try destruct Hf;
      unfold wait_inv, blocked; cbn in *; (split; [naive_solver|]);
      intros [? ?] [? ?] ?; try done; try congruence; auto.
Qed.

Lemma wait_inv_reachable stored x : rtc wait_step (wait_start stored) x -> wait_inv x.
Proof.
  apply (rtc_ind_r wait_inv); [unfold wait_inv, blocked; cbn; naive_solver|].
  intros y z _ Hs Hy. by eapply wait_inv_step.
Qed.

(** The calls the waiter still makes. *)
Definition wait_rank (pc : wait_pc R) : nat :=
  match pc with
  | FastPath => 5 | Subscribing => 4 | ReCheck => 3 | Receiving => 2
  | SubscribeFailed | ReceiveFailed | LastFetch => 1 | Returned _ => 0
  end.

(** A call of the waiter while the response is stored. *)
Lemma own_step_stored (x y : wait_sys R) r :
  w_stored x = Some r -> own_step x y ->
  w_stored y = Some r /\ w_unpublished y = w_unpublished x /\
  (wait_rank (w_pc y) < wait_rank (w_pc x))%nat /\
  (forall o, w_pc y = Returned o -> o = Some r \/ o = None /\ w_fetch_failed y = true).
Proof.
  intros Hs Hstep.
  destruct Hstep as [y Hpc Hf|Hpc|Hpc|y Hpc Hf|y Hpc Hf|Hpc Hi|Hpc|y Hpc Hf|y Hpc Hf]; try destruct Hf;
    unfold at_pc, activate, fetched; cbn; rewrite ?Hpc; cbn; split_and!; try done; try lia; naive_solver.
Qed.

Lemma returned_dec (pc : wait_pc R) : (exists o, pc = Returned o) \/ (forall o, pc <> Returned o).
Proof. destruct pc; eauto; by right. Qed.

(** A waiter that has not returned makes its next call, which may fail. *)
Lemma own_step_enabled (x : wait_sys R) : (forall o, w_pc x <> Returned o) -> exists y, own_step x y.
Proof.
  intros Hn. destruct (w_pc x) eqn:Hpc;
    [eexists; by eapply do_fast, fetch_fails|eexists; by apply do_subscribe|
     eexists; by eapply do_subscribe_failed, fetch_fails|eexists; by eapply do_recheck, fetch_fails|
     eexists; by apply do_receive_fail|eexists; by eapply do_receive_failed, fetch_fails|
     eexists; by eapply do_last, fetch_fails|by destruct (Hn r)].
Qed.

(** C30: no lost wake-up.  Take any interleaving of the store and the writer with a
    waiter that has not returned, in which a response is stored and announced.  From
    here on, whatever calls of the waiter fail, every run of its own steps has at most
    five, and where it stops it has returned the response, or an error because its last
    fetch failed.  Along the way it is blocked on the subscription with nothing to receive
    only if the fetch after subscribing has failed or an announcement was lost by a failed
    Publish.  In particular a response stored between the first look and the
    subscription is not missed. *)
Theorem WaitOnResponse_no_lost_wakeup stored (x : wait_sys R) r n (y : wait_sys R) :
  rtc wait_step (wait_start stored) x ->
  w_stored x = Some r -> w_unpublished x = 0%nat -> (forall o, w_pc x <> Returned o) ->
  nsteps own_step n x y ->
  (n <= 5)%nat /\
  (blocked y -> w_fetch_failed y = true \/ w_publish_failed y = true) /\
  ((exists z, own_step y z) \/ w_pc y = Returned (Some r) \/ (w_pc y = Returned None /\ w_fetch_failed y = true)).
Proof.
  intros Hreach Hs Hu Hpc Hrun. apply wait_inv_reachable in Hreach.
  assert (Hgo : wait_inv y /\ w_stored y = Some r /\ w_unpublished y = 0%nat /\
    (n + wait_rank (w_pc y) <= wait_rank (w_pc x))%nat /\
    ((forall o, w_pc y <> Returned o) \/ w_pc y = Returned (Some r) \/ (w_pc y = Returned None /\ w_fetch_failed y = true))).
  { revert Hreach Hs Hu Hpc. induction Hrun as [x|n x z y Hxz Hzy IH]; intros Hinv Hs Hu Hpc.
    { split_and!; auto. }
    destruct (own_step_stored _ _ _ Hs Hxz) as (Hs' & Hu' & Hrank & Hret).
    destruct (returned_dec (w_pc z)) as [[o Ho]|Hn].
    - destruct Hzy as [|n ? ? ? Hstep _]; [|by destruct Hstep; congruence].
      split_and!; [by eapply wait_inv_step; [|right]|done|congruence|lia|]. right. rewrite Ho.
      destruct (Hret o Ho) as [->|[-> ?]]; auto.
    - destruct IH as (? & ? & ? & ? & ?); [by eapply wait_inv_step; [|right]|done|congruence|done|].
      split_and!; auto. lia. }
  destruct Hgo as (Hinv & Hsy & Huy & Hrank & Hret). split_and!.
  - assert (wait_rank (w_pc x) <= 5)%nat by (destruct (w_pc x); cbn; lia). lia.
  - intros Hy. apply Hinv; [done| |done]. by rewrite Hsy.
  - destruct Hret as [Hret|Hret]; [left; by apply own_step_enabled|by right].
Qed.
End WaitFacts.

(** The calls of the crypto library report failures as errors. *)
Class SignerLaws `{SignerLib} : Prop := {
  TEEActionResult_Hash_no_panic c h : TEEActionResult_Hash c h <> Panic;
  SigToPub_no_panic h sig : SigToPub h sig <> Panic
}.

Lemma recoverSigner_no_panic `{SignerLaws} r c : recoverSigner r c <> Panic.
Proof.
  unfold recoverSigner.
  pose proof (TEEActionResult_Hash_no_panic c (BytesToHash (ActionResult_Hash (Result r)))).
  destruct (TEEActionResult_Hash c _) as [h| |]; cbn; [|done|done].
  pose proof (SigToPub_no_panic (TextHash h) (resp_Signature r)).
  by destruct (SigToPub (TextHash h) (resp_Signature r)).
Qed.

Section ServiceFacts.
Context {W : Type} `{StorageI W ActionResponse, !StorageLaws W ActionResponse, Queue.NameLib,
  OpLaws, SignerLaws}.

(** Reported by whom the proxy listens to. *)
Definition authentic (sv : @Service W) (r : ActionResponse) : Prop :=
  if decide (teeID sv = zero_address) then ar_OPCommand (Result r) = command_Hash TEEInfo
  else recoverSigner r (chainID sv) = Ok (teeID sv).

(** A successful result of a submission that runs the hooks. *)
Definition hooked (r : ActionResponse) : Prop :=
  ar_Status (Result r) = 1 /\ ar_SubmissionTag (Result r) <> End.
#[export] Instance hooked_dec r : Decision (hooked r) := ltac:(unfold hooked; apply _).

Definition key_commands : list Command := [KeyGenerate; KeyDataProviderRestore; KeyDirectRestore; KeyDelete].

(** [q'] is [q], with [x] added if [P] holds and there is room. *)
Definition sent {A} (P : Prop) (x : A) (cap : Z) (q q' : list A) : Prop :=
  (P /\ zlen q < cap /\ q' = q ++ [x]) \/ (~ (P /\ zlen q < cap) /\ q' = q).

Definition same_hooks (sv sv' : @Service W) : Prop :=
  KeyActions sv' = KeyActions sv /\ Backups sv' = Backups sv /\ BackupTrigger sv' = BackupTrigger sv.

Definition ProcessAndStore_spec (sv : @Service W) (now : Z) (r : ActionResponse)
    (out : stateful (@Service W) unit) : Prop :=
  let sv' := out.1 in
  teeID sv' = teeID sv /\ chainID sv' = chainID sv /\
  if decide (ar_ID (Result r) = zero_hash) then
    out.2 = Ok tt /\ rs sv' = rs sv /\ lastStorageErr sv' = lastStorageErr sv /\ same_hooks sv sv'
  else
    (~ authentic sv r /\ (exists e, out.2 = Fail e) /\
       rs sv' = rs sv /\ lastStorageErr sv' = lastStorageErr sv /\ same_hooks sv sv') \/
    (authentic sv r /\
       StoreResponse_spec (rs sv) now r (rs sv', out.2) /\
       sent (hooked r /\ exists c, c ∈ key_commands /\ ar_OPCommand (Result r) = command_Hash c)
         (Result r) 1000 (KeyActions sv) (KeyActions sv') /\
       sent (hooked r /\ ar_OPCommand (Result r) = command_Hash TEEBackup)
         (Result r) 1000 (Backups sv) (Backups sv') /\
       sent (hooked r /\ ar_OPCommand (Result r) = command_Hash UpdatePolicy)
         true 1 (BackupTrigger sv) (BackupTrigger sv') /\
       match out.2 with
       | Ok _ => lastStorageErr sv' = None
       | Fail e =>
           if errors_Is e "errOverrideFinal" || errors_Is e "errOverrideTransient"
           then lastStorageErr sv' = lastStorageErr sv else lastStorageErr sv' = Some e
       | Panic => False
       end).

Lemma admit_response_spec (sv : @Service W) r :
  (authentic sv r /\ admit_response sv r = (sv, Ok tt)) \/
  (~ authentic sv r /\ exists ev e, admit_response sv r = (emit sv ev, Fail e)).
Proof.
  unfold admit_response, authentic. pose proof (recoverSigner_no_panic r (chainID sv)).
  destruct (decide (teeID sv = zero_address)) as [Hz|Hz];
    [rewrite (decide_False (P := teeID sv <> zero_address)) by tauto
    |rewrite (decide_True (P := teeID sv <> zero_address)) by done].
  - case_decide; [right|left]; naive_solver.
  - destruct (recoverSigner r (chainID sv)) as [a|e|]; [case_decide; [right|left]|right|]; naive_solver.
Qed.

(** Where the hooks of a command send. *)
Lemma trigger_hooks_spec (sv : @Service W) (r : ActionResult) (P : Prop) :
  let sv' := trigger_hooks sv r in
  teeID sv' = teeID sv /\ chainID sv' = chainID sv /\ rs sv' = rs sv /\
  lastStorageErr sv' = lastStorageErr sv /\
  (P -> sent (P /\ exists c, c ∈ key_commands /\ ar_OPCommand r = command_Hash c)
         r 1000 (KeyActions sv) (KeyActions sv') /\
        sent (P /\ ar_OPCommand r = command_Hash TEEBackup) r 1000 (Backups sv) (Backups sv') /\
        sent (P /\ ar_OPCommand r = command_Hash UpdatePolicy) true 1 (BackupTrigger sv) (BackupTrigger sv')).
Proof.
  unfold trigger_hooks, sent. set (c := ar_OPCommand r).
  assert (Hkeys : (exists d, d ∈ key_commands /\ c = command_Hash d) <->
    c = command_Hash KeyGenerate \/ c = command_Hash KeyDataProviderRestore \/
    c = command_Hash KeyDirectRestore \/ c = command_Hash KeyDelete).
  { unfold key_commands. split; [intros (d & Hd & Hc); rewrite !elem_of_cons, elem_of_nil in Hd; naive_solver|].
    intros Hor. destruct_or!; eexists; (split; [|eassumption]); rewrite !elem_of_cons; auto. }
  unfold keyActionsChanSize, backupsChanSize, backupTriggerChanSize.
  case_decide as Hk; [|case_decide as Hb; [|case_decide as Hu]].
  all: repeat (case_decide; cbn); split_and!; try done; intros HP; split_and!;
    try (left; split_and!; first [by auto | by apply Hkeys]);
    try (right; split; [|done]; intros [[_ Hc] ?]; try apply Hkeys in Hc; try lia; try tauto;
      destruct_or?; match goal with
      | A : ?x = command_Hash ?d, B : ?x = command_Hash ?d' |- _ =>
          discriminate (command_Hash_inj d d' (eq_trans (eq_sym A) B))
      end).
Qed.
(** Processing a response.  A notification without an action is dropped.
    A response that is not signed by the node (before the node is known: that is
    not node information) is rejected and changes neither the store nor a
    channel nor the liveness signal.  An accepted response goes through the
    override guard; a successful one is sent to the one channel of its command,
    unless the channel is full, and to no other; and the liveness signal holds
    the outcome of the last attempt at storing, refusals of the guard not
    counting. *)
Theorem ProcessAndStore_correct sv now r :
  ProcessAndStore_spec sv now r (ProcessAndStore sv now r).
Proof.
  unfold ProcessAndStore_spec, ProcessAndStore. case_decide as Hid; [done|].
  destruct (admit_response_spec sv r) as [[Ha ->]|(Ha & ev & e & ->)]; cbn [sbind];
    [|cbn; split_and!; [done..|]; left; split_and!; [done|by eexists|done..]].
  set (sv1 := if decide _ then trigger_hooks sv (Result r) else sv).
  assert (Hsv1 : teeID sv1 = teeID sv /\ chainID sv1 = chainID sv /\ rs sv1 = rs sv /\
    lastStorageErr sv1 = lastStorageErr sv /\
    sent (hooked r /\ exists c, c ∈ key_commands /\ ar_OPCommand (Result r) = command_Hash c)
         (Result r) 1000 (KeyActions sv) (KeyActions sv1) /\
    sent (hooked r /\ ar_OPCommand (Result r) = command_Hash TEEBackup)
         (Result r) 1000 (Backups sv) (Backups sv1) /\
    sent (hooked r /\ ar_OPCommand (Result r) = command_Hash UpdatePolicy)
         true 1 (BackupTrigger sv) (BackupTrigger sv1)).
  { subst sv1. pose proof (trigger_hooks_spec sv (Result r) (hooked r)) as Ht.
    unfold hooked in Ht |- *. case_decide as Hh; [naive_solver|].
    split_and!; try done; right; (split; [naive_solver|done]). }
  destruct Hsv1 as (H1' & H2' & H3' & H4' & Hs1 & Hs2 & Hs3).
  clearbody sv1.
  change (rs (emit sv1 _)) with (rs sv1). rewrite H3'.
  pose proof (StoreResponse_meets_spec (rs sv) now r) as Hstore.
  destruct (StoreResponse (rs sv) now r) as [w [[]|e|]]; cbn; [| |done].
  - split_and!; [done..|]. right. exact (conj Ha (conj Hstore (conj Hs1 (conj Hs2 (conj Hs3 eq_refl))))).
  - destruct (errors_Is e "errOverrideFinal" || errors_Is e "errOverrideTransient") eqn:He; cbn;
      (split_and!; [done..|]); right; rewrite ?He;
      [exact (conj Ha (conj Hstore (conj Hs1 (conj Hs2 (conj Hs3 H4')))))
      |exact (conj Ha (conj Hstore (conj Hs1 (conj Hs2 (conj Hs3 eq_refl)))))].
Qed.

Lemma ProcessAndStore_no_panic sv now r : (ProcessAndStore sv now r).2 <> Panic.
Proof.
  pose proof (ProcessAndStore_correct sv now r) as Hs. unfold ProcessAndStore_spec in Hs. revert Hs.
  destruct (ProcessAndStore sv now r) as [sv' [[]|e|]]; [done..|].
  case_decide; cbn; [naive_solver|]. intros (_ & _ & [(_ & [? ?] & _)|(_ & _ & _ & _ & _ & [])]). done.
Qed.
End ServiceFacts.

(** ** A concrete run *)

Module DemoResults.
Import DemoRedis Queue.DemoQueue RedisImplements.
#[local] Existing Instance Demo.op_lib.
#[local] Existing Instance Demo.op_laws.

#[export] Instance result_countable : Countable ActionResult.
Proof.
  refine (inj_countable' (fun r => (ar_ID r, ar_SubmissionTag r, ar_Status r, ar_OPType r, ar_OPCommand r, ar_Data r))
    (fun '(i, t, s, o, c, d) => mkResult i t s o c d) _). by intros [].
Defined.
#[export] Instance response_countable : Countable ActionResponse.
Proof.
  refine (inj_countable' (fun r => (Result r, resp_Signature r)) (fun '(r, s) => mkResponse r s) _). by intros [].
Defined.

(** A signature is the signer's key. *)
#[export] Instance signer_lib : SignerLib := {|
  ActionResult_Hash r := ar_Data r;
  BytesToHash b := N.of_nat (length b);
  TEEActionResult_Hash c h := Ok (h + Z.to_N c)%N;
  TextHash h := h;
  PublicKey := Byte.byte;
  SigToPub h sig := match sig with [k] => Ok k | _ => Fail (errorf []) end;
  PubkeyToAddress k := Byte.to_N k
|}.
#[export] Instance signer_laws : SignerLaws.
Proof. constructor; [done|]. intros h [|k [|]]; done. Qed.

#[local] Instance results_store : StorageI server ActionResponse := redis_storage "results".
#[local] Instance results_store_laws : StorageLaws server ActionResponse := redis_storage_laws "results".

Definition response (i : Hash) (status : Z) : ActionResponse :=
  mkResponse (mkResult i Submit status 1%N (Demo.command_index KeyGenerate) []) [Byte.x07].
Definition store0 : @ResultStorage server := NewStorage (mkServer ∅ ∅) 1000 100.
Definition store1 : @ResultStorage server := (StoreResponse store0 0 (response 1 1)).1.

Lemma store1_view : st_view (s store1) 50 (response_key (response 1 1)) = Some (response 1 1).
Proof. vm_compute. reflexivity. Qed.

Lemma final_result_stable_witness :
  st_view (s (store_all store1 [(5, response 1 0); (6, response 2 7); (9, response 1 3)])) 50
    (response_key (response 1 1)) = Some (response 1 1).
Proof.
  apply (final_result_stable store1 50 (response_key (response 1 1)) (response 1 1)).
  - exact store1_view.
  - cbn. lia.
  - repeat constructor; cbn; lia.
Defined.

(** The response is stored between the fast path and the subscription. *)
Lemma WaitOnResponse_no_lost_wakeup_witness :
  exists x y : wait_sys nat, w_pc x = ReCheck /\ fetch x Receiving y /\ w_pc y = Returned (Some 7%nat).
Proof.
  set (x := mkWait (Some 7%nat) 0 false true false false ReCheck).
  set (y := fetched x false (Returned (Some 7%nat))). exists x, y.
  assert (Hf : fetch x Receiving y) by by apply fetch_finds.
  split; [reflexivity|]. split; [exact Hf|].
  destruct (WaitOnResponse_no_lost_wakeup None x 7%nat 1 y) as (_ & _ & [[z Hz]|[Hr|[Hr _]]]).
  - eapply rtc_l; [right; apply do_fast; [|apply fetch_finds_nothing]; reflexivity|].
    eapply rtc_l; [left; apply (env_store _ 7%nat)|].
    eapply rtc_l; [left; by apply (env_publish _ 0%nat)|].
    eapply rtc_l; [right; by apply do_subscribe|]. apply rtc_refl.
  - reflexivity.
  - reflexivity.
  - intros o. cbn. discriminate.
  - eapply nsteps_l; [by eapply do_recheck|apply nsteps_O].
  - exfalso. inversion Hz; cbn in *; discriminate.
  - exact Hr.
  - discriminate.
Defined.

Definition service : @Service server :=
  mkService store0 [] [] [] 7%N 14 None [].

(** A signed response is stored and its key action is sent. *)
Example process_signed :
  let out := ProcessAndStore service 0 (response 1 1) in
  (is_ok out.2, map ar_ID (KeyActions out.1), zlen (Backups out.1)) = (true, [1%N], 0).
Proof. vm_compute. reflexivity. Qed.

Lemma StoreResponse_correct_witness :
  is_ok (StoreResponse store0 0 (response 1 1)).2 = true /\
  StoreResponse_spec store0 0 (response 1 1) (StoreResponse store0 0 (response 1 1)).
Proof. split; [vm_compute; reflexivity|]. apply (StoreResponse_correct store0 0 (response 1 1)). Defined.

Lemma ProcessAndStore_correct_witness :
  is_ok (ProcessAndStore service 0 (response 1 1)).2 = true /\
  ProcessAndStore_spec service 0 (response 1 1) (ProcessAndStore service 0 (response 1 1)).
Proof. split; [vm_compute; reflexivity|]. apply (ProcessAndStore_correct service 0 (response 1 1)). Defined.
End DemoResults.

End Results.
