(* ===== verification/Wallets.v ===== *)
(** The wallet service ([internal/service/wallets/wallets.go] and
    [pkg/wallets/info.go]): the proxy's mirror of the keys the node holds, its
    updates from key actions, and the periodic synchronisation.  The key records
    are only reached through the service's maps and are copied on the way out,
    so the maps hold them by value. *)

From S2P Require Import Prelude Status Types Redis Queue Results.

Module Wallets.
Import Results(ActionResult, ar_Status, ar_OPType, ar_OPCommand, ar_Data, ActionResponse, Result).

(** ** Data *)

Record ConfigConstants : Type := mkConfigConstants {
  AdminsPublicKeys : list (Hash * Hash);
  AdminsThreshold : Z;             (* uint64 *)
  cc_Cosigners : list Address;
  cc_CosignersThreshold : Z        (* uint64 *)
}.

Record KeyExistence : Type := mkKeyExistence {
  ke_TeeID : Address;
  ke_WalletID : Hash;
  ke_KeyID : Z;                    (* uint64 *)
  ke_KeyType : Hash;
  ke_SigningAlgo : Hash;
  ke_PublicKey : bytes;
  ke_Nonce : option Z;             (* *big.Int *)
  ke_Restored : bool;
  ke_ConfigConstants : ConfigConstants;
  ke_SettingsVersion : Hash;
  ke_Settings : bytes
}.

(** tee-node's signed proof: the encoded record and a signature. *)
Record SignedKeyExistenceProof : Type := mkSignedProof {
  skp_KeyExistence : bytes;
  skp_Signature : bytes
}.

Record KeyData : Type := mkKeyData {
  Info : KeyExistence;
  Proof : SignedKeyExistenceProof
}.

(** tee-node's [KeyIDPair] and [types.KeyInfo]. *)
Record IDPair : Type := mkIDPair { WalletID : Hash; KeyID : Z }.
#[export] Instance IDPair_eq_dec : EqDecision IDPair.
Proof. solve_decision. Defined.
#[export] Instance IDPair_countable : Countable IDPair.
Proof. refine (inj_countable' (fun i => (WalletID i, KeyID i)) (fun '(w, k) => mkIDPair w k) _). by intros []. Defined.

Record KeyInfo : Type := mkKeyInfo { ki_WalletID : Hash; ki_KeyID : Z; ki_Nonce : Z (* uint64 *) }.

Definition keyProofBatchSize : nat := 100.

Definition errKeyProofNotFound : error := Status.http_sentinel "errKeyProofNotFound" 404.
Definition ErrWalletNotFound : error := Status.http_sentinel "ErrWalletNotFound" 404.
Definition errKeyDataNotFound : error := Status.http_sentinel "errKeyDataNotFound" 404.
Definition errKeyUpdate : error := sentinel "errKeyUpdate".
Definition errInvalidActionResult : error := sentinel "errInvalidActionResult".
Definition errInvalidOpType : error := sentinel "errInvalidOpType".
Definition errInvalidOpCommand : error := sentinel "errInvalidOpCommand".

(** [structs.DecodeTo] with the ABI type of a key existence, and the JSON
    decoders of the answers of the node.  A JSON null in a list of pointers is a
    nil pointer. *)
Class WalletLib : Type := {
  DecodeKeyExistence : bytes -> res KeyExistence;
  json_KeyInfos : bytes -> res (list KeyInfo);
  json_Proofs : bytes -> res (list (option SignedKeyExistenceProof));
  json_Proof : bytes -> res SignedKeyExistenceProof;
  json_IDPair : bytes -> res IDPair;
  json_Marshal_pairs : list IDPair -> res bytes
}.

Class WalletLaws `{WalletLib} : Prop := {
  DecodeKeyExistence_no_panic b : DecodeKeyExistence b <> Panic;
  json_KeyInfos_no_panic b : json_KeyInfos b <> Panic;
  json_Proofs_no_panic b : json_Proofs b <> Panic;
  json_Proof_no_panic b : json_Proof b <> Panic;
  json_IDPair_no_panic b : json_IDPair b <> Panic
}.

(** ** The caches *)

Record Cache : Type := mkCache {
  KeysForWallet : gmap Hash (list Z);
  Keys : gmap IDPair KeyData
}.

Definition empty_cache : Cache := mkCache ∅ ∅.

(** [s.KeysForWallet[w]]: nil when absent. *)
Definition keys_of (s : Cache) (w : Hash) : list Z := default [] (KeysForWallet s !! w).

Record WalletsInfoResponse : Type := mkWalletsInfo {
  Wallets : Z;
  Keys_count : Z;
  Pairs : list IDPair             (* in the map's iteration order *)
}.

Definition WalletsInfo (s : Cache) : WalletsInfoResponse :=
  mkWalletsInfo (Z.of_nat (size (KeysForWallet s))) (Z.of_nat (size (Keys s))) (map_to_list (Keys s)).*1.

Definition keyDataLocked (s : Cache) (id : IDPair) : option KeyData := Keys s !! id.

Definition KeyProof (s : Cache) (walletID : Hash) (keyID : Z) : res SignedKeyExistenceProof :=
  match Keys s !! mkIDPair walletID keyID with
  | None => Fail errKeyProofNotFound
  | Some info => Ok (Proof info)
  end.

Definition WalletInfo (s : Cache) (walletID : Hash) : res KeyExistence :=
  match KeysForWallet s !! walletID with
  | None | Some [] => Fail ErrWalletNotFound
  | Some (k :: _) =>
      match keyDataLocked s (mkIDPair walletID k) with
      | None => Fail errKeyDataNotFound
      | Some data => Ok (Info data)
      end
  end.

Definition get_KeyData (s : Cache) (walletID : Hash) (keyID : Z) : res KeyData :=
  match keyDataLocked s (mkIDPair walletID keyID) with
  | None => Fail errKeyDataNotFound
  | Some data => Ok data
  end.

Definition localKeySet (s : Cache) : gset IDPair := dom (Keys s).

Definition info_id (i : KeyInfo) : IDPair := mkIDPair (ki_WalletID i) (ki_KeyID i).

(** [storedKey.Info.Nonce == nil || storedKey.Info.Nonce.Uint64() != info.Nonce];
    [Uint64] of a big.Int takes the low 64 bits of its magnitude. *)
Definition nonce_differs (stored : option Z) (nonce : Z) : bool :=
  match stored with None => true | Some n => negb (bool_decide (u64 (Z.abs n) = nonce)) end.

Definition needs_proof (s : Cache) (info : KeyInfo) : bool :=
  match Keys s !! info_id info with
  | None => true
  | Some stored => nonce_differs (ke_Nonce (Info stored)) (ki_Nonce info)
  end.

Definition keysNeedingProof (s : Cache) (remote : list KeyInfo) : list IDPair :=
  info_id <$> filter (fun info => needs_proof s info = true) remote.

(** Deletion of one key from both maps: [removeKey], [removeStaleKeys]. *)
Definition drop_key (s : Cache) (id : IDPair) : Cache :=
  let ks := filter (fun k => k <> KeyID id) (keys_of s (WalletID id)) in
  mkCache
    (match ks with
     | [] => base.delete (WalletID id) (KeysForWallet s)
     | _ => <[WalletID id := ks]> (KeysForWallet s)
     end)
    (base.delete id (Keys s)).

(** The loop over the keys cached at its start; the deletions in one map order
    or another give the same maps. *)
Definition removeStaleKeys (s : Cache) (remote : list KeyInfo) (localAtStart : gset IDPair) : Cache :=
  foldl (fun s id =>
      if decide (id ∈ info_id <$> remote \/ id ∉ localAtStart) then s else drop_key s id)
    s (map_to_list (Keys s)).*1.

(** Insertion of one key into both maps: [sync] and [updateOrAddKey]. *)
Definition put_key (s : Cache) (info : KeyExistence) (proof : SignedKeyExistenceProof) : Cache :=
  let ks := keys_of s (ke_WalletID info) in
  mkCache
    (<[ke_WalletID info := if decide (ke_KeyID info ∈ ks) then ks else ks ++ [ke_KeyID info]]> (KeysForWallet s))
    (<[mkIDPair (ke_WalletID info) (ke_KeyID info) := mkKeyData info proof]> (Keys s)).

Section Ops.
Context `{OpLib, WalletLib}.

Definition parseKeyExistenceProof (proof : SignedKeyExistenceProof) : res KeyExistence :=
  DecodeKeyExistence (skp_KeyExistence proof).

(** The checks shared by the parsers of results. *)
Definition check_result (r : ActionResult) (t : OpType) (cs : list Command) : res unit :=
  if decide (ar_Status r <> 1) then Fail errInvalidActionResult
  else if decide (ar_OPType r <> optype_Hash t) then Fail errInvalidOpType
  else if decide (ar_OPCommand r ∉ command_Hash <$> cs) then Fail errInvalidOpCommand
  else Ok tt.

Definition parseKeyInfoResult (r : ActionResult) : res (list KeyInfo) :=
  _ ← check_result r GetType [Types.KeyInfo]; json_KeyInfos (ar_Data r).
Definition parseKeyProofResult (r : ActionResult) : res (list (option SignedKeyExistenceProof)) :=
  _ ← check_result r GetType [Types.KeyProof]; json_Proofs (ar_Data r).
Definition parseKeyDeleteActionResult (r : ActionResult) : res IDPair :=
  _ ← check_result r WalletType [KeyDelete]; json_IDPair (ar_Data r).
Definition parseNewKeyActionResult (r : ActionResult) : res SignedKeyExistenceProof :=
  _ ← check_result r WalletType [KeyDataProviderRestore; KeyGenerate; KeyDirectRestore];
  json_Proof (ar_Data r).

Definition updateOrAddKey (s : Cache) (action : ActionResult) : stateful Cache IDPair :=
  match wrap (parseNewKeyActionResult action) with
  | Fail e => (s, Fail e)
  | Panic => (s, Panic)
  | Ok keyInfo =>
      match wrap (parseKeyExistenceProof keyInfo) with
      | Fail e => (s, Fail e)
      | Panic => (s, Panic)
      | Ok info => (put_key s info keyInfo, Ok (mkIDPair (ke_WalletID info) (ke_KeyID info)))
      end
  end.

Definition removeKey (s : Cache) (action : ActionResult) : stateful Cache IDPair :=
  match wrap (parseKeyDeleteActionResult action) with
  | Fail e => (s, Fail e)
  | Panic => (s, Panic)
  | Ok idPair => (drop_key s idPair, Ok idPair)
  end.

(** The boolean says whether the key was added; the pair and the boolean that
    come with an error are not modelled. *)
Definition update (s : Cache) (action : ActionResult) : stateful Cache (IDPair * bool) :=
  if decide (ar_Status action <> 1) then (s, Fail errKeyUpdate)
  else
    let c := ar_OPCommand action in
    if decide (c = command_Hash KeyGenerate \/ c = command_Hash KeyDataProviderRestore \/
               c = command_Hash KeyDirectRestore) then
      let '(s, out) := updateOrAddKey s action in
      (s, id ← wrap out; Ok (id, true))
    else if decide (c = command_Hash KeyDelete) then
      let '(s, out) := removeKey s action in
      (s, id ← wrap out; Ok (id, false))
    else (s, Fail (errorf [])).

(** The locked section of [sync] for one batch of proofs. *)
Fixpoint store_proofs (s : Cache) (proofs : list (option SignedKeyExistenceProof)) : stateful Cache unit :=
  match proofs with
  | [] => (s, Ok tt)
  | None :: _ => (s, Panic)      (* a nil pointer is dereferenced *)
  | Some proof :: proofs =>
      match parseKeyExistenceProof proof with
      | Fail e => (s, Fail (errorf [e]))
      | Panic => (s, Panic)
      | Ok info => store_proofs (put_key s info proof) proofs
      end
  end.
End Ops.

(** ** The service *)

Inductive WalletEvent : Type :=
| WalletSyncObserved (outcome : string)
| WalletKeyUpdateFailed
| NodeWait (path : string) (err : option error).

(** [slices.Chunk]: consecutive pieces of [n] elements, the last possibly
    shorter; [fuel] bounds the number of pieces. *)
Fixpoint chunk_fuel {A} (fuel n : nat) (l : list A) : list (list A) :=
  match fuel, l with
  | S fuel, _ :: _ => take n l :: chunk_fuel fuel n (drop n l)
  | _, _ => []
  end.
Definition chunk {A} (n : nat) (l : list A) : list (list A) := chunk_fuel (length l) n l.

Section Service.
Context `{RedisLib, Queue.NameLib, !Json Action, !Json Queue.ActionSubmissionID, !Json Queue.DirectInstruction}.
Context `{OpLib, WalletLib}.

(** The part of the service that synchronisation uses. *)
Record Service : Type := mkService {
  cache : Cache;
  aq : Queue.ActionQueues;
  syncing : bool;
  wevents : list WalletEvent
}.

Definition NewService (aq : Queue.ActionQueues) : Service := mkService empty_cache aq false [].

Definition set_cache (s : Service) (c : Cache) : Service := mkService c (aq s) (syncing s) (wevents s).
Definition set_aq (s : Service) (q : Queue.ActionQueues) : Service := mkService (cache s) q (syncing s) (wevents s).
Definition set_syncing (s : Service) (b : bool) : Service := mkService (cache s) (aq s) b (wevents s).
Definition observe (s : Service) (o : string) : Service :=
  mkService (cache s) (aq s) (syncing s) (wevents s ++ [WalletSyncObserved o]).
Definition key_update_failed (s : Service) : Service :=
  mkService (cache s) (aq s) (syncing s) (wevents s ++ [WalletKeyUpdateFailed]).
Definition waited (s : Service) (path : string) (err : option error) : Service :=
  mkService (cache s) (aq s) (syncing s) (wevents s ++ [NodeWait path err]).

(** Failing with a metric, and the part that [fetchKeyInfo] and
    [fetchKeyProofs] share: enqueue the action on the direct queue, wait for its
    response (the outcome [response] of [WaitOnResponse]) and parse it. *)
Definition failing {A} (s : Service) (o : string) (e : error) : stateful Service A := (observe s o, Fail e).

Definition ask {A} (s : Service) (path : string) (now : Z) (action : Action) (response : res ActionResponse)
    (parse : ActionResult -> res A) : stateful Service A :=
  match Queue.Enqueue (aq s) now action Queue.Direct with
  | (q, Fail e) => failing (set_aq s q) "enqueue_error" e
  | (q, Panic) => (set_aq s q, Panic)
  | (q, Ok _) =>
      let s := waited (set_aq s q) path (failure response) in
      match response with
      | Fail e => if errors_Is e "context.Canceled" then (s, Fail e) else failing s "wait_error" e
      | Panic => (s, Panic)
      | Ok r =>
          match parse (Result r) with
          | Fail e => failing s "parse_error" e
          | Panic => (s, Panic)
          | Ok x => (s, Ok x)
          end
      end
  end.

Definition keysInfoAction (id : res Hash) : res Action :=
  Queue.PrepareDirectAction GetType Types.KeyInfo [] id.

Definition fetchKeyInfo (s : Service) (now : Z) (id : res Hash) (response : res ActionResponse)
    : stateful Service (list KeyInfo) :=
  match keysInfoAction id with
  | Fail e => failing s "enqueue_error" (errorf [e])
  | Panic => (s, Panic)
  | Ok action => ask s "wallet_key_info" now action response parseKeyInfoResult
  end.

Definition fetchKeyProofs (s : Service) (now : Z) (batch : list IDPair) (id : res Hash)
    (response : res ActionResponse) : stateful Service (list (option SignedKeyExistenceProof)) :=
  match json_Marshal_pairs batch with
  | Fail e => failing s "enqueue_error" e
  | Panic => (s, Panic)
  | Ok msg =>
      match Queue.PrepareDirectAction GetType Types.KeyProof msg id with
      | Fail e => failing s "enqueue_error" e
      | Panic => (s, Panic)
      | Ok action => ask s "wallet_key_proof" now action response parseKeyProofResult
      end
  end.

(** The write of one batch. *)
Definition write_batch (s : Service) (proofs : list (option SignedKeyExistenceProof)) : stateful Service unit :=
  match store_proofs (cache s) proofs with
  | (c, Ok _) => (set_cache s c, Ok tt)
  | (c, Fail e) => failing (set_cache s c) "parse_error" e
  | (c, Panic) => (set_cache s c, Panic)
  end.

(** What the node answers to one question: the action's random identifier and
    the outcome of the wait. *)
Record answer : Type := mkAnswer { ans_now : Z; ans_id : res Hash; ans_response : res ActionResponse }.

(** [sync], run without interference; [answers] are the node's answers to the
    batches, in order (no more is asked than there are answers). *)
Fixpoint sync_batches (s : Service) (batches : list (list IDPair)) (answers : list answer)
    : stateful Service unit :=
  match batches, answers with
  | batch :: batches, a :: answers =>
      let* (s, proofs) := (let '(s, out) := fetchKeyProofs s (ans_now a) batch (ans_id a) (ans_response a) in
                           (s, wrap out)) in
      let* (s, _) := write_batch s proofs in
      sync_batches s batches answers
  | [], _ => (s, Ok tt)
  | _, [] => (s, Fail (errorf []))
  end.

Definition sync (s : Service) (first : answer) (answers : list answer) : stateful Service unit :=
  let* (s, remoteKeys) := (let '(s, out) := fetchKeyInfo s (ans_now first) (ans_id first) (ans_response first) in
                           (s, wrap out)) in
  let localAtStart := localKeySet (cache s) in
  let toFetch := keysNeedingProof (cache s) remoteKeys in
  let* (s, _) := sync_batches s (chunk keyProofBatchSize toFetch) answers in
  (set_cache s (removeStaleKeys (cache s) remoteKeys localAtStart), Ok tt).

(** ** Synchronisation next to the event loop

    The goroutine of [triggerSync] and the event loop as steps of one system;
    each step is one locked section or one call that does not hold the lock. *)

Inductive phase : Type :=
| Idle
| Fetching
| Snapshot (remote : list KeyInfo)
| Comparing (remote : list KeyInfo) (local : gset IDPair)
| Batches (remote : list KeyInfo) (local : gset IDPair) (todo : list (list IDPair))
| Writing (remote : list KeyInfo) (local : gset IDPair) (todo : list (list IDPair))
    (proofs : list (option SignedKeyExistenceProof))
| Crashed.

(** [defer s.syncing.Store(false)]. *)
Definition finish (s : Service) : Service * phase := (set_syncing s false, Idle).

(** The case of the event loop that handles a key action, up to the goroutine for
    the backup of an added key: its key.  The loop goes on after an error. *)
Definition apply_key_action (s : Service) (action : ActionResult) : stateful Service (option IDPair) :=
  match update (cache s) action with
  | (c, Ok (id, added)) => (set_cache s c, Ok (if added : bool then Some id else None))
  | (c, Fail _) => (key_update_failed (set_cache s c), Ok None)
  | (c, Panic) => (set_cache s c, Panic)
  end.

(** [CompareAndSwap] on the flag: another goroutine is started, or the trigger is
    skipped.  [ps] are the goroutines that run, wherever each is. *)
Definition triggerSync (s : Service) (ps : list phase) : Service * list phase :=
  if syncing s then (observe s "skipped", ps) else (set_syncing s true, ps ++ [Fetching]).

(** The goroutine of [triggerSync]. *)
Inductive sync_step : Service * phase -> Service * phase -> Prop :=
| w_fetched s a s' remote : fetchKeyInfo s (ans_now a) (ans_id a) (ans_response a) = (s', Ok remote) ->
    sync_step (s, Fetching) (s', Snapshot remote)
| w_fetch_failed s a s' e : fetchKeyInfo s (ans_now a) (ans_id a) (ans_response a) = (s', Fail e) ->
    sync_step (s, Fetching) (finish s')
| w_snapshot s remote : sync_step (s, Snapshot remote) (s, Comparing remote (localKeySet (cache s)))
| w_compare s remote local :
    sync_step (s, Comparing remote local)
      (s, Batches remote local (chunk keyProofBatchSize (keysNeedingProof (cache s) remote)))
| w_asked s a s' remote local b bs proofs :
    fetchKeyProofs s (ans_now a) b (ans_id a) (ans_response a) = (s', Ok proofs) ->
    sync_step (s, Batches remote local (b :: bs)) (s', Writing remote local bs proofs)
| w_ask_failed s a s' remote local b bs e :
    fetchKeyProofs s (ans_now a) b (ans_id a) (ans_response a) = (s', Fail e) ->
    sync_step (s, Batches remote local (b :: bs)) (finish s')
| w_written s s' remote local bs proofs : write_batch s proofs = (s', Ok tt) ->
    sync_step (s, Writing remote local bs proofs) (s', Batches remote local bs)
| w_write_failed s s' remote local bs proofs e : write_batch s proofs = (s', Fail e) ->
    sync_step (s, Writing remote local bs proofs) (finish s')
| w_write_panics s s' remote local bs proofs : write_batch s proofs = (s', Panic) ->
    sync_step (s, Writing remote local bs proofs) (s', Crashed)
| w_removed s remote local :
    sync_step (s, Batches remote local [])
      (finish (observe (set_cache s (removeStaleKeys (cache s) remote local)) "success")).

(** The goroutines after the one at [i] has got to [p]; at [Idle] it has ended. *)
Definition advance (i : nat) (p : phase) (ps : list phase) : list phase :=
  match p with Idle => base.delete i ps | _ => <[i := p]> ps end.

(** What a step is: the loop handles a key action or a trigger, a goroutine gets to a
    phase, or the other services use the queues. *)
Inductive wlabel : Type :=
| Handle (a : ActionResult)
| Trigger
| Synchronise (p : phase)
| Others.

(** The event loop next to the goroutines of [triggerSync], however many there are. *)
Inductive wmove : wlabel -> Service * list phase -> Service * list phase -> Prop :=
| w_update s ps action s' o : apply_key_action s action = (s', Ok o) -> wmove (Handle action) (s, ps) (s', ps)
| w_trigger s ps : wmove Trigger (s, ps) (triggerSync s ps)
| w_sync s ps i p s' p' : ps !! i = Some p -> sync_step (s, p) (s', p') ->
    wmove (Synchronise p') (s, ps) (s', advance i p' ps)
| w_queue s ps q : wmove Others (s, ps) (set_aq s q, ps).

(** A panic in a goroutine ends the process: there is no step after it. *)
Definition running (ps : list phase) : Prop := Crashed ∉ ps.

Definition wstep (x y : Service * list phase) : Prop := running x.2 /\ exists l, l <> Others /\ wmove l x y.
Definition wnext (x y : Service * list phase) : Prop := running x.2 /\ exists l, wmove l x y.

Inductive wrun : Service * list phase -> list wlabel -> Service * list phase -> Prop :=
| wrun_refl x : wrun x [] x
| wrun_step x l y ls z : running x.2 -> wmove l x y -> wrun y ls z -> wrun x (l :: ls) z.
End Service.

(** ** Consistency of the caches *)

Definition ke_id (i : KeyExistence) : IDPair := mkIDPair (ke_WalletID i) (ke_KeyID i).

Section Consistency.
Context `{OpLib, WalletLib}.

(** The index lists exactly the cached keys of each wallet, once each, and no
    wallet without keys; every key is filed under its own identity, with the
    proof it was decoded from. *)
Record cache_wf (s : Cache) : Prop := {
  wf_list w ks : KeysForWallet s !! w = Some ks -> ks <> [] /\ NoDup ks;
  wf_keys w k : k ∈ keys_of s w <-> is_Some (Keys s !! mkIDPair w k);
  wf_info id d : Keys s !! id = Some d -> id = ke_id (Info d);
  wf_proof id d : Keys s !! id = Some d -> parseKeyExistenceProof (Proof d) = Ok (Info d)
}.

Lemma empty_cache_wf : cache_wf empty_cache.
Proof.
  constructor; cbn; try (intros *; rewrite lookup_empty; done).
  intros w k. unfold keys_of; cbn. rewrite !lookup_empty. cbn. rewrite elem_of_nil.
  split; [done|]. by intros [? ?].
Qed.

Lemma keys_of_NoDup s w : cache_wf s -> NoDup (keys_of s w).
Proof.
  intros Hwf. unfold keys_of. destruct (KeysForWallet s !! w) eqn:Hk; cbn; [|constructor].
  by eapply wf_list.
Qed.

(** The list of a wallet after an insertion or a deletion. *)
Lemma keys_of_put s info proof w k :
  k ∈ keys_of (put_key s info proof) w <-> k ∈ keys_of s w \/ (w = ke_WalletID info /\ k = ke_KeyID info).
Proof.
  unfold keys_of at 1; cbn. rewrite lookup_insert. case_decide as Hw; cbn; [subst|set_solver].
  case_decide; rewrite ?elem_of_app, ?list_elem_of_singleton; naive_solver.
Qed.

Lemma keys_of_drop s id w :
  keys_of (drop_key s id) w = if decide (w = WalletID id) then filter (fun k => k <> KeyID id) (keys_of s w)
                              else keys_of s w.
Proof.
  unfold drop_key. set (ks := filter _ _).
  destruct ks as [|x l] eqn:Hks; unfold keys_of at 1; cbn; rewrite ?lookup_delete, ?lookup_insert.
  - repeat case_decide; subst; try done.
  - repeat case_decide; subst; try done.
Qed.

Lemma put_key_wf s info proof :
  cache_wf s -> parseKeyExistenceProof proof = Ok info -> cache_wf (put_key s info proof).
Proof.
  intros Hwf Hp. constructor.
  - intros w ks. cbn. rewrite lookup_insert. case_decide as Hw; [|by apply wf_list].
    intros [= <-]. pose proof (keys_of_NoDup s (ke_WalletID info) Hwf) as Hnd. case_decide as Hin.
    + split; [|done]. intros Hnil. rewrite Hnil in Hin. by apply elem_of_nil in Hin.
    + split; [intros Hnil; by apply app_eq_nil in Hnil as [_ ?]|]. apply NoDup_app. split_and!; [done|set_solver|apply NoDup_singleton].
  - intros w k. rewrite keys_of_put, (wf_keys _ Hwf). cbn. rewrite lookup_insert. case_decide as He.
    + injection He as -> ->. naive_solver.
    + naive_solver.
  - intros id d. cbn. rewrite lookup_insert. case_decide; [|by apply wf_info]. by intros [= <-].
  - intros id d. cbn. rewrite lookup_insert. case_decide; [|by apply wf_proof]. by intros [= <-].
Qed.

Lemma drop_key_wf s id : cache_wf s -> cache_wf (drop_key s id).
Proof.
  intros Hwf. constructor.
  - intros w ks Hk. assert (Hks : keys_of (drop_key s id) w = ks) by (unfold keys_of; by rewrite Hk).
    rewrite keys_of_drop in Hks. split.
    + intros ->. clear Hks. revert Hk. unfold drop_key. destruct (filter _ (keys_of s (WalletID id))) as [|x l] eqn:Hf; cbn.
      * rewrite lookup_delete. case_decide; [done|]. intros Hk. apply (wf_list _ Hwf) in Hk. naive_solver.
      * rewrite lookup_insert. case_decide; [done|]. intros Hk. apply (wf_list _ Hwf) in Hk. naive_solver.
    + subst ks. pose proof (keys_of_NoDup s w Hwf). case_decide; [by apply NoDup_filter|done].
  - intros w k. rewrite keys_of_drop. cbn. unfold drop_key; cbn. rewrite lookup_delete.
    pose proof (wf_keys _ Hwf w k) as Hwk. destruct id as [w' k']; cbn in *.
    case_decide as Hw; case_decide as He; try (injection He as <- <-); rewrite ?list_elem_of_filter; subst; try done.
    + split; [naive_solver|]. by intros [].
    + rewrite <- Hwk. split; [naive_solver|]. intros Hin. split; [congruence|done].
  - intros id' d. cbn. rewrite lookup_delete. case_decide; [done|]. by apply wf_info.
  - intros id' d. cbn. rewrite lookup_delete. case_decide; [done|]. by apply wf_proof.
Qed.

(** ** Removal *)

Definition stale (remote : list KeyInfo) (local : gset IDPair) (id : IDPair) : Prop :=
  id ∉ info_id <$> remote /\ id ∈ local.

Lemma drop_key_lookup s id id' :
  Keys (drop_key s id) !! id' = if decide (id' = id) then None else Keys s !! id'.
Proof. cbn. rewrite lookup_delete. repeat case_decide; congruence. Qed.

Lemma removeStale_fold s remote local ids :
  cache_wf s ->
  let s' := foldl (fun s id => if decide (id ∈ info_id <$> remote \/ id ∉ local) then s else drop_key s id) s ids in
  cache_wf s' /\
  forall id, Keys s' !! id = if decide (stale remote local id /\ id ∈ ids) then None else Keys s !! id.
Proof.
  revert s. induction ids as [|x ids IH]; intros s Hwf; cbn.
  { split; [done|]. intros id. rewrite decide_False; [done|]. intros [_ ?%elem_of_nil]. done. }
  destruct (decide (x ∈ info_id <$> remote \/ x ∉ local)) as [Hx|Hx].
  - destruct (IH s Hwf) as [Hwf' Hk]. split; [done|]. intros id. rewrite Hk.
    apply decide_ext. unfold stale. rewrite elem_of_cons. naive_solver.
  - destruct (IH _ (drop_key_wf s x Hwf)) as [Hwf' Hk]. split; [done|]. intros id.
    rewrite Hk, drop_key_lookup. unfold stale.
    destruct (decide (id = x)) as [->|Hne]; [|apply decide_ext; rewrite elem_of_cons; tauto].
    assert (Hst : x ∉ info_id <$> remote /\ x ∈ local).
    { split; [tauto|]. destruct (decide (x ∈ local)); tauto. }
    symmetry. case_decide as Hc; [by case_decide|]. destruct Hc. split; [done|left].
Qed.

Lemma removeStaleKeys_spec s remote local :
  cache_wf s ->
  cache_wf (removeStaleKeys s remote local) /\
  forall id, Keys (removeStaleKeys s remote local) !! id =
    if decide (stale remote local id) then None else Keys s !! id.
Proof.
  intros Hwf. destruct (removeStale_fold s remote local (map_to_list (Keys s)).*1 Hwf) as [Hwf' Hk].
  split; [done|]. intros id. unfold removeStaleKeys. rewrite Hk.
  destruct (decide (stale remote local id)) as [Hs|Hs]; [|by rewrite decide_False by naive_solver].
  case_decide as Hin; [done|]. destruct (Keys s !! id) as [d|] eqn:Hd; [|done].
  destruct Hin. split; [done|]. apply list_elem_of_fmap. exists (id, d). split; [done|].
  by apply elem_of_map_to_list.
Qed.

(** The removal at the end of a synchronisation evicts exactly the keys that
    the node did not list and that were cached when the snapshot was taken; a key
    that the event loop added since is kept, with its data, and the caches stay
    consistent. *)
Theorem removeStaleKeys_correct s remote local :
  cache_wf s ->
  cache_wf (removeStaleKeys s remote local) /\
  forall id, Keys (removeStaleKeys s remote local) !! id =
    if decide (stale remote local id) then None else Keys s !! id.
Proof. apply removeStaleKeys_spec. Qed.

Lemma removeStaleKeys_wf s remote local : cache_wf s -> cache_wf (removeStaleKeys s remote local).
Proof. intros Hwf. by apply (removeStale_fold s remote local). Qed.

(** ** Updates *)

Lemma update_wf s action : cache_wf s -> cache_wf (update s action).1.
Proof.
  intros Hwf. unfold update, updateOrAddKey, removeKey. repeat case_decide; try done.
  - destruct (wrap (parseNewKeyActionResult action)) as [proof|e|]; [|done|done].
    destruct (wrap (parseKeyExistenceProof proof)) as [info|e|] eqn:Hp; [|done|done].
    rewrite wrap_ok in Hp. cbn [fst]. by apply put_key_wf.
  - destruct (wrap (parseKeyDeleteActionResult action)); [|done|done]. cbn [fst]. by apply drop_key_wf.
Qed.

Lemma store_proofs_wf s proofs : cache_wf s -> cache_wf (store_proofs s proofs).1.
Proof.
  revert s. induction proofs as [|[proof|] proofs IH]; intros s Hwf; cbn; [done| |done].
  destruct (parseKeyExistenceProof proof) eqn:Hp; [|done|done]. by apply IH, put_key_wf.
Qed.

(** ** Wallet information *)

(** With consistent caches, [WalletInfo] answers with a cached key of the
    wallet, decoded from the proof kept with it, and reports that the wallet is
    unknown exactly when no key of it is cached; the "key data not found" branch
    is never taken. *)
Theorem WalletInfo_correct s w :
  cache_wf s ->
  match WalletInfo s w with
  | Ok info => exists d, Keys s !! ke_id info = Some d /\ Info d = info /\ ke_WalletID info = w /\
      parseKeyExistenceProof (Proof d) = Ok info
  | Fail e => e = ErrWalletNotFound /\ forall k, Keys s !! mkIDPair w k = None
  | Panic => False
  end.
Proof.
  intros Hwf. unfold WalletInfo, keyDataLocked.
  assert (Hno : keys_of s w = [] -> forall k, Keys s !! mkIDPair w k = None).
  { intros Hnil k. apply eq_None_not_Some. rewrite <- (wf_keys _ Hwf), Hnil. apply not_elem_of_nil. }
  destruct (KeysForWallet s !! w) as [[|k ks]|] eqn:Hk.
  - split; [done|]. apply Hno. unfold keys_of. by rewrite Hk.
  - assert (Hin : k ∈ keys_of s w) by (unfold keys_of; rewrite Hk; left).
    apply (wf_keys _ Hwf) in Hin as [d Hd]. rewrite Hd. pose proof (wf_info _ Hwf _ _ Hd) as Hid.
    exists d. rewrite <- Hid. split_and!; try done; [by injection Hid|by eapply wf_proof].
  - split; [done|]. apply Hno. unfold keys_of. by rewrite Hk.
Qed.
End Consistency.

(** ** Chunks *)

Lemma chunk_fuel_concat {A} fuel n (l : list A) :
  (0 < n)%nat -> (length l <= fuel)%nat -> concat (chunk_fuel fuel n l) = l.
Proof.
  intros Hn. revert l. induction fuel as [|fuel IH]; intros [|x l] Hlen; cbn in *; try done; [lia|].
  destruct n as [|n]; [lia|]. cbn. rewrite IH; [by rewrite take_drop|]. rewrite length_drop. lia.
Qed.
Lemma chunk_concat {A} n (l : list A) : (0 < n)%nat -> concat (chunk n l) = l.
Proof. intros Hn. by apply chunk_fuel_concat. Qed.

Section ServiceFacts.
Context `{RedisLib, Queue.NameLib, !Json Action, !Json Queue.ActionSubmissionID, !Json Queue.DirectInstruction}.
Context `{OpLib, WalletLib}.

(** A call that leaves the caches and the flag alone, and whose value is parsed
    from the response of the node. *)
Definition answers_with {A} (parse : ActionResult -> res A) (s : Service) (response : res ActionResponse)
    (m : stateful Service A) : Prop :=
  cache m.1 = cache s /\ syncing m.1 = syncing s /\
  forall x, m.2 = Ok x -> exists r, response = Ok r /\ parse (Result r) = Ok x.

Lemma ask_answers {A} s path now action response (parse : ActionResult -> res A) :
  answers_with parse s response (ask s path now action response parse).
Proof.
  unfold answers_with, ask, failing. destruct (Queue.Enqueue _ _ _ _) as [q [[]|e|]]; [|done|done].
  destruct response as [r|e|]; [|by destruct (errors_Is _ _)|done].
  destruct (parse (Result r)) as [x|e|] eqn:Hp; [|done|done]. split_and!; try done. intros x' [= <-]. eauto.
Qed.

Lemma fetchKeyInfo_answers s now id response :
  answers_with parseKeyInfoResult s response (fetchKeyInfo s now id response).
Proof. unfold fetchKeyInfo. destruct (keysInfoAction id); [apply ask_answers|done|done]. Qed.

Lemma fetchKeyProofs_answers s now batch id response :
  answers_with parseKeyProofResult s response (fetchKeyProofs s now batch id response).
Proof.
  unfold fetchKeyProofs. destruct (json_Marshal_pairs batch) as [msg| |]; [|done|done].
  destruct (Queue.PrepareDirectAction _ _ _ _); [apply ask_answers|done|done].
Qed.

Lemma write_batch_cache s proofs :
  cache (write_batch s proofs).1 = (store_proofs (cache s) proofs).1 /\
  syncing (write_batch s proofs).1 = syncing s /\
  ((write_batch s proofs).2 = Ok tt -> (store_proofs (cache s) proofs).2 = Ok tt).
Proof. unfold write_batch. by destruct (store_proofs (cache s) proofs) as [c [[]|e|]]. Qed.

(** At most one synchronisation is under way, and the flag says whether. *)
Definition one_sync (x : Service * list phase) : Prop :=
  (length x.2 <= 1)%nat /\ (syncing x.1 = true <-> x.2 <> []).

Definition winv (x : Service * list phase) : Prop := cache_wf (cache x.1) /\ one_sync x.

Lemma apply_key_action_cache s action :
  cache (apply_key_action s action).1 = (update (cache s) action).1 /\
  syncing (apply_key_action s action).1 = syncing s.
Proof. unfold apply_key_action. by destruct (update (cache s) action) as [c [[id []]|e|]]. Qed.

(** A goroutine keeps the caches consistent, and only its end touches the flag. *)
Lemma sync_step_effect x y :
  sync_step x y -> cache_wf (cache x.1) ->
  cache_wf (cache y.1) /\ syncing y.1 = (match y.2 with Idle => false | _ => syncing x.1 end).
Proof.
  intros Hstep Hwf.
  assert (Hfst : forall A (m : stateful Service A) s' o, m = (s', o) -> s' = m.1) by (by intros ? [] ? ? [= -> ->]).
  destruct Hstep as [s a s' remote Hf|s a s' e Hf|s remote|s remote local
    |s a s' remote local b bs proofs Hf|s a s' remote local b bs e Hf|s s' remote local bs proofs Hf
    |s s' remote local bs proofs e Hf|s s' remote local bs proofs Hf|s remote local]; cbn in *;
    try (by auto);
    try lazymatch goal with
    | Hf : fetchKeyInfo _ ?n ?i ?r = _ |- _ =>
        apply Hfst in Hf; subst s'; destruct (fetchKeyInfo_answers s n i r) as (Hc & Hsy & _); rewrite ?Hc, ?Hsy
    | Hf : fetchKeyProofs _ ?n ?b ?i ?r = _ |- _ =>
        apply Hfst in Hf; subst s'; destruct (fetchKeyProofs_answers s n b i r) as (Hc & Hsy & _); rewrite ?Hc, ?Hsy
    | Hf : write_batch _ ?ps = _ |- _ =>
        apply Hfst in Hf; subst s'; destruct (write_batch_cache s ps) as (Hc & Hsy & _); rewrite ?Hc, ?Hsy
    end; (split; [|by auto]); auto using store_proofs_wf, removeStaleKeys_wf.
Qed.

Lemma one_sync_advance s ps i p s' p' :
  ps !! i = Some p -> one_sync (s, ps) ->
  syncing s' = (match p' with Idle => false | _ => syncing s end) -> one_sync (s', advance i p' ps).
Proof.
  intros Hi [Hl Hs] Hs'. unfold one_sync; cbn [fst snd] in *.
  destruct ps as [|q [|]]; [done| |cbn in Hl; lia]. destruct i; [|done]. cbn in Hi.
  rewrite Hs'. destruct p'; cbn; naive_solver lia.
Qed.

Lemma wmove_inv l x y : winv x -> wmove l x y -> winv y.
Proof.
  intros [Hwf Ho] Hstep. destruct Hstep as [s ps action s' o Ha|s ps|s ps i p s' p' Hi Hs|s ps q]; cbn [fst snd] in *; [..|done].
  - destruct (apply_key_action_cache s action) as [Hc Hsy]. rewrite Ha in Hc, Hsy. cbn [fst] in *.
    split; cbn [fst]; [rewrite Hc; by apply update_wf|]. unfold one_sync; cbn [fst snd]. by rewrite Hsy.
  - unfold triggerSync. destruct (syncing s) eqn:Hs; [done|]. split; [done|].
    destruct Ho as [_ Ho]. cbn [fst snd] in Ho. rewrite Hs in Ho.
    destruct ps as [|p ps]; [split; cbn; [lia|done]|]. exfalso. by apply diff_false_true, Ho.
  - apply sync_step_effect in Hs as [Hwf' Hs']; [|done]. split; [done|]. by eapply one_sync_advance.
Qed.

Lemma wnext_inv x y : winv x -> wnext x y -> winv y.
Proof. intros Hx (_ & l & Hs). by eapply wmove_inv. Qed.

Lemma wnexts_inv x y : rtc wnext x y -> winv x -> winv y.
Proof. induction 1; eauto using wnext_inv. Qed.

Lemma start_inv q : winv (NewService q, []).
Proof. split; [apply empty_cache_wf|]. split; cbn; [lia|done]. Qed.

(** In every reachable state of the event loop next to a synchronisation
    -- whatever the node answers, whatever else uses the queues, whenever a call
    fails, and wherever a synchronisation stops -- the two caches are consistent, at most
    one synchronisation is under way, and the flag says whether. *)
Theorem wallet_caches_consistent q s ps :
  rtc wnext (NewService q, []) (s, ps) -> cache_wf (cache s) /\ one_sync (s, ps).
Proof.
  intros Hrun. exact (wnexts_inv _ _ Hrun (start_inv q)).
Qed.

(** ** A synchronisation that nothing disturbs *)

(** The answer covers the batch that was asked for, and is up to date. *)
Definition vouched (remote : list KeyInfo) (proofs : list (option SignedKeyExistenceProof)) : Prop :=
  forall proof info, Some proof ∈ proofs -> parseKeyExistenceProof proof = Ok info ->
    ke_id info ∈ info_id <$> remote /\
    forall ki, ki ∈ remote -> info_id ki = ke_id info -> nonce_differs (ke_Nonce info) (ki_Nonce ki) = false.

Definition vouches (remote : list KeyInfo) (batch : list IDPair) (a : answer) : Prop :=
  forall r proofs, ans_response a = Ok r -> parseKeyProofResult (Result r) = Ok proofs ->
    vouched remote proofs /\
    forall id, id ∈ batch ->
      exists proof info, Some proof ∈ proofs /\ parseKeyExistenceProof proof = Ok info /\ ke_id info = id.

Lemma needs_proof_put s info proof ki :
  needs_proof (put_key s info proof) ki =
    if decide (info_id ki = ke_id info) then nonce_differs (ke_Nonce info) (ki_Nonce ki) else needs_proof s ki.
Proof. unfold needs_proof; cbn. rewrite lookup_insert. unfold ke_id. destruct (decide (info_id ki = _)); [rewrite decide_True by congruence|rewrite decide_False by congruence]; done. Qed.

(** What storing vouched proofs does to the need for proofs. *)
Definition advances (remote : list KeyInfo) (c c' : Cache) : Prop :=
  (forall ki, ki ∈ remote -> needs_proof c ki = false -> needs_proof c' ki = false) /\
  (forall id, is_Some (Keys c' !! id) -> is_Some (Keys c !! id) \/ id ∈ info_id <$> remote).

Lemma advances_trans remote c1 c2 c3 : advances remote c1 c2 -> advances remote c2 c3 -> advances remote c1 c3.
Proof.
  intros [H1' H2'] [H3' H4']. split; [by auto|]. intros id Hid. destruct (H4' id Hid) as [Hi|Hi]; [by apply H2'|by right].
Qed.

Lemma put_key_advances remote c info proof :
  ke_id info ∈ info_id <$> remote ->
  (forall ki, ki ∈ remote -> info_id ki = ke_id info -> nonce_differs (ke_Nonce info) (ki_Nonce ki) = false) ->
  advances remote c (put_key c info proof).
Proof.
  intros Hin Hn. split.
  - intros ki Hki Hf. rewrite needs_proof_put. case_decide; auto.
  - intros id. cbn. rewrite lookup_insert. case_decide as Hid; [|by left]. intros _. right. by rewrite <- Hid.
Qed.

Lemma store_proofs_advances remote proofs c c' :
  vouched remote proofs -> store_proofs c proofs = (c', Ok tt) ->
  advances remote c c' /\
  forall proof info ki, Some proof ∈ proofs -> parseKeyExistenceProof proof = Ok info ->
    ki ∈ remote -> info_id ki = ke_id info -> needs_proof c' ki = false.
Proof.
  revert c. induction proofs as [|[proof|] proofs IH]; intros c Hv Hs; cbn in Hs; [| |done].
  { injection Hs as <-. split; [split; auto|]. intros ??? ?%elem_of_nil. done. }
  destruct (parseKeyExistenceProof proof) as [info|e|] eqn:Hp; [|done|done].
  destruct (Hv proof info) as [Hin Hn]; [left|done|].
  destruct (IH (put_key c info proof)) as [Hadv Hfresh];
    [intros proof' info' Hin'; apply Hv; by right|done|].
  split; [by eapply advances_trans; [apply put_key_advances|]|].
  intros proof' info' ki [Heq|Hin']%elem_of_cons Hp' Hki Hid; [|by eapply Hfresh].
  injection Heq as ->. rewrite Hp in Hp'. injection Hp' as ->.
  apply Hadv; [done|]. rewrite needs_proof_put. rewrite decide_True by done. auto.
Qed.

Lemma sync_batches_advances remote batches answers s s' :
  (forall n b a, batches !! n = Some b -> answers !! n = Some a -> vouches remote b a) ->
  sync_batches s batches answers = (s', Ok tt) ->
  advances remote (cache s) (cache s') /\
  forall ki, ki ∈ remote -> info_id ki ∈ concat batches -> needs_proof (cache s') ki = false.
Proof.
  revert s answers. induction batches as [|b batches IH]; intros s [|a answers] Hv Hs; cbn in Hs;
    try done; try (injection Hs as <-; split; [by split; auto|]; by intros ? _ ?%elem_of_nil).
  pose proof (fetchKeyProofs_answers s (ans_now a) b (ans_id a) (ans_response a)) as (Hc & _ & Hok).
  destruct (fetchKeyProofs s (ans_now a) b (ans_id a) (ans_response a)) as [s1 [proofs|e|]]; cbn in *; [|done|done].
  destruct (Hok proofs eq_refl) as (r & Hr & Hp).
  destruct (Hv 0%nat b a eq_refl eq_refl r proofs Hr Hp) as [Hvp Hcov].
  pose proof (write_batch_cache s1 proofs) as (Hc2 & _ & Hw).
  destruct (write_batch s1 proofs) as [s2 [[]|e|]]; cbn in *; [|done|done].
  destruct (store_proofs_advances remote proofs (cache s1) (cache s2) Hvp) as [Hadv Hfresh].
  { rewrite Hc2. specialize (Hw eq_refl). destruct (store_proofs (cache s1) proofs); cbn in *; congruence. }
  destruct (IH s2 answers) as [Hadv' Hfresh']; [intros n; apply (Hv (S n))|done|].
  rewrite Hc in Hadv. split; [by eapply advances_trans|].
  intros ki Hki [Hb|Hb]%elem_of_app; [|by apply Hfresh'].
  destruct (Hcov _ Hb) as (proof & info & Hpi & Hpp & Hid). apply Hadv'; [done|]. by eapply Hfresh.
Qed.

Lemma sync_batches_wf batches answers s :
  cache_wf (cache s) -> forall s' o, sync_batches s batches answers = (s', o) -> cache_wf (cache s').
Proof.
  revert s answers. induction batches as [|b bs IH]; intros s [|a ans] Hwf s' o Hb; cbn in Hb;
    try (injection Hb as <- _; done).
  pose proof (fetchKeyProofs_answers s (ans_now a) b (ans_id a) (ans_response a)) as (Hc & _).
  destruct (fetchKeyProofs s _ b _ _) as [s3 [proofs|e|]]; cbn in *; [|injection Hb as <- _; by rewrite Hc..].
  pose proof (write_batch_cache s3 proofs) as (Hc2 & _).
  assert (Hwf4 : cache_wf (cache (write_batch s3 proofs).1)) by (rewrite Hc2, Hc; by apply store_proofs_wf).
  destruct (write_batch s3 proofs) as [s4 [[]|e|]]; cbn in *; [by eapply IH|by injection Hb as <- _..].
Qed.

(** A synchronisation that nothing disturbs and that returns without an
    error leaves the proxy with exactly the keys the node listed, each with the
    nonce the node reported, so that a second one would fetch nothing -- provided
    the node's proofs cover what was asked for and agree with its list. *)
Theorem sync_correct s first answers s' r remote :
  cache_wf (cache s) ->
  ans_response first = Ok r -> parseKeyInfoResult (Result r) = Ok remote ->
  (forall n b a, chunk keyProofBatchSize (keysNeedingProof (cache s) remote) !! n = Some b ->
     answers !! n = Some a -> vouches remote b a) ->
  sync s first answers = (s', Ok tt) ->
  (forall id, is_Some (Keys (cache s') !! id) <-> id ∈ info_id <$> remote) /\
  (forall ki, ki ∈ remote -> exists d, Keys (cache s') !! info_id ki = Some d /\
     nonce_differs (ke_Nonce (Info d)) (ki_Nonce ki) = false) /\
  keysNeedingProof (cache s') remote = [].
Proof.
  intros Hwf Hr Hp Hv Hs. unfold sync in Hs.
  pose proof (fetchKeyInfo_answers s (ans_now first) (ans_id first) (ans_response first)) as (Hc & _ & Hok).
  destruct (fetchKeyInfo s (ans_now first) (ans_id first) (ans_response first)) as [s1 [ks|e|]];
    cbn in *; [|done|done].
  destruct (Hok ks eq_refl) as (r' & Hr' & Hp').
  assert (r' = r) as -> by congruence. assert (ks = remote) as -> by congruence. rewrite Hc in Hs.
  set (batches := chunk keyProofBatchSize (keysNeedingProof (cache s) remote)) in *.
  destruct (sync_batches s1 batches answers) as [s2 [[]|e|]] eqn:Hb; cbn in Hs; [|done|done].
  injection Hs as <-. cbn [cache set_cache].
  destruct (sync_batches_advances remote batches answers s1 s2 Hv Hb) as [[Hkeep Hdom] Hfresh]. rewrite Hc in *.
  assert (Hall : forall ki, ki ∈ remote -> needs_proof (cache s2) ki = false).
  { intros ki Hki. destruct (needs_proof (cache s) ki) eqn:Hn; [|auto]. apply Hfresh; [done|].
    subst batches. rewrite chunk_concat by (unfold keyProofBatchSize; lia).
    apply list_elem_of_fmap. exists ki. split; [done|]. by apply list_elem_of_filter. }
  assert (Hwf2 : cache_wf (cache s2)).
  { eapply sync_batches_wf; [|done]. by rewrite Hc. }
  destruct (removeStaleKeys_spec (cache s2) remote (localKeySet (cache s)) Hwf2) as [_ Hl].
  assert (Hget : forall ki, ki ∈ remote -> exists d,
    Keys (removeStaleKeys (cache s2) remote (localKeySet (cache s))) !! info_id ki = Some d /\
    nonce_differs (ke_Nonce (Info d)) (ki_Nonce ki) = false).
  { intros ki Hki. rewrite Hl, decide_False.
    - specialize (Hall ki Hki). unfold needs_proof in Hall. destruct (Keys (cache s2) !! info_id ki); [eauto|done].
    - intros [Hn _]. apply Hn. by apply list_elem_of_fmap_2. }
  split_and!; [|done|].
  - intros id. split.
    + rewrite Hl. unfold stale, localKeySet. case_decide as Hst; [by intros []|].
      intros Hsome. destruct (decide (id ∈ info_id <$> remote)) as [|Hn]; [done|].
      destruct (Hdom id Hsome) as [Hin|]; [|done]. destruct Hst. split; [done|]. by apply elem_of_dom.
    + intros (ki & -> & Hki)%list_elem_of_fmap. destruct (Hget ki Hki) as (d & -> & _). by eexists.
  - unfold keysNeedingProof.
    destruct (filter _ remote) as [|ki l] eqn:Hf; [done|].
    assert (Hki : ki ∈ ki :: l) by left. rewrite <- Hf in Hki.
    apply list_elem_of_filter in Hki as [Hn Hki]. destruct (Hget ki Hki) as (d & Hd & Hdn).
    unfold needs_proof in Hn. cbn [cache set_cache] in Hn. rewrite Hd, Hdn in Hn. discriminate.
Qed.

(** ** The window of a synchronisation *)

(** What a key action comes to, which does not depend on the caches: the key it adds, the
    key it removes, or a failure. *)
Definition added (a : ActionResult) : option IDPair :=
  match (update empty_cache a).2 with Ok (id, true) => Some id | _ => None end.
Definition removed (a : ActionResult) : option IDPair :=
  match (update empty_cache a).2 with Ok (id, false) => Some id | _ => None end.
Definition fails (a : ActionResult) : bool :=
  match (update empty_cache a).2 with Fail _ => true | _ => false end.

Lemma update_outcome c c' action : (update c action).2 = (update c' action).2.
Proof.
  unfold update, updateOrAddKey, removeKey. repeat case_decide; try done.
  - destruct (wrap (parseNewKeyActionResult action)) as [proof|e|]; [|done..].
    by destruct (wrap (parseKeyExistenceProof proof)).
  - by destruct (wrap (parseKeyDeleteActionResult action)).
Qed.

(** A key action caches the key it adds, and drops only the key it removes. *)
Lemma update_keys c action :
  match (update c action).2 with
  | Ok (id, true) => is_Some (Keys (update c action).1 !! id) /\
      forall id', is_Some (Keys c !! id') -> is_Some (Keys (update c action).1 !! id')
  | Ok (id, false) => forall id', id' <> id -> Keys (update c action).1 !! id' = Keys c !! id'
  | _ => Keys (update c action).1 = Keys c
  end.
Proof.
  unfold update, updateOrAddKey, removeKey. repeat case_decide; try done.
  - destruct (wrap (parseNewKeyActionResult action)) as [proof|e|]; [|done..].
    destruct (wrap (parseKeyExistenceProof proof)) as [i|e|]; [|done..]. cbn.
    split; [|intros id']; rewrite lookup_insert; case_decide; eauto; done.
  - destruct (wrap (parseKeyDeleteActionResult action)) as [id|e|]; [|done..]. cbn [fst snd wrap mbind res_bind].
    intros id' Hne. by rewrite drop_key_lookup, decide_False.
Qed.

Lemma handle_keys s a s' o id :
  apply_key_action s a = (s', Ok o) ->
  (added a = Some id -> is_Some (Keys (cache s') !! id)) /\
  (removed a <> Some id -> is_Some (Keys (cache s) !! id) -> is_Some (Keys (cache s') !! id)).
Proof.
  intros Ha. destruct (apply_key_action_cache s a) as [Hc _]. rewrite Ha in Hc. cbn in Hc. rewrite Hc.
  pose proof (update_keys (cache s) a) as Hu. unfold added, removed.
  rewrite (update_outcome empty_cache (cache s) a). destruct (update (cache s) a) as [c [[i []]|e|]]; cbn [fst snd] in *.
  - destruct Hu as [Hi Hk]. split; [by intros [= <-]|auto].
  - split; [done|]. intros Hne Hsome. rewrite Hu; [done|congruence].
  - rewrite Hu. done.
  - rewrite Hu. done.
Qed.

Lemma store_proofs_keys proofs c id : is_Some (Keys c !! id) -> is_Some (Keys (store_proofs c proofs).1 !! id).
Proof.
  revert c. induction proofs as [|[proof|] proofs IH]; intros c Hc; cbn; [done| |done].
  destruct (parseKeyExistenceProof proof); [|done..]. apply IH. cbn. rewrite lookup_insert. by case_decide.
Qed.

(** Only its last step takes keys from the caches. *)
Lemma sync_step_keys x y id :
  sync_step x y -> y.2 <> Idle -> is_Some (Keys (cache x.1) !! id) -> is_Some (Keys (cache y.1) !! id).
Proof.
  assert (Hfst : forall A (m : stateful Service A) s' o, m = (s', o) -> s' = m.1) by (by intros ? [] ? ? [= -> ->]).
  destruct 1 as [s a s' remote Hf| | | |s a s' remote local b bs proofs Hf| |s s' remote local bs proofs Hf
    | |s s' remote local bs proofs Hf|]; cbn [fst snd finish]; try done; intros _; apply Hfst in Hf; subst s'.
  - by destruct (fetchKeyInfo_answers s (ans_now a) (ans_id a) (ans_response a)) as [-> _].
  - by destruct (fetchKeyProofs_answers s (ans_now a) b (ans_id a) (ans_response a)) as [-> _].
  - destruct (write_batch_cache s proofs) as [-> _]. apply store_proofs_keys.
  - destruct (write_batch_cache s proofs) as [-> _]. apply store_proofs_keys.
Qed.

Definition by_loop (l : wlabel) : Prop := match l with Synchronise _ => False | _ => True end.
Definition not_the_end (l : wlabel) : Prop := l <> Synchronise Idle.

(** The steps [ls] add the key, and do not remove it afterwards. *)
Definition brings (id : IDPair) (ls : list wlabel) : Prop :=
  exists l1 a l2, ls = l1 ++ Handle a :: l2 /\ added a = Some id /\ forall a', Handle a' ∈ l2 -> removed a' <> Some id.

Lemma wrun_keeps x ls y id :
  wrun x ls y -> Forall not_the_end ls -> (forall a, Handle a ∈ ls -> removed a <> Some id) ->
  is_Some (Keys (cache x.1) !! id) -> is_Some (Keys (cache y.1) !! id).
Proof.
  induction 1 as [|x l y ls z _ Hs Hr IH]; [done|]. intros [Hl Hls]%Forall_cons Hrem Hx.
  apply IH; [done|intros a Ha; apply Hrem; by right|]. clear IH Hr.
  destruct Hs as [s ps a s' o Ha|s ps|s ps i p s' p' Hi Hs|s ps q]; cbn [fst] in *; try done.
  - apply (proj2 (handle_keys _ _ _ _ id Ha)); [apply Hrem; left|done].
  - unfold triggerSync. by destruct (syncing s).
  - apply (sync_step_keys _ _ id Hs); [|done]. cbn. intros ->. by apply Hl.
Qed.

Lemma wrun_brings x ls y id : wrun x ls y -> Forall not_the_end ls -> brings id ls -> is_Some (Keys (cache y.1) !! id).
Proof.
  intros Hr Hls (l1 & a & l2 & -> & Ha & Hrem). revert Hr Hls. revert x.
  induction l1 as [|l l1 IH]; intros x; cbn [app]; inversion 1 as [|? ? z ? ? _ Hs Hr0]; subst;
    intros [_ Hls]%Forall_cons; [|by eapply IH].
  eapply wrun_keeps; [exact Hr0|done|done|]. inversion Hs as [s ps a0 s' o Hap| | |]; subst. cbn.
  exact (proj1 (handle_keys _ _ _ _ id Hap) Ha).
Qed.

Lemma wrun_inv x ls y : wrun x ls y -> winv x -> winv y.
Proof. induction 1; eauto using wmove_inv. Qed.

(** C40: the order of two events decides whether a key that the node did not list in its
    answer survives the synchronisation.  Take any run of the loop and the goroutine from
    the moment [remote] has been read (steps [before] until the local keys are copied,
    [during] until the stale keys are removed).  A key that is added in [before] is gone
    at the end, whatever happens in [during]; a key that is not cached when the local
    keys are copied, and is added in [during], is there at the end. *)
Theorem sync_evicts_key_before_snapshot s before s1 s1' during s2 s3 remote local id :
  winv (s, [Snapshot remote]) -> id ∉ info_id <$> remote ->
  wrun (s, [Snapshot remote]) before (s1, [Snapshot remote]) -> Forall by_loop before ->
  wmove (Synchronise (Comparing remote local)) (s1, [Snapshot remote]) (s1', [Comparing remote local]) ->
  wrun (s1', [Comparing remote local]) during (s2, [Batches remote local []]) -> Forall not_the_end during ->
  wmove (Synchronise Idle) (s2, [Batches remote local []]) (s3, []) ->
  (brings id before -> Keys (cache s3) !! id = None) /\
  (Keys (cache s1) !! id = None -> brings id during -> is_Some (Keys (cache s3) !! id)).
Proof.
  intros Hinv Hid Hbefore Hloop Hsnap Hduring Hnend Hend.
  pose proof (wrun_inv _ _ _ Hbefore Hinv) as Hinv1. pose proof (wmove_inv _ _ _ Hinv1 Hsnap) as Hinv1'.
  pose proof (wrun_inv _ _ _ Hduring Hinv1') as [Hwf2 _]. cbn in Hwf2.
  assert (Hlocal : local = localKeySet (cache s1)).
  { inversion Hsnap as [| |? ? i ? ? ? Hi Hs Ha|]; subst. destruct i; [|done]. injection Hi as <-. by inversion Hs. }
  assert (Hs3 : cache s3 = removeStaleKeys (cache s2) remote local).
  { inversion Hend as [| |? ? i ? ? ? Hi Hs Ha|]; subst. destruct i; [|done]. injection Hi as <-. by inversion Hs. }
  assert (Hb : Forall not_the_end before).
  { eapply Forall_impl; [exact Hloop|]. intros l Hl ->. exact Hl. }
  destruct (removeStaleKeys_spec (cache s2) remote local Hwf2) as [_ Hkeys].
  rewrite Hs3, Hkeys. subst local. unfold stale, localKeySet. split.
  - intros Hbr. rewrite decide_True; [done|]. split; [done|]. apply elem_of_dom. exact (wrun_brings _ _ _ _ Hbefore Hb Hbr).
  - intros Hno Hbr. rewrite decide_False; [|intros [_ [d Hd]%elem_of_dom]; congruence].
    exact (wrun_brings _ _ _ _ Hduring Hnend Hbr).
Qed.
(** ** What the steps report *)

Definition quiet (e : WalletEvent) : Prop :=
  match e with
  | NodeWait _ _ => True
  | WalletSyncObserved o => o ∉ ["skipped"; "success"]
  | WalletKeyUpdateFailed => False
  end.

(** The events of [s'] are those of [s] and some that are neither a failed update nor the
    end of a synchronisation. *)
Definition reports_quietly (s s' : Service) : Prop :=
  exists es, wevents s' = wevents s ++ es /\ Forall quiet es.

Lemma quietly_refl s s' : wevents s' = wevents s -> reports_quietly s s'.
Proof. intros He. exists []. by rewrite app_nil_r. Qed.
Lemma quietly_event s s' e : wevents s' = wevents s ++ [e] -> quiet e -> reports_quietly s s'.
Proof. intros He Hq. exists [e]. split; [done|]. by constructor. Qed.
Lemma quietly_trans s1 s2 s3 : reports_quietly s1 s2 -> reports_quietly s2 s3 -> reports_quietly s1 s3.
Proof.
  intros (es & He & Hq) (es' & He' & Hq'). exists (es ++ es').
  split; [by rewrite He', He, app_assoc|by apply Forall_app].
Qed.

Lemma observe_quietly s o : o ∉ ["skipped"; "success"] -> reports_quietly s (observe s o).
Proof. intros Ho. by apply (quietly_event _ _ (WalletSyncObserved o)). Qed.

Lemma ask_quietly {A} s path now action response (parse : ActionResult -> res A) :
  reports_quietly s (ask s path now action response parse).1.
Proof.
  unfold ask, failing. destruct (Queue.Enqueue _ _ _ _) as [q [[]|e|]]; cbn [fst];
    [|by eapply quietly_event; [|]; [reflexivity|set_solver]|by apply quietly_refl].
  assert (Hw : reports_quietly s (waited (set_aq s q) path (failure response))).
  { by eapply quietly_event. }
  destruct response as [r|e|]; [|destruct (errors_Is _ _)|]; try done.
  - destruct (parse (Result r)); cbn [fst]; try done. eapply quietly_trans; [exact Hw|]. apply observe_quietly. set_solver.
  - eapply quietly_trans; [exact Hw|]. apply observe_quietly. set_solver.
Qed.

Lemma fetchKeyInfo_quietly s now id response : reports_quietly s (fetchKeyInfo s now id response).1.
Proof.
  unfold fetchKeyInfo. destruct (keysInfoAction id); [apply ask_quietly| |by apply quietly_refl].
  apply observe_quietly. set_solver.
Qed.
Lemma fetchKeyProofs_quietly s now batch id response : reports_quietly s (fetchKeyProofs s now batch id response).1.
Proof.
  unfold fetchKeyProofs. destruct (json_Marshal_pairs batch); [| |by apply quietly_refl];
    [|apply observe_quietly; set_solver].
  destruct (Queue.PrepareDirectAction _ _ _ _); [apply ask_quietly| |by apply quietly_refl].
  apply observe_quietly. set_solver.
Qed.
Lemma write_batch_quietly s proofs : reports_quietly s (write_batch s proofs).1.
Proof.
  unfold write_batch. destruct (store_proofs _ _) as [c [[]|e|]]; try by apply quietly_refl.
  apply (quietly_trans _ (set_cache s c)); [by apply quietly_refl|]. apply observe_quietly. set_solver.
Qed.

(** A step of a synchronisation reports quietly, but for the success at its end. *)
Lemma sync_step_reports x y :
  sync_step x y ->
  x.2 <> Idle /\
  (reports_quietly x.1 y.1 \/ wevents y.1 = wevents x.1 ++ [WalletSyncObserved "success"] /\ y.2 = Idle).
Proof.
  assert (Hfst : forall A s (m : stateful Service A) s' o, m = (s', o) -> reports_quietly s m.1 -> reports_quietly s s')
    by (by intros ? ? [] ? ? [= -> ->]).
  assert (Hend : forall s s', reports_quietly s s' -> reports_quietly s (finish s').1).
  { intros s s' Hs. eapply quietly_trans; [exact Hs|]. by apply quietly_refl. }
  destruct 1; cbn [fst snd finish]; (split; [done|]); first [by right | left; try apply Hend];
    first [by apply quietly_refl | eapply Hfst; [eassumption|]];
    auto using fetchKeyInfo_quietly, fetchKeyProofs_quietly, write_batch_quietly.
Qed.

Lemma update_no_panic `{!WalletLaws} c action : (update c action).2 <> Panic.
Proof.
  unfold update, updateOrAddKey, removeKey, parseNewKeyActionResult, parseKeyDeleteActionResult,
    parseKeyExistenceProof, check_result.
  pose proof (json_Proof_no_panic (ar_Data action)). pose proof (json_IDPair_no_panic (ar_Data action)).
  repeat case_decide; try done.
  - destruct (json_Proof (ar_Data action)) as [proof|e|]; cbn; [|done..].
    pose proof (DecodeKeyExistence_no_panic (skp_KeyExistence proof)). by destruct (DecodeKeyExistence _).
  - by destruct (json_IDPair (ar_Data action)).
Qed.

End ServiceFacts.

(** ** A concrete run *)

Module DemoWallets.
Import DemoRedis Queue.DemoQueue.
#[local] Existing Instance Demo.op_lib.

Definition info (w k n : Byte.byte) : KeyExistence :=
  mkKeyExistence 1 (Byte.to_N w) (Z.of_N (Byte.to_N k)) 0 0 [] (Some (Z.of_N (Byte.to_N n))) false
    (mkConfigConstants [] 0 [11%N; 12%N] 1) 0 [].

Fixpoint triples {A} (f : Byte.byte -> Byte.byte -> Byte.byte -> A) (b : bytes) : list A :=
  match b with
  | w :: k :: n :: b => f w k n :: triples f b
  | _ => []
  end.

(** Records as three bytes: wallet, key, nonce. *)
#[export] Instance wallet_lib : WalletLib := {|
  DecodeKeyExistence b := match b with [w; k; n] => Ok (info w k n) | _ => Fail (errorf []) end;
  json_KeyInfos b := Ok (triples (fun w k n => mkKeyInfo (Byte.to_N w) (Z.of_N (Byte.to_N k)) (Z.of_N (Byte.to_N n))) b);
  json_Proofs b := Ok (triples (fun w k n => Some (mkSignedProof [w; k; n] [])) b);
  json_Proof b := Ok (mkSignedProof b []);
  json_IDPair b := match b with [w; k] => Ok (mkIDPair (Byte.to_N w) (Z.of_N (Byte.to_N k))) | _ => Fail (errorf []) end;
  json_Marshal_pairs l := Ok []
|}.

#[export] Instance wallet_laws : WalletLaws.
Proof. split; try done; by intros [|? [|? [|? [|? ?]]]]. Qed.

#[export] Instance direct_json : Json Queue.DirectInstruction :=
  {| json_Marshal i := Ok []; json_Unmarshal b := Fail (errorf []) |}.

Definition q0 : Queue.ActionQueues := Queue.DemoQueue.empty.
Definition result (t : OpType) (c : Command) (d : bytes) : ActionResult :=
  Results.mkResult 1 Submit 1 (optype_Hash t) (command_Hash c) d.
Definition generated : ActionResult := result WalletType KeyGenerate [Byte.x05; Byte.x01; Byte.x02].
Definition c1 : Cache := (update empty_cache generated).1.
Definition reply (c : Command) (d : bytes) : answer :=
  mkAnswer 0 (Ok 7%N) (Ok (Results.mkResponse (result GetType c d) [])).

Lemma c1_wf : cache_wf c1.
Proof. apply update_wf, empty_cache_wf. Qed.

Lemma generated_applied s : exists o, apply_key_action s generated = ((apply_key_action s generated).1, Ok o).
Proof.
  unfold apply_key_action.
  assert (Hu : (update (cache s) generated).2 = Ok (mkIDPair 5 1, true)).
  { rewrite (update_outcome _ empty_cache). vm_compute. reflexivity. }
  destruct (update (cache s) generated) as [c out]. cbn in Hu. rewrite Hu. by exists (Some (mkIDPair 5 1)).
Qed.

Lemma wallet_caches_consistent_witness :
  cache_wf (cache (apply_key_action (set_syncing (NewService q0) true) generated).1) /\
  (length [Fetching] <= 1)%nat.
Proof.
  destruct (wallet_caches_consistent q0 (apply_key_action (set_syncing (NewService q0) true) generated).1 [Fetching])
    as [Hwf [Hone _]]; [|split; [exact Hwf|exact Hone]].
  eapply rtc_l; [split; [by apply not_elem_of_nil|]; exists Trigger; apply w_trigger|].
  eapply rtc_l; [split; [by apply not_elem_of_cons; split; [|apply not_elem_of_nil]|]|apply rtc_refl].
  destruct (generated_applied (set_syncing (NewService q0) true)) as [o Ho]. exists (Handle generated). by eapply w_update.
Defined.

Lemma WalletInfo_correct_witness :
  exists d, Keys c1 !! mkIDPair 5 1 = Some d /\ WalletInfo c1 5 = Ok (Info d).
Proof.
  pose proof (WalletInfo_correct c1 5 c1_wf) as Hw.
  destruct (WalletInfo c1 5) as [i|e|] eqn:Hi; [|exfalso; destruct Hw as [_ Hw]; specialize (Hw 1); discriminate Hw|done].
  destruct Hw as (d & Hd & <- & _). exists d. split; [|reflexivity].
  rewrite <- Hd. f_equal. injection Hi as <-. reflexivity.
Defined.

Lemma removeStaleKeys_correct_witness :
  Keys (removeStaleKeys c1 [] {[ mkIDPair 5 1 ]}) !! mkIDPair 5 1 = None.
Proof.
  destruct (removeStaleKeys_correct c1 [] {[ mkIDPair 5 1 ]} c1_wf) as [_ Hl].
  rewrite Hl. reflexivity.
Defined.

(** The node lists two keys; one is cached with an old nonce, one is new. *)
Definition s1 : Service := set_cache (NewService q0) c1.
Definition first : answer := reply Types.KeyInfo [Byte.x05; Byte.x01; Byte.x03; Byte.x06; Byte.x01; Byte.x00].
Definition second : answer := reply Types.KeyProof [Byte.x05; Byte.x01; Byte.x03; Byte.x06; Byte.x01; Byte.x00].
Definition remote : list KeyInfo := [mkKeyInfo 5 1 3; mkKeyInfo 6 1 0].
Definition synced : stateful Service unit := sync s1 first [second].

Lemma batch_lookup n b :
  chunk keyProofBatchSize (keysNeedingProof (cache s1) remote) !! n = Some b ->
  n = 0%nat /\ b = [mkIDPair 5 1; mkIDPair 6 1].
Proof.
  assert (Hk : keysNeedingProof (cache s1) remote = [mkIDPair 5 1; mkIDPair 6 1]) by (vm_compute; reflexivity).
  rewrite Hk. destruct n as [|n]; cbn; [by intros [= <-]|done].
Qed.

Lemma second_vouches : vouches remote [mkIDPair 5 1; mkIDPair 6 1] second.
Proof.
  assert (Hp : parseKeyProofResult (result GetType Types.KeyProof
    [Byte.x05; Byte.x01; Byte.x03; Byte.x06; Byte.x01; Byte.x00]) =
    Ok [Some (mkSignedProof [Byte.x05; Byte.x01; Byte.x03] []);
        Some (mkSignedProof [Byte.x06; Byte.x01; Byte.x00] [])]) by (vm_compute; reflexivity).
  intros r proofs [= <-]. cbn [Result]. rewrite Hp. intros [= <-]. split.
  - intros proof i Hin. rewrite !elem_of_cons, elem_of_nil in Hin.
    destruct Hin as [[= ->]|[[= ->]|[]]]; intros [= <-]; (split; [cbn; rewrite !elem_of_cons; auto|]);
      intros ki Hki; unfold remote in Hki; rewrite !elem_of_cons, elem_of_nil in Hki;
      destruct Hki as [->|[->|[]]]; cbn; intros Hid; try discriminate Hid; reflexivity.
  - intros id Hid. rewrite !elem_of_cons, elem_of_nil in Hid. destruct Hid as [->|[->|[]]].
    + exists (mkSignedProof [Byte.x05; Byte.x01; Byte.x03] []), (info Byte.x05 Byte.x01 Byte.x03).
      split; [left|done].
    + exists (mkSignedProof [Byte.x06; Byte.x01; Byte.x00] []), (info Byte.x06 Byte.x01 Byte.x00).
      split; [right; left|done].
Qed.

Lemma sync_correct_witness :
  is_ok synced.2 = true /\ keysNeedingProof (cache synced.1) remote = [].
Proof.
  assert (Hok : is_ok synced.2 = true) by (vm_compute; reflexivity). split; [exact Hok|].
  apply (sync_correct s1 first [second] synced.1
    (Results.mkResponse (result GetType Types.KeyInfo [Byte.x05; Byte.x01; Byte.x03; Byte.x06; Byte.x01; Byte.x00]) [])
    remote).
  - exact c1_wf.
  - reflexivity.
  - vm_compute. reflexivity.
  - intros n b a Hb Ha. apply batch_lookup in Hb as [-> ->]. injection Ha as <-. exact second_vouches.
  - apply (Queue.DemoQueue.ok_pair synced tt) in Hok. revert Hok.
    generalize (match synced.2 with Ok a => a | _ => tt end). intros [] Hok. exact Hok.
Defined.

Definition t0 : Service := set_syncing (NewService q0) true.
Definition t1 : Service := (apply_key_action t0 generated).1.
Definition key51 : IDPair := mkIDPair 5 1.

Lemma t0_inv : winv (t0, [Snapshot []]).
Proof. split; [apply empty_cache_wf|]. split; cbn; [lia|done]. Qed.
Lemma one_running p : p <> Crashed -> running [p].
Proof. intros Hp. unfold running. by rewrite list_elem_of_singleton. Qed.
Lemma generated_brings l : brings key51 [l; Handle generated].
Proof.
  exists [l], generated, []. split; [reflexivity|]. split; [vm_compute; reflexivity|]. by intros a ?%not_elem_of_nil.
Qed.
Lemma handle_generated ps : wmove (Handle generated) (t0, ps) (t1, ps).
Proof. destruct (generated_applied t0) as [o Ho]. by eapply w_update. Qed.
Lemma queue_untouched s ps : wmove Others (s, ps) (set_aq s (aq s), ps).
Proof. apply w_queue. Qed.
Lemma set_aq_same s : set_aq s (aq s) = s.
Proof. by destruct s. Qed.

(** The same action before and after the copy of the local keys. *)
Lemma sync_evicts_key_before_snapshot_witness :
  (exists s3, wmove (Synchronise Idle) (t1, [Batches [] (localKeySet (cache t1)) []]) (s3, []) /\
     Keys (cache s3) !! key51 = None) /\
  (exists s3, wmove (Synchronise Idle) (t1, [Batches [] (localKeySet (cache t0)) []]) (s3, []) /\
     is_Some (Keys (cache s3) !! key51)).
Proof.
  assert (Hid : key51 ∉ info_id <$> []) by apply not_elem_of_nil.
  assert (Hsnap : forall s, wmove (Synchronise (Comparing [] (localKeySet (cache s)))) (s, [Snapshot []])
    (s, [Comparing [] (localKeySet (cache s))])) by (intros s; by apply (w_sync s [_] 0 (Snapshot [])), w_snapshot).
  assert (Hcomp : forall s local, wmove (Synchronise (Batches [] local [])) (s, [Comparing [] local]) (s, [Batches [] local []])).
  { intros s local. by apply (w_sync s [_] 0 (Comparing [] local)), w_compare. }
  assert (Hend : forall s local, exists s3, wmove (Synchronise Idle) (s, [Batches [] local []]) (s3, [])).
  { intros s local. eexists. by apply (w_sync s [_] 0 (Batches [] local [])), w_removed. }
  assert (Hothers : forall s ps, wmove Others (s, ps) (s, ps)).
  { intros s ps. pose proof (queue_untouched s ps) as Hq. by rewrite set_aq_same in Hq. }
  split.
  - destruct (Hend t1 (localKeySet (cache t1))) as [s3 He]. exists s3. split; [exact He|].
    apply (sync_evicts_key_before_snapshot t0 [Others; Handle generated] t1 t1 [Synchronise (Batches [] (localKeySet (cache t1)) [])]
      t1 s3 [] (localKeySet (cache t1)) key51 t0_inv Hid); [|by repeat constructor|exact (Hsnap t1)| |by repeat constructor|exact He|].
    + eapply wrun_step; [by apply one_running|exact (Hothers _ _)|].
      eapply wrun_step; [by apply one_running|apply handle_generated|apply wrun_refl].
    + eapply wrun_step; [by apply one_running|exact (Hcomp _ _)|apply wrun_refl].
    + apply generated_brings.
  - destruct (Hend t1 (localKeySet (cache t0))) as [s3 He]. exists s3. split; [exact He|].
    apply (sync_evicts_key_before_snapshot t0 [] t0 t0 [Synchronise (Batches [] (localKeySet (cache t0)) []); Handle generated]
      t1 s3 [] (localKeySet (cache t0)) key51 t0_inv Hid); [apply wrun_refl|by constructor|exact (Hsnap t0)| |by repeat constructor|exact He
      |reflexivity|apply generated_brings].
    eapply wrun_step; [by apply one_running|exact (Hcomp _ _)|].
    eapply wrun_step; [by apply one_running|apply handle_generated|apply wrun_refl].
Defined.
End DemoWallets.
End Wallets.
