(* ===== verification/Backups.v ===== *)
(** Wallet backups ([internal/service/wallets/backups.go]): the bodies of the backups
    and the index of the latest one per key, on any two stores that keep the promises
    of [StorageI], and the actions that ask the node for backups. *)

From stdpp Require Import pretty.
From S2P Require Import Prelude Hex Status Types Redis Queue Results Wallets.

Open Scope Z_scope.

Module Backups.
Import Wallets(IDPair, mkIDPair, WalletID, KeyID, KeyData).
Import Results(ActionResult, ar_Data).

Definition initiateBackupsConcurrency : Z := 10.
Definition backupStoreTimeout : Z := 10 * second.

(** [BackupID] of the node, and the backup with its other fields. *)
Record BackupID : Type := mkBackupID { bid_WalletID : Hash; bid_KeyID : Z; bid_rest : bytes }.
Record TEEBackupResponse : Type := mkBackup { b_BackupID : BackupID; b_rest : bytes }.

(** [BackupID.Hash], and the marshalling of an [IDPair]. *)
Class BackupLib : Type := {
  BackupID_Hash : BackupID -> res Hash;
  json_IDPair : IDPair -> res bytes
}.

(** None of the encoders and decoders panics. *)
Class BackupLaws `{BackupLib, !Redis.Json (option TEEBackupResponse), !Redis.Json Queue.DirectInstruction} : Prop := {
  BackupID_Hash_no_panic i : BackupID_Hash i <> Panic;
  json_IDPair_no_panic p : json_IDPair p <> Panic;
  json_Backup_no_panic d : (Redis.json_Unmarshal d : res (option TEEBackupResponse)) <> Panic;
  json_Direct_no_panic (i : Queue.DirectInstruction) : Redis.json_Marshal i <> Panic
}.

(** The key of a body. *)
Definition hash_key (h : Hash) : string := hex_EncodeToString (hash_bytes h).
Definition toKey (pair : IDPair) : string := hash_key (WalletID pair) +:+ "-" +:+ pretty (KeyID pair).

(** ** The stores *)

Section Stores.
Context {WI WB : Type} `{BackupLib, StorageI WI Hash, StorageI WB TEEBackupResponse}.
(** [json.Unmarshal] into a pointer: [None] for null. *)
Context `{!Json (option TEEBackupResponse)}.

(** The fields of the wallet service that hold backups; [failures] counts
    [WalletBackupApplyFailed]. *)
Record Stores : Type := mkStores {
  index : WI;
  backups : WB;
  backupTTL : Z;
  failures : Z
}.

Definition set_index (s : Stores) (w : WI) : Stores := mkStores w (backups s) (backupTTL s) (failures s).
Definition set_backups (s : Stores) (w : WB) : Stores := mkStores (index s) w (backupTTL s) (failures s).
Definition count_failure (s : Stores) : Stores := mkStores (index s) (backups s) (backupTTL s) (failures s + 1).

(** The error of a fetch. *)
Definition fetch_error (e : error) : error :=
  if errors_Is e "storage.ErrNotFound" then Status.Add e 404 else errorf [e].

Definition FetchBackup (s : Stores) (now : Z) (idHash : Hash) : stateful Stores TEEBackupResponse :=
  match st_Get (backups s) now (hash_key idHash) with
  | (w, Ok b) => (set_backups s w, Ok b)
  | (w, Fail e) => (set_backups s w, Fail (fetch_error e))
  | (w, Panic) => (set_backups s w, Panic)
  end.

(** The two reads, at [now] and [now']. *)
Definition FetchLatestBackup (s : Stores) (now now' : Z) (idPair : IDPair) : stateful Stores TEEBackupResponse :=
  match st_Get (index s) now (toKey idPair) with
  | (w, Fail e) => (set_index s w, Fail (fetch_error e))
  | (w, Panic) => (set_index s w, Panic)
  | (w, Ok idHash) =>
      let s := set_index s w in
      match st_Get (backups s) now' (hash_key idHash) with
      | (w, Ok b) => (set_backups s w, Ok b)
      | (w, Fail e) => (set_backups s w, Fail (fetch_error e))
      | (w, Panic) => (set_backups s w, Panic)
      end
  end.

Definition pair_of (b : TEEBackupResponse) : IDPair := mkIDPair (bid_WalletID (b_BackupID b)) (bid_KeyID (b_BackupID b)).

(** The body is written at [now], the index at [now']. *)
Definition createNewBackup (s : Stores) (now now' : Z) (r : ActionResult) : stateful Stores unit :=
  match (json_Unmarshal (ar_Data r) : res (option TEEBackupResponse)) with
  | Panic => (s, Panic)
  | Fail e => (count_failure s, Fail (errorf [e]))
  | Ok None => (count_failure s, Fail (errorf []))
  | Ok (Some b) =>
      match BackupID_Hash (b_BackupID b) with
      | Panic => (s, Panic)
      | Fail e => (count_failure s, Fail (errorf [e]))
      | Ok idHash =>
          match st_SetWithTTL (backups s) now (hash_key idHash) b (backupTTL s) with
          | (w, Fail e) => (set_backups s w, Fail (errorf [e]))
          | (w, Panic) => (set_backups s w, Panic)
          | (w, Ok _) =>
              let s := set_backups s w in
              match st_SetWithTTL (index s) now' (toKey (pair_of b)) idHash (backupTTL s) with
              | (w, Fail e) => (set_index s w, Fail (errorf [e]))
              | (w, Panic) => (set_index s w, Panic)
              | (w, Ok _) => (set_index s w, Ok tt)
              end
          end
      end
  end.
End Stores.

(** ** Asking for backups *)

Section Initiate.
Context `{RedisLib, Queue.NameLib, !Json Action, !Json Queue.ActionSubmissionID, !Json Queue.DirectInstruction}.
Context `{OpLib, BackupLib}.

(** [id] is the random identifier of the action. *)
Definition teeBackupAction (idPair : IDPair) (id : res Hash) : res Action :=
  msg ← wrap (json_IDPair idPair);
  Queue.PrepareDirectAction GetType TEEBackup msg id.

Definition initiateBackup (q : Queue.ActionQueues) (now : Z) (idPair : IDPair) (id : res Hash)
    : stateful Queue.ActionQueues unit :=
  match teeBackupAction idPair id with
  | Panic => (q, Panic)
  | Fail e => (q, Fail (errorf [e]))
  | Ok action =>
      match Queue.Enqueue q now action Queue.Backup with
      | (q, Fail e) => (q, Fail (errorf [e]))
      | out => out
      end
  end.

(** One goroutine: the key, the time it queues its action and the action's identifier. *)
Record Job : Type := mkJob { j_key : IDPair; j_now : Z; j_id : res Hash }.

(** The goroutines in the order they get to the queue; all of them run, and the group
    returns the first error. *)
Fixpoint run_jobs (q : Queue.ActionQueues) (jobs : list Job) (first : option error) : stateful Queue.ActionQueues unit :=
  match jobs with
  | [] => (q, match first with Some e => Fail e | None => Ok tt end)
  | j :: jobs =>
      match initiateBackup q (j_now j) (j_key j) (j_id j) with
      | (q, Ok _) => run_jobs q jobs first
      | (q, Fail e) => run_jobs q jobs (match first with Some e => Some e | None => Some (errorf [e]) end)
      | (q, Panic) => (q, Panic)
      end
  end.

(** The keys are copied under the lock; [spawn] makes the goroutines' jobs of them, in
    the order in which they get to the queue. *)
Definition InitiateBackups (c : Wallets.Cache) (q : Queue.ActionQueues) (spawn : list IDPair -> list Job)
    : stateful Queue.ActionQueues unit :=
  let ids := (map_to_list (Wallets.Keys c)).*1 in
  run_jobs q (spawn ids) None.
End Initiate.

(** ** The keys determine what they are keys of *)

Lemma hash_key_inj h k : hash_ok h -> hash_ok k -> hash_key h = hash_key k -> h = k.
Proof. apply hex_hash_inj. Qed.

Lemma hash_key_length h : String.length (hash_key h) = 64%nat.
Proof. unfold hash_key, hash_bytes. by rewrite hex_EncodeToString_length, be_bytes_length. Qed.

Lemma str_app_inj_length s s' t t' :
  String.length s = String.length s' -> s +:+ t = s' +:+ t' -> s = s' /\ t = t'.
Proof.
  revert s'. induction s as [|c s IH]; intros [|c' s'] Hl Heq; cbn in Hl; try done.
  rewrite !str_app_cons in Heq. injection Heq as -> Heq. injection Hl as Hl.
  destruct (IH s' Hl Heq) as [-> ->]. done.
Qed.

(** A pair of a 32-byte wallet identifier and a key number. *)
Lemma toKey_inj p p' : hash_ok (WalletID p) -> hash_ok (WalletID p') -> toKey p = toKey p' -> p = p'.
Proof.
  intros Hp Hp' Heq. unfold toKey in Heq.
  apply str_app_inj_length in Heq as [Hw Hk]; [|by rewrite !hash_key_length].
  apply hash_key_inj in Hw; [|done..]. injection Hk as Hk.
  change (pretty (KeyID p) = pretty (KeyID p')) in Hk. apply (inj (pretty (A := Z))) in Hk.
  destruct p as [w k], p' as [w' k']; cbn [WalletID KeyID] in *. rewrite Hw, Hk. done.
Qed.

(** ** Facts about the stores *)

Section StoreFacts.
Context {WI WB : Type} `{BackupLib, StorageI WI Hash, !StorageLaws WI Hash, StorageI WB TEEBackupResponse,
  !StorageLaws WB TEEBackupResponse, !Json (option TEEBackupResponse)}.
Implicit Types s : @Stores WI WB.

(** The latest backup of a key: the index entry, and the body it points at. *)
Definition latest s (now now' : Z) (p : IDPair) : option TEEBackupResponse :=
  match st_view (index s) now (toKey p) with
  | None => None
  | Some h => st_view (backups s) now' (hash_key h)
  end.

(** What a fetch answers when the store holds [o]: the value, a 404 only if there is
    none, or a failure of the store. *)
Definition answers {A B} (o : option A) (out : res B) (f : A -> B) : Prop :=
  match out with
  | Ok b => exists a, o = Some a /\ b = f a
  | Fail e => errors_Is e "storage.ErrNotFound" = true -> o = None /\ errors_Is e (error_id (Status.HTTP 404)) = true
  | Panic => False
  end.

Lemma fetch_error_404 e :
  errors_Is (fetch_error e) "storage.ErrNotFound" = true ->
  errors_Is e "storage.ErrNotFound" = true /\ errors_Is (fetch_error e) (error_id (Status.HTTP 404)) = true.
Proof.
  unfold fetch_error. destruct (errors_Is e "storage.ErrNotFound") eqn:He; [done|].
  rewrite errors_Is_errorf by done. congruence.
Qed.

Lemma FetchBackup_answers s now h :
  let '(s', out) := FetchBackup s now h in
  answers (st_view (backups s) now (hash_key h)) out id /\
  same_contents now (backups s) (backups s') /\ index s' = index s.
Proof.
  unfold FetchBackup. pose proof (st_Get_law (backups s) now (hash_key h)) as Hg.
  destruct (st_Get (backups s) now (hash_key h)) as [w out]. destruct Hg as (Hsame & Hnp & Hok & Hnf).
  destruct out as [b|e|]; [| |done]; cbn.
  - split; [|done]. exists b. split; [by apply Hok|done].
  - split; [|done]. intros [He H404]%fetch_error_404. split; [by apply (Hnf e)|done].
Qed.
Lemma FetchLatestBackup_answers s now now' p :
  now <= now' ->
  let '(s', out) := FetchLatestBackup s now now' p in
  answers (latest s now now' p) out id /\
  same_contents now (index s) (index s') /\ same_contents now' (backups s) (backups s').
Proof.
  intros Hnow. unfold FetchLatestBackup, latest. pose proof (st_Get_law (index s) now (toKey p)) as Hg.
  destruct (st_Get (index s) now (toKey p)) as [w out]. destruct Hg as (Hsame & Hnp & Hok & Hnf).
  destruct out as [h|e|]; [| |done].
  - rewrite (Hok h eq_refl). cbn [backups set_index].
    pose proof (st_Get_law (backups s) now' (hash_key h)) as Hb.
    destruct (st_Get (backups s) now' (hash_key h)) as [w' out']. destruct Hb as (Hsame' & Hnp' & Hok' & Hnf').
    destruct out' as [b|e|]; [| |done]; cbn.
    + split; [|done]. exists b. split; [by apply Hok'|done].
    + split; [|done]. intros [He H404]%fetch_error_404. split; [by apply (Hnf' e)|done].
  - cbn. split; [|split; [done|by intros ? ?]]. intros [He H404]%fetch_error_404.
    by rewrite (Hnf e eq_refl He) by done.
Qed.

(** ** Creating a backup *)

(** The action result holds the backup [b] with the identifier [h]. *)
Definition holds (r : ActionResult) (b : TEEBackupResponse) (h : Hash) : Prop :=
  json_Unmarshal (ar_Data r) = Ok (Some b) /\ BackupID_Hash (b_BackupID b) = Ok h.

(** The body of [b] has been stored. *)
Definition body_stored s s' now (b : TEEBackupResponse) (h : Hash) : Prop :=
  set_contents (backups s) (backups s') now (hash_key h) b (backupTTL s).

Lemma createNewBackup_effect s now now' r :
  match createNewBackup s now now' r with
  | (s', Ok _) => exists b h, holds r b h /\ body_stored s s' now b h /\
      set_contents (index s) (index s') now' (toKey (pair_of b)) h (backupTTL s) /\ failures s' = failures s
  | (s', Fail _) =>
      (s' = count_failure s /\ forall b h, ~ holds r b h) \/
      (exists b h, holds r b h /\ failures s' = failures s /\
        ((index s' = index s /\ (same_contents now (backups s) (backups s') \/ body_stored s s' now b h)) \/
         (body_stored s s' now b h /\
          (same_contents now' (index s) (index s') \/
           set_contents (index s) (index s') now' (toKey (pair_of b)) h (backupTTL s)))))
  | (s', Panic) => s' = s
  end.
Proof.
  unfold createNewBackup, holds, body_stored.
  destruct (json_Unmarshal (ar_Data r) : res (option TEEBackupResponse)) as [[b|]|e|] eqn:Hj; cbn [fst];
    [|left; split; [done|]; by intros ? ? [? _]..|done].
  destruct (BackupID_Hash (b_BackupID b)) as [h|e|] eqn:Hh;
    [|left; split; [done|]; intros b' h' [[= <-] Hh']; congruence|done].
  pose proof (st_SetWithTTL_law (backups s) now (hash_key h) b (backupTTL s)) as Hb.
  destruct (st_SetWithTTL (backups s) now (hash_key h) b (backupTTL s)) as [w [[]|e|]]; [| |done].
  2:{ right. exists b, h. split; [done|]. cbn. split; [done|]. by left. }
  cbn [index set_backups backupTTL].
  pose proof (st_SetWithTTL_law (index s) now' (toKey (pair_of b)) h (backupTTL s)) as Hi.
  destruct (st_SetWithTTL (index s) now' (toKey (pair_of b)) h (backupTTL s)) as [w' [[]|e|]]; [| |done].
  - by exists b, h.
  - right. exists b, h. split; [done|]. cbn. split; [done|]. by right.
Qed.
(** What a fetch answers when [b] is there: [b], or a failure of the store that is not
    a 404. *)
Definition gets (out : res TEEBackupResponse) (b : TEEBackupResponse) : Prop :=
  match out with
  | Ok b' => b' = b
  | Fail e => errors_Is e "storage.ErrNotFound" = false
  | Panic => False
  end.

Lemma answers_gets (out : res TEEBackupResponse) b : answers (Some b) out id -> gets out b.
Proof.
  destruct out as [b'|e|]; cbn; [by intros (b0 & [= <-] & ->)| |done].
  destruct (errors_Is e "storage.ErrNotFound"); [|done]. intros H'. by destruct H'.
Qed.

Lemma same_view_set {W T} `{StorageI W T} (w w' : W) now k x ttl t k' :
  same_contents now w w' \/ set_contents w w' now k x ttl -> now <= t < now + ttl ->
  st_view w' t k' = st_view w t k' \/ (k' = k /\ st_view w' t k' = Some x).
Proof.
  intros [Hs|[Hk Ho]] Ht; [left; apply Hs; lia|].
  destruct (decide (k' = k)) as [->|Hne]; [right; split; [done|by apply Hk]|left; apply Ho; [lia|done]].
Qed.

(** After a write of the body and possibly of the index, the latest backup of a key is
    what it was, or the new one. *)
Lemma latest_after s s' now now' t t' b h p :
  same_contents now (backups s) (backups s') \/ body_stored s s' now b h ->
  same_contents now' (index s) (index s') \/
    body_stored s s' now b h /\ set_contents (index s) (index s') now' (toKey (pair_of b)) h (backupTTL s) ->
  now <= now' <= t -> t <= t' < now + backupTTL s ->
  latest s' t t' p = latest s t t' p \/ latest s' t t' p = Some b.
Proof.
  intros Hb Hi Hn Ht. unfold latest.
  assert (Hbody : forall k, st_view (backups s') t' k = st_view (backups s) t' k \/
      st_view (backups s') t' k = Some b).
  { intros k. destruct (same_view_set _ _ now (hash_key h) b (backupTTL s) t' k Hb) as [?|[_ ?]]; [lia|auto..]. }
  assert (Hx : st_view (index s') t (toKey p) = st_view (index s) t (toKey p) \/
      st_view (index s') t (toKey p) = Some h /\ body_stored s s' now b h).
  { destruct Hi as [Hi|[Hs Hi]]; [left; apply Hi; lia|].
    destruct (same_view_set _ _ now' (toKey (pair_of b)) h (backupTTL s) t (toKey p) (or_intror Hi)) as [?|[_ ?]];
      [lia|auto..]. }
  destruct Hx as [->|[-> [Hk _]]]; [|right; apply Hk; lia].
  destruct (st_view (index s) t (toKey p)) as [h'|]; [|by left].
  destruct (Hbody (hash_key h')) as [->| ->]; auto.
Qed.

(** C33: a created backup can be fetched.  When [createNewBackup] succeeds on a result
    that holds the backup [b] with the identifier [h], then until the time to live
    after the write of the body has passed, [FetchBackup] of [h] and
    [FetchLatestBackup] of [b]'s key return [b], or report a failure of the store that
    is not a missing entry; the index entries of the other keys and the bodies of the
    other identifiers are as before.  When it fails, no key loses its latest backup: a
    key's latest backup is what it was or the new [b]; the failures counted are those
    of results that hold no backup, and they leave the stores alone. *)
Theorem createNewBackup_roundtrip s now now' r :
  now <= now' ->
  match createNewBackup s now now' r with
  | (s', Ok _) => exists b h, holds r b h /\
      (forall t t', now' <= t -> t <= t' < now + backupTTL s ->
        gets (FetchBackup s' t h).2 b /\ gets (FetchLatestBackup s' t t' (pair_of b)).2 b) /\
      (forall t p, now' <= t -> hash_ok (WalletID p) -> hash_ok (WalletID (pair_of b)) -> p <> pair_of b ->
        st_view (index s') t (toKey p) = st_view (index s) t (toKey p)) /\
      (forall t h', now <= t -> hash_ok h -> hash_ok h' -> h' <> h ->
        st_view (backups s') t (hash_key h') = st_view (backups s) t (hash_key h'))
  | (s', Fail _) =>
      (s' = count_failure s /\ forall b h, ~ holds r b h) \/
      (exists b h, holds r b h /\ failures s' = failures s /\
        forall p t t', now' <= t -> t <= t' < now + backupTTL s ->
          latest s' t t' p = latest s t t' p \/ latest s' t t' p = Some b)
  | (s', Panic) => s' = s
  end.
Proof.
  intros Hn. pose proof (createNewBackup_effect s now now' r) as He.
  destruct (createNewBackup s now now' r) as [s' [[]|e|]]; [| |done].
  - destruct He as (b & h & Hh & Hb & Hi & _). exists b, h. split; [done|]. split; [|split].
    + intros t t' Ht Ht'. pose proof (FetchBackup_answers s' t h) as Hf.
      pose proof (FetchLatestBackup_answers s' t t' (pair_of b) ltac:(lia)) as Hl.
      destruct (FetchBackup s' t h) as [? out], (FetchLatestBackup s' t t' (pair_of b)) as [? out'].
      destruct Hf as [Hf _], Hl as [Hl _]. unfold latest in Hl.
      rewrite (proj1 Hb) in Hf by lia. rewrite (proj1 Hi), (proj1 Hb) in Hl by lia.
      split; by apply answers_gets.
    + intros t p Ht Hp Hp' Hne. apply Hi; [done|]. intros Heq. apply Hne. by apply toKey_inj.
    + intros t h' Ht Hh' Hh'' Hne. apply Hb; [done|]. intros Heq. apply Hne. by apply hash_key_inj.
  - destruct He as [He|(b & h & Hh & Hc & Hs)]; [by left|right]. exists b, h. split_and!; [done..|].
    intros p t t' Ht Ht'. destruct Hs as [[Hi Hb]|[Hb Hi]].
    + eapply (latest_after s s' now now'); [exact Hb|left; by rewrite Hi|lia|lia].
    + eapply (latest_after s s' now now'); [by right|destruct Hi as [Hi|Hi]; [by left|by right]|lia|lia].
Qed.
End StoreFacts.
(** ** Asking for the backups of all keys *)

Section InitiateFacts.
Context `{RedisLib, !RedisLaws, Queue.NameLib, !Queue.NameLaws, !Json Action, !Json Queue.ActionSubmissionID}.
Context `{!JsonLaws Action, !JsonLaws Queue.ActionSubmissionID, !Json Queue.DirectInstruction, OpLib, BackupLib}.
Import Queue(ActionSubmissionID, mkSubmissionID, ActionID, client, actionTTL, queues_of, upd, body, String_).

(** The identifier under which a job's action is queued. *)
Definition job_id (j : Job) (id : ActionSubmissionID) : Prop :=
  exists h, j_id j = Ok h /\ id = mkSubmissionID h Submit 0.

Lemma teeBackupAction_id p h a :
  teeBackupAction p h = Ok a -> h = Ok (ad_ID (action_Data a)) /\ ad_SubmissionTag (action_Data a) = Submit.
Proof.
  unfold teeBackupAction, Queue.PrepareDirectAction, Queue.DirectInstructionToAction.
  destruct (wrap (json_IDPair p)); cbn; [|done..]. destruct h as [h| |]; cbn; [|done..].
  destruct (json_Marshal _); cbn; [|done..]. by intros [= <-].
Qed.

Lemma Enqueue_actionTTL q now a k : actionTTL (Queue.Enqueue q now a k).1 = actionTTL q.
Proof.
  unfold Queue.Enqueue. destruct (Queue.queueByID k) as [p|e|]; [|done..].
  destruct (RedisStorage.SetWithTTL _ _ _ _ _ _) as [r [?|e|]]; [|done..].
  destruct (RedisStorage.Enqueue _ _ _) as [r' [?|e|]]; [|done..].
  by destruct (RedisStorage.QueueLength _ _).
Qed.

(** What one job does to the queues. *)
Lemma initiateBackup_effect q now p h qs :
  queues_of (client q) qs ->
  let '(q', out) := initiateBackup q now p h in
  actionTTL q' = actionTTL q /\
  match out with
  | Ok _ => exists a, teeBackupAction p h = Ok a /\
      let id := mkSubmissionID (ad_ID (action_Data a)) Submit 0 in
      h = Ok (ActionID id) /\
      queues_of (client q') (upd qs Queue.Backup (qs Queue.Backup ++ [id])) /\
      (forall t, actionTTL q = 0 \/ t < now + actionTTL q -> body q' t id = Some a) /\
      (forall t id', String_ id' <> String_ id -> body q' t id' = body q t id')
  | Fail _ =>
      queues_of (client q') qs \/ exists i, h = Ok i /\
        queues_of (client q') (upd qs Queue.Backup (qs Queue.Backup ++ [mkSubmissionID i Submit 0]))
  | Panic => teeBackupAction p h = Panic
  end.
Proof.
  intros Hq. unfold initiateBackup. destruct (teeBackupAction p h) as [a|e|] eqn:Ha; [|by split; [|left]|done].
  apply teeBackupAction_id in Ha as [Hid Htag].
  pose proof (Queue.Enqueue_meets_spec q now a Queue.Backup qs Hq) as He.
  pose proof (Enqueue_actionTTL q now a Queue.Backup) as Httl. unfold Queue.Enqueue_spec in He.
  destruct (Queue.Enqueue q now a Queue.Backup) as [q' [[]|e|]]; cbn [fst] in Httl; [| |done];
    rewrite Htag in He; (split; [done|]).
  - exists a. split; [done|]. split; [done|]. apply He.
  - destruct He as [_ [He|He]]; [by left|right]. eauto.
Qed.

(** What is on the queue when the jobs have run. *)
Definition queued_ids (q' : Queue.ActionQueues) qs (ids : list ActionSubmissionID) : Prop :=
  queues_of (client q') (upd qs Queue.Backup (qs Queue.Backup ++ ids)).

Lemma queued_ids_step q' qs ids0 ids :
  queued_ids q' (upd qs Queue.Backup (qs Queue.Backup ++ ids0)) ids -> queued_ids q' qs (ids0 ++ ids).
Proof. unfold queued_ids. rewrite Queue.upd_eq, <- app_assoc. apply Queue.upd_upd. Qed.
Lemma queued_ids_nil q qs : queues_of (client q) qs -> queued_ids q qs [].
Proof. apply Queue.upd_self. by rewrite app_nil_r. Qed.

(** The action of a job can be delivered until its time to live has passed. *)
Definition deliverable (q' : Queue.ActionQueues) (ttl : Z) (j : Job) : Prop :=
  exists a i, teeBackupAction (j_key j) (j_id j) = Ok a /\ j_id j = Ok i /\
    forall t, ttl = 0 \/ t < j_now j + ttl -> body q' t (mkSubmissionID i Submit 0) = Some a.

Lemma run_jobs_effect jobs : forall q first qs,
  queues_of (client q) qs -> NoDup (map j_id jobs) ->
  match run_jobs q jobs first with
  | (q', Ok _) => first = None /\ Forall (deliverable q' (actionTTL q)) jobs /\
      (exists ids, Forall2 job_id jobs ids /\ queued_ids q' qs ids) /\
      (forall t id, Ok (ActionID id) ∉ map j_id jobs -> body q' t id = body q t id)
  | (q', Fail _) => exists js ids, js `sublist_of` jobs /\ Forall2 job_id js ids /\ queued_ids q' qs ids
  | (_, Panic) => exists j, j ∈ jobs /\ teeBackupAction (j_key j) (j_id j) = Panic
  end.
Proof.
  induction jobs as [|j jobs IH]; intros q first qs Hq Hnd; cbn [run_jobs].
  - destruct first as [e|].
    + exists [], []. split; [done|]. split; [constructor|by apply queued_ids_nil].
    + split; [done|]. split; [constructor|]. split; [|done]. exists []. split; [constructor|by apply queued_ids_nil].
  - apply NoDup_cons in Hnd as [Hj Hnd].
    pose proof (initiateBackup_effect q (j_now j) (j_key j) (j_id j) qs Hq) as Hi.
    destruct (initiateBackup q (j_now j) (j_key j) (j_id j)) as [q1 out]. destruct Hi as [Httl Hi].
    destruct out as [[]|e|]; [| |by exists j; split; [left|]].
    + destruct Hi as (a & Ha & Hid & Hq1 & Hbody & Hother). specialize (IH q1 first _ Hq1 Hnd).
      rewrite Httl in IH. set (id := mkSubmissionID _ Submit 0) in *.
      destruct (run_jobs q1 jobs first) as [q' [[]|e|]].
      * destruct IH as (Hf & Hd & (ids & Hids & Hqs) & Hrest).
        split; [done|]. split; [constructor; [|done]|split].
        -- exists a, (ActionID id). split; [done|]. split; [done|]. intros t Ht.
           change (body q' t id = Some a). rewrite (Hrest t id) by by rewrite <- Hid. by apply Hbody.
        -- exists (id :: ids). split; [|by apply (queued_ids_step _ _ [id])]. constructor; [|done]. by eexists.
        -- intros t id' [Hne Hni]%not_elem_of_cons. rewrite Hrest by done. apply Hother.
           intros [Heq _]%Queue.String_inj. apply Hne. by rewrite Hid, Heq.
      * destruct IH as (js & ids & Hsub & Hids & Hqs). exists (j :: js), (id :: ids).
        split; [by apply sublist_skip|]. split; [constructor; [by eexists|done]|by apply (queued_ids_step _ _ [id])].
      * destruct IH as (j' & ? & ?). exists j'. split; [by right|done].
    + set (f := match first with Some _ => _ | None => _ end).
      assert (Hf : f <> None) by by subst f; destruct first.
      assert (Hcases : exists js ids, js `sublist_of` [j] /\ Forall2 job_id js ids /\ queued_ids q1 qs ids).
      { destruct Hi as [Hi|(i & Hi & Hq1)].
        - exists [], []. split; [apply sublist_nil_l|]. split; [constructor|by apply queued_ids_nil].
        - exists [j], [mkSubmissionID i Submit 0]. split; [done|]. split; [|done].
          constructor; [by exists i|constructor]. }
      destruct Hcases as (js0 & ids0 & Hs0 & Hi0 & Hq0). specialize (IH q1 f _ Hq0 Hnd).
      destruct (run_jobs q1 jobs f) as [q' [[]|e'|]]; [by destruct IH|..].
      * destruct IH as (js & ids & Hsub & Hids & Hqs). exists (js0 ++ js), (ids0 ++ ids).
        split; [by apply (sublist_app _ [j])|]. split; [by apply Forall2_app|].
        by apply queued_ids_step.
      * destruct IH as (j' & ? & ?). exists j'. split; [by right|done].
Qed.

(** Asking for the backups of all keys.  The goroutines of [InitiateBackups] get
    to the queue in any order, each with a fresh identifier.  When it returns without
    an error, the backup queue has grown by exactly one submission per key of the
    cache, in that order, the other queues are as before, and until its time to live
    has passed each submission's body is the backup request of its key.  When it
    returns an error, the queue has still grown only by submissions of distinct keys of
    the cache. *)
Theorem InitiateBackups_one_per_key c q spawn qs :
  queues_of (client q) qs ->
  (forall ids, map j_key (spawn ids) ≡ₚ ids) ->
  (forall ids, NoDup (map j_id (spawn ids))) ->
  let keys := (map_to_list (Wallets.Keys c)).*1 in
  match InitiateBackups c q spawn with
  | (q', Ok _) => exists jobs, map j_key jobs ≡ₚ keys /\ Forall (deliverable q' (actionTTL q)) jobs /\
      exists ids, Forall2 job_id jobs ids /\
        queues_of (client q') (upd qs Queue.Backup (qs Queue.Backup ++ ids))
  | (q', Fail _) => exists jobs ids, NoDup (map j_key jobs) /\ (forall j, j ∈ jobs -> j_key j ∈ keys) /\
      Forall2 job_id jobs ids /\ queues_of (client q') (upd qs Queue.Backup (qs Queue.Backup ++ ids))
  | (_, Panic) => exists p id, teeBackupAction p id = Panic
  end.
Proof.
  intros Hq Hkeys Hids keys. unfold InitiateBackups. fold keys.
  pose proof (run_jobs_effect (spawn keys) q None qs Hq (Hids keys)) as Hr.
  destruct (run_jobs q (spawn keys) None) as [q' [[]|e|]].
  - destruct Hr as (_ & Hd & (ids & Hi & Hqs) & _). exists (spawn keys). split; [done|]. split; [done|]. by exists ids.
  - destruct Hr as (js & ids & Hsub & Hi & Hqs). exists js, ids. split_and!; [..|done|done].
    + eapply sublist_NoDup; [|by apply (fmap_sublist j_key)]. change (NoDup (map j_key (spawn keys))). rewrite Hkeys. apply NoDup_fst_map_to_list.
    + intros j Hj. rewrite <- (Hkeys keys). apply list_elem_of_fmap. exists j. split; [done|].
      by eapply elem_of_submseteq, sublist_submseteq.
  - destruct Hr as (j & _ & Hp). eauto.
Qed.
End InitiateFacts.
(** ** No operation panics *)

Section NoPanic.
Context {WI WB : Type} `{BackupLib, StorageI WI Hash, !StorageLaws WI Hash, StorageI WB TEEBackupResponse,
  !StorageLaws WB TEEBackupResponse}.
Context `{!Json (option TEEBackupResponse), RedisLib, !RedisLaws, Queue.NameLib, !Json Action, !JsonLaws Action}.
Context `{!Json Queue.ActionSubmissionID, !JsonLaws Queue.ActionSubmissionID, !Json Queue.DirectInstruction, OpLib}.
Context `{!BackupLaws}.

Lemma createNewBackup_no_panic (s : @Stores WI WB) now now' r : (createNewBackup s now now' r).2 <> Panic.
Proof.
  unfold createNewBackup. pose proof (json_Backup_no_panic (ar_Data r)) as Hj.
  destruct (json_Unmarshal (ar_Data r) : res (option TEEBackupResponse)) as [[b|]|e|]; [|done..].
  pose proof (BackupID_Hash_no_panic (b_BackupID b)) as Hh. destruct (BackupID_Hash (b_BackupID b)) as [h|e|]; [|done..].
  pose proof (st_SetWithTTL_law (backups s) now (hash_key h) b (backupTTL s)) as Hb.
  destruct (st_SetWithTTL (backups s) _ _ _ _) as [w [[]|e|]]; [|done..].
  cbn [index set_backups backupTTL].
  pose proof (st_SetWithTTL_law (index s) now' (toKey (pair_of b)) h (backupTTL s)) as Hi.
  by destruct (st_SetWithTTL (index _) _ _ _ _) as [w' [[]|e|]].
Qed.

Lemma teeBackupAction_no_panic p id : id <> Panic -> teeBackupAction p id <> Panic.
Proof.
  intros Hid. unfold teeBackupAction, Queue.PrepareDirectAction, Queue.DirectInstructionToAction.
  pose proof (json_IDPair_no_panic p) as Hp. destruct (json_IDPair p) as [msg|e|]; cbn; [|done..].
  destruct id as [h|e|]; cbn; [|done..].
  pose proof (json_Direct_no_panic (Queue.mkDirect (optype_Hash GetType) (command_Hash TEEBackup) msg)) as Hd.
  by destruct (json_Marshal _) as [dim|e|].
Qed.

Lemma initiateBackup_no_panic q now p id : id <> Panic -> (initiateBackup q now p id).2 <> Panic.
Proof.
  intros Hid%(teeBackupAction_no_panic p). unfold initiateBackup. destruct (teeBackupAction p id) as [a|e|]; [|done..].
  pose proof (Queue.Enqueue_no_panic q now a Queue.Backup) as He.
  by destruct (Queue.Enqueue q now a Queue.Backup) as [q' [[]|e|]].
Qed.
End NoPanic.
(** ** Concrete stores *)

Module DemoBackups.
Import DemoRedis Queue.DemoQueue RedisImplements.

#[export] Instance index_store : StorageI redis Hash := redis_storage "BackupIndex".
#[export] Instance index_laws : StorageLaws redis Hash := redis_storage_laws "BackupIndex".

#[export] Instance BackupID_eq_dec : EqDecision BackupID.
Proof. solve_decision. Defined.
#[export] Instance backup_eq_dec : EqDecision TEEBackupResponse.
Proof. solve_decision. Defined.
#[export] Instance backup_countable : Countable TEEBackupResponse.
Proof.
  refine (inj_countable' (fun b => (bid_WalletID (b_BackupID b), bid_KeyID (b_BackupID b), bid_rest (b_BackupID b), b_rest b))
    (fun '(w, k, r, x) => mkBackup (mkBackupID w k r) x) _).
  by intros [[] ?].
Defined.
#[export] Instance body_store : StorageI redis TEEBackupResponse := redis_storage "Backup".
#[export] Instance body_laws : StorageLaws redis TEEBackupResponse := redis_storage_laws "Backup".

(** A backup is identified by its wallet, and an empty rest makes a backup of the first
    bytes of its encoding. *)
#[export] Instance backup_lib : BackupLib := {|
  BackupID_Hash b := Ok (bid_WalletID b * 256 + Z.to_N (bid_KeyID b))%N;
  json_IDPair p := Ok [byte_of (Z.of_N (WalletID p)); byte_of (KeyID p)]
|}.
#[export] Instance backup_json : Json (option TEEBackupResponse) := {|
  json_Marshal o := Ok [];
  json_Unmarshal d := match d with
    | [w; k; x] => Ok (Some (mkBackup (mkBackupID (Byte.to_N w) (Z.of_N (Byte.to_N k)) []) [x]))
    | [] => Ok None
    | _ => Fail (errorf [])
    end
|}.
#[export] Instance instruction_json : Json Queue.DirectInstruction :=
  {| json_Marshal i := Ok (Queue.di_Message i); json_Unmarshal b := Fail (errorf []) |}.
#[export] Instance op_lib : OpLib := Types.Demo.op_lib.
#[export] Instance backup_laws : BackupLaws.
Proof. split; try done. by intros [|? [|? [|? [|? ?]]]]. Qed.

Definition empty_stores : @Stores redis redis := mkStores (mkServer ∅ ∅ : redis) (mkServer ∅ ∅ : redis) 1000 0.
Definition reply (d : bytes) : ActionResult := Results.mkResult 1 Submit 1 0%N 0%N d.
Definition b1 : TEEBackupResponse := mkBackup (mkBackupID 5 1 []) [Byte.x07].

(** The backup of key 1 of wallet 5 is created at 10 and fetched at 900. *)
Lemma createNewBackup_roundtrip_witness :
  let s' := (createNewBackup empty_stores 10 11 (reply [Byte.x05; Byte.x01; Byte.x07])).1 in
  gets (FetchLatestBackup s' 900 901 (mkIDPair 5 1)).2 b1 /\
  (FetchLatestBackup s' 900 901 (mkIDPair 5 1)).2 = Ok b1.
Proof.
  intros s'. split; [|vm_compute; reflexivity].
  pose proof (createNewBackup_roundtrip empty_stores 10 11 (reply [Byte.x05; Byte.x01; Byte.x07]) ltac:(lia)) as Hc.
  assert (Hok : is_ok (createNewBackup empty_stores 10 11 (reply [Byte.x05; Byte.x01; Byte.x07])).2 = true)
    by (vm_compute; reflexivity).
  subst s'. destruct (createNewBackup empty_stores 10 11 _) as [s' [[]|e|]]; [|discriminate Hok..].
  destruct Hc as (b & h & [Hb _] & Hf & _). cbn in Hb. injection Hb as <-.
  apply (Hf 900 901); cbn; lia.
Defined.

Definition data_of (p : IDPair) : KeyData :=
  Wallets.mkKeyData (Wallets.mkKeyExistence 1 (WalletID p) (KeyID p) 0 0 [] None false
    (Wallets.mkConfigConstants [] 0 [] 1) 0 []) (Wallets.mkSignedProof [] []).
Definition two_keys : Wallets.Cache :=
  Wallets.mkCache ∅ (<[mkIDPair 5 1 := data_of (mkIDPair 5 1)]> (<[mkIDPair 6 1 := data_of (mkIDPair 6 1)]> ∅)).

(** The last key first, the identifiers counted up. *)
Fixpoint number (n : N) (ids : list IDPair) : list Job :=
  match ids with
  | [] => []
  | p :: ids => mkJob p 0 (Ok n) :: number (N.succ n) ids
  end.
Definition spawn (ids : list IDPair) : list Job := number 0 (reverse ids).

Lemma number_keys n ids : map j_key (number n ids) = ids.
Proof. revert n. induction ids as [|p ids IH]; intros n; cbn; [done|]. by rewrite IH. Qed.
Lemma number_ids n ids : Forall (fun r => exists m, r = Ok m /\ (n <= m)%N) (map j_id (number n ids)).
Proof.
  revert n. induction ids as [|p ids IH]; intros n; cbn; constructor; [by exists n|].
  eapply Forall_impl; [apply IH|]. intros r (m & -> & Hm). exists m. split; [done|lia].
Qed.
Lemma number_NoDup n ids : NoDup (map j_id (number n ids)).
Proof.
  revert n. induction ids as [|p ids IH]; intros n; cbn; constructor; [|apply IH].
  intros Hin. pose proof (number_ids (N.succ n) ids) as Hall. rewrite Forall_forall in Hall.
  destruct (Hall _ Hin) as (m & [= <-] & Hm). lia.
Qed.
Lemma spawn_keys ids : map j_key (spawn ids) ≡ₚ ids.
Proof. unfold spawn. rewrite number_keys. apply reverse_Permutation. Qed.
Lemma spawn_ids ids : NoDup (map j_id (spawn ids)).
Proof. apply number_NoDup. Qed.

Lemma InitiateBackups_one_per_key_witness :
  exists q' ids, InitiateBackups two_keys empty spawn = (q', Ok tt) /\ length ids = 2%nat /\
    Queue.queues_of (Queue.client q') (Queue.upd (fun _ => []) Queue.Backup ids).
Proof.
  pose proof (InitiateBackups_one_per_key two_keys empty spawn (fun _ => []) empty_queues spawn_keys spawn_ids) as Hi.
  assert (Hok : is_ok (InitiateBackups two_keys empty spawn).2 = true) by (vm_compute; reflexivity).
  destruct (InitiateBackups two_keys empty spawn) as [q' [[]|e|]]; [|discriminate Hok..].
  destruct Hi as (jobs & Hj & _ & ids & Hids & Hq). exists q', ids. split; [reflexivity|]. split; [|exact Hq].
  rewrite <- (Forall2_length _ _ _ Hids). rewrite <- (length_map j_key), Hj. vm_compute. reflexivity.
Defined.
End DemoBackups.
End Backups.
