(* ===== verification/WalletLoop.v ===== *)
(** The event loop of the wallet service ([RunUpdateInfo] in
    [internal/service/wallets/wallets.go]) between the result service that feeds its
    channels and the goroutines it starts: the synchronisation, the backups of added
    keys and the periodic trigger. *)

From S2P Require Import Prelude Status Types Redis Queue Results Wallets Backups.

Open Scope Z_scope.

Module WalletLoop.
Import Results(ActionResult, ActionResponse, KeyActions, BackupTrigger).
Import Wallets(IDPair, WalletEvent, NodeWait, WalletSyncObserved, WalletKeyUpdateFailed, Cache, Keys, cache, aq,
  syncing, wevents, phase, Idle, Fetching, Crashed).
Import Backups(TEEBackupResponse, Job, j_key, j_now, j_id, failures).

(** ** The system *)

(** Where the loop is: at its select, in [InitiateBackups] with the keys whose
    goroutines have not got to the queue, or at its end. *)
Inductive place : Type :=
| Selecting
| Rolling (todo : list IDPair)
| Exited.

(** What a step is; a backup goroutine's says whether it ended without an error. *)
Inductive label : Type :=
| Tick                            (* the loop takes a synchronisation trigger *)
| Key                             (* ... a key action *)
| Backup                          (* ... a backup result *)
| Rollover                        (* ... a backup trigger *)
| Rolled (p : IDPair) (ok : bool) (* a goroutine of [InitiateBackups] *)
| Finished                        (* [eg.Wait] returns *)
| Exit
| Backed (p : IDPair) (ok : bool) (* the goroutine for the backup of an added key *)
| Respond                         (* the result service handles a response of the node *)
| Silent.

Definition by_loop (l : label) : bool :=
  match l with Tick | Key | Backup | Rollover | Rolled _ _ | Finished => true | _ => false end.

Section Loop.
Context {W WI WB : Type} `{StorageI W ActionResponse, StorageI WI Hash, StorageI WB TEEBackupResponse}.
Context `{!Json (option TEEBackupResponse), RedisLib, Queue.NameLib, !Json Action}.
Context `{!Json Queue.ActionSubmissionID, !Json Queue.DirectInstruction}.
Context `{OpLib, Results.SignerLib, Wallets.WalletLib, Backups.BackupLib}.

(** The result service holds the channels it sends to; [trigger] is the channel of
    capacity one of [PeriodicWalletsSyncTrigger], which is [sending] or waiting for its
    ticker; [syncs] are the goroutines of [triggerSync], and [jobs] those for the backups
    of added keys. *)
Record Sys : Type := mkSys {
  results : @Results.Service W;
  service : Wallets.Service;
  syncs : list phase;
  stores : @Backups.Stores WI WB;
  trigger : list bool;
  sending : bool;
  jobs : list IDPair;
  loop : place;
  cancelled : bool
}.
Implicit Types x y z : Sys.

Definition set_results x v : Sys :=
  mkSys v (service x) (syncs x) (stores x) (trigger x) (sending x) (jobs x) (loop x) (cancelled x).
Definition set_service x (v : Wallets.Service * list phase) : Sys :=
  mkSys (results x) v.1 v.2 (stores x) (trigger x) (sending x) (jobs x) (loop x) (cancelled x).
Definition set_stores x v : Sys :=
  mkSys (results x) (service x) (syncs x) v (trigger x) (sending x) (jobs x) (loop x) (cancelled x).
Definition set_trigger x v b : Sys :=
  mkSys (results x) (service x) (syncs x) (stores x) v b (jobs x) (loop x) (cancelled x).
Definition set_jobs x v : Sys :=
  mkSys (results x) (service x) (syncs x) (stores x) (trigger x) (sending x) v (loop x) (cancelled x).
Definition set_loop x v : Sys :=
  mkSys (results x) (service x) (syncs x) (stores x) (trigger x) (sending x) (jobs x) v (cancelled x).
Definition cancel x : Sys :=
  mkSys (results x) (service x) (syncs x) (stores x) (trigger x) (sending x) (jobs x) (loop x) true.

Definition set_queue x q : Sys := set_service x (Wallets.set_aq (service x) q, syncs x).

(** The channels after a receive. *)
Definition set_channels (sv : @Results.Service W) ka bk bt : @Results.Service W :=
  Results.mkService (Results.rs sv) ka bk bt (Results.teeID sv) (Results.chainID sv)
    (Results.lastStorageErr sv) (Results.revents sv).
Definition take_key x rest : Sys :=
  set_results x (set_channels (results x) rest (Results.Backups (results x)) (BackupTrigger (results x))).
Definition take_backup x rest : Sys :=
  set_results x (set_channels (results x) (KeyActions (results x)) rest (BackupTrigger (results x))).
Definition take_rollover x rest : Sys :=
  set_results x (set_channels (results x) (KeyActions (results x)) (Results.Backups (results x)) rest).

(** A goroutine with the job [j], which logs an error. *)
Definition run_job x (j : Job) : stateful Sys unit :=
  let '(q, out) := Backups.initiateBackup (aq (service x)) (j_now j) (j_key j) (j_id j) in
  (set_queue x q, out).

(** The goroutine of the periodic trigger sends when there is room in the channel, and
    then waits for its ticker. *)
Inductive PeriodicWalletsSyncTrigger : list bool * bool -> list bool * bool -> Prop :=
| p_send c : zlen c < 1 -> PeriodicWalletsSyncTrigger (c, true) (c ++ [true], false)
| p_ticker c : PeriodicWalletsSyncTrigger (c, false) (c, true).

(** One step of the loop, of a goroutine, of the node's responses, or of the rest of the
    proxy, which uses the queues and the stores.  The select of the loop takes any channel
    that is ready. *)
Inductive move : label -> Sys -> Sys -> Prop :=
| l_exit x : loop x = Selecting -> cancelled x = true -> move Exit x (set_loop x Exited)
| l_tick x b rest : loop x = Selecting -> trigger x = b :: rest ->
    move Tick x (set_service (set_trigger x rest (sending x)) (Wallets.triggerSync (service x) (syncs x)))
| l_key x a rest s o : loop x = Selecting -> KeyActions (results x) = a :: rest ->
    Wallets.apply_key_action (service x) a = (s, Ok o) ->
    move Key x (set_jobs (set_service (take_key x rest) (s, syncs x)) (jobs x ++ option_list o))
| l_backup x r rest now now' st out : loop x = Selecting -> Results.Backups (results x) = r :: rest ->
    now <= now' -> Backups.createNewBackup (stores x) now now' r = (st, out) -> out <> Panic ->
    move Backup x (set_stores (take_backup x rest) st)
| l_rollover x b rest : loop x = Selecting -> BackupTrigger (results x) = b :: rest ->
    let ids := (map_to_list (Keys (cache (service x)))).*1 in
    move Rollover x (set_loop (take_rollover x rest) (Rolling ids))
| l_rolled x y j todo todo' out : loop x = Rolling todo -> todo ≡ₚ j_key j :: todo' ->
    run_job x j = (y, out) -> out <> Panic -> move (Rolled (j_key j) (is_ok out)) x (set_loop y (Rolling todo'))
| l_finished x : loop x = Rolling [] -> move Finished x (set_loop x Selecting)
| l_backed x y j js out : jobs x ≡ₚ j_key j :: js -> run_job x j = (y, out) -> out <> Panic ->
    move (Backed (j_key j) (is_ok out)) x (set_jobs y js)
| l_sync x i p s' p' : syncs x !! i = Some p -> Wallets.sync_step (service x, p) (s', p') ->
    move Silent x (set_service x (s', Wallets.advance i p' (syncs x)))
| l_periodic x v : PeriodicWalletsSyncTrigger (trigger x, sending x) v -> move Silent x (set_trigger x v.1 v.2)
| l_respond x now r sv out : Results.ProcessAndStore (results x) now r = (sv, out) -> out <> Panic ->
    move Respond x (set_results x sv)
| l_queue x q : move Silent x (set_queue x q)
| l_stores x wi wb : move Silent x (set_stores x (Backups.set_index (Backups.set_backups (stores x) wb) wi))
| l_cancel x : move Silent x (cancel x).

(** A panic ends the process: one in the loop or in a backup's goroutine has no step, and
    after one in a synchronisation nothing has. *)
Definition step (l : label) x y : Prop := Wallets.running (syncs x) /\ move l x y.

(** A run, with what each step was and the states before and after it. *)
Record event : Type := mkEvent { before : Sys; act : label; after : Sys }.

Inductive run : Sys -> list event -> Sys -> Prop :=
| run_refl x : run x [] x
| run_snoc x tr y l z : run x tr y -> step l y z -> run x (tr ++ [mkEvent y l z]) z.

(** What [Run] of the proxy starts: nothing has been sent or started. *)
Record initial x : Prop := {
  in_channels : KeyActions (results x) = [];
  in_service : service x = Wallets.NewService (aq (service x));
  in_syncs : syncs x = [];
  in_failures : failures (stores x) = 0;
  in_jobs : jobs x = [];
  in_loop : loop x = Selecting
}.

(** ** Refinement of the steps on the caches *)

(** Every step is one of [Wallets.wnext] on the caches, the flag and the goroutines, or
    leaves them alone. *)
Lemma step_refines l x y :
  step l x y -> rtc Wallets.wnext (service x, syncs x) (service y, syncs y).
Proof.
  intros [Hrun Hm].
  assert (Hone : forall s' ps' l', Wallets.wmove l' (service x, syncs x) (s', ps') ->
    rtc Wallets.wnext (service x, syncs x) (s', ps')).
  { intros s' ps' l' Hw. apply rtc_once. split; [exact Hrun|by exists l']. }
  assert (Hjob : forall j z out, run_job x j = (z, out) ->
    rtc Wallets.wnext (service x, syncs x) (service z, syncs z)).
  { intros j z out. unfold run_job. destruct (Backups.initiateBackup _ _ _ _) as [q o].
    intros [= <- _]. eapply Hone, Wallets.w_queue. }
  destruct Hm as [ |x b rest|x a rest s o _ _ Ha| | |x z j t t' out _ _ Hj _| |x z j js out _ Hj _|x i p s' p' Hi Hs| | |x q| |];
    try apply rtc_refl; cbn.
  - destruct (Wallets.triggerSync _ _) eqn:Ht. cbn. rewrite <- Ht. apply rtc_once.
    split; [exact Hrun|]. eexists. apply Wallets.w_trigger.
  - by eapply Hone, Wallets.w_update.
  - by eapply Hjob.
  - by eapply Hjob.
  - by eapply Hone, Wallets.w_sync.
  - eapply Hone, Wallets.w_queue.
Qed.

(** ** The account of a run *)

(** What each step contributes, read off the states: the key actions the result service
    sends, those the loop takes from the channel, the backup results it takes, the
    goroutines that have run, and the keys cached at a rollover. *)
Definition sends (e : event) : list ActionResult :=
  match act e with
  | Respond => drop (length (KeyActions (results (before e)))) (KeyActions (results (after e)))
  | _ => []
  end.
Definition takes_key (e : event) : list ActionResult :=
  match act e with Key => option_list (head (KeyActions (results (before e)))) | _ => [] end.
Definition takes_backup (e : event) : list ActionResult :=
  match act e with Backup => option_list (head (Results.Backups (results (before e)))) | _ => [] end.
Definition backs (e : event) : list IDPair := match act e with Backed p _ => [p] | _ => [] end.
Definition rolls (e : event) : list IDPair := match act e with Rolled p _ => [p] | _ => [] end.
Definition cached_keys (e : event) : list IDPair :=
  match act e with Rollover => (map_to_list (Keys (cache (service (before e))))).*1 | _ => [] end.
(** A trigger that finds the flag at [flag]. *)
Definition tick_at (flag : bool) (e : event) : bool :=
  match act e with Tick => Bool.eqb (syncing (service (before e))) flag | _ => false end.

Definition all_of {A} (f : event -> list A) (tr : list event) : list A := concat (f <$> tr).

Lemma all_of_snoc {A} (f : event -> list A) tr e : all_of f (tr ++ [e]) = all_of f tr ++ f e.
Proof. unfold all_of. by rewrite fmap_app, concat_app; cbn; rewrite app_nil_r. Qed.

Import Wallets(added, fails).

(** A backup result that does not hold a backup. *)
Definition no_backup (r : ActionResult) : bool :=
  match (json_Unmarshal (Results.ar_Data r) : res (option TEEBackupResponse)) with
  | Ok (Some b) => match Backups.BackupID_Hash (Backups.b_BackupID b) with Fail _ => true | _ => false end
  | Ok None | Fail _ => true
  | Panic => false
  end.

Definition is_failed (e : WalletEvent) : bool := match e with WalletKeyUpdateFailed => true | _ => false end.
Definition is_outcome (o : string) (e : WalletEvent) : bool :=
  match e with WalletSyncObserved o' => bool_decide (o' = o) | _ => false end.

Definition todo x : list IDPair := match loop x with Rolling t => t | _ => [] end.

(** The request of a backup of the key [p], under the identifier [i]. *)
Definition backup_request (p : IDPair) (i : Hash) (a : Action) : Prop :=
  exists msg dim, Backups.json_IDPair p = Ok msg /\
    json_Marshal (Queue.mkDirect (optype_Hash GetType) (command_Hash TEEBackup) msg) = Ok dim /\
    a = mkAction (mkActionData i DirectAction Submit dim) [] [] [] [].

(** What a backup's goroutine does to the queues: without an error the backup queue has
    grown by the request for its key, which can be fetched until its time to live has
    passed; with an error it may have grown by it. *)
Definition asks_backup (p : IDPair) (ok : bool) (q q' : Queue.ActionQueues) : Prop :=
  forall qs, Queue.queues_of (Queue.client q) qs ->
  let grown i := Queue.queues_of (Queue.client q')
    (Queue.upd qs Queue.Backup (qs Queue.Backup ++ [Queue.mkSubmissionID i Submit 0])) in
  if ok then exists i a now, backup_request p i a /\ grown i /\
    forall t, Queue.actionTTL q = 0 \/ t < now + Queue.actionTTL q ->
      Queue.body q' t (Queue.mkSubmissionID i Submit 0) = Some a
  else Queue.queues_of (Queue.client q') qs \/ exists i, grown i.

Definition queues_backups (e : event) : Prop :=
  match act e with
  | Rolled p ok | Backed p ok => asks_backup p ok (aq (service (before e))) (aq (service (after e)))
  | _ => True
  end.

Record accounts (tr : list event) x : Prop := {
  ac_keys : all_of sends tr = all_of takes_key tr ++ KeyActions (results x);
  ac_failed : tally is_failed (wevents (service x)) = tally fails (all_of takes_key tr);
  ac_jobs : omap added (all_of takes_key tr) ≡ₚ all_of backs tr ++ jobs x;
  ac_rolled : all_of cached_keys tr ≡ₚ all_of rolls tr ++ todo x;
  ac_queued : Forall queues_backups tr;
  ac_skipped : tally (is_outcome "skipped") (wevents (service x)) = tally (tick_at true) tr;
  ac_started : (tally (is_outcome "success") (wevents (service x)) + length (syncs x) <= tally (tick_at false) tr)%nat;
  ac_backups : failures (stores x) = Z.of_nat (tally no_backup (all_of takes_backup tr))
}.

Lemma initial_accounts x : initial x -> accounts [] x.
Proof.
  intros [Hk Hs Hp Hf Hj Hl].
  assert (He : wevents (service x) = []) by by rewrite Hs.
  constructor; unfold todo; rewrite ?Hk, ?He, ?Hf, ?Hj, ?Hl, ?Hp; try reflexivity. constructor.
Qed.

(** The result service only adds to its channels. *)
Lemma hooks_append (sv : @Results.Service W) a : KeyActions sv `prefix_of` KeyActions (Results.trigger_hooks sv a).
Proof. unfold Results.trigger_hooks. repeat case_decide; first [by apply prefix_app_r | reflexivity]. Qed.

Lemma admit_keeps (sv : @Results.Service W) r : KeyActions (Results.admit_response sv r).1 = KeyActions sv.
Proof.
  unfold Results.admit_response. repeat case_decide; try reflexivity.
  destruct (Results.recoverSigner _ _); try reflexivity. by case_decide.
Qed.

Lemma respond_appends (sv : @Results.Service W) now r :
  KeyActions sv `prefix_of` KeyActions (Results.ProcessAndStore sv now r).1.
Proof.
  unfold Results.ProcessAndStore. case_decide; [reflexivity|].
  pose proof (admit_keeps sv r) as Ha. destruct (Results.admit_response sv r) as [sv0 [[]|e|]]; cbn [sbind fst] in *;
    [|by rewrite Ha..].
  rewrite <- Ha. clear Ha sv. set (sv1 := if decide _ then _ else sv0).
  assert (Hsv : KeyActions sv0 `prefix_of` KeyActions sv1).
  { subst sv1. case_decide; [apply hooks_append|reflexivity]. }
  clearbody sv1. destruct (Results.StoreResponse _ _ _) as [w [[]|e|]]; [exact Hsv| |exact Hsv].
  destruct (_ || _); exact Hsv.
Qed.

Lemma respond_sends (sv sv' : @Results.Service W) now r out :
  Results.ProcessAndStore sv now r = (sv', out) ->
  KeyActions sv' = KeyActions sv ++ drop (length (KeyActions sv)) (KeyActions sv').
Proof.
  intros Hp. pose proof (respond_appends sv now r) as [k Hk]. rewrite Hp in Hk. cbn in Hk.
  by rewrite Hk, drop_app_length.
Qed.

(** What the loop does with a key action. *)
Lemma apply_key_action_reports s a s' o :
  Wallets.apply_key_action s a = (s', Ok o) ->
  o = added a /\ wevents s' = wevents s ++ (if fails a then [WalletKeyUpdateFailed] else []).
Proof.
  unfold Wallets.apply_key_action, added, fails.
  pose proof (Wallets.update_outcome (cache s) Wallets.empty_cache a) as Ho.
  destruct (Wallets.update (cache s) a) as [c out]. cbn in Ho. rewrite <- Ho.
  destruct out as [[id []]|e|]; intros [= <- <-]; cbn; by rewrite ?app_nil_r.
Qed.

Lemma createNewBackup_counts (st st' : @Backups.Stores WI WB) now now' r out :
  Backups.createNewBackup st now now' r = (st', out) -> out <> Panic ->
  failures st' = failures st + (if no_backup r then 1 else 0).
Proof.
  unfold Backups.createNewBackup, no_backup.
  destruct (json_Unmarshal (Results.ar_Data r) : res (option TEEBackupResponse)) as [[b|]|e|];
    try (intros [= <- _]; cbn; lia).
  destruct (Backups.BackupID_Hash _) as [h|e|]; try (intros [= <- _]; cbn; lia).
  destruct (st_SetWithTTL (Backups.backups st) _ _ _ _) as [w [[]|e|]]; try (intros [= <- _]; cbn; lia).
  destruct (st_SetWithTTL (Backups.index _) _ _ _ _) as [w' [[]|e|]]; intros [= <- _]; cbn; lia.
Qed.

Lemma quiet_tallies s s' :
  Wallets.reports_quietly s s' ->
  tally is_failed (wevents s') = tally is_failed (wevents s) /\
  forall o, o ∈ ["skipped"; "success"] -> tally (is_outcome o) (wevents s') = tally (is_outcome o) (wevents s).
Proof.
  intros (es & -> & Hq). split; [|intros o Ho]; rewrite tally_app, (tally_none _ es); try lia;
    (eapply Forall_impl; [exact Hq|]); intros [o'| |path err]; cbn; try done.
  intros Ho'. apply bool_decide_eq_false. congruence.
Qed.

Lemma run_job_fields x j y out :
  run_job x j = (y, out) ->
  results y = results x /\ wevents (service y) = wevents (service x) /\ syncs y = syncs x /\
  stores y = stores x /\ jobs y = jobs x /\ loop y = loop x /\ trigger y = trigger x.
Proof. unfold run_job. destruct (Backups.initiateBackup _ _ _ _). by intros [= <- _]. Qed.

Lemma tick_reports s ps :
  let '(s', ps') := Wallets.triggerSync s ps in
  tally is_failed (wevents s') = tally is_failed (wevents s) /\
  tally (is_outcome "success") (wevents s') = tally (is_outcome "success") (wevents s) /\
  tally (is_outcome "skipped") (wevents s') =
    (tally (is_outcome "skipped") (wevents s) + (if syncing s then 1 else 0))%nat /\
  length ps' = (length ps + (if syncing s then 0 else 1))%nat.
Proof.
  unfold Wallets.triggerSync.
  destruct (syncing s); cbn [Wallets.observe Wallets.set_syncing wevents]; rewrite ?tally_app, ?length_app;
    split_and!; try reflexivity; try lia.
  - change (tally is_failed [_]) with 0%nat. lia.
  - change (tally (is_outcome "success") [_]) with 0%nat. lia.
Qed.

Lemma advance_length (ps : list phase) i p p' :
  ps !! i = Some p -> length (Wallets.advance i p' ps) = (length ps - (match p' with Idle => 1 | _ => 0 end))%nat.
Proof.
  intros Hi. unfold Wallets.advance. destruct p'; rewrite ?length_insert, ?Nat.sub_0_r; try done.
  by rewrite length_delete by by exists p.
Qed.

Lemma sync_reports s p s' p' :
  Wallets.sync_step (s, p) (s', p') ->
  tally is_failed (wevents s') = tally is_failed (wevents s) /\
  tally (is_outcome "skipped") (wevents s') = tally (is_outcome "skipped") (wevents s) /\
  p <> Idle /\
  (tally (is_outcome "success") (wevents s') = tally (is_outcome "success") (wevents s) \/
   tally (is_outcome "success") (wevents s') = S (tally (is_outcome "success") (wevents s)) /\ p' = Idle).
Proof.
  intros [Hp Hr]%Wallets.sync_step_reports. cbn [fst snd] in *. destruct Hr as [Hq|[-> ->]].
  - destruct (quiet_tallies _ _ Hq) as [Hf Ho]. rewrite Hf, !Ho by set_solver. auto.
  - rewrite !tally_app. change (tally is_failed [_]) with 0%nat.
    change (tally (is_outcome "skipped") [_]) with 0%nat. change (tally (is_outcome "success") [_]) with 1%nat.
    split_and!; [lia|lia|done|]. right. split; [lia|done].
Qed.

(** What the goroutine of one key does to the queues. *)
Context `{!RedisLaws, !Queue.NameLaws, !JsonLaws Action, !JsonLaws Queue.ActionSubmissionID}.

Lemma teeBackupAction_request p h a :
  Backups.teeBackupAction p h = Ok a -> exists i, h = Ok i /\ backup_request p i a.
Proof.
  unfold Backups.teeBackupAction, Queue.PrepareDirectAction, Queue.DirectInstructionToAction.
  destruct (Backups.json_IDPair p) as [msg| |] eqn:Hm; cbn; [|done..]. destruct h as [h| |]; cbn; [|done..].
  destruct (json_Marshal _) as [dim| |] eqn:Hd; cbn; [|done..]. intros [= <-]. exists h. split; [done|].
  by exists msg, dim.
Qed.

Lemma run_job_asks x j y out :
  run_job x j = (y, out) -> out <> Panic -> asks_backup (j_key j) (is_ok out) (aq (service x)) (aq (service y)).
Proof.
  unfold run_job. intros Hj Hn qs Hq.
  pose proof (Backups.initiateBackup_effect (aq (service x)) (j_now j) (j_key j) (j_id j) qs Hq) as Hi.
  destruct (Backups.initiateBackup _ _ _ _) as [q o]. injection Hj as <- <-. destruct Hi as [_ Hi].
  destruct o as [[]|e|]; cbn [is_ok set_queue set_service service aq Wallets.set_aq fst]; [| |done].
  - destruct Hi as (a & Ha & Hid & Hqs & Hb & _). pose proof (teeBackupAction_request _ _ _ Ha) as (i & Hi & Hreq).
    rewrite Hi in Hid. injection Hid as Hid. rewrite <- Hid in Hqs, Hb. exists i, a, (j_now j). done.
  - destruct Hi as [Hi|(i & _ & Hi)]; [by left|right; by exists i].
Qed.

Lemma tick_tally f x y :
  tally (tick_at f) [mkEvent x Tick y] = if Bool.eqb (syncing (service x)) f then 1%nat else 0%nat.
Proof. cbn. unfold tick_at; cbn. by destruct (Bool.eqb _ _). Qed.

Lemma step_accounts tr l x y : accounts tr x -> step l x y -> accounts (tr ++ [mkEvent x l y]) y.
Proof.
  intros [Ak Af Aj Ar Aq As At Ab] [_ Hstep].
  assert (Hask : queues_backups (mkEvent x l y)).
  { destruct Hstep as [| | | | |x y j t t' out _ _ Hj Hn| |x y j js out _ Hj Hn| | | | | |]; try exact I;
      exact (run_job_asks _ _ _ _ Hj Hn). }
  assert (Aq' : Forall queues_backups (tr ++ [mkEvent x l y])) by (apply Forall_app; split; [done|by constructor]).
  clear Aq Hask.
  destruct Hstep as [x Hl _|x b rest Hl Ht|x a rest s o Hl Hk Ha|x r rest now now' st out Hl Hk _ Hc Hn
    |x b rest Hl Hk|x y j t t' out Hl Hperm Hj _|x Hl|x y j js out Hperm Hj _|x i p s' p' Hi Hs| |x now r sv out Hr _| | |];
    try (unfold todo in Ar; rewrite Hl, ?app_nil_r in Ar);
    try (apply run_job_fields in Hj as (Hjr & Hjw & Hjp & Hjs & Hjj & Hjl & Hjt));
    (constructor; [..|exact Aq'| | |]); clear Aq'; rewrite ?all_of_snoc, ?tally_app; unfold todo in *;
    cbn [sends takes_key takes_backup backs rolls cached_keys act before after];
    cbn [results service syncs stores jobs loop set_results set_service set_stores set_trigger set_jobs set_loop cancel
      set_queue take_key take_backup take_rollover Results.KeyActions set_channels fst snd failures];
    rewrite ?app_nil_r, ?Hjr, ?Hjw, ?Hjp, ?Hjs, ?Hjj, ?Hjl; try rewrite Hl; rewrite ?app_nil_r; try done; try assumption;
    try (change (tally (tick_at _) [_]) with 0%nat; rewrite ?Nat.add_0_r; assumption).
  1-3: pose proof (tick_reports (service x) (syncs x)) as Hr;
    destruct (Wallets.triggerSync _ _) as [s ps]; destruct Hr as (Hf & Hu & Hk & Hlen); cbn [fst snd];
    rewrite ?tick_tally, ?Hf, ?Hu, ?Hk, ?Hlen; change (tally fails []) with 0%nat;
    destruct (syncing (service x)); cbn [Bool.eqb]; lia.
  - by rewrite Ak, Hk, <- app_assoc.
  - apply apply_key_action_reports in Ha as [_ ->]. rewrite tally_app, Af, Hk. cbn. by destruct (fails a).
  - apply apply_key_action_reports in Ha as [-> _]. rewrite omap_app, Aj, Hk, app_assoc. cbn. by destruct (added a).
  - apply apply_key_action_reports in Ha as [_ ->]. rewrite tally_app, As.
    change (tally (tick_at true) [_]) with 0%nat. destruct (fails a); cbn; lia.
  - apply apply_key_action_reports in Ha as [_ ->]. rewrite tally_app.
    change (tally (tick_at false) [_]) with 0%nat. destruct (fails a); cbn; lia.
  - rewrite (createNewBackup_counts _ _ _ _ _ _ Hc Hn), Ab, Hk. cbn. destruct (no_backup r); cbn; lia.
  - by rewrite Ar.
  - by rewrite Ar, Hperm, <- app_assoc.
  - by rewrite Aj, Hperm, <- app_assoc.
  - apply sync_reports in Hs as (-> & _). cbn. lia.
  - apply sync_reports in Hs as (_ & -> & _). change (tally (tick_at true) [_]) with 0%nat. lia.
  - apply sync_reports in Hs as (_ & _ & _ & Hs). change (tally (tick_at false) [_]) with 0%nat.
    rewrite (advance_length _ _ _ _ Hi). apply lookup_lt_Some in Hi.
    destruct Hs as [->|[-> ->]]; [destruct p'; lia|lia].
  - rewrite (respond_sends _ _ _ _ _ Hr), Ak, <- app_assoc. f_equal. by rewrite drop_app_length.
Qed.

Lemma run_accounts x tr y : run x tr y -> accounts [] x -> accounts tr y.
Proof. induction 1; eauto using step_accounts. Qed.

Lemma run_refines x tr y :
  run x tr y -> rtc Wallets.wnext (service x, syncs x) (service y, syncs y).
Proof. induction 1; [apply rtc_refl|]. etrans; [eassumption|]. by eapply step_refines. Qed.

(** C8: in every run of the event loop, next to its goroutines, the node's responses and
    the other users of the queues, every message is accounted for.  The key actions the
    result service sent are those the loop took, in order, and those still in the
    channel; exactly the ones that fail are reported as failed; every added key has
    exactly one goroutine for its backup, done or under way, and so has, at a rollover, each
    key cached at that moment; a goroutine that ends without an error has put the request
    for its key at the end of the backup queue, deliverable for its time to live; every
    trigger that finds a synchronisation under way is reported as skipped, and no more
    synchronisations end with success than were started; and exactly the backup results
    without a backup count as failures. *)
Theorem event_loop_accounts x tr y : initial x -> run x tr y -> accounts tr y.
Proof. intros Hi Hr. eapply run_accounts; [done|]. by apply initial_accounts. Qed.

(** C24: the loop refines the steps of the wallet service on its caches: every run of the
    whole is a run of [Wallets.wnext] from the empty service, so in every reachable state
    the caches are consistent, at most one of the goroutines of [triggerSync] runs, however
    many triggers there were, and the flag is set exactly while one does. *)
Theorem event_loop_refines x tr y :
  initial x -> run x tr y ->
  rtc Wallets.wnext (Wallets.NewService (aq (service x)), []) (service y, syncs y) /\
  Wallets.cache_wf (cache (service y)) /\
  (length (syncs y) <= 1)%nat /\ (syncing (service y) = true <-> syncs y <> []).
Proof.
  intros Hi Hr. pose proof (run_refines _ _ _ Hr) as Hw. rewrite (in_syncs _ Hi), (in_service _ Hi) in Hw.
  split; [exact Hw|]. exact (Wallets.wnexts_inv _ _ Hw (Wallets.start_inv _)).
Qed.

(** ** The loop drains its channels *)

(** The messages in the channels, with the steps that they still cost: a rollover costs
    one per cached key, and a key action may add a key. *)
Definition pending x : nat :=
  (length (trigger x) + length (Results.Backups (results x)) +
   length (KeyActions (results x)) * S (length (BackupTrigger (results x))) +
   length (BackupTrigger (results x)) * S (S (size (Keys (cache (service x))))))%nat.
Definition work x : nat := match loop x with Rolling t => (S (length t) + pending x)%nat | _ => pending x end.

Lemma update_size c a : (size (Keys (Wallets.update c a).1) <= S (size (Keys c)))%nat.
Proof.
  unfold Wallets.update, Wallets.updateOrAddKey, Wallets.removeKey. repeat case_decide; cbn; try lia.
  - destruct (wrap (Wallets.parseNewKeyActionResult a)) as [proof|e|]; cbn; try lia.
    destruct (wrap (Wallets.parseKeyExistenceProof proof)) as [info|e|]; cbn; try lia. rewrite map_size_insert.
    destruct (Keys c !! _); cbn; lia.
  - destruct (wrap (Wallets.parseKeyDeleteActionResult a)) as [p|e|]; cbn; try lia. rewrite map_size_delete.
    destruct (Keys c !! _); cbn; lia.
Qed.

Lemma loop_step_works l x y : by_loop l = true -> step l x y -> (S (work y) <= work x)%nat.
Proof.
  intros Hb [_ Hs]. destruct Hs as [x|x b rest Hl Ht|x a rest s o Hl Hk Ha|x r rest now now' st out Hl Hk _ Hc Hn
    |x b rest Hl Hk|x y j t t' out Hl Hperm Hj _|x Hl|x y j js out|x i p s' p'| |x now r sv out| | |]; try done; unfold work, pending; cbn.
  - rewrite Hl, Ht. unfold Wallets.triggerSync. destruct (syncing _); cbn; lia.
  - rewrite Hl, Hk. cbn.
    assert (Hsz : (size (Keys (cache s)) <= S (size (Keys (cache (service x)))))%nat).
    { pose proof (Wallets.apply_key_action_cache (service x) a) as [Hc _]. rewrite Ha in Hc. cbn in Hc. rewrite Hc.
      apply update_size. }
    nia.
  - rewrite Hl, Hk. cbn. lia.
  - assert (Hlen : length (map_to_list (Keys (cache (service x)))).*1 = size (Keys (cache (service x)))).
    { rewrite length_fmap. apply length_map_to_list. }
    rewrite Hl, Hk. cbn [length]. unfold ids. rewrite Hlen. cbn. lia.
  - pose proof (Permutation_length Hperm) as Hlen. revert Hj. unfold run_job.
    destruct (Backups.initiateBackup _ _ _ _) as [q o]. intros [= <- _]. cbn in *. rewrite Hl. lia.
  - rewrite Hl. cbn. lia.
Qed.

Lemma loop_run_works x tr y :
  run x tr y -> Forall (fun e => by_loop (act e) = true) tr -> (length tr + work y <= work x)%nat.
Proof.
  induction 1 as [|x tr y l z Hr IH Hs]; intros Hb; [done|].
  apply Forall_app in Hb as [Hb Hl]. apply Forall_cons in Hl as [Hl _]. specialize (IH Hb).
  pose proof (loop_step_works _ _ _ Hl Hs). rewrite length_app. cbn. lia.
Qed.
End Loop.

Section Progress.
Context {W WI WB : Type} `{StorageI W ActionResponse, StorageI WI Hash, !StorageLaws WI Hash}.
Context `{StorageI WB TEEBackupResponse, !StorageLaws WB TEEBackupResponse}.
Context `{!Json (option TEEBackupResponse), RedisLib, !RedisLaws, Queue.NameLib, !Json Action, !JsonLaws Action}.
Context `{!Json Queue.ActionSubmissionID, !JsonLaws Queue.ActionSubmissionID, !Json Queue.DirectInstruction}.
Context `{OpLib, Results.SignerLib, Wallets.WalletLib, !Wallets.WalletLaws, Backups.BackupLib, !Backups.BackupLaws}.
Implicit Types x y : @Sys W WI WB _.

Lemma run_job_no_panic x j : j_id j <> Panic -> (run_job x j).2 <> Panic.
Proof.
  intros Hj. unfold run_job. pose proof (Backups.initiateBackup_no_panic (aq (service x)) (j_now j) (j_key j) (j_id j) Hj) as Hn.
  by destruct (Backups.initiateBackup _ _ _ _).
Qed.

(** The loop never waits: with work left it has a step, wherever a synchronisation is. *)
Lemma loop_progress x :
  loop x <> Exited -> Wallets.running (syncs x) -> (0 < work x)%nat ->
  exists l y, by_loop l = true /\ step l x y.
Proof.
  intros He Hrun Hw. enough (exists l y, by_loop l = true /\ move l x y) as (l & y & Hl & Hm) by by exists l, y. destruct (loop x) as [|[|p t]|] eqn:Hl; [| | |done].
  2:{ exists Finished. eexists. split; [done|]. by apply l_finished. }
  2:{ pose proof (run_job_no_panic x (Backups.mkJob p 0 (Ok zero_hash)) ltac:(done)) as Hn.
      destruct (run_job x (Backups.mkJob p 0 (Ok zero_hash))) as [y out] eqn:Hj.
      eexists (Rolled p _). eexists. split; [|by apply (l_rolled x y (Backups.mkJob p 0 (Ok zero_hash)) (p :: t) t out)].
      done. }
  unfold work in Hw. rewrite Hl in Hw. unfold pending in Hw.
  destruct (trigger x) as [|b rest] eqn:Ht.
  2:{ eexists. eexists. split; [|by eapply l_tick]. done. }
  destruct (Results.Backups (results x)) as [|r rest] eqn:Hr.
  2:{ pose proof (Backups.createNewBackup_no_panic (stores x) 0 0 r) as Hn.
      destruct (Backups.createNewBackup (stores x) 0 0 r) as [st out] eqn:Hc.
      exists Backup. eexists. split; [done|]. by eapply l_backup. }
  destruct (KeyActions (results x)) as [|a rest] eqn:Ha.
  2:{ assert (Hk : exists s o, Wallets.apply_key_action (service x) a = (s, Ok o)).
      { pose proof (Wallets.update_no_panic (cache (service x)) a) as Hn. unfold Wallets.apply_key_action.
        destruct (Wallets.update _ _) as [c [[id ad]|e|]]; [by eauto..|done]. }
      destruct Hk as (s & o & Hk). exists Key. eexists. split; [done|]. by eapply l_key. }
  destruct (BackupTrigger (results x)) as [|b rest] eqn:Hb; [cbn in Hw; lia|].
  eexists. eexists. split; [|by eapply l_rollover]. done.
Qed.

(** C32: the loop drains its channels, wherever a synchronisation is.  In every reachable
    state in which the loop has not exited and no goroutine has panicked (which ends the
    process), the loop has a step of its own while a message is waiting or a rollover is
    under way; no run of its own steps, however the node and the stores answer, is longer
    than the work waiting at its start; and without work the loop is at its select with
    its channels empty. *)
Theorem event_loop_drains x0 tr0 x :
  initial x0 -> run x0 tr0 x -> loop x <> Exited -> Wallets.running (syncs x) ->
  ((0 < work x)%nat -> exists l y, by_loop l = true /\ step l x y) /\
  (forall tr y, run x tr y -> Forall (fun e => by_loop (act e) = true) tr -> (length tr + work y <= work x)%nat) /\
  (work x = 0%nat -> loop x = Selecting /\ trigger x = [] /\ KeyActions (results x) = [] /\
     Results.Backups (results x) = [] /\ BackupTrigger (results x) = []).
Proof.
  intros _ _ He Hrun. split; [|split; [by apply loop_run_works|]].
  - by apply loop_progress.
  - unfold work, pending. destruct (loop x); [|lia|done].
    destruct (trigger x), (KeyActions (results x)), (Results.Backups (results x)), (BackupTrigger (results x)); cbn; try lia.
    by intros _.
Qed.
End Progress.

(** ** A concrete run *)

Module DemoLoop.
Import DemoRedis Queue.DemoQueue Backups.DemoBackups.
#[local] Existing Instance Results.DemoResults.response_countable.
#[local] Existing Instance Results.DemoResults.signer_lib.
#[local] Existing Instance Wallets.DemoWallets.wallet_lib.
#[local] Existing Instance Wallets.DemoWallets.wallet_laws.
#[local] Instance results_store : StorageI redis ActionResponse := RedisImplements.redis_storage "results".

Notation Sys := (@Sys redis redis redis _).

Definition results0 : @Results.Service redis := Results.mkService
  (Results.NewStorage (mkServer ∅ ∅ : redis) 1000 100) [] [] [] 7%N 14 None [].
Definition x0 : Sys :=
  mkSys results0 (Wallets.NewService empty) [] empty_stores [] false [] Selecting false.

Lemma x0_initial : initial x0.
Proof. by constructor. Qed.

(** The node reports a generated key with its signature; the loop adds the key, and the
    goroutine queues its backup. *)
Definition generated : ActionResponse := Results.mkResponse Wallets.DemoWallets.generated [Byte.x07].
Definition x1 : Sys := set_results x0 (Results.ProcessAndStore results0 0 generated).1.
Definition s2 : Wallets.Service := (Wallets.apply_key_action (service x1) Wallets.DemoWallets.generated).1.
Definition x2 : Sys := set_jobs (set_service (take_key x1 []) (s2, [])) [Wallets.mkIDPair 5 1].
Definition job : Job := Backups.mkJob (Wallets.mkIDPair 5 1) 3 (Ok 9%N).
Definition x3 : Sys := set_jobs (run_job x2 job).1 [].

Lemma nothing_crashed : Wallets.running [].
Proof. apply not_elem_of_nil. Qed.
Lemma respond_step : step Respond x0 x1.
Proof.
  split; [exact nothing_crashed|].
  pose proof (l_respond x0 0 generated (Results.ProcessAndStore results0 0 generated).1
    (Results.ProcessAndStore results0 0 generated).2) as Hs.
  apply Hs; [apply surjective_pairing|]. vm_compute. discriminate.
Qed.
Lemma key_step : step Key x1 x2.
Proof.
  split; [exact nothing_crashed|].
  apply (l_key x1 Wallets.DemoWallets.generated [] s2 (Some (Wallets.mkIDPair 5 1))); [reflexivity..|].
  assert (Ho : (Wallets.apply_key_action (service x1) Wallets.DemoWallets.generated).2 = Ok (Some (Wallets.mkIDPair 5 1)))
    by (vm_compute; reflexivity).
  unfold s2. rewrite <- Ho. apply surjective_pairing.
Qed.
Lemma job_ends_well : is_ok (run_job x2 job).2 = true.
Proof. vm_compute. reflexivity. Qed.
Lemma job_step : step (Backed (Wallets.mkIDPair 5 1) true) x2 x3.
Proof.
  split; [exact nothing_crashed|]. rewrite <- job_ends_well.
  apply (l_backed x2 (run_job x2 job).1 job [] (run_job x2 job).2); [reflexivity|apply surjective_pairing|].
  pose proof job_ends_well as He. by destruct (run_job x2 job).2.
Qed.

Definition trace : list event :=
  [mkEvent x0 Respond x1; mkEvent x1 Key x2; mkEvent x2 (Backed (Wallets.mkIDPair 5 1) true) x3].
Lemma demo_run : run x0 trace x3.
Proof.
  apply (run_snoc x0 [_; _] x2 _ x3); [|exact job_step]. apply (run_snoc x0 [_] x1 _ x2); [|exact key_step].
  apply (run_snoc x0 [] x0 _ x1); [apply run_refl|exact respond_step].
Qed.

Lemma event_loop_accounts_witness :
  accounts trace x3 /\ jobs x3 = [] /\ Wallets.added Wallets.DemoWallets.generated = Some (Wallets.mkIDPair 5 1).
Proof.
  split; [exact (event_loop_accounts x0 trace x3 x0_initial demo_run)|]. split; reflexivity.
Defined.

(** A trigger while a synchronisation is under way. *)
Definition y0 : Sys := mkSys results0 (Wallets.NewService empty) [] empty_stores [true] true [] Selecting false.
Definition y1 : Sys := set_service (set_trigger y0 [] true) (Wallets.triggerSync (service y0) []).
Definition y2 : Sys := set_trigger y1 [true] false.
Definition y3 : Sys := set_service (set_trigger y2 [] false) (Wallets.triggerSync (service y2) (syncs y2)).

Lemma y0_initial : initial y0.
Proof. by constructor. Qed.
Lemma one_fetching : Wallets.running [Fetching].
Proof. unfold Wallets.running. by rewrite list_elem_of_singleton. Qed.
Lemma overlap_run : run y0 [mkEvent y0 Tick y1; mkEvent y1 Silent y2; mkEvent y2 Tick y3] y3.
Proof.
  apply (run_snoc y0 [_; _] y2 _ y3); [|split; [exact one_fetching|by apply (l_tick y2 true [])]].
  apply (run_snoc y0 [_] y1 _ y2); [|split; [exact one_fetching|by apply (l_periodic y1 ([true], false)), (p_send [])]].
  apply (run_snoc y0 [] y0 _ y1); [apply run_refl|split; [exact nothing_crashed|by apply (l_tick y0 true [])]].
Qed.

Lemma event_loop_refines_witness : syncs y3 = [Fetching] /\ (length (syncs y3) <= 1)%nat.
Proof.
  split; [reflexivity|]. exact (proj1 (proj2 (proj2 (event_loop_refines y0 _ y3 y0_initial overlap_run)))).
Defined.

Lemma event_loop_drains_witness : exists l y, by_loop l = true /\ step l x1 y.
Proof.
  assert (Hr : run x0 [mkEvent x0 Respond x1] x1).
  { apply (run_snoc x0 [] x0 _ x1); [apply run_refl|exact respond_step]. }
  apply (event_loop_drains x0 _ x1 x0_initial Hr); [discriminate|exact nothing_crashed|]. vm_compute. lia.
Defined.
End DemoLoop.
End WalletLoop.
