(* ===== verification/Meta.v ===== *)
(** The instruction meta data ([pkg/instruction/meta/meta.go]): the implementation
    of the interface [VotingData.Meta] on top of the wallet service, and the proof
    that it keeps the promises [MetaLaws] the voting code relies on. *)

From S2P Require Import Prelude Status Types Wallets VotingData.

Module InstructionMeta.

Definition maxBIPS : Z := 10000.
Definition fdcMinimumThresholdBIPS : Z := 4000.

Definition ErrCosignerMismatch : error := Status.http_sentinel "meta.ErrCosignerMismatch" 400.
Definition ErrCosignerThresholdMismatch : error := Status.http_sentinel "meta.ErrCosignerThresholdMismatch" 400.
Definition ErrDuplicateCosigners : error := Status.http_sentinel "meta.ErrDuplicateCosigners" 400.
Definition ErrInvalidBackupMetadata : error := Status.http_sentinel "meta.ErrInvalidBackupMetadata" 400.
Definition ErrMalformedPayload : error := Status.http_sentinel "meta.ErrMalformedPayload" 400.
Definition ErrFDCThresholdTooLow : error := Status.http_sentinel "meta.ErrFDCThresholdTooLow" 400.
Definition ErrFDCThresholdBelowHalf : error := Status.http_sentinel "meta.ErrFDCThresholdBelowHalf" 400.
Definition ErrFDCThresholdTooHigh : error := Status.http_sentinel "meta.ErrFDCThresholdTooHigh" 400.

(** ** The libraries (tee-node, go-ethereum, encoding/json) *)

(** The fields of tee-node's [WalletBackupMetaData] that are read. *)
Record BackupMetaData {K : Type} : Type := mkBackupMetaData {
  bm_AdminsPublicKeys : list K;
  bm_AdminsThreshold : Z;           (* uint64 *)
  bm_Cosigners : list Address;
  bm_CosignersThreshold : Z         (* uint64 *)
}.
Arguments BackupMetaData K : clear implicits.

Class MetaLib : Type := {
  PublicKey : Type;
  FdcRequest : Type;
  ParsePaymentInstruction : DataFixed -> res Hash;     (* the wallet it names *)
  ParseVRFInstruction : DataFixed -> res Hash;
  json_BackupMetaData : bytes -> res (BackupMetaData PublicKey);
  ValidateWalletMemberCounts : Z -> Z -> res unit;
  PubKeysToAddresses : list PublicKey -> res (list Address);
  HasDuplicateAddresses : list Address -> bool;
  DecodeRequest : bytes -> res FdcRequest;
  Header_ThresholdBIPS : FdcRequest -> Z;              (* uint16 *)
  HashMessage : Z -> FdcRequest -> bytes -> list Address -> Z -> Z -> res Hash;
  ChainBoundRelayPrefixedHash : Z -> Hash -> Hash;
  VerifySignature : Hash -> bytes -> Address -> res unit
}.

Class MetaLibLaws `{MetaLib} : Prop := {
  HasDuplicateAddresses_spec l : HasDuplicateAddresses l = true <-> ~ NoDup l;
  Header_ThresholdBIPS_u16 r : 0 <= Header_ThresholdBIPS r < 65536;
  ParsePaymentInstruction_no_panic d : ParsePaymentInstruction d <> Panic;
  ParseVRFInstruction_no_panic d : ParseVRFInstruction d <> Panic;
  json_BackupMetaData_no_panic b : json_BackupMetaData b <> Panic;
  ValidateWalletMemberCounts_no_panic n m : ValidateWalletMemberCounts n m <> Panic;
  PubKeysToAddresses_no_panic l : PubKeysToAddresses l <> Panic;
  DecodeRequest_no_panic b : DecodeRequest b <> Panic;
  HashMessage_no_panic c r b l t ts : HashMessage c r b l t ts <> Panic;
  VerifySignature_no_panic h s a : VerifySignature h s a <> Panic
}.

(** [fmt.Errorf("%w: ...: %v", sentinel, err)]: the cause is printed only. *)
Definition replace_error {A} (e : error) (m : res A) : res A :=
  match m with Ok a => Ok a | Fail _ => Fail (errorf [e]) | Panic => Panic end.

Section Ops.
Context `{OpLib, MetaLib}.

Definition checkCosigner (cosigners : list Address) (expectedCosigners : gset Address)
    (threshold expectedThreshold : Z) : res unit :=
  if decide (zlen cosigners <> Z.of_nat (size expectedCosigners)) then Fail ErrCosignerMismatch
  else if decide (Exists (fun cs => cs ∉ expectedCosigners) cosigners) then Fail ErrCosignerMismatch
  else if decide (threshold <> expectedThreshold) then Fail ErrCosignerThresholdMismatch
  else Ok tt.

Definition keyDataProviderRestoreAdmins (data : DataFixed) : res (gset Address * Z) :=
  m ← replace_error ErrMalformedPayload (json_BackupMetaData (AdditionalFixedMessage data));
  _ ← replace_error ErrInvalidBackupMetadata
        (ValidateWalletMemberCounts (zlen (bm_AdminsPublicKeys m)) (zlen (bm_Cosigners m)));
  adminAddresses ← replace_error ErrMalformedPayload (PubKeysToAddresses (bm_AdminsPublicKeys m));
  if HasDuplicateAddresses adminAddresses then Fail (errorf [ErrInvalidBackupMetadata])
  else if HasDuplicateAddresses (bm_Cosigners m) then Fail (errorf [ErrInvalidBackupMetadata])
  else if decide (zlen (bm_Cosigners m) < bm_CosignersThreshold m) then Fail (errorf [ErrInvalidBackupMetadata])
  else Ok (list_to_set adminAddresses, bm_AdminsThreshold m).

Definition walletCosigners (walletID : Hash) (ws : Wallets.Cache) : res (gset Address * Z) :=
  wi ← Wallets.WalletInfo ws walletID;
  let cc := Wallets.ke_ConfigConstants wi in
  Ok (list_to_set (Wallets.cc_Cosigners cc), Wallets.cc_CosignersThreshold cc).

Definition xrpCosigners (data : DataFixed) (ws : Wallets.Cache) : res (gset Address * Z) :=
  w ← replace_error ErrMalformedPayload (ParsePaymentInstruction data); walletCosigners w ws.
Definition vrfCosigners (data : DataFixed) (ws : Wallets.Cache) : res (gset Address * Z) :=
  w ← replace_error ErrMalformedPayload (ParseVRFInstruction data); walletCosigners w ws.

(** The roster that decides for the instruction; [None]: the declared one. *)
Definition roster (ws : Wallets.Cache) (data : DataFixed) : option (res (gset Address * Z)) :=
  let c := OPCommand data in
  if decide (c = command_Hash Pay \/ c = command_Hash Reissue) then Some (xrpCosigners data ws)
  else if decide (c = command_Hash VRF) then Some (vrfCosigners data ws)
  else if decide (c = command_Hash KeyDataProviderRestore) then Some (keyDataProviderRestoreAdmins data)
  else None.

(** The declared threshold, a uint64. *)
Definition declared (data : DataFixed) : Z := u64 (CosignersThreshold data).

Definition Cosigners_ (ws : Wallets.Cache) (data : DataFixed) : res (gset Address * Z) :=
  if HasDuplicateAddresses (Cosigners data) then Fail ErrDuplicateCosigners
  else
    match roster ws data with
    | None => Ok (list_to_set (Cosigners data), declared data)
    | Some r =>
        '(cosigners, threshold) ← r;
        _ ← checkCosigner (Cosigners data) cosigners (declared data) threshold;
        Ok (cosigners, threshold)
    end.

Definition fdcCheckConsistency (chainID : Z) (data : Data) (signer : Address) : res unit :=
  fdcReq ← wrap (DecodeRequest (OriginalMessage data));
  h ← wrap (HashMessage chainID fdcReq (AdditionalFixedMessage data) (Cosigners data) (declared data) (Timestamp data));
  wrap (VerifySignature (ChainBoundRelayPrefixedHash chainID h) (AdditionalVariableMessage data) signer).

Definition CheckConsistency (chainID : Z) (data : Data) (signer : Address) : res unit :=
  if decide (OPCommand data = command_Hash Prove) then fdcCheckConsistency chainID data signer else Ok tt.

Definition checkFDCThreshold (thresholdBIPS cosignersThreshold cosignerCount : Z) : res unit :=
  if decide (thresholdBIPS < fdcMinimumThresholdBIPS) then Fail ErrFDCThresholdTooLow
  else if decide (thresholdBIPS < maxBIPS / 2 /\ u64 (cosignersThreshold * 2) <= u64 cosignerCount)
  then Fail ErrFDCThresholdBelowHalf
  else if decide (maxBIPS <= thresholdBIPS) then Fail ErrFDCThresholdTooHigh
  else Ok tt.

Definition ThresholdBIPS (data : DataFixed) : res Z :=
  if decide (OPType data = optype_Hash FDC2Type /\ OPCommand data = command_Hash Prove) then
    fdcReq ← DecodeRequest (OriginalMessage data);
    let tBIPS := Header_ThresholdBIPS fdcReq in
    if decide (tBIPS = 0) then Ok (-1)
    else _ ← checkFDCThreshold tBIPS (declared data) (zlen (Cosigners data)); Ok tBIPS
  else Ok (-1).

(** [New]. *)
Definition New (ws : Wallets.Cache) (chainID : Z) : Meta := {|
  meta_Cosigners := Cosigners_ ws;
  meta_CheckConsistency := CheckConsistency chainID;
  meta_ThresholdBIPS := ThresholdBIPS
|}.
End Ops.

(** ** Theorems *)

Section Facts.
Context `{OpLaws, MetaLibLaws}.

Lemma size_list_to_set_NoDup (l : list Address) : NoDup l -> size (list_to_set l : gset Address) = length l.
Proof. apply size_list_to_set. Qed.

(** [checkCosigner] on a list without duplicates decides equality of the sets
    and of the thresholds. *)
Lemma checkCosigner_spec l (cs : gset Address) t t' :
  NoDup l -> checkCosigner l cs t t' = Ok tt <-> cs = list_to_set l /\ t = t'.
Proof.
  intros Hnd. unfold checkCosigner, zlen. pose proof (size_list_to_set_NoDup l Hnd) as Hsz.
  split.
  - repeat case_decide; try done. intros _. split; [|by destruct (decide (t = t'))].
    symmetry. apply leibniz_equiv, set_subseteq_size_equiv; [|lia].
    intros x Hx%elem_of_list_to_set. destruct (decide (x ∈ cs)) as [|Hn]; [done|].
    exfalso. apply H4, Exists_exists. eauto.
  - intros [-> ->]. rewrite decide_False by lia. rewrite decide_False.
    + by rewrite decide_False by tauto.
    + rewrite Exists_exists. intros (x & Hx & Hn). by apply Hn, elem_of_list_to_set.
Qed.

Lemma Cosigners_spec ws chainID d cs t :
  meta_Cosigners (New ws chainID) d = Ok (cs, t) <->
  NoDup (Cosigners d) /\ cs = list_to_set (Cosigners d) /\ t = u64 (CosignersThreshold d) /\
  match roster ws d with Some r => r = Ok (cs, t) | None => True end.
Proof.
  cbn. unfold Cosigners_. destruct (HasDuplicateAddresses (Cosigners d)) eqn:Hdup.
  { apply HasDuplicateAddresses_spec in Hdup. split; [done|]. by intros []. }
  assert (Hnd : NoDup (Cosigners d)).
  { destruct (decide (NoDup (Cosigners d))) as [|Hn]; [done|]. apply HasDuplicateAddresses_spec in Hn. congruence. }
  unfold declared. destruct (roster ws d) as [[[cs' t']|e|]|]; cbn; [| |naive_solver..].
  - pose proof (checkCosigner_spec (Cosigners d) cs' (u64 (CosignersThreshold d)) t' Hnd) as Hc.
    destruct (checkCosigner _ _ _ _) as [[]|e|]; cbn.
    + destruct (proj1 Hc eq_refl) as [-> <-]. naive_solver.
    + split; [done|]. intros (_ & -> & -> & [= -> ->]). discriminate (proj2 Hc (conj eq_refl eq_refl)).
    + split; [done|]. intros (_ & -> & -> & [= -> ->]). discriminate (proj2 Hc (conj eq_refl eq_refl)).
  - naive_solver.
Qed.

(** [Cosigners] succeeds exactly when the declared list names nobody twice
    and, where the wallet configuration or the backup metadata says who the
    cosigners are, it declares exactly that set and exactly that threshold; what
    it returns is then the declared set and threshold. *)
Theorem Cosigners_correct ws chainID d cs t :
  meta_Cosigners (New ws chainID) d = Ok (cs, t) <->
  NoDup (Cosigners d) /\ cs = list_to_set (Cosigners d) /\ t = u64 (CosignersThreshold d) /\
  match roster ws d with Some r => r = Ok (cs, t) | None => True end.
Proof. apply Cosigners_spec. Qed.

(** The rule of the node for a custom threshold. *)
Definition fdc_rule (thresholdBIPS cosignersThreshold cosignerCount : Z) : Prop :=
  4000 <= thresholdBIPS < 10000 /\ (thresholdBIPS < 5000 -> cosignerCount < 2 * cosignersThreshold).

(** The code doubles the cosigner threshold in 64 bits: from 2^63 on the doubled one wraps,
    and a threshold that is far beyond the number of cosigners looks too small. *)
Definition wraps_below (cosignersThreshold cosignerCount : Z) : Prop :=
  2 ^ 63 <= cosignersThreshold /\ 2 * cosignersThreshold - 2 ^ 64 <= cosignerCount.

(** What the code accepts. *)
Definition fdc_accepted (thresholdBIPS cosignersThreshold cosignerCount : Z) : Prop :=
  fdc_rule thresholdBIPS cosignersThreshold cosignerCount /\
  ~ (thresholdBIPS < 5000 /\ wraps_below cosignersThreshold cosignerCount).

Lemma u64_double ct : 0 <= ct < 2 ^ 64 -> u64 (ct * 2) = if decide (ct < 2 ^ 63) then 2 * ct else 2 * ct - 2 ^ 64.
Proof.
  intros Hct. case_decide as Hlt; [rewrite u64_small; lia|]. unfold u64.
  symmetry. apply (Z.mod_unique_pos _ _ 1); lia.
Qed.

Lemma checkFDCThreshold_spec t ct n :
  0 <= ct < 2 ^ 64 -> 0 <= n < 2 ^ 63 ->
  (checkFDCThreshold t ct n = Ok tt <-> fdc_accepted t ct n) /\ checkFDCThreshold t ct n <> Panic.
Proof.
  intros Hct Hn. unfold checkFDCThreshold, fdc_accepted, fdc_rule, wraps_below, fdcMinimumThresholdBIPS, maxBIPS.
  change (10000 / 2) with 5000. rewrite (u64_small n), u64_double by lia.
  split; [split|]; destruct (decide (ct < 2 ^ 63)); repeat case_decide; intros; try done; try lia.
Qed.

(** C37: the custom threshold of an FDC2 proof request, on every branch.  A threshold is
    returned exactly if it satisfies the node's rule -- at least 40% and less than 100%
    of the weight, and below half only together with more than half of the cosigners --
    and the doubled cosigner threshold, if it is needed, does not wrap to a number that
    looks too small: only a required number of cosigners of at least 2^63, which no
    instruction can list, is refused although it satisfies the rule.  For every other
    instruction, and for the threshold 0, no custom threshold is set. *)
Theorem ThresholdBIPS_correct ws chainID d :
  0 <= CosignersThreshold d < 2 ^ 64 -> zlen (Cosigners d) < 2 ^ 63 ->
  match meta_ThresholdBIPS (New ws chainID) d with
  | Ok t =>
      t = -1 /\ (forall r, DecodeRequest (OriginalMessage d) = Ok r ->
        OPType d = optype_Hash FDC2Type -> OPCommand d = command_Hash Prove -> Header_ThresholdBIPS r = 0) \/
      OPType d = optype_Hash FDC2Type /\ OPCommand d = command_Hash Prove /\
      (exists r, DecodeRequest (OriginalMessage d) = Ok r /\ Header_ThresholdBIPS r = t) /\
      fdc_accepted t (CosignersThreshold d) (zlen (Cosigners d))
  | Fail e =>
      OPType d = optype_Hash FDC2Type /\ OPCommand d = command_Hash Prove /\
      (DecodeRequest (OriginalMessage d) = Fail e \/
       exists r, DecodeRequest (OriginalMessage d) = Ok r /\ Header_ThresholdBIPS r <> 0 /\
         ~ fdc_accepted (Header_ThresholdBIPS r) (CosignersThreshold d) (zlen (Cosigners d)))
  | Panic => False
  end.
Proof.
  intros Hct Hn. cbn. unfold ThresholdBIPS, declared. rewrite u64_small by lia.
  case_decide as Hop; [|left; split; [done|]; tauto].
  pose proof (DecodeRequest_no_panic (OriginalMessage d)) as Hnp.
  destruct (DecodeRequest (OriginalMessage d)) as [r|e|]; cbn; [|by destruct Hop; auto|done].
  case_decide as Hz; [left; split; [done|]; by intros ? [= <-]|].
  pose proof (zlen_nonneg (Cosigners d)).
  destruct (checkFDCThreshold_spec (Header_ThresholdBIPS r) (CosignersThreshold d) (zlen (Cosigners d)))
    as (Hiff & Hp); [lia..|].
  destruct (checkFDCThreshold _ _ _) as [[]|e|]; cbn; [| |done].
  - right. split_and!; [tauto|tauto|by eauto|by apply Hiff].
  - split_and!; [tauto|tauto|]. right. exists r. split; [done|]. split; [done|]. by rewrite <- Hiff.
Qed.

Lemma replace_error_no_panic {A} e (m : res A) : m <> Panic -> replace_error e m <> Panic.
Proof. by destruct m. Qed.

Lemma bind_no_panic {A B} (m : res A) (f : A -> res B) :
  m <> Panic -> (forall a, m = Ok a -> f a <> Panic) -> m ≫= f <> Panic.
Proof. destruct m; cbn; auto. Qed.

Lemma walletCosigners_no_panic w ws : walletCosigners w ws <> Panic.
Proof.
  unfold walletCosigners, Wallets.WalletInfo.
  destruct (Wallets.KeysForWallet ws !! w) as [[|k ks]|]; cbn; [done| |done].
  by destruct (Wallets.keyDataLocked ws _).
Qed.

Lemma roster_no_panic ws d r : roster ws d = Some r -> r <> Panic.
Proof.
  unfold roster, xrpCosigners, vrfCosigners, keyDataProviderRestoreAdmins.
  repeat case_decide; intros [= <-]; repeat (apply bind_no_panic;
    [apply replace_error_no_panic; auto using ParsePaymentInstruction_no_panic, ParseVRFInstruction_no_panic,
       json_BackupMetaData_no_panic, ValidateWalletMemberCounts_no_panic, PubKeysToAddresses_no_panic|intros ? _]);
    auto using walletCosigners_no_panic.
  repeat case_match; done.
Qed.

(** C22: the implementation keeps the promises on which the theorems about voting
    rest: never more cosigners than declared, a 64-bit cosigner threshold, a
    custom threshold that is unset or below 10000, and no panics. *)
Theorem meta_implements ws chainID : MetaLaws (New ws chainID).
Proof.
  constructor.
  - intros d cs t (Hnd & -> & -> & _)%Cosigners_spec. split; [|apply u64_range].
    rewrite size_list_to_set_NoDup by done. done.
  - intros d t. cbn. unfold ThresholdBIPS. case_decide; [|intros [= <-]; by left].
    intros (r & _ & Hr)%res_bind_ok. case_decide; [injection Hr as <-; by left|].
    apply res_bind_ok in Hr as ([] & Hc & [= <-]). right. unfold checkFDCThreshold, maxBIPS, fdcMinimumThresholdBIPS in Hc.
    repeat (case_decide; [done|]). lia.
  - intros d. cbn. unfold Cosigners_. destruct (HasDuplicateAddresses _); [done|].
    destruct (roster ws d) as [r|] eqn:Hr; [|done]. apply bind_no_panic; [by eapply roster_no_panic|].
    intros [cs t] _. unfold checkCosigner. by repeat case_decide.
  - intros d a. cbn. unfold CheckConsistency, fdcCheckConsistency. case_decide; [|done].
    repeat (apply bind_no_panic; [|intros ? _]).
    + pose proof (DecodeRequest_no_panic (OriginalMessage d)). by destruct (DecodeRequest _).
    + match goal with |- wrap ?m <> _ => assert (m <> Panic) by apply HashMessage_no_panic; by destruct m end.
    + match goal with |- wrap ?m <> _ => assert (m <> Panic) by apply VerifySignature_no_panic; by destruct m end.
  - intros d. cbn. unfold ThresholdBIPS. case_decide; [|done].
    apply bind_no_panic; [apply DecodeRequest_no_panic|]. intros r _. case_decide; [done|].
    apply bind_no_panic; [|done]. unfold checkFDCThreshold. by repeat case_decide.
Qed.
End Facts.

(** ** A concrete instance *)

Module DemoMetaLib.
Import Wallets.DemoWallets.
#[local] Existing Instance Demo.op_lib.
#[local] Existing Instance Demo.op_laws.

(** The wallet a payment names is the length of its message; a request's
    threshold is 100 times that length. *)
#[export] Instance meta_lib : MetaLib := {|
  PublicKey := Address;
  FdcRequest := nat;
  ParsePaymentInstruction d := Ok (N.of_nat (length (OriginalMessage d)));
  ParseVRFInstruction d := Fail (errorf []);
  json_BackupMetaData b := Fail (errorf []);
  ValidateWalletMemberCounts n m := Ok tt;
  PubKeysToAddresses l := Ok l;
  HasDuplicateAddresses l := negb (bool_decide (NoDup l));
  DecodeRequest b := Ok (length b);
  Header_ThresholdBIPS n := Z.min 65535 (100 * Z.of_nat n);
  HashMessage c r b l t ts := Ok 0%N;
  ChainBoundRelayPrefixedHash c h := h;
  VerifySignature h s a := Ok tt
|}.

#[export] Instance meta_lib_laws : MetaLibLaws.
Proof.
  constructor; try done; cbn.
  - intros l. by rewrite negb_true_iff, bool_decide_eq_false.
  - intros n. lia.
Qed.

(** The wallet 5 of [DemoWallets] has the cosigners 11 and 12 with threshold 1. *)
Definition pay (cosigners : list Address) : DataFixed :=
  mkDataFixed 1 1 0 1 1 (command_Hash Pay) cosigners 1 (repeat Byte.x00 5) [].

Example pay_accepted : is_ok (meta_Cosigners (New c1 0) (pay [12; 11]%N)) = true.
Proof. vm_compute. reflexivity. Qed.
Example pay_rejected : is_ok (meta_Cosigners (New c1 0) (pay [12; 13]%N)) = false.
Proof. vm_compute. reflexivity. Qed.

Lemma meta_implements_witness : Z.of_nat (size ({[11%N; 12%N]} : gset Address)) <= 2.
Proof.
  apply (meta_Cosigners_size (MetaLaws := meta_implements c1 0) (pay [12; 11]%N) _ 1).
  apply Cosigners_spec. split_and!; [|vm_compute; reflexivity..].
  apply (bool_decide_unpack _). vm_compute. exact I.
Defined.

Lemma Cosigners_correct_witness : meta_Cosigners (New c1 0) (pay [12; 11]%N) = Ok (list_to_set [12; 11]%N, 1).
Proof.
  apply Cosigners_correct. split_and!; [|vm_compute; reflexivity..].
  apply (bool_decide_unpack _). vm_compute. exact I.
Defined.

Definition prove : DataFixed :=
  mkDataFixed 1 1 0 1 (optype_Hash FDC2Type) (command_Hash Prove) [11; 12; 13]%N 2 (repeat Byte.x00 45) [].

Lemma ThresholdBIPS_correct_witness :
  meta_ThresholdBIPS (New c1 0) prove = Ok 4500 /\ fdc_rule 4500 2 3.
Proof.
  pose proof (ThresholdBIPS_correct c1 0 prove) as Ht.
  assert (Hok : meta_ThresholdBIPS (New c1 0) prove = Ok 4500) by (vm_compute; reflexivity).
  split; [exact Hok|]. rewrite Hok in Ht.
  destruct Ht as [[Hneg _]|(_ & _ & _ & Hr & _)]; [cbn; lia|vm_compute; reflexivity|lia|exact Hr].
Defined.
End DemoMetaLib.

End InstructionMeta.
