(* ===== verification/Instructions.v ===== *)
(** The instruction service ([internal/service/instruction/instruction.go]): the
    admission of signed instructions to the voting, the classification of
    rejections ([RejectReason] of [voting/box.go]), the forwarding of finished
    votings to the main queue, and the statuses. *)

From S2P Require Import Prelude Status Types Limiter Constraints Config VotingData Box Cyclic Rounds.
From S2P Require Import VotingStorage VotingProofs Ballots Redis Queue Wallets Meta.

Module Instructions.
Import VotingStorage VotingProofs.

Definition errWrongTeeID : error := Status.http_sentinel "instruction.errWrongTeeID" 400.
Definition errInvalidOP : error := Status.http_sentinel "instruction.errInvalidOP" 400.
Definition errInvalidSignature : error := Status.http_sentinel "instruction.errInvalidSignature" 400.
Definition errRoundNotStored : error := Status.http_sentinel "instruction.errRoundNotStored" 404.
Definition errNoInstruction : error := Status.http_sentinel "instruction.errNoInstruction" 404.

(** ** Rejections *)

(** [errors.Is] with one of the variables named. *)
Definition is_any (err : error) (ts : list error) : bool := existsb (fun t => errors_Is err (error_id t)) ts.

Definition RejectReason (err : error) : string :=
  if is_any err [Box.errInvalidVoter] then "invalid_voter"
  else if is_any err [Box.errVotingEnded] then "voting_ended"
  else if is_any err [Box.errSignatureAlreadyStored] then "duplicate_signature"
  else if is_any err [Box.errVotingBeforeEvent] then "event_in_future"
  else if is_any err [errNoRound] then "no_round"
  else if is_any err [errInconsistentData] then "inconsistent"
  else if is_any err [Limiter.ErrLimitReached] then "rate_limited"
  else if is_any err [Limiter.ErrCannotInitialize] then "not_eligible"
  else if is_any err [Box.errInvalidCosignerThreshold] then "invalid_cosigner_threshold"
  else if is_any err [InstructionMeta.ErrCosignerMismatch; InstructionMeta.ErrCosignerThresholdMismatch]
       then "invalid_cosigner_declaration"
  else if is_any err [InstructionMeta.ErrDuplicateCosigners] then "duplicate_cosigners"
  else if is_any err [InstructionMeta.ErrInvalidBackupMetadata] then "invalid_backup_metadata"
  else if is_any err [InstructionMeta.ErrMalformedPayload] then "malformed_payload"
  else if is_any err [Wallets.ErrWalletNotFound] then "unknown_wallet"
  else if is_any err [InstructionMeta.ErrFDCThresholdTooLow; InstructionMeta.ErrFDCThresholdBelowHalf;
                  InstructionMeta.ErrFDCThresholdTooHigh] then "invalid_fdc_threshold"
  else if is_any err [Constraints.errTooManyCosigners; Constraints.errOriginalMessageTooBig;
                  Constraints.errAdditionalMessageTooBig; Constraints.errAdditionalVariableTooBig] then "oversized"
  else if is_any err [Constraints.errNonInstructionCommand] then "non_instruction_command"
  else if is_any err [Box.errZeroPolicyThreshold] then "zero_policy_threshold"
  else "other".

(** ** The service *)

Inductive InstructionEvent : Type :=
| InstructionReceived
| InstructionRejected (reason : string)
| FinalizedActionEnqueueFailed.

Section Service.
Context `{OpLib, InstructionLib, CyclicLib}.
Context `{RedisLib, Queue.NameLib, !Json Action, !Json Queue.ActionSubmissionID}.

(** [forwarded] counts the actions received from [vs.Out]. *)
Record Service : Type := mkService {
  teeID : Address;
  chainID : Z;
  vs : Storage;
  aq : Queue.ActionQueues;
  forwarded : nat;
  ievents : list InstructionEvent
}.

Definition NewService (votingCfg : Config.Voting) (collect : bool) (teeID : Address) (aq : Queue.ActionQueues)
    (chainID : Z) : Service := mkService teeID chainID (NewStorage votingCfg collect) aq 0 [].

Definition report (s : Service) (e : InstructionEvent) : Service :=
  mkService (teeID s) (chainID s) (vs s) (aq s) (forwarded s) (ievents s ++ [e]).
Definition set_vs (s : Service) (v : Storage) : Service :=
  mkService (teeID s) (chainID s) v (aq s) (forwarded s) (ievents s).

Definition ServeInstruction (s : Service) (mt : Meta) (i : Instruction) (c : Clock) (sent : bool)
    : stateful Service Receipt :=
  let s := report s InstructionReceived in
  let data := instruction_Data i in
  if decide (TeeID data <> teeID s) then (report s (InstructionRejected "wrong_tee_id"), Fail errWrongTeeID)
  else if negb (IsValidPair (OPType data) (OPCommand data)) then
    (report s (InstructionRejected "invalid_op"), Fail errInvalidOP)
  else
    match RecoverSigner i (chainID s) with
    | Panic => (s, Panic)
    | Fail _ => (report s (InstructionRejected "invalid_signature"), Fail errInvalidSignature)
    | Ok signer =>
        match AddVote (vs s) mt data signer (instruction_Signature i) c sent with
        | (v, Ok receipt) => (set_vs s v, Ok receipt)
        | (v, Panic) => (set_vs s v, Panic)
        | (v, Fail err) =>
            if errors_Is err "context.Canceled" then (set_vs s v, Fail err)
            else (report (set_vs s v) (InstructionRejected (RejectReason err)), Fail err)
        end
    end.

(** One round of the loop of [Forward]: the next action of [vs.Out]. *)
Definition Forward_step (s : Service) (now : Z) : Service :=
  match Out (vs s) !! forwarded s with
  | None => s
  | Some (_, action) =>
      let '(q, out) := Queue.Enqueue (aq s) now action Queue.Main in
      let s := mkService (teeID s) (chainID s) (vs s) q (S (forwarded s)) (ievents s) in
      match out with
      | Fail _ => report s FinalizedActionEnqueueFailed
      | _ => s
      end
  end.

(** One round of the loop of [ListenToPolicies]. *)
Definition ListenToPolicies_step (s : Service) (policy : SigningPolicy) : Service :=
  set_vs s (StoreNewRound (vs s) policy).

(** The statuses in the map's iteration order. *)
Definition Statuses_ (s : Service) (instructionID : Hash) (rewardEpochID : Z) : res Statuses :=
  match Get (vs s) rewardEpochID with
  | None => Fail errRoundNotStored
  | Some (_, r) =>
      match Voting r !! instructionID with
      | None => Fail errNoInstruction
      | Some boxes =>
          Ok (mkStatuses instructionID (FinalizedHash boxes)
                (Box.box_Status <$> (map_to_list (boxes_M boxes)).*2))
      end
  end.

(** The service in operation: requests, the two loops, the goroutines of the
    boxes, and whoever takes deliveries from the queues.  A move is labelled with
    the instruction that it serves. *)
Inductive imove (s : Service) : option Instruction -> Service -> Prop :=
| i_serve mt i c sent : MetaLaws mt -> request_ok (instruction_Data i) c ->
    imove s (Some i) (ServeInstruction s mt i c sent).1
| i_forward now : imove s None (Forward_step s now)
| i_policy policy : policy_wf policy -> imove s None (ListenToPolicies_step s policy)
| i_end b now taken : b ∈ timers (vs s) -> imove s None (set_vs s (scheduleEnd (vs s) b now taken).1)
| i_cancel b : b ∈ timers (vs s) -> imove s None (set_vs s (set_timers (vs s) (timers (vs s) ∖ {[b]})))
| i_queue q : imove s None (mkService (teeID s) (chainID s) (vs s) q (forwarded s) (ievents s)).

Definition istep (s s' : Service) : Prop := exists l, imove s l s'.

(** A run, with the instructions that were served in it, in order. *)
Inductive irun (s : Service) : list Instruction -> Service -> Prop :=
| irun_start : irun s [] s
| irun_move served l s1 s2 : irun s served s1 -> imove s1 l s2 -> irun s (served ++ option_list l) s2.
End Service.

(** ** Classification *)

(** The table that [RejectReason] searches. *)
Definition reject_table : list (list error * string) :=
  [([Box.errInvalidVoter], "invalid_voter");
   ([Box.errVotingEnded], "voting_ended");
   ([Box.errSignatureAlreadyStored], "duplicate_signature");
   ([Box.errVotingBeforeEvent], "event_in_future");
   ([errNoRound], "no_round");
   ([errInconsistentData], "inconsistent");
   ([Limiter.ErrLimitReached], "rate_limited");
   ([Limiter.ErrCannotInitialize], "not_eligible");
   ([Box.errInvalidCosignerThreshold], "invalid_cosigner_threshold");
   ([InstructionMeta.ErrCosignerMismatch; InstructionMeta.ErrCosignerThresholdMismatch], "invalid_cosigner_declaration");
   ([InstructionMeta.ErrDuplicateCosigners], "duplicate_cosigners");
   ([InstructionMeta.ErrInvalidBackupMetadata], "invalid_backup_metadata");
   ([InstructionMeta.ErrMalformedPayload], "malformed_payload");
   ([Wallets.ErrWalletNotFound], "unknown_wallet");
   ([InstructionMeta.ErrFDCThresholdTooLow; InstructionMeta.ErrFDCThresholdBelowHalf;
     InstructionMeta.ErrFDCThresholdTooHigh], "invalid_fdc_threshold");
   ([Constraints.errTooManyCosigners; Constraints.errOriginalMessageTooBig;
     Constraints.errAdditionalMessageTooBig; Constraints.errAdditionalVariableTooBig], "oversized");
   ([Constraints.errNonInstructionCommand], "non_instruction_command");
   ([Box.errZeroPolicyThreshold], "zero_policy_threshold")]%string.

Fixpoint first_match (err : error) (t : list (list error * string)) : string :=
  match t with
  | [] => "other"
  | (ts, l) :: t => if is_any err ts then l else first_match err t
  end.

Lemma RejectReason_table err : RejectReason err = first_match err reject_table.
Proof. reflexivity. Qed.

Lemma first_match_spec err t :
  (exists ts, (ts, first_match err t) ∈ t /\ is_any err ts = true) \/
  (first_match err t = "other"%string /\ forall ts l, (ts, l) ∈ t -> is_any err ts = false).
Proof.
  induction t as [|[ts l] t IH]; cbn [first_match].
  - right. split; [done|]. by intros ?? ?%elem_of_nil.
  - destruct (is_any err ts) eqn:Hi.
    + left. exists ts. split; [left|done].
    + destruct IH as [(ts' & Hin & He)|[Ho Hno]]; [left; exists ts'; split; [by right|done]|].
      right. split; [done|]. intros ts' l' [[= -> ->]|Hin]%elem_of_cons; [done|by eapply Hno].
Qed.

(** The label counted for a rejection.  The label set is bounded: a rejection
    is labelled by the row of the table for a variable it wraps, and by "other"
    exactly when it wraps none of them; and if all the variables it wraps share
    one row, the label is that row's, in whatever order the cases are tried. *)
Theorem RejectReason_correct err :
  (RejectReason err = "other"%string <-> forall ts l, (ts, l) ∈ reject_table -> is_any err ts = false) /\
  (RejectReason err = "other"%string \/ RejectReason err ∈ reject_table.*2) /\
  (forall order l, order ≡ₚ reject_table -> RejectReason err <> "other"%string ->
     (forall ts l', (ts, l') ∈ reject_table -> is_any err ts = true -> l' = l) ->
     first_match err order = l).
Proof.
  rewrite RejectReason_table.
  assert (Hother : forall ts, (ts, "other"%string) ∉ reject_table).
  { intros ts Hin. apply (list_elem_of_fmap_2 snd) in Hin. revert Hin.
    apply (bool_decide_unpack ("other"%string ∉ reject_table.*2)). vm_compute. exact I. }
  destruct (first_match_spec err reject_table) as [(ts & Hin & Hi)|[Ho Hno]]; split_and!.
  - split; [|intros Hno; by rewrite (Hno _ _ Hin) in Hi]. intros Ho. rewrite Ho in Hin. by apply Hother in Hin.
  - right. by apply (list_elem_of_fmap_2 snd) in Hin.
  - intros order l Hp _ Hall.
    assert (Hmem : forall x, x ∈ order <-> x ∈ reject_table) by (intros x; by rewrite Hp).
    destruct (first_match_spec err order) as [(ts' & Hin' & Hi')|[_ Hno]].
    + apply Hmem in Hin'. by eapply Hall.
    + apply Hmem in Hin. by rewrite (Hno _ _ Hin) in Hi.
  - by rewrite Ho.
  - by left.
  - by rewrite Ho.
Qed.

Section Facts.
Context `{OpLib, InstructionLib, CyclicLib}.
Context `{RedisLib, Queue.NameLib, !Json Action, !Json Queue.ActionSubmissionID}.
Context `{!InstructionLaws, !InstructionHashInj, !CyclicLaws}.

Lemma Forward_step_vs s now : vs (Forward_step s now) = vs s.
Proof.
  unfold Forward_step. destruct (Out (vs s) !! forwarded s) as [[b a]|]; [|done].
  by destruct (Queue.Enqueue _ _ _ _) as [q [| |]].
Qed.

(** A request is one call of [AddVote], or none. *)
Lemma ServeInstruction_vs s mt i c sent :
  let out := ServeInstruction s mt i c sent in
  aq out.1 = aq s /\ forwarded out.1 = forwarded s /\ teeID out.1 = teeID s /\ chainID out.1 = chainID s /\
  (vs out.1 = vs s \/ exists signer, vs out.1 =
     (AddVote (vs s) mt (instruction_Data i) signer (instruction_Signature i) c sent).1).
Proof.
  unfold ServeInstruction. case_decide; [by split_and!; [..|left]|].
  destruct (IsValidPair _ _); cbn [negb]; [|by split_and!; [..|left]].
  destruct (RecoverSigner i _) as [signer| |]; [|by split_and!; [..|left]..].
  destruct (AddVote _ _ _ signer _ _ _) as [v [r|e|]] eqn:Ha; [|destruct (errors_Is _ _)|];
    split_and!; try done; right; exists signer; cbn [vs report set_vs fst] in *; by rewrite Ha.
Qed.

Lemma imove_refines s l s' : imove s l s' -> vs s' = vs s \/ step (vs s) (vs s').
Proof.
  intros [mt i c sent Hmt Hreq|now|policy Hp|b now taken Hb|b Hb|q]; cbn.
  - destruct (ServeInstruction_vs s mt i c sent) as (_ & _ & _ & _ & [->|(signer & ->)]); [by left|right].
    by apply step_vote.
  - left. apply Forward_step_vs.
  - right. by apply step_store.
  - right. by apply step_end.
  - right. by apply step_cancel.
  - by left.
Qed.

Definition ireachable (s : Service) : Prop :=
  exists cfg collect tee q chain, config_ok cfg /\ rtc istep (NewService cfg collect tee q chain) s.

Lemma service_reachable s : ireachable s -> reachable (vs s).
Proof.
  intros (cfg & collect & tee & q & chain & Hcfg & Hrun). exists cfg, collect. split; [done|].
  change (NewStorage cfg collect) with (vs (NewService cfg collect tee q chain)).
  induction Hrun as [|x y z Hxy Hyz IH]; [done|].
  destruct Hxy as [l Hxy]. destruct (imove_refines _ _ _ Hxy) as [<-|Hs]; [done|by eapply rtc_l].
Qed.

Lemma irun_steps s served s' : irun s served s' -> rtc istep s s'.
Proof. induction 1 as [|served l s1 s2 _ IH Hm]; [done|]. eapply rtc_r; [exact IH|by exists l]. Qed.

(** ** Votes and signed instructions *)

(** The instruction [i] stands behind the vote [v] of [a] in the box [b]: it is
    addressed to this TEE and is a valid operation, [a] is the signer recovered on
    the configured chain, the box is the one of the instruction's ID and hash in the
    round of its reward epoch, and the vote carries its signature and message. *)
Definition stands_behind (tee : Address) (chain : Z) (st : Storage) (b : path) (a : Address) (v : vote)
    (i : Instruction) : Prop :=
  let data := instruction_Data i in
  TeeID data = tee /\ IsValidPair (OPType data) (OPCommand data) = true /\ RecoverSigner i chain = Ok a /\
  (exists p hash, b = (p, InstructionID data, hash) /\ HashFixed data = Ok hash /\
     Ballots.epoch_at st p = Some (RewardEpochID data)) /\
  vote_Signature v = instruction_Signature i /\ vote_AdditionalVariableMessage v = AdditionalVariableMessage data.

(** Every recorded vote has its instruction among [served]. *)
Definition signed (tee : Address) (chain : Z) (served : list Instruction) (st : Storage) : Prop :=
  forall b a v, Ballots.votes_at st b !! a = Some v -> exists i, i ∈ served /\ stands_behind tee chain st b a v i.

Lemma stands_behind_epochs tee chain st st' b a v i :
  (forall p e, Ballots.epoch_at st p = Some e -> Ballots.epoch_at st' p = Some e) ->
  stands_behind tee chain st b a v i -> stands_behind tee chain st' b a v i.
Proof. intros He (? & ? & ? & (p & h & ? & ? & ?) & ?). split_and!; try done; [|naive_solver..]. exists p, h. auto. Qed.

Lemma signed_keeps tee chain served st st' :
  Ballots.keeps_votes st st' -> signed tee chain served st -> signed tee chain served st'.
Proof.
  intros [Hv He] Hs b a v Hb. destruct (Hs b a v (Hv b a v Hb)) as (i & Hi & Hi').
  exists i. split; [done|]. by eapply stands_behind_epochs.
Qed.

Lemma signed_more tee chain served served' st : signed tee chain served st -> signed tee chain (served ++ served') st.
Proof. intros Hs b a v Hb. destruct (Hs b a v Hb) as (i & Hi & Hi'). exists i. rewrite elem_of_app. auto. Qed.

(** One request: the votes it adds are its signer's. *)
Lemma AddVote_signed tee chain served st mt i c sent signer :
  inv st -> 0 <= RewardEpochID (instruction_Data i) -> TeeID (instruction_Data i) = tee ->
  IsValidPair (OPType (instruction_Data i)) (OPCommand (instruction_Data i)) = true -> RecoverSigner i chain = Ok signer ->
  signed tee chain served st ->
  signed tee chain (served ++ [i]) (AddVote st mt (instruction_Data i) signer (instruction_Signature i) c sent).1.
Proof.
  intros Hinv He Htee Hop Hsig Hs b a v Hb.
  destruct (Ballots.AddVote_votes st mt (instruction_Data i) signer (instruction_Signature i) c sent b)
    as (Hadd & Hbox & Hep).
  assert (Hold : Ballots.votes_at st b !! a = Some v -> exists i', i' ∈ served ++ [i] /\
    stands_behind tee chain (AddVote st mt (instruction_Data i) signer (instruction_Signature i) c sent).1 b a v i').
  { intros Ho. destruct (Hs b a v Ho) as (i' & Hi' & Hst). exists i'. split; [apply elem_of_app; by left|].
    eapply stands_behind_epochs; [|exact Hst]. intros p e. by rewrite Hep. }
  destruct (Hadd a v Hb) as [Ho|(-> & Hvs & Hva)]; [by apply Hold|].
  destruct Hbox as [Heq|(p & r & hash & -> & Hg & Hh)]; [apply Hold; by rewrite <- Heq|].
  exists i. split; [apply elem_of_app; right; by apply list_elem_of_singleton|].
  split_and!; try done. exists p, hash. split_and!; [done..|]. rewrite Hep. unfold Ballots.epoch_at.
  apply Get_Some in Hg as [Hc Hp]. destruct (inv_get st Hinv _ p He Hc) as (r' & Hr' & Her).
  rewrite Hr'. cbn. by rewrite Her.
Qed.

Lemma ServeInstruction_signed served s mt i c sent :
  inv (vs s) -> 0 <= RewardEpochID (instruction_Data i) -> signed (teeID s) (chainID s) served (vs s) ->
  signed (teeID s) (chainID s) (served ++ [i]) (vs (ServeInstruction s mt i c sent).1).
Proof.
  intros Hinv He Hs. unfold ServeInstruction. case_decide as Htee; [by apply signed_more|].
  destruct (IsValidPair _ _) eqn:Hop; cbn [negb]; [|by apply signed_more].
  destruct (RecoverSigner i _) as [signer|e|] eqn:Hsig; [|by apply signed_more..].
  pose proof (AddVote_signed (teeID s) (chainID s) served (vs s) mt i c sent signer Hinv He Htee Hop Hsig Hs) as Ha.
  change (vs (report s InstructionReceived)) with (vs s).
  destruct (AddVote _ _ _ _ _ _ _) as [v [r|e|]]; cbn [fst] in Ha; [exact Ha| |exact Ha].
  by destruct (errors_Is e _).
Qed.

Lemma imove_signed served s l s' :
  inv (vs s) -> imove s l s' -> signed (teeID s) (chainID s) served (vs s) ->
  teeID s' = teeID s /\ chainID s' = chainID s /\ signed (teeID s) (chainID s) (served ++ option_list l) (vs s').
Proof.
  intros Hinv [mt i c sent Hmt Hreq|now|policy Hp|b now taken Hb|b Hb|q] Hs; cbn [option_list].
  - destruct (ServeInstruction_vs s mt i c sent) as (_ & _ & Ht & Hc & _). split_and!; [done..|].
    apply ServeInstruction_signed; [done| |done]. apply Hreq.
  - assert (Htc : teeID (Forward_step s now) = teeID s /\ chainID (Forward_step s now) = chainID s).
    { unfold Forward_step. destruct (Out (vs s) !! forwarded s) as [[b a]|]; [|done].
      by destruct (Queue.Enqueue _ _ _ _) as [q [| |]]. }
    destruct Htc. split_and!; [done..|]. rewrite Forward_step_vs. by apply signed_more.
  - split_and!; [done..|]. apply signed_more. eapply signed_keeps; [|exact Hs]. by apply Ballots.StoreNewRound_votes.
  - split_and!; [done..|]. apply signed_more. eapply signed_keeps; [|exact Hs]. apply Ballots.scheduleEnd_votes.
  - split_and!; [done..|]. apply signed_more. by eapply signed_keeps; [|exact Hs].
  - split_and!; [done..|]. by apply signed_more.
Qed.

(** C23: no vote without a signature.  In every run of a service, through requests
    that are accepted or rejected, new policies, expiring boxes, forwarding and queue
    traffic in any order, every vote that any voting box holds comes from one of the
    instructions served in the run: one that is addressed to this TEE, is a valid
    operation, and whose signature over the configured chain recovers to the voter; the
    box is the one of the instruction's ID and hash, in the round of the reward epoch it
    names, and the vote carries that instruction's signature and variable message. *)
Theorem votes_are_signed cfg collect tee q chain served s b a v :
  config_ok cfg -> irun (NewService cfg collect tee q chain) served s ->
  Ballots.votes_at (vs s) b !! a = Some v ->
  exists i, i ∈ served /\ stands_behind tee chain (vs s) b a v i.
Proof.
  intros Hcfg Hrun. revert b a v.
  enough (teeID s = tee /\ chainID s = chain /\ signed tee chain served (vs s)) as (_ & _ & Hs) by exact Hs.
  assert (Hstart : signed tee chain [] (vs (NewService cfg collect tee q chain))).
  { intros [[p id] h] a v Hb. rewrite Ballots.votes_at_round in Hb. done. }
  induction Hrun as [|served l s1 s2 Hr (Ht & Hc & Hs) Hm]; [done|].
  assert (Hinv : inv (vs s1)).
  { apply reachable_inv, service_reachable. exists cfg, collect, tee, q, chain. split; [done|by eapply irun_steps]. }
  rewrite <- Ht, <- Hc in Hs. destruct (imove_signed served s1 l s2 Hinv Hm Hs) as (Ht' & Hc' & Hs').
  rewrite Ht, Hc in *. auto.
Qed.

(** What the handler promises for one request. *)
Definition ServeInstruction_spec (s : Service) (i : Instruction) (sent : bool)
    (out : stateful Service Receipt) : Prop :=
  let data := instruction_Data i in
  let admitted := TeeID data = teeID s /\ IsValidPair (OPType data) (OPCommand data) = true in
  aq out.1 = aq s /\ forwarded out.1 = forwarded s /\
  match out.2 with
  | Ok receipt =>
      admitted /\ ievents out.1 = ievents s ++ [InstructionReceived] /\
      exists signer, RecoverSigner i (chainID s) = Ok signer /\
        AddVote_spec (vs s) data signer sent (vs out.1, Ok receipt)
  | Fail e =>
      (vs out.1 = vs s \/
       exists signer, admitted /\ RecoverSigner i (chainID s) = Ok signer /\
         AddVote_spec (vs s) data signer sent (vs out.1, Fail e)) /\
      (errors_Is e "context.Canceled" = false ->
         exists reason, ievents out.1 = ievents s ++ [InstructionReceived; InstructionRejected reason])
  | Panic => False
  end.

Lemma ServeInstruction_meets_spec s mt i c sent :
  ireachable s -> MetaLaws mt -> request_ok (instruction_Data i) c ->
  ServeInstruction_spec s i sent (ServeInstruction s mt i c sent).
Proof.
  intros Hs%service_reachable%reachable_inv Hmt Hreq. unfold ServeInstruction_spec.
  destruct (ServeInstruction_vs s mt i c sent) as (-> & -> & _).
  split_and!; [done..|]. unfold ServeInstruction.
  case_decide as Htee; cbn -[AddVote_spec]; [split; [by left|intros _; eexists; rewrite <- app_assoc; reflexivity]|].
  assert (TeeID (instruction_Data i) = teeID s) as Htee' by (by destruct (decide (TeeID (instruction_Data i) = teeID s))).
  destruct (IsValidPair _ _) eqn:Hpair; cbn -[AddVote_spec]; [|split; [by left|intros _; eexists; rewrite <- app_assoc; reflexivity]].
  pose proof (RecoverSigner_no_panic i (chainID s)).
  destruct (RecoverSigner i (chainID s)) as [signer|e|] eqn:Hsig; cbn -[AddVote_spec];
    [|split; [by left|intros _; eexists; rewrite <- app_assoc; reflexivity]|done].
  pose proof (AddVote_meets_spec (vs s) mt (instruction_Data i) signer (instruction_Signature i) c sent Hs Hmt Hreq) as Ha.
  destruct (AddVote _ _ _ _ _ _ _) as [v [r|e|]]; [| |done].
  - cbn -[AddVote_spec]. split_and!; try done. by exists signer.
  - destruct (errors_Is e "context.Canceled") eqn:He; cbn -[AddVote_spec].
    + split; [right; by exists signer|]. intros Hf. by rewrite He in Hf.
    + split; [right; by exists signer|]. intros _. eexists. rewrite <- app_assoc. reflexivity.
Qed.

(** C5: an instruction in a running service.  A receipt is given only for an
    instruction addressed to this TEE, with a valid operation, whose signature
    recovers to the signer whose vote [AddVote] then records as specified; an
    instruction that fails the checks does not reach the voting; and every
    rejection is counted exactly once. *)
Theorem ServeInstruction_correct s mt i c sent :
  ireachable s -> MetaLaws mt -> request_ok (instruction_Data i) c ->
  ServeInstruction_spec s i sent (ServeInstruction s mt i c sent).
Proof. apply ServeInstruction_meets_spec. Qed.


(** The statuses of an instruction: one per box of the instruction in the
    round of the named epoch, in some order, each the status of that box; the two
    errors say which of the round and the instruction is missing. *)
Theorem Statuses_correct s id epoch :
  match Statuses_ s id epoch with
  | Ok sts =>
      sts_InstructionID sts = id /\
      exists p r boxes, Get (vs s) epoch = Some (p, r) /\ Voting r !! id = Some boxes /\
        sts_FinalizedHash sts = FinalizedHash boxes /\
        length (sts_Status sts) = size (boxes_M boxes) /\
        forall st, st ∈ sts_Status sts <-> exists h vb, boxes_M boxes !! h = Some vb /\ st = Box.box_Status vb
  | Fail e =>
      (e = errRoundNotStored /\ Get (vs s) epoch = None) \/
      (e = errNoInstruction /\ exists p r, Get (vs s) epoch = Some (p, r) /\ Voting r !! id = None)
  | Panic => False
  end.
Proof.
  unfold Statuses_. destruct (Get (vs s) epoch) as [[p r]|] eqn:Hg; [|by left].
  destruct (Voting r !! id) as [boxes|] eqn:Hb; [|right; by eauto]. cbn. split; [done|].
  exists p, r, boxes. split_and!; try done.
  - by rewrite !length_fmap, length_map_to_list.
  - intros st. rewrite list_elem_of_fmap. split.
    + intros (vb & -> & ([h vb'] & -> & Hin)%list_elem_of_fmap). apply elem_of_map_to_list in Hin. by exists h, vb'.
    + intros (h & vb & Hin & ->). exists vb. split; [done|]. apply list_elem_of_fmap. exists (h, vb).
      split; [done|]. by apply elem_of_map_to_list.
Qed.
End Facts.

Section ForwardFacts.
Context `{OpLib, InstructionLib, CyclicLib}.
Context `{RedisLib, !RedisLaws, Queue.NameLib, !Queue.NameLaws, !Json Action, !Json Queue.ActionSubmissionID}.
Context `{!JsonLaws Action, !JsonLaws Queue.ActionSubmissionID}.

Definition action_id (a : Action) : Queue.ActionSubmissionID :=
  Queue.mkSubmissionID (ad_ID (action_Data a)) (ad_SubmissionTag (action_Data a)) 0.

Definition Forward_steps (s : Service) (times : list Z) : Service := foldl Forward_step s times.

Lemma Forward_step_spec s now q b a :
  Queue.queues_of (Queue.client (aq s)) q -> Out (vs s) !! forwarded s = Some (b, a) ->
  let s' := Forward_step s now in
  vs s' = vs s /\ forwarded s' = S (forwarded s) /\
  exists kept q', Queue.queues_of (Queue.client (aq s')) q' /\
    q' Queue.Main = q Queue.Main ++ (if kept : bool then [action_id a] else []) /\
    (ievents s' = ievents s -> kept = true).
Proof.
  intros Hq Ho. cbn. unfold Forward_step. rewrite Ho.
  pose proof (Queue.Enqueue_meets_spec (aq s) now a Queue.Main q Hq) as He. unfold Queue.Enqueue_spec in He.
  destruct (Queue.Enqueue (aq s) now a Queue.Main) as [aq' [[]|e|]]; [| |done]; (split_and!; [done|done|]).
  - destruct He as (_ & Hq' & _). exists true. eexists. split_and!; [exact Hq'| |done].
    unfold Queue.upd; by rewrite decide_True.
  - destruct He as [_ [Hq'|Hq']]; [exists false|exists true]; (eexists; split_and!; [exact Hq'| |]); cbn.
    + by rewrite app_nil_r.
    + intros Hev. apply (f_equal length) in Hev. rewrite length_app in Hev. cbn in Hev. lia.
    + unfold Queue.upd; by rewrite decide_True.
    + done.
Qed.

Lemma Forward_step_ievents s now : ievents s `prefix_of` ievents (Forward_step s now).
Proof.
  unfold Forward_step. destruct (Out (vs s) !! forwarded s) as [[b a]|]; [|done].
  destruct (Queue.Enqueue _ _ _ _) as [q [| |]]; cbn; [done|by apply prefix_app_r|done].
Qed.

Lemma Forward_steps_ievents s times : ievents s `prefix_of` ievents (Forward_steps s times).
Proof.
  revert s. induction times as [|now times IH]; intros s; [done|].
  cbn. etrans; [apply Forward_step_ievents|apply IH].
Qed.

(** The forwarding loop hands the finished votings to the main queue in the
    order in which the voting sent them: after [n] rounds of the loop the queue
    has grown by a subsequence of the next [n] actions, in order, and by all of
    them if no failure was counted. *)
Theorem Forward_in_order s times q :
  Queue.queues_of (Queue.client (aq s)) q ->
  (forwarded s + length times <= length (Out (vs s)))%nat ->
  let s' := Forward_steps s times in
  let next := action_id ∘ snd <$> take (length times) (drop (forwarded s) (Out (vs s))) in
  vs s' = vs s /\ forwarded s' = (forwarded s + length times)%nat /\
  exists q' new, Queue.queues_of (Queue.client (aq s')) q' /\ q' Queue.Main = q Queue.Main ++ new /\
    new `sublist_of` next /\ (ievents s' = ievents s -> new = next).
Proof.
  revert s q. induction times as [|now times IH]; intros s q Hq Hlen; cbn [Forward_steps foldl length].
  { split_and!; [done|lia|]. exists q, []. split_and!; [done|by rewrite app_nil_r|apply sublist_nil_l|done]. }
  cbn [length] in Hlen. destruct (lookup_lt_is_Some_2 (Out (vs s)) (forwarded s)) as [[b a] Ho]; [lia|].
  destruct (Forward_step_spec s now q b a Hq Ho) as (Hvs & Hf & kept & q1 & Hq1 & Hm1 & Hk).
  destruct (IH (Forward_step s now) q1 Hq1) as (Hvs' & Hf' & q' & new & Hq' & Hm' & Hsub & Hall); [rewrite Hvs, Hf; lia|].
  unfold Forward_steps in *. rewrite Hvs, Hf in *.
  split_and!; [congruence|lia|]. exists q', ((if kept then [action_id a] else []) ++ new).
  rewrite (drop_S _ _ _ Ho). cbn [take fmap list_fmap compose snd].
  split_and!; [done|by rewrite Hm', Hm1, app_assoc| |].
  - destruct kept; [by apply sublist_skip|by apply sublist_cons].
  - intros Hev. assert (Hev1 : ievents (Forward_step s now) = ievents s).
    { apply (anti_symm prefix); [rewrite <- Hev; apply Forward_steps_ievents|apply Forward_step_ievents]. }
    rewrite (Hk Hev1), Hall by congruence. done.
Qed.
End ForwardFacts.

(** ** A concrete run *)

Module DemoInstructions.
Import DemoRedis Queue.DemoQueue.
#[local] Existing Instance Demo.instruction_lib.
#[local] Existing Instance Demo.op_lib.
#[local] Existing Instance Demo.instruction_laws.
#[local] Existing Instance Demo.instruction_hash_inj.
#[local] Existing Instance DemoCyclic.cyclic_lib.
#[local] Existing Instance DemoCyclic.cyclic_laws.

Definition tee : Address := TeeID Box.demo_data.
Definition q0 : Queue.ActionQueues := Queue.DemoQueue.empty.
Definition s0 : Service := NewService DemoRun.config true tee q0 14.
Definition s1 : Service := ListenToPolicies_step s0 Demo.policy.
Definition instr : Instruction := mkInstruction Box.demo_data [].
Definition serve (s : Service) : stateful Service Receipt :=
  ServeInstruction s DemoMeta.meta instr DemoRun.clock true.

Lemma service_s1_reachable : ireachable s1.
Proof.
  exists DemoRun.config, true, tee, q0, 14. split; [apply DemoRun.config_is_ok|].
  eapply rtc_l; [eexists; apply i_policy, Demo.policy_ok|apply rtc_refl].
Qed.

(** One instruction is served, and its vote is recorded. *)
Definition served1 : Service := (serve s1).1.

Lemma served1_run : irun s0 [instr] served1.
Proof.
  apply (irun_move s0 [] (Some instr) s1); [apply (irun_move s0 [] None s0); [apply irun_start|apply i_policy, Demo.policy_ok]|].
  apply i_serve; [exact DemoMeta.meta_laws|exact DemoRun.request].
Qed.

Lemma votes_are_signed_witness :
  exists v, Ballots.votes_at (vs served1) DemoRun.box !! 1%N = Some v /\
    exists i, i ∈ [instr] /\ stands_behind tee 14 (vs served1) DemoRun.box 1%N v i.
Proof.
  assert (Hv : is_Some (Ballots.votes_at (vs served1) DemoRun.box !! 1%N)) by (apply (bool_decide_unpack _); vm_compute; exact I).
  destruct Hv as [v Hv]. exists v. split; [exact Hv|].
  exact (votes_are_signed DemoRun.config true tee q0 14 [instr] served1 DemoRun.box 1%N v DemoRun.config_is_ok served1_run Hv).
Defined.

Lemma ServeInstruction_correct_witness :
  is_ok (serve s1).2 = true /\ ServeInstruction_spec s1 instr true (serve s1).
Proof.
  split; [vm_compute; reflexivity|].
  apply (ServeInstruction_correct s1 DemoMeta.meta instr DemoRun.clock true);
    [exact service_s1_reachable|exact DemoMeta.meta_laws|exact DemoRun.request].
Defined.

(** The voting of [DemoRun] has reached its threshold and sent one action. *)
Definition s2 : Service := mkService tee 14 DemoRun.s2 q0 0 [].

Lemma Forward_in_order_witness :
  length (Out DemoRun.s2) = 1%nat /\ forwarded (Forward_steps s2 [0]) = 1%nat.
Proof.
  assert (Hlen : length (Out DemoRun.s2) = 1%nat) by (vm_compute; reflexivity). split; [exact Hlen|].
  apply (Forward_in_order s2 [0] (fun _ => [])).
  - exact Queue.DemoQueue.empty_queues.
  - change (0 + 1 <= length (Out DemoRun.s2))%nat. rewrite Hlen. lia.
Defined.
End DemoInstructions.
End Instructions.
