(* ===== verification/Policies.v ===== *)
(** Signing policies ([pkg/policy]): the messages that initialize and update the
    node's policy, the recovery of the voters' public keys, and the collection of
    the signatures that authorize an update. *)

From S2P Require Import Prelude Hex Types Redis Queue.

Module Policies.

Definition maxAllowedConsecutiveErrors : Z := 15.
Definition costonRegistryMessageBreakingEpoch : Z := 5451.
Definition costonChainID : Z := 16.
(** 0xB4B93a3A3ADa93a574E6efeb5f295bf882934cB6. *)
Definition costonOldVoterRegistryAddress : Address := 1031749048937210742245610102711802072767621450934%N.

Definition ErrDeadlineExceeded : error := sentinel "policy.ErrDeadlineExceeded".
Definition ErrTooManyErrors : error := sentinel "policy.ErrTooManyErrors".
Definition errNotConsecutivePolicy : error := sentinel "policy.errNotConsecutivePolicy".
Definition errInvalidDataProvider : error := sentinel "policy.errInvalidDataProvider".
Definition errInvalidLogCountPubKeys : error := sentinel "policy.errInvalidLogCountPubKeys".
Definition errWrongAddressRecovered : error := sentinel "policy.errWrongAddressRecovered".
Definition errNoSigningPolicyLogs : error := sentinel "policy.errNoSigningPolicyLogs".

(** The label of a failed update; [None] is the nil error. *)
Definition UpdateFailureReason (err : option error) : string :=
  match err with
  | None => ""
  | Some err =>
      if errors_Is err (error_id errWrongAddressRecovered) then "pubkey_mismatch"
      else if errors_Is err (error_id ErrDeadlineExceeded) then "sig_deadline"
      else if errors_Is err (error_id ErrTooManyErrors) || errors_Is err (error_id errInvalidLogCountPubKeys)
      then "indexer"
      else if errors_Is err (error_id errNotConsecutivePolicy) then "not_consecutive"
      else "build_failed"
  end.

(** [registry.Signature]. *)
Record Signature : Type := mkSignature { sig_R : bytes; sig_S : bytes; sig_V : Z (* uint8 *) }.

Definition serializeSig (s : Signature) : bytes := sig_R s ++ sig_S s ++ [byte_of (sig_V s - 27)].

(** ** The libraries *)

(** [SigToPub] takes the hash after [accounts.TextHash]; [UnpackSign] decodes the
    three arguments of signNewSigningPolicy, the first a big.Int; [PackMessage] packs
    the registration message, without a chain for the legacy format. *)
Class PolicyLib : Type := {
  Log : Type;
  log_BlockNumber : Log -> Z;
  PolicyEvent : Type;
  PublicKey : Type;
  ParseSigningPolicyInitializedEvent : Log -> res PolicyEvent;
  NewSigningPolicy : PolicyEvent -> res SigningPolicy;
  ParseVoterRegisteredEvent : Log -> res (Address * Signature);
  PackMessage : option Z -> Z -> Address -> res bytes;
  UnpackSign : bytes -> res (Z * Hash * Signature);
  Keccak256 : bytes -> Hash;
  TextHash : Hash -> Hash;
  SigToPub : Hash -> bytes -> res PublicKey;
  PubkeyToAddress : PublicKey -> Address;
  ChainBoundHash : SigningPolicy -> Z -> Hash;
  Uint32ToHash : Z -> Hash;
  SigningPolicyInitializedEventSel : Hash;
  voterRegisteredEventSel : Hash;
  json_InitializePolicyRequest : bytes -> list PublicKey -> res bytes;
  json_UpdatePolicyRequest : bytes -> list bytes -> list PublicKey -> res bytes
}.

(** The indexer database as one query sees it: the state (timestamp and number
    of the last block), the inputs of the transactions that sign a policy in the
    blocks [(from, to]], and logs by address and topics, newest first. *)
Record DB `{PolicyLib} : Type := mkDB {
  FetchState : res (Z * Z);
  FetchTransactions : Address -> Z -> Z -> res (list string);
  FetchLogsFull : Address -> list Hash -> Z -> res (list Log);
  FetchLatestLogs : Address -> Hash -> Z -> res (list Log)
}.

Record Addresses : Type := mkAddresses {
  Relay : Address;
  FlareSystemsManager : Address;
  VoterRegistry : Address
}.

Section Ops.
Context `{PolicyLib}.

(** ** Public keys *)

(** The coston chain before the new registry. *)
Definition legacy (chainID epoch : Z) : bool :=
  bool_decide (chainID = costonChainID /\ epoch < costonRegistryMessageBreakingEpoch).

(** [AddressToHash]: zero padding on the left keeps the value. *)
Definition AddressToHash (a : Address) : Hash := a.

Definition fetchVoterRegistered (db : DB) (voterRegistryAddress : Address) (signingPolicyID : Z)
    (signingPolicyAddress : Address) : res (list Log) :=
  FetchLogsFull db voterRegistryAddress
    [voterRegisteredEventSel; zero_hash; Uint32ToHash signingPolicyID; AddressToHash signingPolicyAddress] (-1).

Definition recoverPubKeyFromRegistration (identityAddress : Address) (rewardEpochID : Z)
    (signature : Signature) (chainID : Z) : res PublicKey :=
  msg ← wrap (PackMessage (if legacy chainID rewardEpochID then None else Some chainID) rewardEpochID identityAddress);
  wrap (SigToPub (TextHash (Keccak256 msg)) (serializeSig signature)).

Definition recoverPubKeyFromEvent (signingPolicyAddress : Address) (signingPolicyID : Z) (log : Log)
    (chainID : Z) : res PublicKey :=
  '(voter, signature) ← wrap (ParseVoterRegisteredEvent log);
  pub ← wrap (recoverPubKeyFromRegistration voter signingPolicyID signature chainID);
  if decide (PubkeyToAddress pub <> signingPolicyAddress) then Fail errWrongAddressRecovered else Ok pub.

Definition recoverPubKey (db : DB) (signingPolicyAddress : Address) (signingPolicyID : Z)
    (voterRegistryAddress : Address) (chainID : Z) : res PublicKey :=
  vrLogs ← wrap (fetchVoterRegistered db voterRegistryAddress signingPolicyID signingPolicyAddress);
  match vrLogs with
  | [log] => wrap (recoverPubKeyFromEvent signingPolicyAddress signingPolicyID log chainID)
  | _ => Fail errInvalidLogCountPubKeys
  end.

(** The loop over the voters that both messages share. *)
Definition recoverPubKeys (db : DB) (p : SigningPolicy) (voterRegistryAddress : Address) (chainID : Z)
    : res (list PublicKey) :=
  let vrAdd := if legacy chainID (policy_RewardEpochID p) then costonOldVoterRegistryAddress
               else voterRegistryAddress in
  mapM (fun a => wrap (recoverPubKey db a (policy_RewardEpochID p) vrAdd chainID)) (policy_Voters p).

(** ** Collection of signatures *)

(** A panic of the slicing or of the decoding is recovered into an error. *)
Definition recoverInputsSignNewSigningPolicy (input : bytes) : res (Z * Hash * Signature) :=
  if decide (zlen input < 4) then Fail (errorf [errorf []])
  else
    match UnpackSign (drop 4 input) with
    | Panic => Fail (errorf [])
    | Fail e => Fail e
    | Ok (i0, hash, sig) => if decide (0 <= i0 < 2 ^ 32) then Ok (i0, hash, sig) else Fail (errorf [])
    end.

Definition recoverSigner (hash : Hash) (signature : Signature) : res PublicKey :=
  SigToPub (TextHash hash) (serializeSig signature).

Definition checkAndExtract (input : string) (expectedHash : Hash) (expectedRewardEpochID : Z)
    : res (PublicKey * Signature) :=
  inputB ← wrap (hex_DecodeString input);
  '(spID, hash, sig) ← wrap (recoverInputsSignNewSigningPolicy inputB);
  if decide (spID <> expectedRewardEpochID \/ hash <> expectedHash) then Fail errInvalidDataProvider
  else signer ← wrap (recoverSigner expectedHash sig); Ok (signer, sig).

(** [VoterWeightForAddress]. *)
Definition voter_weight (p : SigningPolicy) (a : Address) : Z := default 0 (policy_VoterData p !! a).

(** The variables of the loop. *)
Record Collection : Type := mkCollection {
  c_from : Z;                      (* int64 *)
  c_sigs : list Signature;
  c_voted : gset Address;
  c_weight : Z;                    (* uint16 *)
  c_errCount : Z
}.

(** The transactions of one query; the boolean is the break out of the main
    loop. *)
Fixpoint scan (active : SigningPolicy) (hash : Hash) (epoch : Z) (c : Collection) (txs : list string)
    : Collection * bool :=
  match txs with
  | [] => (c, false)
  | input :: txs =>
      match checkAndExtract input hash epoch with
      | Ok (signer, sig) =>
          let addr := PubkeyToAddress signer in
          let weight := voter_weight active addr in
          if decide (0 < weight /\ addr ∉ c_voted c) then
            let c := mkCollection (c_from c) (c_sigs c ++ [sig]) ({[addr]} ∪ c_voted c)
                       (u16 (c_weight c + weight)) (c_errCount c) in
            if decide (policy_Threshold active < c_weight c) then (c, true)
            else scan active hash epoch c txs
          else scan active hash epoch c txs
      | _ => scan active hash epoch c txs
      end
  end.

(** What one round of the loop sees: the context, the database, and the context
    at the end of the pause. *)
Record Tick : Type := mkTick { t_ctx : option error; t_db : DB; t_pause : option error }.

Definition count_error (c : Collection) (e : error) : Collection + res (list Signature) :=
  let n := c_errCount c + 1 in
  if decide (n < maxAllowedConsecutiveErrors)
  then inl (mkCollection (c_from c) (c_sigs c) (c_voted c) (c_weight c) n)
  else inr (Fail (errorf [ErrTooManyErrors; e])).

(** One round: the variables for the next, or the result. *)
Definition collect_round (manager : Address) (deadline : Z) (active : SigningPolicy) (hash : Hash) (epoch : Z)
    (c : Collection) (t : Tick) : Collection + res (list Signature) :=
  match t_ctx t with
  | Some e => inr (Fail e)
  | None =>
      match FetchState (t_db t) with
      | Panic => inr Panic
      | Fail e => count_error c e
      | Ok (timestamp, index) =>
          if decide (deadline < timestamp) then inr (Fail ErrDeadlineExceeded)
          else
            let to := i64 index in
            match FetchTransactions (t_db t) manager (c_from c) to with
            | Panic => inr Panic
            | Fail e => count_error c e
            | Ok txs =>
                let '(c, reached) := scan active hash epoch c txs in
                if reached then inr (Ok (c_sigs c))
                else
                  match t_pause t with
                  | Some e => inr (Fail e)
                  | None => inl (mkCollection to (c_sigs c) (c_voted c) (c_weight c) 0)
                  end
            end
      end
  end.

(** The loop over the rounds [ticks]; [inl]: it goes on after the last. *)
Fixpoint collect_loop (manager : Address) (deadline : Z) (active : SigningPolicy) (hash : Hash) (epoch : Z)
    (c : Collection) (ticks : list Tick) : Collection + res (list Signature) :=
  match ticks with
  | [] => inl c
  | t :: ticks =>
      match collect_round manager deadline active hash epoch c t with
      | inl c => collect_loop manager deadline active hash epoch c ticks
      | inr r => inr r
      end
  end.

Definition collect_start (startBlock : Z) : Collection := mkCollection startBlock [] ∅ 0 0.

Definition collectSignatures (manager : Address) (startBlock deadline : Z) (newPolicy activePolicy : SigningPolicy)
    (chainID : Z) (ticks : list Tick) : Collection + res (list Signature) :=
  if decide (policy_RewardEpochID newPolicy <> u32 (policy_RewardEpochID activePolicy + 1))
  then inr (Fail errNotConsecutivePolicy)
  else collect_loop manager deadline activePolicy (ChainBoundHash newPolicy chainID)
         (policy_RewardEpochID newPolicy) (collect_start startBlock) ticks.

(** ** Fetching *)

Definition FetchSigningPolicyLog (db : DB) (relayAddress : Address) (signingPolicyID : Z) : res (option Log) :=
  logs ← wrap (FetchLogsFull db relayAddress
    [SigningPolicyInitializedEventSel; Uint32ToHash signingPolicyID; zero_hash; zero_hash] 1);
  Ok (head logs).

Definition FetchSigningPolicy (db : DB) (relayAddress : Address) (signingPolicyID : Z) : res (option SigningPolicy) :=
  log ← FetchSigningPolicyLog db relayAddress signingPolicyID;
  match log with
  | None => Ok None
  | Some log =>
      event ← wrap (ParseSigningPolicyInitializedEvent log);
      p ← wrap (NewSigningPolicy event);
      Ok (if decide (policy_RewardEpochID p <> signingPolicyID) then None else Some p)
  end.
End Ops.

(** ** Messages and actions *)

Section Messages.
Context `{PolicyLib, OpLib, !Json Queue.DirectInstruction}.

Definition prepareInitializePolicyActionMessage (db : DB) (voterRegistryAddress : Address) (p : SigningPolicy)
    (chainID : Z) : res bytes :=
  pubKeys ← recoverPubKeys db p voterRegistryAddress chainID;
  wrap (json_InitializePolicyRequest (policy_RawBytes p) pubKeys).

(** [id] is the random identifier of the action.  The used offset is returned. *)
Definition InitializePolicyAction (db : DB) (addresses : Addresses) (offset : Z) (chainID : Z) (id : res Hash)
    : res (Action * SigningPolicy * Z) :=
  logs ← wrap (FetchLatestLogs db (Relay addresses) SigningPolicyInitializedEventSel (offset + 1));
  match last logs with
  | None => Fail errNoSigningPolicyLogs
  | Some log =>
      event ← wrap (ParseSigningPolicyInitializedEvent log);
      p ← wrap (NewSigningPolicy event);
      msg ← wrap (prepareInitializePolicyActionMessage db (VoterRegistry addresses) p chainID);
      action ← wrap (Queue.PrepareDirectAction PolicyType InitializePolicy msg id);
      Ok (action, p, zlen logs - 1)
  end.

(** The message of an update, once [collectSignatures] has returned. *)
Definition prepareUpdatePolicyMessage (db : DB) (voterRegistryAddress : Address) (nextPolicy : SigningPolicy)
    (sigs : res (list Signature)) (chainID : Z) : res bytes :=
  sigs ← wrap sigs;
  pubKeys ← recoverPubKeys db nextPolicy voterRegistryAddress chainID;
  wrap (json_UpdatePolicyRequest (policy_RawBytes nextPolicy) (serializeSig <$> sigs) pubKeys).

(** [ticks] are the rounds of the collection, [db] what the later queries see;
    [None]: the collection goes on. *)
Definition UpdatePolicyAction (db : DB) (addresses : Addresses) (log : Log) (activePolicy : SigningPolicy)
    (chainID deadline : Z) (ticks : list Tick) (id : res Hash) : option (res (Action * SigningPolicy)) :=
  match event ← wrap (ParseSigningPolicyInitializedEvent log); wrap (NewSigningPolicy event) with
  | Fail e => Some (Fail e)
  | Panic => Some Panic
  | Ok p =>
      match collectSignatures (FlareSystemsManager addresses) (log_BlockNumber log - 1) deadline p activePolicy
              chainID ticks with
      | inl _ => None
      | inr sigs => Some (
          msg ← wrap (prepareUpdatePolicyMessage db (VoterRegistry addresses) p sigs chainID);
          action ← wrap (Queue.PrepareDirectAction PolicyType UpdatePolicy msg id);
          Ok (action, p))
      end
  end.
End Messages.

(** ** Weights of voters *)

Definition list_weight (p : SigningPolicy) (l : list Address) : Z := list_sum (voter_weight p <$> l).

Lemma voter_weight_nonneg p a : policy_wf p -> 0 <= voter_weight p a.
Proof.
  intros Hp. unfold voter_weight. destruct (policy_VoterData p !! a) as [w|] eqn:Hw; cbn; [|lia].
  by eapply policy_wf_weight.
Qed.

Lemma list_weight_perm p l k : l ≡ₚ k -> list_weight p l = list_weight p k.
Proof. intros Hp. unfold list_weight. by rewrite Hp. Qed.

Lemma list_weight_set p l :
  NoDup l -> list_weight p l = map_sum (fun a _ => voter_weight p a) (gset_to_gmap tt (list_to_set l : gset Address)).
Proof.
  intros Hnd. rewrite <- list_sum_elements. apply list_weight_perm. symmetry. by apply elements_list_to_set.
Qed.

(** Distinct voters weigh no more than all voters together, and a subset no more
    than the set. *)
Lemma list_weight_bound p l : policy_wf p -> NoDup l -> 0 <= list_weight p l <= policy_TotalWeight p.
Proof.
  intros Hp Hnd. rewrite list_weight_set by done. split.
  - apply map_sum_nonneg. intros. by apply voter_weight_nonneg.
  - rewrite <- (policy_wf_total p Hp). apply map_sum_dom_le.
    + intros a w. by apply policy_wf_weight.
    + intros a x _. unfold voter_weight. by destruct (policy_VoterData p !! a).
Qed.

Lemma list_weight_subset p l k :
  policy_wf p -> NoDup l -> NoDup k -> (forall a, a ∈ l -> a ∈ k) -> list_weight p l <= list_weight p k.
Proof.
  intros Hp Hl Hk Hsub. rewrite !list_weight_set by done.
  apply (map_sum_dom_le (fun a _ => voter_weight p a) (fun a _ => voter_weight p a)).
  - intros. by apply voter_weight_nonneg.
  - intros a x Ha. apply lookup_gset_to_gmap_Some in Ha as [Ha _].
    rewrite lookup_gset_to_gmap, option_guard_True; [done|].
    apply elem_of_list_to_set, Hsub. by apply elem_of_list_to_set in Ha.
Qed.

Section Facts.
Context `{PolicyLib}.
Context (active : SigningPolicy) (hash : Hash) (epoch : Z) (active_wf : policy_wf active).

(** [input] is a transaction by which the voter [a] signed, with [sig]. *)
Definition signs (input : string) (a : Address) (sig : Signature) : Prop :=
  exists pub, checkAndExtract input hash epoch = Ok (pub, sig) /\ PubkeyToAddress pub = a /\
    0 < voter_weight active a.

(** What the variables of the loop stand for: the voters [signers] seen to sign
    in the transactions [seen], in order. *)
Record evidence (seen : string -> Prop) (c : Collection) (signers : list Address) : Prop := {
  ev_NoDup : NoDup signers;
  ev_voted : c_voted c = list_to_set signers;
  ev_sigs : Forall2 (fun a sig => exists input, seen input /\ signs input a sig) signers (c_sigs c);
  ev_weight : c_weight c = list_weight active signers
}.

Lemma evidence_mono (seen seen' : string -> Prop) c signers :
  (forall i, seen i -> seen' i) -> evidence seen c signers -> evidence seen' c signers.
Proof.
  intros Hs [Hn Hv Hf Hw]. constructor; try done. eapply Forall2_impl; [exact Hf|]. naive_solver.
Qed.

(** One more voter. *)
Lemma evidence_add (seen : string -> Prop) c signers input a sig :
  evidence seen c signers -> seen input -> signs input a sig -> a ∉ c_voted c ->
  evidence seen (mkCollection (c_from c) (c_sigs c ++ [sig]) ({[a]} ∪ c_voted c)
    (u16 (c_weight c + voter_weight active a)) (c_errCount c)) (signers ++ [a]).
Proof.
  intros Hev Hin Hsg Hnv. rewrite (ev_voted _ _ _ Hev), elem_of_list_to_set in Hnv.
  assert (Hnd' : NoDup (signers ++ [a])).
  { apply NoDup_app. split_and!; [by apply Hev|set_solver|apply NoDup_singleton]. }
  pose proof (list_weight_bound active _ active_wf Hnd'). pose proof (policy_wf_total_u16 _ active_wf).
  assert (Hw : list_weight active (signers ++ [a]) = list_weight active signers + voter_weight active a).
  { rewrite (list_weight_perm _ (signers ++ [a]) (a :: signers)) by by rewrite Permutation_app_comm.
    unfold list_weight. rewrite fmap_cons, list_sum_cons. lia. }
  constructor; cbn; [done| | |].
  - rewrite (ev_voted _ _ _ Hev), list_to_set_app_L. set_solver.
  - apply Forall2_app; [apply Hev|]. constructor; [|constructor]. by exists input.
  - rewrite (ev_weight _ _ _ Hev), <- Hw. apply u16_small. lia.
Qed.

Lemma scan_spec (seen : string -> Prop) txs c signers :
  (forall i, i ∈ txs -> seen i) -> evidence seen c signers -> c_weight c <= policy_Threshold active ->
  let '(c', reached) := scan active hash epoch c txs in
  exists signers', evidence seen c' signers' /\ signers `prefix_of` signers' /\
    c_from c' = c_from c /\ c_errCount c' = c_errCount c /\
    if reached then
      policy_Threshold active < c_weight c' /\
      exists init a, signers' = init ++ [a] /\ list_weight active init <= policy_Threshold active
    else
      c_weight c' <= policy_Threshold active /\
      forall input a sig, input ∈ txs -> signs input a sig -> a ∈ signers'.
Proof.
  revert c signers. induction txs as [|input txs IH]; intros c signers Hseen Hev Hle; cbn [scan].
  { exists signers. split_and!; try done. by intros ??? ?%elem_of_nil. }
  assert (Hrest : forall i, i ∈ txs -> seen i) by (intros; apply Hseen; by right).
  assert (Hskip : (forall a sig, signs input a sig -> a ∈ signers) ->
    let '(c', reached) := scan active hash epoch c txs in
    exists signers', evidence seen c' signers' /\ signers `prefix_of` signers' /\
      c_from c' = c_from c /\ c_errCount c' = c_errCount c /\
      if reached then
        policy_Threshold active < c_weight c' /\
        exists init a, signers' = init ++ [a] /\ list_weight active init <= policy_Threshold active
      else c_weight c' <= policy_Threshold active /\
        forall input' a sig, input' ∈ input :: txs -> signs input' a sig -> a ∈ signers').
  { intros Hin. pose proof (IH c signers Hrest Hev Hle) as Hs.
    destruct (scan active hash epoch c txs) as [c' []]; destruct Hs as (sg & He & Hp & Hf & Hc & Hr);
      exists sg; split_and!; try done; [apply Hr..|].
    intros input' a sig [->|Hi]%elem_of_cons Hsg; [|by eapply Hr].
    destruct Hp as [k ->]. apply elem_of_app. left. by eapply Hin. }
  destruct (checkAndExtract input hash epoch) as [[pub sig]|e|] eqn:Hx.
  - case_decide as Hnew.
    + destruct Hnew as [Hpos Hnv]. set (a := PubkeyToAddress pub) in *.
      assert (Hsg : signs input a sig) by by exists pub.
      pose proof (evidence_add seen c signers input a sig Hev (Hseen _ ltac:(left)) Hsg Hnv) as Hev1.
      set (c1 := mkCollection _ _ _ _ _) in *.
      case_decide as Hthr.
      * exists (signers ++ [a]). split_and!; try done; [by apply prefix_app_r|].
        exists signers, a. split; [done|]. rewrite <- (ev_weight _ _ _ Hev). done.
      * pose proof (IH c1 (signers ++ [a]) Hrest Hev1 (proj1 (Z.nlt_ge _ _) Hthr)) as Hs.
        destruct (scan active hash epoch c1 txs) as [c' []]; destruct Hs as (sg & He & Hp & Hf & Hc & Hr);
          exists sg; (split_and!; [done|etrans; [by apply prefix_app_r|exact Hp]|done|done|..]); [apply Hr..|].
        intros input' b sig' [->|Hi]%elem_of_cons Hsg'; [|by eapply Hr].
        destruct Hsg' as (pub' & Hx' & <- & _). rewrite Hx in Hx'. injection Hx' as <- <-.
        destruct Hp as [k ->]. set_solver.
    + apply Hskip. intros a sig' (pub' & Hx' & <- & Hpos). rewrite Hx in Hx'. injection Hx' as <- <-.
      destruct (decide (PubkeyToAddress pub ∈ c_voted c)) as [Hv|Hv]; [|tauto].
      by rewrite (ev_voted _ _ _ Hev), elem_of_list_to_set in Hv.
  - apply Hskip. intros a sig (pub & Hx' & _). congruence.
  - apply Hskip. intros a sig (pub & Hx' & _). congruence.
Qed.

(** ** The loop *)

(** [input] came from a query of one of the rounds. *)
Definition offered (manager : Address) (ticks : list Tick) (input : string) : Prop :=
  exists t from to txs, t ∈ ticks /\ FetchTransactions (t_db t) manager from to = Ok txs /\ input ∈ txs.

(** What a round, or the loop, may lead to from the signers so far: it goes on
    with at least those, it fails, or it returns the signatures of a set of voters
    beyond the threshold, which the voters before the last did not exceed. *)
Definition progress (seen : string -> Prop) (signers : list Address) (x : Collection + res (list Signature)) : Prop :=
  match x with
  | inl c' => exists signers', evidence seen c' signers' /\ c_weight c' <= policy_Threshold active /\
      signers `prefix_of` signers'
  | inr (Ok sigs) => exists signers' c', evidence seen c' signers' /\ c_sigs c' = sigs /\
      policy_Threshold active < list_weight active signers' /\
      exists init a, signers' = init ++ [a] /\ list_weight active init <= policy_Threshold active
  | inr _ => True
  end.

Lemma count_error_progress seen c signers e :
  evidence seen c signers -> c_weight c <= policy_Threshold active -> progress seen signers (count_error c e).
Proof.
  intros Hev Hle. unfold count_error. case_decide; [|done]. exists signers.
  split_and!; [by destruct Hev; constructor|done|done].
Qed.

Lemma collect_round_spec manager deadline c t signers (seen : string -> Prop) :
  evidence seen c signers -> c_weight c <= policy_Threshold active ->
  (forall i, offered manager [t] i -> seen i) ->
  progress seen signers (collect_round manager deadline active hash epoch c t).
Proof.
  intros Hev Hle Hseen. unfold collect_round. destruct (t_ctx t); [done|].
  destruct (FetchState (t_db t)) as [[ts idx]|e|]; [|by apply count_error_progress|done].
  case_decide; [done|].
  destruct (FetchTransactions _ _ _ _) as [txs|e|] eqn:Htx; [|by apply count_error_progress|done].
  pose proof (scan_spec seen txs c signers) as Hs. destruct (scan active hash epoch c txs) as [c' reached].
  destruct Hs as (sg & He & Hp & _ & _ & Hr); [|done|done|].
  { intros i Hi. apply Hseen. exists t, (c_from c), (i64 idx), txs. split_and!; [left|done|done]. }
  destruct reached; cbn.
  - exists sg, c'. split_and!; [done|done| |apply Hr]. rewrite <- (ev_weight _ _ _ He). apply Hr.
  - destruct (t_pause t); [done|]. exists sg. split_and!; [by destruct He; constructor|apply Hr|done].
Qed.

Lemma offered_cons manager t ticks i :
  offered manager (t :: ticks) i <-> offered manager [t] i \/ offered manager ticks i.
Proof. unfold offered. setoid_rewrite elem_of_cons. setoid_rewrite elem_of_nil. naive_solver. Qed.

Lemma collect_loop_spec manager deadline ticks c signers (seen : string -> Prop) :
  evidence seen c signers -> c_weight c <= policy_Threshold active ->
  (forall i, offered manager ticks i -> seen i) ->
  progress seen signers (collect_loop manager deadline active hash epoch c ticks).
Proof.
  revert c signers. induction ticks as [|t ticks IH]; intros c signers Hev Hle Hseen; cbn [collect_loop].
  { by exists signers. }
  pose proof (collect_round_spec manager deadline c t signers seen Hev Hle) as Hr.
  destruct (collect_round manager deadline active hash epoch c t) as [c'|r].
  - destruct Hr as (sg & He & Hw & Hp); [intros i Hi; apply Hseen, offered_cons; by left|].
    pose proof (IH c' sg He Hw) as Hi. unfold progress in *.
    destruct (collect_loop manager deadline active hash epoch c' ticks) as [c2|[sigs| |]]; try done.
    + destruct Hi as (sg' & He' & Hw' & Hp'); [|exists sg'; split_and!; [done|done|by etrans]].
      intros i Hi. apply Hseen, offered_cons. by right.
    + apply Hi. intros i Hi'. apply Hseen, offered_cons. by right.
  - apply Hr. intros i Hi. apply Hseen, offered_cons. by left.
Qed.

Lemma collect_start_evidence start (seen : string -> Prop) : evidence seen (collect_start start) [].
Proof. by constructor; [constructor|..]; try constructor. Qed.

(** ** A database that answers *)

(** The indexer has indexed the chain, a list of transactions with their
    blocks, up to [idx]: its queries succeed and return exactly the transactions
    of their range. *)
Definition answers (manager : Address) (deadline : Z) (chain : list (Z * string)) (t : Tick) (idx : Z) : Prop :=
  t_ctx t = None /\ t_pause t = None /\ 0 <= idx < 2 ^ 63 /\
  (exists ts, FetchState (t_db t) = Ok (ts, idx) /\ ts <= deadline) /\
  forall from, exists txs, FetchTransactions (t_db t) manager from idx = Ok txs /\
    forall input, (exists b, (b, input) ∈ chain /\ from < b <= idx) -> input ∈ txs.

(** All signers up to the block where the next query starts are known. *)
Definition covers (chain : list (Z * string)) (start : Z) (c : Collection) (signers : list Address) : Prop :=
  forall b input a sig, (b, input) ∈ chain -> start < b <= c_from c -> signs input a sig -> a ∈ signers.

Lemma collect_round_answers manager deadline chain start c t idx signers :
  answers manager deadline chain t idx -> evidence (fun _ => True) c signers ->
  c_weight c <= policy_Threshold active -> covers chain start c signers ->
  (exists sigs, collect_round manager deadline active hash epoch c t = inr (Ok sigs)) \/
  exists c' signers', collect_round manager deadline active hash epoch c t = inl c' /\
    evidence (fun _ => True) c' signers' /\ c_weight c' <= policy_Threshold active /\
    c_from c' = idx /\ covers chain start c' signers'.
Proof.
  intros (Hctx & Hpause & Hidx & (ts & Hst & Hts) & Hq) Hev Hle Hcov. unfold collect_round.
  rewrite Hctx, Hst, decide_False by lia. rewrite i64_small by lia.
  destruct (Hq (c_from c)) as (txs & -> & Htx).
  pose proof (scan_spec (fun _ => True) txs c signers) as Hs. destruct (scan active hash epoch c txs) as [c' reached].
  destruct Hs as (sg & He & [k Hp] & Hf & _ & Hr); [done|done|done|].
  destruct reached; [left; by eexists|]. right. rewrite Hpause. eexists _, sg. split_and!; [done|..].
  - by destruct He; constructor.
  - apply Hr.
  - done.
  - intros b input a sig Hb Hrange Hsg. cbn in Hrange. destruct (decide (b <= c_from c)) as [Hold|Hnew].
    + rewrite Hp. apply elem_of_app. left. eapply Hcov; [done| |done]. lia.
    + eapply Hr; [|done]. apply Htx. exists b. split; [done|lia].
Qed.

Lemma collect_loop_answers manager deadline chain start ticks idxs c signers :
  Forall2 (answers manager deadline chain) ticks idxs -> evidence (fun _ => True) c signers ->
  c_weight c <= policy_Threshold active -> covers chain start c signers ->
  (exists sigs, collect_loop manager deadline active hash epoch c ticks = inr (Ok sigs)) \/
  exists c' signers', collect_loop manager deadline active hash epoch c ticks = inl c' /\
    evidence (fun _ => True) c' signers' /\ c_weight c' <= policy_Threshold active /\
    c_from c' = default (c_from c) (last idxs) /\ covers chain start c' signers'.
Proof.
  intros Hall. revert c signers. induction Hall as [|t idx ticks idxs Ht Hall IH]; intros c signers Hev Hle Hcov.
  { right. by exists c, signers. }
  cbn [collect_loop].
  destruct (collect_round_answers manager deadline chain start c t idx signers Ht Hev Hle Hcov)
    as [[sigs ->]|(c' & sg & -> & He & Hw & Hf & Hc)]; [left; by eexists|].
  destruct (IH c' sg He Hw Hc) as [?|(c2 & sg2 & -> & He2 & Hw2 & Hf2 & Hc2)]; [by left|].
  right. exists c2, sg2. split_and!; try done. rewrite Hf2, Hf. rewrite last_cons. by destruct (last idxs).
Qed.
End Facts.

Section Theorems.
Context `{PolicyLib}.

(** C10: the signatures that are returned authorize the update: the new policy is
    the next one, each signature was made, in a transaction the indexer returned,
    by a voter of the active policy for the hash of the new policy, no voter is
    counted twice, the voters weigh more than the threshold -- exactly, the 16-bit
    sum does not wrap -- and no more signatures are collected than needed. *)
Theorem collectSignatures_sound manager start deadline newPolicy active chainID ticks sigs :
  policy_wf active ->
  collectSignatures manager start deadline newPolicy active chainID ticks = inr (Ok sigs) ->
  policy_RewardEpochID newPolicy = u32 (policy_RewardEpochID active + 1) /\
  exists signers, NoDup signers /\
    Forall2 (fun a sig => exists input, offered manager ticks input /\
      signs active (ChainBoundHash newPolicy chainID) (policy_RewardEpochID newPolicy) input a sig) signers sigs /\
    policy_Threshold active < list_weight active signers /\
    exists init a, signers = init ++ [a] /\ list_weight active init <= policy_Threshold active.
Proof.
  intros Hwf. unfold collectSignatures. case_decide as Hnext; [done|]. intros Hrun.
  assert (Hthr : 0 <= policy_Threshold active) by apply (policy_wf_threshold _ Hwf).
  pose proof (collect_loop_spec active (ChainBoundHash newPolicy chainID) (policy_RewardEpochID newPolicy) Hwf
    manager deadline ticks (collect_start start) [] (offered manager ticks)
    (collect_start_evidence _ _ _ _ _) Hthr (fun _ Hi => Hi)) as Hp.
  rewrite Hrun in Hp. destruct Hp as (signers & c & He & <- & Hw & Hinit).
  split; [by destruct (decide (policy_RewardEpochID newPolicy = u32 (policy_RewardEpochID active + 1)))|].
  exists signers. split_and!; try done; apply He.
Qed.

(** C31: no authorization is missed.  If the indexer answers every query, and
    voters of the active policy weighing more than the threshold have signed the
    next policy in blocks after the start and up to the one the indexer has
    reached in the last round, then the collection has returned -- however the
    blocks are spread over the rounds, even if the indexer fell back in between. *)
Theorem collectSignatures_complete manager start deadline newPolicy active chainID ticks idxs chain voters last_idx :
  policy_wf active -> policy_RewardEpochID newPolicy = u32 (policy_RewardEpochID active + 1) ->
  Forall2 (answers manager deadline chain) ticks idxs -> last idxs = Some last_idx ->
  NoDup voters -> policy_Threshold active < list_weight active voters ->
  (forall a, a ∈ voters -> exists b input sig, (b, input) ∈ chain /\ start < b <= last_idx /\
     signs active (ChainBoundHash newPolicy chainID) (policy_RewardEpochID newPolicy) input a sig) ->
  exists sigs, collectSignatures manager start deadline newPolicy active chainID ticks = inr (Ok sigs).
Proof.
  intros Hwf Hnext Hall Hlast Hnd Hthr Hsigned. unfold collectSignatures. rewrite decide_False by tauto.
  assert (H0 : 0 <= policy_Threshold active) by apply (policy_wf_threshold _ Hwf).
  destruct (collect_loop_answers active (ChainBoundHash newPolicy chainID) (policy_RewardEpochID newPolicy) Hwf
    manager deadline chain start ticks idxs (collect_start start) [] Hall (collect_start_evidence _ _ _ _ _) H0)
    as [?|(c & signers & _ & He & Hw & Hf & Hc)]; [|done|].
  { intros b input a sig _ Hr. cbn in Hr. lia. }
  exfalso. rewrite (ev_weight _ _ _ _ _ _ He) in Hw.
  assert (list_weight active voters <= list_weight active signers); [|lia].
  apply list_weight_subset; [done|done|by apply He|].
  intros a Ha. destruct (Hsigned a Ha) as (b & input & sig & Hb & Hrange & Hsg).
  eapply Hc; [done| |done]. rewrite Hf, Hlast. done.
Qed.
End Theorems.

(** ** A concrete run *)

Module DemoPolicies.

(** A transaction is four bytes of selector and the epoch, the hash and the
    signer, one byte each. *)
#[export] Instance policy_lib : PolicyLib := {|
  Log := SigningPolicy;
  log_BlockNumber l := 100;
  PolicyEvent := SigningPolicy;
  PublicKey := N;
  ParseSigningPolicyInitializedEvent l := Ok l;
  NewSigningPolicy e := Ok e;
  ParseVoterRegisteredEvent l := Fail (errorf []);
  PackMessage c e a := Ok [];
  UnpackSign b := match b with
    | [e; h; k] => Ok (Z.of_N (Byte.to_N e), Byte.to_N h, mkSignature [k] [] 27)
    | _ => Fail (errorf []) end;
  Keccak256 b := N.of_nat (length b);
  TextHash h := h;
  SigToPub h sig := match sig with k :: _ => Ok (Byte.to_N k) | [] => Fail (errorf []) end;
  PubkeyToAddress k := k;
  ChainBoundHash p c := 9%N;
  Uint32ToHash z := Z.to_N z;
  SigningPolicyInitializedEventSel := 1%N;
  voterRegisteredEventSel := 2%N;
  json_InitializePolicyRequest b ks := Ok b;
  json_UpdatePolicyRequest b sigs ks := Ok b
|}.

Definition next : SigningPolicy := mkPolicy 6 50 [1%N; 2%N; 3%N] (policy_VoterData Demo.policy) 100 [].
Definition chain : list (Z * string) := [(101, "00000000060901"); (103, "0000000006AA02"); (104, "00000000060902")]%string.
Definition txs_in (from to : Z) : list string := snd <$> filter (fun x => from < x.1 <= to) chain.

(** The indexer at block [idx]. *)
Definition tick (idx : Z) : Tick :=
  mkTick None (mkDB _ (Ok (0, idx)) (fun _ from to => Ok (txs_in from to)) (fun _ _ _ => Ok []) (fun _ _ _ => Ok [])) None.
Definition ticks : list Tick := [tick 102; tick 101; tick 105].
Definition collected := collectSignatures 7 99 1000 next Demo.policy 14 ticks.

Lemma tick_answers idx : 0 <= idx < 2 ^ 63 -> answers 7 1000 chain (tick idx) idx.
Proof.
  intros Hidx. split_and!; try done; try lia.
  - exists 0. split; [done|lia].
  - intros from. exists (txs_in from idx). split; [done|]. intros input (b & Hin & Hr).
    unfold txs_in. apply list_elem_of_fmap. exists (b, input). split; [done|]. by apply list_elem_of_filter.
Qed.

Lemma collectSignatures_sound_witness :
  exists signers, NoDup signers /\ 50 < list_weight Demo.policy signers.
Proof.
  assert (Hrun : collected = inr (Ok [mkSignature [Byte.x01] [] 27; mkSignature [Byte.x02] [] 27]))
    by (vm_compute; reflexivity).
  destruct (collectSignatures_sound 7 99 1000 next Demo.policy 14 ticks _ Demo.policy_ok Hrun)
    as (_ & signers & Hnd & _ & Hw & _).
  exists signers. split; [exact Hnd|exact Hw].
Defined.

Lemma collectSignatures_complete_witness : exists sigs, collected = inr (Ok sigs).
Proof.
  apply (collectSignatures_complete 7 99 1000 next Demo.policy 14 ticks [102; 101; 105] chain [1%N; 2%N] 105).
  - exact Demo.policy_ok.
  - reflexivity.
  - repeat constructor; apply tick_answers; lia.
  - reflexivity.
  - apply (bool_decide_unpack _). vm_compute. exact I.
  - reflexivity.
  - intros a Ha. rewrite !elem_of_cons, elem_of_nil in Ha. destruct Ha as [->|[->|[]]].
    + exists 101, "00000000060901"%string, (mkSignature [Byte.x01] [] 27). split_and!; [left|lia|lia|].
      exists 1%N. split_and!; [vm_compute; reflexivity|reflexivity|reflexivity].
    + exists 104, "00000000060902"%string, (mkSignature [Byte.x02] [] 27). split_and!; [right; right; left|lia|lia|].
      exists 2%N. split_and!; [vm_compute; reflexivity|reflexivity|reflexivity].
Defined.
End DemoPolicies.
End Policies.
