(* ===== verification/PolicyService.v ===== *)
(** The policy service ([internal/service/policy/policy.go]): the policies the
    proxy starts from, and the loop that moves the proxy and the node to the next
    policy in lockstep. *)

From S2P Require Import Prelude Types Redis Queue Results Policies.

Module PolicyService.
Import Policies.
Import Results(ActionResponse, Result, ar_Status).

Definition errPolicyEventMissing : error := sentinel "policy.errPolicyEventMissing".
Definition enqueueMaxAttempts : nat := 5.

Section Service.
Context `{RedisLib, Queue.NameLib, !Json Action, !Json Queue.ActionSubmissionID, !Json Queue.DirectInstruction}.
Context `{OpLib, PolicyLib}.

Inductive PolicyEvent_ : Type :=
| SetActiveRewardEpoch (epoch : Z)
| SetPolicyFetched
| PolicyUpdate (outcome : string)
| NodeWait (err : option error).

(** [out]: the policies sent to the channel of the instruction service. *)
Record Service : Type := mkService {
  aq : Queue.ActionQueues;
  scAddresses : Addresses;
  chainID : Z;
  activePolicy : option SigningPolicy;
  restartPolicies : option (list SigningPolicy);
  out : list SigningPolicy;
  pevents : list PolicyEvent_
}.

Definition NewService (aq : Queue.ActionQueues) (addresses : Addresses) (chainID : Z) : Service :=
  mkService aq addresses chainID None None [] [].

Definition set_aq (s : Service) (q : Queue.ActionQueues) : Service :=
  mkService q (scAddresses s) (chainID s) (activePolicy s) (restartPolicies s) (out s) (pevents s).
Definition set_active (s : Service) (p : SigningPolicy) : Service :=
  mkService (aq s) (scAddresses s) (chainID s) (Some p) (restartPolicies s) (out s)
    (pevents s ++ [SetActiveRewardEpoch (policy_RewardEpochID p); SetPolicyFetched]).
Definition set_restart (s : Service) (ps : option (list SigningPolicy)) : Service :=
  mkService (aq s) (scAddresses s) (chainID s) (activePolicy s) ps (out s) (pevents s).
Definition observe (s : Service) (o : string) : Service :=
  mkService (aq s) (scAddresses s) (chainID s) (activePolicy s) (restartPolicies s) (out s)
    (pevents s ++ [PolicyUpdate o]).
Definition note (s : Service) (e : PolicyEvent_) : Service :=
  mkService (aq s) (scAddresses s) (chainID s) (activePolicy s) (restartPolicies s) (out s) (pevents s ++ [e]).
Definition put (s : Service) (p : SigningPolicy) : Service :=
  mkService (aq s) (scAddresses s) (chainID s) (activePolicy s) (restartPolicies s) (out s ++ [p]) (pevents s).

(** ** Start *)

(** The node's answer: the hash of its initial policy (zero before it is
    initialized) and its last policy. *)
Record TeeInfo : Type := mkTeeInfo { InitialSigningPolicyHash : Hash; LastSigningPolicyID : Z (* uint32 *) }.

(** The backfill loop [for id := startID; id <= lastID; id++]; [None]: out of
    fuel. *)
Fixpoint backfill (fuel : nat) (db : DB) (relay : Address) (id lastID : Z) (policies : list SigningPolicy)
    : option (res (list SigningPolicy)) :=
  if decide (lastID < id) then Some (Ok policies)
  else
    match fuel with
    | O => None
    | S fuel =>
        match FetchSigningPolicy db relay id with
        | Panic => Some Panic
        | Fail e => Some (Fail (errorf [e]))
        | Ok None =>
            if decide (id = lastID) then Some (Fail (errorf [errPolicyEventMissing]))
            else backfill fuel db relay (u32 (id + 1)) lastID policies
        | Ok (Some p) => backfill fuel db relay (u32 (id + 1)) lastID (policies ++ [p])
        end
    end.

(** [offset] is not negative. *)
Definition Initialize (fuel : nat) (s : Service) (db : DB) (offset : Z) (info : TeeInfo) (now : Z) (id : res Hash)
    : option (stateful Service unit) :=
  if decide (InitialSigningPolicyHash info <> zero_hash) then
    let lastID := LastSigningPolicyID info in
    let back := Z.min (u32 offset) lastID in
    match backfill fuel db (Relay (scAddresses s)) (lastID - back) lastID [] with
    | None => None
    | Some (Fail e) => Some (s, Fail e)
    | Some Panic => Some (s, Panic)
    | Some (Ok policies) =>
        match last policies with
        | None => Some (s, Panic)        (* policies[-1] *)
        | Some lastPolicy => Some (set_restart (set_active s lastPolicy) (Some policies), Ok tt)
        end
    end
  else
    match InitializePolicyAction db (scAddresses s) offset (chainID s) id with
    | Fail e => Some (s, Fail (errorf [e]))
    | Panic => Some (s, Panic)
    | Ok (action, p, _) =>
        let s := set_active s p in
        let '(q, o) := Queue.Enqueue (aq s) now action Queue.Direct in
        Some (set_aq s q, o)
    end.

(** [Run], up to the start of the update loop. *)
Definition Run (s : Service) : stateful Service unit :=
  match activePolicy s with
  | None => (s, Fail (errorf []))
  | Some active =>
      match restartPolicies s with
      | Some ps => (set_restart (foldl put s ps) None, Ok tt)
      | None => (put s active, Ok tt)
      end
  end.

(** ** The update loop *)

(** [retry.Execute]: the enqueue is tried at the given times until it
    succeeds. *)
Fixpoint retry_enqueue (q : Queue.ActionQueues) (action : Action) (times : list Z) : Queue.ActionQueues * bool :=
  match times with
  | [] => (q, false)
  | now :: times =>
      match Queue.Enqueue q now action Queue.Direct with
      | (q, Ok _) => (q, true)
      | (q, _) => retry_enqueue q action times
      end
  end.

(** What one round of the loop meets: whether the context has ended, the node's
    last applied policy, the database, the rounds of the signature collection and
    its deadline, the random action identifier, the times of the attempts to
    enqueue, the outcome of the wait for the node, and whether a policy is
    delivered before the context ends. *)
Record Round : Type := mkRound {
  r_cancelled : bool;
  r_nodeID : Z;                  (* uint32 *)
  r_db : DB;
  r_ticks : list Tick;
  r_deadline : Z;
  r_id : res Hash;
  r_times : list Z;
  r_response : res ActionResponse;
  r_emitted : bool
}.

Inductive next : Type := Again | Stopped.

Definition emit (s : Service) (p : SigningPolicy) (emitted : bool) : Service * next :=
  if emitted then (put s p, Again) else (s, Stopped).

(** The adoption of the node's policy. *)
Definition reconcile (s : Service) (r : Round) : Service * next :=
  match FetchSigningPolicy (r_db r) (Relay (scAddresses s)) (r_nodeID r) with
  | Ok (Some p) => emit (observe (set_active s p) "reconciled") p (r_emitted r)
  | _ => (observe s "reconcile_error", Again)
  end.

(** The part of a round after the action has been built. *)
Definition apply_update (s : Service) (r : Round) (action : Action) (newPolicy : SigningPolicy) : Service * next :=
  let '(q, enqueued) := retry_enqueue (aq s) action (take enqueueMaxAttempts (r_times r)) in
  let s := set_aq s q in
  if negb enqueued then (observe s "enqueue_failed", Again)
  else
    let s := note s (NodeWait (failure (r_response r))) in
    match r_response r with
    | Ok resp =>
        if decide (ar_Status (Result resp) <> 1) then (observe s "rejected", Again)
        else emit (observe (set_active s newPolicy) "applied") newPolicy (r_emitted r)
    | _ => (observe s "await_failed", Again)
    end.

(** One round of [update].  The pauses between rounds end the loop only when the
    context ends, which the next round sees.  A collection of signatures that
    goes on leaves the state as it is. *)
Definition update_round (s : Service) (active : SigningPolicy) (r : Round) : Service * next :=
  if r_cancelled r then (s, Stopped)
  else if decide (policy_RewardEpochID active < r_nodeID r) then reconcile s r
  else
    let target := u32 (policy_RewardEpochID active + 1) in
    match FetchSigningPolicyLog (r_db r) (Relay (scAddresses s)) target with
    | Ok None => (observe (note s SetPolicyFetched) "empty", Again)
    | Ok (Some log) =>
        match UpdatePolicyAction (r_db r) (scAddresses s) log active (chainID s) (r_deadline r) (r_ticks r) (r_id r) with
        | None => (s, Again)
        | Some (Ok (action, newPolicy)) => apply_update s r action newPolicy
        | Some (Fail e) => (observe s (UpdateFailureReason (Some e)), Again)
        | Some Panic => (s, Stopped)
        end
    | _ => (observe s "fetch_error", Again)
    end.

(** The loop over the rounds it gets to; [s.activePolicy] is set when it starts. *)
Fixpoint update (s : Service) (rounds : list Round) : Service :=
  match rounds, activePolicy s with
  | r :: rounds, Some active =>
      match update_round s active r with
      | (s, Again) => update s rounds
      | (s, Stopped) => s
      end
  | _, _ => s
  end.
End Service.

(** ** Theorems *)

Section Facts.
Context `{RedisLib, Queue.NameLib, !Json Action, !Json Queue.ActionSubmissionID, !Json Queue.DirectInstruction}.
Context `{OpLib, PolicyLib}.

(** The node confirmed [p] as the successor of [active]: it answered the update
    with status 1, after enough of the voters of [active] had signed [p]. *)
Definition confirmed (s : Service) (r : Round) (active p : SigningPolicy) : Prop :=
  (exists resp, r_response r = Ok resp /\ ar_Status (Result resp) = 1) /\
  exists log sigs, collectSignatures (FlareSystemsManager (scAddresses s)) (log_BlockNumber log - 1) (r_deadline r)
    p active (chainID s) (r_ticks r) = inr (Ok sigs).

(** How a round may change the active policy. *)
Definition advances (s : Service) (r : Round) (active p : SigningPolicy) : Prop :=
  (policy_RewardEpochID active < r_nodeID r /\ policy_RewardEpochID p = r_nodeID r) \/
  (r_nodeID r <= policy_RewardEpochID active /\
   policy_RewardEpochID p = u32 (policy_RewardEpochID active + 1) /\ confirmed s r active p).

Lemma FetchSigningPolicy_epoch db relay id p :
  FetchSigningPolicy db relay id = Ok (Some p) -> policy_RewardEpochID p = id.
Proof.
  unfold FetchSigningPolicy. intros ([log|] & _ & Hp)%res_bind_ok; [|done].
  apply res_bind_ok in Hp as (ev & _ & Hp). apply res_bind_ok in Hp as (p' & _ & Hp).
  case_decide as He; [done|]. injection Hp as ->. by destruct (decide (policy_RewardEpochID p = id)).
Qed.

(** An action is built only from collected signatures. *)
Lemma UpdatePolicyAction_signed db addresses log active chain deadline ticks id action p :
  UpdatePolicyAction db addresses log active chain deadline ticks id = Some (Ok (action, p)) ->
  exists sigs, collectSignatures (FlareSystemsManager addresses) (log_BlockNumber log - 1) deadline p active chain ticks
    = inr (Ok sigs).
Proof.
  unfold UpdatePolicyAction.
  destruct (ParseSigningPolicyInitializedEvent log) as [ev| |]; cbn; [|done|done].
  destruct (NewSigningPolicy ev) as [p'| |]; cbn; [|done|done].
  destruct (collectSignatures _ _ _ _ _ _ _) as [|[sigs| |]] eqn:Hc; cbn; try done.
  intros [= Hb]. apply res_bind_ok in Hb as (msg & _ & Hb). apply res_bind_ok in Hb as (a & _ & [= -> ->]).
  by exists sigs.
Qed.

Lemma collectSignatures_next manager start deadline p active chain ticks sigs :
  collectSignatures manager start deadline p active chain ticks = inr (Ok sigs) ->
  policy_RewardEpochID p = u32 (policy_RewardEpochID active + 1).
Proof.
  unfold collectSignatures. case_decide as Hd; [done|]. intros _.
  by destruct (decide (policy_RewardEpochID p = u32 (policy_RewardEpochID active + 1))).
Qed.

(** What one round does: nothing to the policies, or one advance, emitted unless
    the service stops. *)
Definition round_spec (s : Service) (r : Round) (active : SigningPolicy) (res : Service * next) : Prop :=
  let '(s', n) := res in
  scAddresses s' = scAddresses s /\ chainID s' = chainID s /\
  ((activePolicy s' = activePolicy s /\ out s' = out s) \/
   exists p, advances s r active p /\ activePolicy s' = Some p /\
     (out s' = out s ++ [p] /\ n = Again \/ out s' = out s /\ n = Stopped)).

Lemma update_round_spec s active r : round_spec s r active (update_round s active r).
Proof.
  unfold round_spec, update_round. destruct (r_cancelled r); [by auto|].
  case_decide as Hnode.
  - unfold reconcile. destruct (FetchSigningPolicy _ _ _) as [[p|]| |] eqn:Hf; try (by auto).
    apply FetchSigningPolicy_epoch in Hf. unfold emit.
    destruct (r_emitted r); (split_and!; [done|done|]); right; exists p; split_and!; [by left|done|by left|by left|done|by right].
  - destruct (FetchSigningPolicyLog _ _ _) as [[log|]| |]; try (by auto).
    destruct (UpdatePolicyAction _ _ _ _ _ _ _ _) as [[[action p]| |]|] eqn:Hu; try (by auto).
    apply UpdatePolicyAction_signed in Hu as (sigs & Hsigs). unfold apply_update.
    destruct (retry_enqueue _ _ _) as [q ok]. destruct ok; cbn; [|by auto].
    destruct (r_response r) as [resp| |] eqn:Hresp; try (by auto).
    case_decide as Hst; [by auto|]. assert (ar_Status (Result resp) = 1) as Hst' by lia.
    assert (Hadv : advances s r active p).
    { right. split_and!; [lia|by eapply collectSignatures_next|]. split; [by exists resp|]. by exists log, sigs. }
    unfold emit. destruct (r_emitted r); (split_and!; [done|done|]); right; exists p; split_and!; [done|done|by left|done|done|by right].
Qed.

(** ** Runs of the loop *)

Fixpoint chain {A} (R : A -> A -> Prop) (a : A) (l : list A) : Prop :=
  match l with [] => True | b :: l => R a b /\ chain R b l end.

Lemma chain_impl {A} (R R' : A -> A -> Prop) a l :
  (forall x y, R x y -> R' x y) -> chain R a l -> chain R' a l.
Proof. intros Hi. revert a. induction l as [|b l IH]; cbn; naive_solver. Qed.

Definition u32_epoch (p : SigningPolicy) : Prop := 0 <= policy_RewardEpochID p < 2 ^ 32.

(** The epoch rises, except that the successor of the largest is 0. *)
Definition succeeds (a b : SigningPolicy) : Prop :=
  u32_epoch b /\ (policy_RewardEpochID a < policy_RewardEpochID b \/
    policy_RewardEpochID a = 2 ^ 32 - 1 /\ policy_RewardEpochID b = 0).

Lemma advances_succeeds s r a b : u32_epoch a -> 0 <= r_nodeID r < 2 ^ 32 -> advances s r a b -> succeeds a b.
Proof.
  intros Ha Hr [[Hlt Heq]|(_ & Heq & _)]; unfold succeeds, u32_epoch in *; rewrite Heq; [lia|].
  unfold u32. destruct (decide (policy_RewardEpochID a = 2 ^ 32 - 1)) as [->|Hne].
  - rewrite Z.sub_add, Z_mod_same_full. lia.
  - rewrite Z.mod_small by lia. lia.
Qed.

Lemma advances_same s s' r a b :
  scAddresses s' = scAddresses s -> chainID s' = chainID s -> advances s' r a b -> advances s r a b.
Proof. unfold advances, confirmed. intros -> ->. done. Qed.

Lemma update_advances s rounds active :
  activePolicy s = Some active ->
  exists ps q, out (update s rounds) = out s ++ ps /\
    chain (fun a b => exists r, r ∈ rounds /\ advances s r a b) active ps /\
    activePolicy (update s rounds) = Some q /\
    (q = default active (last ps) \/ exists r, r ∈ rounds /\ advances s r (default active (last ps)) q).
Proof.
  revert s active. induction rounds as [|r rounds IH]; intros s active Ha; cbn [update].
  { exists [], active. by rewrite app_nil_r; split_and!; [..|left]. }
  rewrite Ha. pose proof (update_round_spec s active r) as Hr.
  destruct (update_round s active r) as [s1 n]. destruct Hr as (Hsc & Hch & Hstep).
  assert (Hmono : forall a b, (exists r', r' ∈ rounds /\ advances s1 r' a b) ->
    exists r', r' ∈ r :: rounds /\ advances s r' a b).
  { intros a b (r' & Hin & Hadv). exists r'. split; [by right|]. by eapply advances_same. }
  destruct Hstep as [[Ha' Ho]|(p & Hadv & Ha' & [[Ho ->]|[Ho ->]])].
  - rewrite Ha in Ha'. destruct n.
    + destruct (IH s1 active Ha') as (ps & q & U1 & U2 & U3 & U4). exists ps, q.
      rewrite Ho in U1. split_and!; [done|eapply chain_impl; [exact Hmono|exact U2]|done|]. destruct U4; [by left|right; by apply Hmono].
    + exists [], active. rewrite app_nil_r. split_and!; [done|done|done|by left].
  - destruct (IH s1 p Ha') as (ps & q & U1 & U2 & U3 & U4). exists (p :: ps), q.
    assert (Hlast : default active (last (p :: ps)) = default p (last ps)) by (rewrite last_cons; by destruct (last ps)).
    rewrite Hlast. rewrite Ho, <- app_assoc in U1. split_and!; [done| |done|].
    + split; [exists r; split; [left|done]|eapply chain_impl; [exact Hmono|exact U2]].
    + destruct U4; [by left|right; by apply Hmono].
  - exists [], p. rewrite app_nil_r. split_and!; [done|done|done|]. right. exists r. split; [left|done].
Qed.

(** C11: lockstep.  Whatever the rounds of the loop meet, the policies it hands to
    the instruction service form a chain: each is either the very next epoch,
    signed by voters of the one before beyond its threshold and confirmed by the
    node, or the policy the node reports it has already applied, which is later;
    so epochs only rise and none is skipped unless the node is ahead.  The active
    policy is the last one handed over, or, when the service stops in between, one
    advance further. *)
Theorem update_lockstep s rounds active :
  activePolicy s = Some active -> u32_epoch active -> Forall (fun r => 0 <= r_nodeID r < 2 ^ 32) rounds ->
  exists ps q, out (update s rounds) = out s ++ ps /\
    chain (fun a b => succeeds a b /\ exists r, r ∈ rounds /\ advances s r a b) active ps /\
    activePolicy (update s rounds) = Some q /\
    (q = default active (last ps) \/
     exists r, r ∈ rounds /\ advances s r (default active (last ps)) q).
Proof.
  intros Ha Hu Hall. destruct (update_advances s rounds active Ha) as (ps & q & U1 & U2 & U3 & U4).
  exists ps, q. split_and!; try done. clear -Hu Hall U2. revert active Hu U2.
  induction ps as [|p ps IH]; intros active Hu; cbn; [done|]. intros [(r & Hin & Hadv) Hc].
  rewrite Forall_forall in Hall. pose proof (advances_succeeds s r active p Hu (Hall r Hin) Hadv) as Hs.
  split; [by eauto|]. apply IH; [apply Hs|done].
Qed.

(** ** Restart *)

(** The policies of the epochs [ids] that the relay's history has, in order. *)
Definition found (db : DB) (relay : Address) (ids : list Z) : list SigningPolicy :=
  omap (fun id => match FetchSigningPolicy db relay id with Ok o => o | _ => None end) ids.

Lemma backfill_spec fuel db relay id lastID policies :
  0 <= id <= lastID -> lastID < 2 ^ 32 - 1 -> (Z.to_nat (lastID - id) < fuel)%nat ->
  exists r, backfill fuel db relay id lastID policies = Some r /\
    forall ps, r = Ok ps -> exists p, FetchSigningPolicy db relay lastID = Ok (Some p) /\
      ps = policies ++ found db relay (seqZ id (lastID - id)) ++ [p].
Proof.
  revert id policies. induction fuel as [|fuel IH]; intros id policies Hid Hlast Hf; [lia|].
  cbn [backfill]. rewrite decide_False by lia.
  destruct (decide (id = lastID)) as [->|Hne].
  - rewrite Z.sub_diag. cbn. destruct (FetchSigningPolicy db relay lastID) as [[p|]|e|] eqn:Hp;
      try (eexists; split; [done|]; by intros).
    assert (Hu : u32 (lastID + 1) = lastID + 1) by (apply u32_small; lia). rewrite Hu.
    assert (Hstop : backfill fuel db relay (lastID + 1) lastID (policies ++ [p]) = Some (Ok (policies ++ [p])))
      by (destruct fuel; cbn; by rewrite decide_True by lia).
    rewrite Hstop. eexists. split; [done|]. intros ps [= <-]. by exists p.
  - assert (Hu : u32 (id + 1) = id + 1) by (apply u32_small; lia). rewrite Hu.
    assert (Hseq : seqZ id (lastID - id) = id :: seqZ (id + 1) (lastID - (id + 1))).
    { rewrite seqZ_cons by lia. do 2 f_equal; lia. }
    rewrite Hseq. destruct (FetchSigningPolicy db relay id) as [[p|]|e|] eqn:Hp;
      try (eexists; split; [done|]; by intros).
    + destruct (IH (id + 1) (policies ++ [p])) as (r & Hr & Hps); [lia|done|lia|].
      exists r. split; [done|]. intros ps Hok. destruct (Hps ps Hok) as (q & Hq & ->). exists q. split; [done|].
      cbn. rewrite Hp. cbn. by rewrite <- !app_assoc.
    + destruct (IH (id + 1) policies) as (r & Hr & Hps); [lia|done|lia|].
      exists r. split; [done|]. intros ps Hok. destruct (Hps ps Hok) as (q & Hq & ->). exists q. split; [done|].
      cbn. rewrite Hp. done.
Qed.

Lemma Initialize_effect fuel s db offset info now id :
  InitialSigningPolicyHash info <> zero_hash ->
  0 <= LastSigningPolicyID info < 2 ^ 32 - 1 -> 0 <= offset < 2 ^ 32 -> offset < Z.of_nat fuel ->
  let lastID := LastSigningPolicyID info in
  let first := lastID - Z.min offset lastID in
  exists s' o, Initialize fuel s db offset info now id = Some (s', o) /\ aq s' = aq s /\
    (o = Ok tt -> exists p, activePolicy s' = Some p /\ policy_RewardEpochID p = lastID /\
       FetchSigningPolicy db (Relay (scAddresses s)) lastID = Ok (Some p) /\
       out (Run s').1 = out s ++ found db (Relay (scAddresses s)) (seqZ first (lastID - first)) ++ [p]).
Proof.
  intros Hinit Hlast Hoff Hfuel lastID first. unfold Initialize. rewrite decide_True by done.
  rewrite u32_small by lia. fold lastID. fold first.
  destruct (backfill_spec fuel db (Relay (scAddresses s)) first lastID []) as (r & -> & Hps); [lia|lia|lia|].
  destruct r as [ps|e|]; [|by eexists _, _..].
  destruct (Hps ps eq_refl) as (p & Hp & ->). cbn [app]. rewrite last_snoc.
  eexists _, _. split_and!; [done|done|]. intros _. exists p. split_and!; [done|by eapply FetchSigningPolicy_epoch|done|].
  unfold Run. cbn [activePolicy set_restart set_active restartPolicies fst].
  assert (Hfold : forall l s0, out (foldl put s0 l) = out s0 ++ l).
  { intros l. induction l as [|x l IH]; intros s0; cbn; [by rewrite app_nil_r|]. rewrite IH. cbn.
    by rewrite <- app_assoc. }
  cbn. by rewrite Hfold.
Qed.

(** C38: after a restart (the node holds policies up to [lastID]) the start
    terminates, and if it succeeds the active policy is the node's last one; the
    loop then first hands over exactly the policies the relay's history has of the
    last [offset] epochs before it, oldest first, and it; and nothing is sent to
    the node. *)
Theorem Initialize_restart fuel s db offset info now id :
  InitialSigningPolicyHash info <> zero_hash ->
  0 <= LastSigningPolicyID info < 2 ^ 32 - 1 -> 0 <= offset < 2 ^ 32 -> offset < Z.of_nat fuel ->
  let lastID := LastSigningPolicyID info in
  let first := lastID - Z.min offset lastID in
  exists s' o, Initialize fuel s db offset info now id = Some (s', o) /\ aq s' = aq s /\
    (o = Ok tt -> exists p, activePolicy s' = Some p /\ policy_RewardEpochID p = lastID /\
       out (Run s').1 = out s ++ found db (Relay (scAddresses s)) (seqZ first (lastID - first)) ++ [p]).
Proof.
  intros Hi Hl Ho Hf lastID first. destruct (Initialize_effect fuel s db offset info now id Hi Hl Ho Hf) as (s' & o & Hs & Hq & Hp).
  exists s', o. split_and!; [done|done|]. intros Hok. destruct (Hp Hok) as (p & ? & ? & _ & ?). by exists p.
Qed.

(** The epochs of what the history has are some of those asked for, in order. *)
Lemma found_epochs db relay ids : (policy_RewardEpochID <$> found db relay ids) `sublist_of` ids.
Proof.
  unfold found. induction ids as [|id ids IH]; cbn; [constructor|].
  destruct (FetchSigningPolicy db relay id) as [[p|]|e|] eqn:Hf; cbn; [|by constructor..].
  apply FetchSigningPolicy_epoch in Hf as ->. by constructor.
Qed.
Lemma elem_of_found db relay ids id p :
  id ∈ ids -> FetchSigningPolicy db relay id = Ok (Some p) -> p ∈ found db relay ids.
Proof. intros Hid Hf. apply list_elem_of_omap. exists id. by rewrite Hf. Qed.
End Facts.

(** ** A concrete run *)

Module DemoPolicyService.
Import DemoRedis Queue.DemoQueue DemoPolicies.
#[local] Existing Instance Demo.op_lib.
#[local] Instance direct_json : Json Queue.DirectInstruction :=
  {| json_Marshal i := Ok []; json_Unmarshal b := Fail (errorf []) |}.

(** A relay with the policies of the epochs 5 and 6. *)
Definition relay_db : DB := mkDB _ (Ok (0, 105)) (fun _ _ _ => Ok [])
  (fun _ topics _ => Ok (filter (fun p => Uint32ToHash (policy_RewardEpochID p) = nth 1 topics 0%N) [Demo.policy; next]))
  (fun _ _ _ => Ok []).

Definition s0 : Service := NewService Queue.DemoQueue.empty (mkAddresses 1 2 3) 14.
Definition info : TeeInfo := mkTeeInfo 77 6.
Definition restarted : option (stateful Service unit) := Initialize 10 s0 relay_db 1 info 0 (Ok 1%N).

Example restarted_policies :
  (fun x => (is_ok x.2, policy_RewardEpochID <$> out (Run x.1).1)) <$> restarted = Some (true, [5; 6]).
Proof. vm_compute. reflexivity. Qed.

Lemma Initialize_restart_witness : exists s' o, restarted = Some (s', o) /\ aq s' = aq s0.
Proof.
  destruct (Initialize_restart 10 s0 relay_db 1 info 0 (Ok 1%N)) as (s' & o & Hr & Hq & _);
    [discriminate|cbn; lia|lia|lia|].
  exists s', o. split; [exact Hr|exact Hq].
Defined.

(** The node has already applied the policy 6. *)
Definition running : Service := set_active s0 Demo.policy.
Definition behind : Round :=
  mkRound false 6 relay_db [] 0 (Ok 1%N) [] (Fail (errorf [])) true.

Lemma update_lockstep_witness :
  (policy_RewardEpochID <$> out (update running [behind])) = [6] /\
  exists ps, out (update running [behind]) = ps.
Proof.
  split; [vm_compute; reflexivity|].
  destruct (update_lockstep running [behind] Demo.policy) as (ps & q & Ho & _).
  - reflexivity.
  - split; cbn; lia.
  - repeat constructor; cbn; lia.
  - exists ps. exact Ho.
Defined.
End DemoPolicyService.
End PolicyService.
