(* ===== verification/Attestation.v ===== *)
(** Verification of the node's attestation ([pkg/attestation]): the checks of [Verify]
    in their order, the label of an error, and the optional checks that are active.
    Parsing and validating the token is a parameter. *)

From S2P Require Import Prelude Hex.

Module Attestation.

Definition allowedClockSkew : Z := 30 * second.

Definition ErrDisabled : error := sentinel "attestation.ErrDisabled".
Definition ErrMagicPassDisabled : error := sentinel "attestation.ErrMagicPassDisabled".
Definition ErrChallengeMismatch : error := sentinel "attestation.ErrChallengeMismatch".
Definition ErrPubKeyMismatch : error := sentinel "attestation.ErrPubKeyMismatch".
Definition ErrTokenTooOld : error := sentinel "attestation.ErrTokenTooOld".
Definition ErrSecBootDisabled : error := sentinel "attestation.ErrSecBootDisabled".
Definition ErrDebugNotAllowed : error := sentinel "attestation.ErrDebugNotAllowed".
Definition ErrCodeHashNotAllowed : error := sentinel "attestation.ErrCodeHashNotAllowed".
Definition ErrPlatformNotAllowed : error := sentinel "attestation.ErrPlatformNotAllowed".
Definition ErrChainIDMismatch : error := sentinel "attestation.ErrChainIDMismatch".
Definition ErrJWTInvalid : error := sentinel "attestation.ErrJWTInvalid".

(** [types.PublicKey] of the node: two 32-byte arrays. *)
Definition PublicKey : Type := N * N.

(** [types.TeeInfoResponse], as far as the proxy reads it; [ti_rest] and [md_rest] are
    the other fields. *)
Record TeeInfo : Type := mkTeeInfo {
  Challenge : Hash;
  ti_PublicKey : PublicKey;
  ti_ChainID : Z;                    (* uint64 *)
  InitialSigningPolicyHash : Hash;
  LastSigningPolicyID : Z;           (* uint32 *)
  MachinePathListNonce : Z;          (* uint64 *)
  ti_rest : bytes
}.
Record MachineData : Type := mkMachineData {
  md_PublicKey : PublicKey;
  GovernanceHash : Hash;
  ExtensionID : Hash;
  md_rest : bytes
}.
Record TeeInfoResponse : Type := mkTeeInfoResponse {
  teeInfo : TeeInfo;
  machineData : MachineData;
  attestation : string
}.

(** Certificates, revocation lists, the claims of a token that have no field below;
    [TeeInfo.Hash], [ParseAndValidatePKIToken] with the policy it is given (audience,
    image IDs, nonce; the issuer is fixed). *)
Class AttestationLib : Type := {
  Certificate : Type;
  RevocationList : Type;
  ClaimsRest : Type;
  claims_CodeHash : ClaimsRest -> res Hash;
  claims_Platform : ClaimsRest -> res Hash;
  MagicPass : string;
  TeeInfo_Hash : TeeInfo -> res bytes;
  validate_token : string -> option Certificate -> option RevocationList -> option RevocationList ->
    string -> gset Hash -> string -> res (option Z * bool * string * ClaimsRest);
  GoogleCSRoot : res Certificate;
  StringToCommonHash : string -> res Hash
}.

(** [googlecloud.GoogleTeeClaims]. *)
Record GoogleTeeClaims `{AttestationLib} : Type := mkClaims {
  IssuedAt : option Z;               (* nil or a time *)
  SecBoot : bool;
  DebugStatus : string;
  claims_rest : ClaimsRest
}.
Arguments mkClaims {_}.

Record Config `{AttestationLib} : Type := mkConfig {
  Enabled : bool;
  RootCert : option Certificate;
  LeafCRL : option RevocationList;
  IntermediateCRL : option RevocationList;
  Audience : string;
  AllowedImageIDs : list Hash;
  ChainID : Z;                       (* uint64 *)
  ExpectedCodeHash : list Hash;
  ExpectedPlatform : list Hash;
  ExpectedDebugStatus : list string;
  MaxTokenAge : Z;                   (* time.Duration *)
  RequireSecBoot : bool;
  AllowMagicPass : bool
}.
Arguments mkConfig {_}.

Record ActiveChecks : Type := mkActive {
  ac_Audience : bool;
  ac_CodeHash : bool;
  ac_Platform : bool;
  ac_DebugStatus : bool;
  ac_MaxTokenAge : bool;
  ac_SecBoot : bool;
  ac_MagicPass : bool
}.

Section Ops.
Context `{AttestationLib}.

Definition Active (cfg : Config) : ActiveChecks :=
  mkActive (bool_decide (Audience cfg <> ""%string)) (bool_decide (0 < zlen (ExpectedCodeHash cfg)))
    (bool_decide (0 < zlen (ExpectedPlatform cfg))) (bool_decide (0 < zlen (ExpectedDebugStatus cfg)))
    (bool_decide (0 < MaxTokenAge cfg)) (RequireSecBoot cfg) (AllowMagicPass cfg).

Definition imageIDSet (ids : list Hash) : gset Hash := foldl (fun out id => {[id]} ∪ out) ∅ ids.

Definition verifyBedrock (tir : TeeInfoResponse) (sentChallenge : Hash) : res unit :=
  if decide (Challenge (teeInfo tir) <> sentChallenge) then Fail ErrChallengeMismatch
  else if decide (ti_PublicKey (teeInfo tir) <> md_PublicKey (machineData tir)) then Fail ErrPubKeyMismatch
  else Ok tt.

Definition verifyChainID (tir : TeeInfoResponse) (chainID : Z) : res unit :=
  if decide (ti_ChainID (teeInfo tir) <> chainID) then Fail (errorf [ErrChainIDMismatch]) else Ok tt.

(** The check of the age of the token, at the time [now]. *)
Definition verifyAge (claims : GoogleTeeClaims) (cfg : Config) (now : Z) : res unit :=
  if decide (0 < MaxTokenAge cfg) then
    match IssuedAt claims with
    | None => Fail (errorf [ErrTokenTooOld])
    | Some iat =>
        let age := time_Sub now iat in
        if decide (MaxTokenAge cfg < age) then Fail (errorf [ErrTokenTooOld])
        else if decide (age < - allowedClockSkew) then Fail (errorf [ErrTokenTooOld])
        else Ok tt
    end
  else Ok tt.

Definition verifyClaims (claims : GoogleTeeClaims) (cfg : Config) (now : Z) : res unit :=
  _ ← verifyAge claims cfg now;
  if RequireSecBoot cfg && negb (SecBoot claims) then Fail ErrSecBootDisabled
  else if decide (0 < zlen (ExpectedDebugStatus cfg) /\ DebugStatus claims ∉ ExpectedDebugStatus cfg)
  then Fail (errorf [ErrDebugNotAllowed])
  else
    _ ← (if decide (0 < zlen (ExpectedCodeHash cfg)) then
           ch ← wrap (claims_CodeHash (claims_rest claims));
           if decide (ch ∉ ExpectedCodeHash cfg) then Fail (errorf [ErrCodeHashNotAllowed]) else Ok tt
         else Ok tt);
    if decide (0 < zlen (ExpectedPlatform cfg)) then
      p ← wrap (claims_Platform (claims_rest claims));
      if decide (p ∉ ExpectedPlatform cfg) then Fail (errorf [ErrPlatformNotAllowed]) else Ok tt
    else Ok tt.

(** [googlecloud.ParseAndValidatePKIToken] with the policy for the nonce. *)
Definition ParseAndValidatePKIToken (token : string) (cfg : Config) (nonce : string) : res GoogleTeeClaims :=
  '(iat, boot, dbg, rest) ← validate_token token (RootCert cfg) (LeafCRL cfg) (IntermediateCRL cfg)
                              (Audience cfg) (imageIDSet (AllowedImageIDs cfg)) nonce;
  Ok (mkClaims iat boot dbg rest).

Definition IsMagicPass (tir : TeeInfoResponse) : bool := bool_decide (attestation tir = MagicPass).

Definition Verify (tir : TeeInfoResponse) (sentChallenge : Hash) (cfg : Config) (now : Z) : res unit :=
  if negb (Enabled cfg) then Ok tt
  else
    _ ← verifyBedrock tir sentChallenge;
    _ ← verifyChainID tir (ChainID cfg);
    if decide (attestation tir = MagicPass) then
      if negb (AllowMagicPass cfg) then Fail ErrMagicPassDisabled else Ok tt
    else
      teeInfoHash ← wrap (TeeInfo_Hash (teeInfo tir));
      match ParseAndValidatePKIToken (attestation tir) cfg (hex_EncodeToString teeInfoHash) with
      | Panic => Panic
      | Fail e => Fail (errorf [ErrJWTInvalid; e])
      | Ok claims => verifyClaims claims cfg now
      end.
End Ops.

(** ** Labels of errors *)

Definition ErrorReasons : list string :=
  ["challenge_mismatch"; "pubkey_mismatch"; "chain_id_mismatch"; "magic_pass_disabled"; "token_too_old";
   "sec_boot_disabled"; "debug_not_allowed"; "code_hash_not_allowed"; "platform_not_allowed"; "jwt_invalid";
   "other"]%string.
Definition ReasonMagicPass : string := "magic_pass".

(** [None] is the nil error. *)
Definition Reason (err : option error) : string :=
  match err with
  | None => "ok"
  | Some err =>
      if errors_Is err (error_id ErrChallengeMismatch) then "challenge_mismatch"
      else if errors_Is err (error_id ErrPubKeyMismatch) then "pubkey_mismatch"
      else if errors_Is err (error_id ErrChainIDMismatch) then "chain_id_mismatch"
      else if errors_Is err (error_id ErrMagicPassDisabled) then "magic_pass_disabled"
      else if errors_Is err (error_id ErrTokenTooOld) then "token_too_old"
      else if errors_Is err (error_id ErrSecBootDisabled) then "sec_boot_disabled"
      else if errors_Is err (error_id ErrDebugNotAllowed) then "debug_not_allowed"
      else if errors_Is err (error_id ErrCodeHashNotAllowed) then "code_hash_not_allowed"
      else if errors_Is err (error_id ErrPlatformNotAllowed) then "platform_not_allowed"
      else if errors_Is err (error_id ErrJWTInvalid) then "jwt_invalid"
      else "other"
  end.

(** ** What is accepted *)

Section Facts.
Context `{AttestationLib}.

(** The token was issued at [iat]: not longer ago than allowed (the largest duration
    allows everything), and not in the future beyond the skew. *)
Definition age_ok (cfg : Config) (now iat : Z) : Prop :=
  (now - iat <= MaxTokenAge cfg \/ maxInt64 <= MaxTokenAge cfg) /\ iat - now <= allowedClockSkew.

(** A claim that a non-empty list restricts. *)
Definition allowed {A} `{EqDecision A} (l : list A) (m : res A) : Prop :=
  l = [] \/ exists x, m = Ok x /\ x ∈ l.

#[export] Instance allowed_dec {A} `{EqDecision A} (l : list A) m : Decision (allowed l m).
Proof.
  refine (match m with
          | Ok x => cast_if_or (decide (l = [])) (decide (x ∈ l))
          | _ => cast_if (decide (l = []))
          end); unfold allowed; naive_solver.
Defined.

Record claims_ok (cfg : Config) (claims : GoogleTeeClaims) (now : Z) : Prop := {
  co_age : 0 < MaxTokenAge cfg -> exists iat, IssuedAt claims = Some iat /\ age_ok cfg now iat;
  co_boot : RequireSecBoot cfg = true -> SecBoot claims = true;
  co_debug : allowed (ExpectedDebugStatus cfg) (Ok (DebugStatus claims));
  co_code : allowed (ExpectedCodeHash cfg) (claims_CodeHash (claims_rest claims));
  co_platform : allowed (ExpectedPlatform cfg) (claims_Platform (claims_rest claims))
}.

(** The token is for this very TEE info: its nonce is the hash of the info. *)
Definition token_ok (cfg : Config) (tir : TeeInfoResponse) (now : Z) : Prop :=
  exists h claims, TeeInfo_Hash (teeInfo tir) = Ok h /\
    ParseAndValidatePKIToken (attestation tir) cfg (hex_EncodeToString h) = Ok claims /\ claims_ok cfg claims now.

Record accepted (cfg : Config) (tir : TeeInfoResponse) (sent : Hash) (now : Z) : Prop := {
  ac_challenge : Challenge (teeInfo tir) = sent;
  ac_keys : ti_PublicKey (teeInfo tir) = md_PublicKey (machineData tir);
  ac_chain : ti_ChainID (teeInfo tir) = ChainID cfg;
  ac_token : (attestation tir = MagicPass /\ AllowMagicPass cfg = true)
             \/ (attestation tir <> MagicPass /\ token_ok cfg tir now)
}.

Lemma verifyAge_ok claims cfg now :
  verifyAge claims cfg now = Ok tt
  <-> (0 < MaxTokenAge cfg -> exists iat, IssuedAt claims = Some iat /\ age_ok cfg now iat).
Proof.
  unfold verifyAge, age_ok, allowedClockSkew, second. case_decide as Hm; [|by split].
  destruct (IssuedAt claims) as [iat|]; [|split; [done|intros Hi; by destruct (Hi Hm) as (? & ? & _)]].
  transitivity ((now - iat <= MaxTokenAge cfg \/ maxInt64 <= MaxTokenAge cfg) /\ iat - now <= 30 * 1000000000).
  - unfold time_Sub, maxInt64. repeat case_decide; split; try done; lia.
  - split; [eauto|]. intros Hi. by destruct (Hi Hm) as (? & [= <-] & ?).
Qed.

Lemma zlen_pos {A} (l : list A) : 0 < zlen l <-> l <> [].
Proof. destruct l; [done|]. rewrite zlen_cons. pose proof (zlen_nonneg l). split; [done|lia]. Qed.

(** The check of one claim against a list. *)
Lemma check_allowed {A} `{EqDecision A} (l : list A) (m : res A) e :
  (if decide (0 < zlen l) then (x ← wrap m; if decide (x ∉ l) then Fail e else Ok tt) else Ok tt) = Ok tt
  <-> allowed l m.
Proof.
  unfold allowed. case_decide as Hl; rewrite zlen_pos in Hl.
  - destruct m as [x| |]; cbn; [|naive_solver..]. case_decide; naive_solver.
  - split; [intros _; left; by apply dec_stable|done].
Qed.

Lemma res_bind_tt (m : res unit) (k : unit -> res unit) : m ≫= k = Ok tt <-> m = Ok tt /\ k tt = Ok tt.
Proof. destruct m as [[]| |]; cbn; naive_solver. Qed.

Lemma verifyClaims_ok claims cfg now : verifyClaims claims cfg now = Ok tt <-> claims_ok cfg claims now.
Proof.
  unfold verifyClaims. rewrite res_bind_tt, verifyAge_ok.
  assert (Hdebug : 0 < zlen (ExpectedDebugStatus cfg) /\ DebugStatus claims ∉ ExpectedDebugStatus cfg
                   <-> ~ allowed (ExpectedDebugStatus cfg) (Ok (DebugStatus claims))).
  { unfold allowed. rewrite zlen_pos. naive_solver. }
  destruct (RequireSecBoot cfg && negb (SecBoot claims)) eqn:Hboot.
  - apply andb_true_iff in Hboot as [Hreq Hno]. apply negb_true_iff in Hno.
    split; [by intros [_ ?]|]. intros []. rewrite co_boot0 in Hno; done.
  - assert (Hb : RequireSecBoot cfg = true -> SecBoot claims = true)
      by (destruct (RequireSecBoot cfg), (SecBoot claims); done).
    destruct (decide (_ /\ _)) as [Hd|Hd]; rewrite Hdebug in Hd.
    + split; [by intros [_ ?]|]. by intros [].
    + rewrite res_bind_tt, !check_allowed. split.
      * intros (? & ? & ?). split; try done. apply dec_stable. intros Hn. by apply Hd.
      * intros []. done.
Qed.

(** C14: an enabled verification accepts a response exactly when it answers the
    challenge that was sent, names one public key and the configured chain, and carries
    either the sentinel where that is allowed, or a token that is valid for the hash of
    this TEE info and whose claims meet every configured restriction. *)
Theorem Verify_accepts tir sent cfg now :
  Verify tir sent cfg now = Ok tt <-> Enabled cfg = false \/ accepted cfg tir sent now.
Proof.
  unfold Verify. destruct (Enabled cfg); cbn [negb]; [|split; [by left|done]].
  rewrite !res_bind_tt. unfold verifyBedrock, verifyChainID, token_ok.
  assert (Htoken :
    (if decide (attestation tir = MagicPass) then if negb (AllowMagicPass cfg) then Fail ErrMagicPassDisabled else Ok tt
     else (h ← wrap (TeeInfo_Hash (teeInfo tir));
           match ParseAndValidatePKIToken (attestation tir) cfg (hex_EncodeToString h) with
           | Panic => Panic
           | Fail e => Fail (errorf [ErrJWTInvalid; e])
           | Ok claims => verifyClaims claims cfg now
           end)) = Ok tt
    <-> (attestation tir = MagicPass /\ AllowMagicPass cfg = true)
        \/ (attestation tir <> MagicPass /\ token_ok cfg tir now)).
  { unfold token_ok. case_decide as Hmagic.
    - destruct (AllowMagicPass cfg); cbn; naive_solver.
    - destruct (TeeInfo_Hash (teeInfo tir)) as [h| |]; cbn; [|naive_solver..].
      destruct (ParseAndValidatePKIToken (attestation tir) cfg (hex_EncodeToString h)) as [claims| |] eqn:Hp.
      + rewrite verifyClaims_ok. split; [intros ?; right; split; [done|]; by exists h, claims|].
        intros [[? _]|(_ & h' & c' & [= <-] & Hc & ?)]; [done|]. rewrite Hp in Hc. by injection Hc as <-.
      + split; [done|]. intros [[? _]|(_ & h' & c' & [= <-] & Hc & ?)]; [done|]. by rewrite Hp in Hc.
      + split; [done|]. intros [[? _]|(_ & h' & c' & [= <-] & Hc & ?)]; [done|]. by rewrite Hp in Hc. }
  rewrite Htoken. clear Htoken.
  destruct (decide (Challenge (teeInfo tir) = sent)) as [Hch|Hch];
    [rewrite decide_False by tauto|rewrite decide_True by done].
  2:{ split; [by intros (? & _)|]. by intros [?|[]]. }
  destruct (decide (ti_PublicKey (teeInfo tir) = md_PublicKey (machineData tir))) as [Hk|Hk];
    [rewrite decide_False by tauto|rewrite decide_True by done].
  2:{ split; [by intros (? & _)|]. by intros [?|[]]. }
  destruct (decide (ti_ChainID (teeInfo tir) = ChainID cfg)) as [Hc|Hc];
    [rewrite decide_False by tauto|rewrite decide_True by done].
  2:{ split; [by intros (_ & ? & _)|]. by intros [?|[]]. }
  split; [intros (_ & _ & ?); by right|]. by intros [?|[]].
Qed.
(** ** What a rejection is labelled *)

Definition verify_errors : list error :=
  [ErrChallengeMismatch; ErrPubKeyMismatch; ErrChainIDMismatch; ErrMagicPassDisabled; ErrTokenTooOld;
   ErrSecBootDisabled; ErrDebugNotAllowed; ErrCodeHashNotAllowed; ErrPlatformNotAllowed; ErrJWTInvalid].
(** The error wraps none of the errors of this package. *)
Definition foreign_error (e : error) : Prop := forall t, t ∈ verify_errors -> errors_Is e (error_id t) = false.
Definition fails_foreign {A} (m : res A) : Prop := m <> Panic /\ forall e, m = Fail e -> foreign_error e.

(** The libraries report failures as errors of their own. *)
Class AttestationLaws : Prop := {
  TeeInfo_Hash_fails i : fails_foreign (TeeInfo_Hash i);
  validate_token_fails t c l i a ids n : fails_foreign (validate_token t c l i a ids n);
  claims_CodeHash_fails r : fails_foreign (claims_CodeHash r);
  claims_Platform_fails r : fails_foreign (claims_Platform r)
}.

(** The first restriction that the claims violate. *)
Definition claims_verdict (cfg : Config) (claims : GoogleTeeClaims) (now : Z) : string :=
  if bool_decide (0 < MaxTokenAge cfg)
     && match IssuedAt claims with None => true | Some iat => negb (bool_decide (age_ok cfg now iat)) end
  then "token_too_old"
  else if RequireSecBoot cfg && negb (SecBoot claims) then "sec_boot_disabled"
  else if decide (~ allowed (ExpectedDebugStatus cfg) (Ok (DebugStatus claims))) then "debug_not_allowed"
  else if decide (~ allowed (ExpectedCodeHash cfg) (claims_CodeHash (claims_rest claims)))
       then if is_ok (claims_CodeHash (claims_rest claims)) then "code_hash_not_allowed" else "other"
  else if decide (~ allowed (ExpectedPlatform cfg) (claims_Platform (claims_rest claims)))
       then if is_ok (claims_Platform (claims_rest claims)) then "platform_not_allowed" else "other"
  else "ok".

(** The first requirement that the response violates, as a label. *)
Definition verdict (cfg : Config) (tir : TeeInfoResponse) (sent : Hash) (now : Z) : string :=
  if negb (Enabled cfg) then "ok"
  else if decide (Challenge (teeInfo tir) <> sent) then "challenge_mismatch"
  else if decide (ti_PublicKey (teeInfo tir) <> md_PublicKey (machineData tir)) then "pubkey_mismatch"
  else if decide (ti_ChainID (teeInfo tir) <> ChainID cfg) then "chain_id_mismatch"
  else if decide (attestation tir = MagicPass)
       then if AllowMagicPass cfg then "ok" else "magic_pass_disabled"
  else match TeeInfo_Hash (teeInfo tir) with
       | Ok h => match ParseAndValidatePKIToken (attestation tir) cfg (hex_EncodeToString h) with
                 | Ok claims => claims_verdict cfg claims now
                 | _ => "jwt_invalid"
                 end
       | _ => "other"
       end.

Ltac reason_foreign Hf :=
  cbn [Reason errors_Is errorf existsb orb]; rewrite !bool_decide_false by done; cbn [orb];
  repeat (rewrite (Hf _ ltac:(unfold verify_errors; set_solver)); cbn [orb]); done.

Lemma Reason_foreign e : foreign_error e -> Reason (Some (errorf [e])) = "other"%string.
Proof.
  intros Hf. unfold Reason. rewrite !errors_Is_errorf by done.
  by rewrite !Hf by (unfold verify_errors; set_solver).
Qed.
Lemma Reason_jwt e : foreign_error e -> Reason (Some (errorf [ErrJWTInvalid; e])) = "jwt_invalid"%string.
Proof.
  intros Hf. unfold Reason, errorf. rewrite !errors_Is_mk. cbn [existsb].
  by rewrite !Hf by (unfold verify_errors; set_solver).
Qed.

Lemma ParseAndValidate_fails `{!AttestationLaws} t cfg n : fails_foreign (ParseAndValidatePKIToken t cfg n).
Proof.
  unfold ParseAndValidatePKIToken.
  destruct (validate_token_fails t (RootCert cfg) (LeafCRL cfg) (IntermediateCRL cfg) (Audience cfg)
              (imageIDSet (AllowedImageIDs cfg)) n) as [Hp Hf].
  destruct (validate_token _ _ _ _ _ _ _) as [[[[iat boot] dbg] rest]|e|]; cbn; [by split|split; [done|]|done].
  intros e' [= <-]. by apply Hf.
Qed.

(** The verdict on one claim against a list. *)
Lemma check_verdict {A} `{EqDecision A} (l : list A) (m : res A) err label (k : res unit) out :
  fails_foreign m -> Reason (Some (errorf [err])) = label -> Reason (failure k) = out -> k <> Panic ->
  let r := _ ← (if decide (0 < zlen l) then (x ← wrap m; if decide (x ∉ l) then Fail (errorf [err]) else Ok tt) else Ok tt); k in
  Reason (failure r)
  = (if decide (~ allowed l m) then if is_ok m then label else "other"%string else out) /\ r <> Panic.
Proof.
  intros [Hnp Hf] Hl Hk Hkp. unfold allowed. destruct (decide (0 < zlen l)) as [Hpos|Hpos]; rewrite zlen_pos in Hpos.
  - destruct m as [x|e|]; [| |done]; cbn.
    + destruct (decide (x ∉ l)); destruct (decide (~ _)) as [Hn|Hn]; cbn; try done; exfalso; naive_solver.
    + destruct (decide (~ _)) as [Hn|Hn]; [|exfalso; naive_solver].
      split; [|done]. by apply Reason_foreign, Hf.
  - destruct (decide (~ _)) as [Hn|Hn]; [exfalso; naive_solver|]. done.
Qed.

Lemma verifyAge_verdict claims cfg now :
  verifyAge claims cfg now
  = (if bool_decide (0 < MaxTokenAge cfg)
        && match IssuedAt claims with None => true | Some iat => negb (bool_decide (age_ok cfg now iat)) end
     then Fail (errorf [ErrTokenTooOld]) else Ok tt).
Proof.
  pose proof (verifyAge_ok claims cfg now) as Hok. unfold verifyAge in *.
  case_bool_decide; [|by rewrite decide_False]. rewrite decide_True in * by done. cbn [andb].
  destruct (IssuedAt claims) as [iat|]; [|done].
  case_bool_decide as Hage; cbn [negb].
  - apply Hok. eauto.
  - repeat case_decide; try done. exfalso. apply Hage.
    destruct (proj1 Hok eq_refl) as (? & [= <-] & ?); done.
Qed.

Lemma verifyClaims_verdict `{!AttestationLaws} claims cfg now :
  Reason (failure (verifyClaims claims cfg now)) = claims_verdict cfg claims now /\ verifyClaims claims cfg now <> Panic.
Proof.
  unfold verifyClaims, claims_verdict. rewrite verifyAge_verdict.
  destruct (bool_decide (0 < MaxTokenAge cfg) && _); cbn [mbind res_bind]; [done|].
  destruct (RequireSecBoot cfg && negb (SecBoot claims)); [done|].
  assert (Hdebug : 0 < zlen (ExpectedDebugStatus cfg) /\ DebugStatus claims ∉ ExpectedDebugStatus cfg
                   <-> ~ allowed (ExpectedDebugStatus cfg) (Ok (DebugStatus claims)))
    by (unfold allowed; rewrite zlen_pos; naive_solver).
  destruct (decide (_ /\ _)) as [Hd|Hd]; rewrite Hdebug in Hd.
  { by rewrite (decide_True (P := ~ allowed (ExpectedDebugStatus cfg) _)) by done. }
  rewrite (decide_False (P := ~ allowed (ExpectedDebugStatus cfg) _)) by done.
  set (last := if decide (0 < zlen (ExpectedPlatform cfg)) then _ else _).
  assert (Hlast : Reason (failure last)
    = (if decide (~ allowed (ExpectedPlatform cfg) (claims_Platform (claims_rest claims)))
       then if is_ok (claims_Platform (claims_rest claims)) then "platform_not_allowed" else "other" else "ok")%string
    /\ last <> Panic).
  { pose proof (check_verdict (ExpectedPlatform cfg) (claims_Platform (claims_rest claims)) ErrPlatformNotAllowed
      "platform_not_allowed" (Ok tt) "ok" (claims_Platform_fails _) eq_refl eq_refl ltac:(done)) as Hc.
    cbv zeta in Hc. fold last in Hc. by destruct last as [[]| |]. }
  destruct Hlast as [Hl Hp].
  apply (check_verdict (ExpectedCodeHash cfg) (claims_CodeHash (claims_rest claims)) ErrCodeHashNotAllowed
    "code_hash_not_allowed" last _ (claims_CodeHash_fails _) eq_refl Hl Hp).
Qed.

Lemma Reason_in e : Reason (Some e) ∈ ErrorReasons.
Proof. unfold Reason, ErrorReasons. repeat case_match; set_solver. Qed.

Lemma Verify_verdict `{!AttestationLaws} tir sent cfg now :
  Reason (failure (Verify tir sent cfg now)) = verdict cfg tir sent now /\ Verify tir sent cfg now <> Panic.
Proof.
  unfold Verify, verdict, verifyBedrock, verifyChainID. destruct (Enabled cfg); cbn [negb]; [|done].
  destruct (decide (Challenge (teeInfo tir) <> sent)); [done|].
  destruct (decide (ti_PublicKey (teeInfo tir) <> md_PublicKey (machineData tir))); [done|]. cbn [mbind res_bind].
  destruct (decide (ti_ChainID (teeInfo tir) <> ChainID cfg)); [done|]. cbn [mbind res_bind].
  destruct (decide (attestation tir = MagicPass)); [by destruct (AllowMagicPass cfg)|].
  destruct (TeeInfo_Hash_fails (teeInfo tir)) as [Hnp Hf].
  destruct (TeeInfo_Hash (teeInfo tir)) as [h|e|]; cbn [wrap mbind res_bind failure]; [| |done].
  2:{ split; [by apply Reason_foreign, Hf|done]. }
  destruct (ParseAndValidate_fails (attestation tir) cfg (hex_EncodeToString h)) as [Hnp' Hf'].
  destruct (ParseAndValidatePKIToken (attestation tir) cfg (hex_EncodeToString h)) as [claims|e|]; [| |done].
  - apply verifyClaims_verdict.
  - split; [by apply Reason_jwt, Hf'|done].
Qed.

(** The label of a rejection is that of the first requirement violated -- the
    challenge, the public key, the chain, the sentinel, the token, the restrictions on
    its claims in order -- and "other" only when a library cannot hash the info or read
    a claim; it is one of the labels that the metrics are initialized with, and "ok"
    exactly for an accepted response.  [Verify] does not panic. *)
Theorem Verify_labels `{!AttestationLaws} tir sent cfg now :
  Reason (failure (Verify tir sent cfg now)) = verdict cfg tir sent now /\
  Verify tir sent cfg now <> Panic /\
  (verdict cfg tir sent now = "ok"%string <-> Verify tir sent cfg now = Ok tt) /\
  verdict cfg tir sent now ∈ "ok"%string :: ErrorReasons.
Proof.
  destruct (Verify_verdict tir sent cfg now) as [Hv Hp]. rewrite <- Hv. split_and!; [done|done|..].
  - destruct (Verify tir sent cfg now) as [[]|e|]; [done| |done]. split; [|done]. cbn [failure].
    intros Hok. exfalso. pose proof (Reason_in e) as Hin. rewrite Hok in Hin. revert Hin.
    apply (bool_decide_unpack _). vm_compute. exact I.
  - destruct (Verify tir sent cfg now) as [[]|e|]; [by left| |done]. right. apply Reason_in.
Qed.

(** With every optional check switched off no claim is looked at. *)
Lemma inactive_accepts claims cfg now :
  ac_CodeHash (Active cfg) = false -> ac_Platform (Active cfg) = false -> ac_DebugStatus (Active cfg) = false ->
  ac_MaxTokenAge (Active cfg) = false -> ac_SecBoot (Active cfg) = false ->
  verifyClaims claims cfg now = Ok tt.
Proof.
  unfold Active. cbn [ac_CodeHash ac_Platform ac_DebugStatus ac_MaxTokenAge ac_SecBoot].
  intros Hcode Hplat Hdebug Hage Hboot. apply bool_decide_eq_false in Hcode, Hplat, Hdebug, Hage.
  rewrite zlen_pos in Hcode. rewrite zlen_pos in Hplat. rewrite zlen_pos in Hdebug. apply verifyClaims_ok.
  split; unfold allowed; try (left; by apply dec_stable); [lia|congruence].
Qed.
End Facts.

(** ** A concrete library *)

Module DemoAttestation.
(** A token is valid for the nonce it is; claims hold a code hash and a platform. *)
#[export] Instance lib : AttestationLib := {|
  Certificate := unit; RevocationList := unit; ClaimsRest := N * N;
  claims_CodeHash r := Ok r.1;
  claims_Platform r := Ok r.2;
  MagicPass := "magic_pass";
  TeeInfo_Hash i := Ok [byte_of (ti_ChainID i)];
  validate_token t c l i a ids n :=
    if decide (t = n) then Ok (Some 1000, true, "disabled-since-boot"%string, (5%N, 6%N)) else Fail (errorf []);
  GoogleCSRoot := Ok tt;
  StringToCommonHash s := if decide (String.length s <= 32)%nat then Ok (N.of_nat (String.length s)) else Fail (errorf [])
|}.

Lemma laws : AttestationLaws.
Proof.
  assert (Hnil : foreign_error (errorf [])) by by intros t Ht; unfold verify_errors in Ht; set_unfold in Ht;
    destruct Ht as [->|[->|[->|[->|[->|[->|[->|[->|[->|[->|[]]]]]]]]]]].
  split; intros; cbn; try (split; [done|by intros ? [=]]).
  case_decide; (split; [done|]); [by intros ? [=]|by intros ? [= <-]].
Qed.

Definition cfg : Config := mkConfig true None None None "" [] 14 [5%N; 7%N] [8%N] ["disabled-since-boot"]%string 60 true false.
Definition tir : TeeInfoResponse :=
  mkTeeInfoResponse (mkTeeInfo 9 (1%N, 2%N) 14 0 0 0 []) (mkMachineData (1%N, 2%N) 0 0 []) "0e".

(** The platform is not in the list. *)
Lemma Verify_labels_witness :
  Reason (failure (Verify tir 9 cfg 1000)) = "platform_not_allowed"%string /\ Verify tir 9 cfg 1000 <> Panic.
Proof.
  destruct (@Verify_labels lib laws tir 9 cfg 1000) as (Hr & Hp & _). split; [rewrite Hr; vm_compute; reflexivity|exact Hp].
Defined.

Example replayed : Reason (failure (Verify tir 8 cfg 1000)) = "challenge_mismatch"%string.
Proof. vm_compute. reflexivity. Qed.
Example stale : Reason (failure (Verify tir 9 cfg 2000)) = "token_too_old"%string.
Proof. vm_compute. reflexivity. Qed.
End DemoAttestation.

End Attestation.
