(* ===== verification/Metrics.v ===== *)
(** The Prometheus collectors of the proxy ([internal/metrics]): the collectors of the
    enabled groups, what each recording method adds to, and the gauges that are read
    when the metrics are scraped. *)

From S2P Require Import Prelude Types Rounds Attestation.
From stdpp Require Import finite.
From Stdlib Require Import Ascii SpecFloat.

Open Scope Z_scope.

Module Metrics.
Import Rounds(f64_of_Z).
#[local] Open Scope string_scope.
#[local] Open Scope list_scope.

Definition namespace : string := "teeproxy".

(** Bucket bounds, in microseconds. *)
Definition httpBuckets : list Z :=
  [5000; 10000; 25000; 50000; 100000; 250000; 500000; 1000000; 2500000; 5000000; 10000000; 30000000; 60000000].
Definition storageBuckets : list Z :=
  [500; 1000; 2500; 5000; 10000; 25000; 50000; 100000; 250000; 500000; 1000000; 2500000; 5000000; 10000000].
Definition votingDurationBuckets : list Z :=
  [50000; 100000; 250000; 500000; 1000000; 2500000; 5000000; 10000000; 30000000; 60000000; 120000000; 300000000].
Definition nodeBuckets : list Z :=
  [100000; 500000; 1000000; 2500000; 5000000; 10000000; 30000000; 60000000; 120000000; 180000000; 300000000].
Definition infoRefreshBuckets : list Z :=
  [50000; 100000; 250000; 500000; 1000000; 2500000; 5000000; 10000000; 30000000; 60000000].

Record Config : Type := mkConfig {
  Enable : bool; HTTP : bool; Storage : bool; Queue : bool; Voting : bool; ActiveVoters : bool;
  Result : bool; Wallet : bool; Info : bool; Attestation : bool; Policy : bool; Liveness : bool;
  Node : bool; Runtime : bool
}.

(** The collector fields of the struct. *)
Inductive Field : Type :=
| httpRequests | httpDuration | storageOps | storageDuration
| resultsProcessed | resultsLost | resultsNoActionID | resultsRejected | resultChannelDropped
| walletSyncTotal | walletKeyUpdateFailed | walletBackupApplyFailed
| instructionsReceived | instructionsRejected | votingsStarted | votingThresholdDuration
| finalizedEnqueueFail | finalizedActionLost
| actionDequeued | actionEnqueued | actionRedelivery | queueDepthReadFailures
| infoRefreshFailures | infoRefreshExhausted | infoRefreshDuration
| attestationVerify | attestationPosture
| nodeWaitDuration | nodeWaitTotal | machinepathPollTotal | governancePosture
| policyEpoch | policyLastFetch | policyUpdate
| ready.
#[export] Instance Field_eq_dec : EqDecision Field.
Proof. solve_decision. Defined.
#[export, refine] Instance Field_finite : Finite Field := {|
  enum := [httpRequests; httpDuration; storageOps; storageDuration;
    resultsProcessed; resultsLost; resultsNoActionID; resultsRejected; resultChannelDropped;
    walletSyncTotal; walletKeyUpdateFailed; walletBackupApplyFailed;
    instructionsReceived; instructionsRejected; votingsStarted; votingThresholdDuration;
    finalizedEnqueueFail; finalizedActionLost;
    actionDequeued; actionEnqueued; actionRedelivery; queueDepthReadFailures;
    infoRefreshFailures; infoRefreshExhausted; infoRefreshDuration;
    attestationVerify; attestationPosture;
    nodeWaitDuration; nodeWaitTotal; machinepathPollTotal; governancePosture;
    policyEpoch; policyLastFetch; policyUpdate; ready] |}.
Proof.
  - by apply (bool_decide_unpack _).
  - intros []; by apply (bool_decide_unpack _).
Defined.
#[export] Instance Field_countable : Countable Field := finite_countable.

(** ** The Prometheus library

    A vector of counters, gauges or histograms has one series per tuple of label values;
    a collector without labels is a vector with the one empty tuple.  Counters only ever
    have 0 and 1 added to them; a histogram is what has been observed. *)

Inductive Kind : Type := Counter | Gauge | Histogram.
#[export] Instance Kind_eq_dec : EqDecision Kind.
Proof. solve_decision. Defined.

Record Opts : Type := mkOpts {
  o_Kind : Kind;
  Subsystem : string;
  Name : string;
  Buckets : list Z;
  Labels : list string
}.

(** What a registry knows a collector by; help texts are left out. *)
Record Desc : Type := mkDesc {
  fqName : string;
  variableLabels : list string;
  constLabels : list (string * string)
}.
#[export] Instance Desc_eq_dec : EqDecision Desc.
Proof. solve_decision. Defined.

Inductive Sample : Type :=
| Count (n : Z)
| Level (x : spec_float)
| Observations (l : list spec_float).

(** [Func]: the functions that are called at each scrape. *)
Class PromLib : Type := {
  Registry : Type;
  Vec : Type;
  Func : Type;
  BuildFQName : string -> string -> string -> string;
  NewRegistry : Registry;
  registered : Registry -> list Desc;
  Register : Registry -> list Desc -> option Registry;      (* None: an error *)
  NewVec : Opts -> res Vec;
  opts_of : Vec -> Opts;
  sample : Vec -> list string -> option Sample;
  (* vec.WithLabelValues(values...) and then Add, Set, Observe *)
  Counter_Add : Vec -> list string -> Z -> res Vec;
  Gauge_Set : Vec -> list string -> spec_float -> res Vec;
  Histogram_Observe : Vec -> list string -> spec_float -> res Vec;
  (* the collectors of the runtime and the process *)
  GoCollector : list Desc;
  ProcessCollector : list Desc
}.

(** Names and labels that the library accepts, as characters. *)
Definition ascii_in (lo hi : nat) (c : Ascii.ascii) : bool :=
  bool_decide (lo <= Ascii.nat_of_ascii c <= hi)%nat.
Definition name_char (c : Ascii.ascii) : bool :=
  ascii_in 97 122 c || ascii_in 65 90 c || ascii_in 48 57 c || bool_decide (c = "_"%char).
Definition valid_name (s : string) : bool :=
  match String.list_ascii_of_string s with
  | [] => false
  | c :: l => name_char c && negb (ascii_in 48 57 c) && forallb name_char l
  end.
(** Label values have to be UTF-8; those of ASCII characters are. *)
Definition plain (s : string) : bool := forallb (ascii_in 0 127) (String.list_ascii_of_string s).

Definition label_names (d : Desc) : list string := variableLabels d ++ (constLabels d).*1.
Definition valid_desc (d : Desc) : Prop :=
  valid_name (fqName d) = true /\ Forall (fun l => valid_name l = true) (label_names d) /\
  NoDup (label_names d) /\ Forall (fun l => plain l.2 = true) (constLabels d).
#[export] Instance valid_desc_dec d : Decision (valid_desc d) := _.

(** Two collectors that one registry may hold: of different names, or of one name with
    the same labels but different values of the constant ones. *)
Definition compatible (d d' : Desc) : Prop :=
  fqName d <> fqName d' \/
  (variableLabels d = variableLabels d' /\ (constLabels d).*1 = (constLabels d').*1 /\ constLabels d <> constLabels d').
#[export] Instance compatible_dec d d' : Decision (compatible d d') := _.

Fixpoint increasing (l : list Z) : bool :=
  match l with
  | x :: (y :: _) as l => bool_decide (x < y) && increasing l
  | _ => true
  end.

(** The first sample of a series. *)
Definition zero (k : Kind) : Sample :=
  match k with Counter => Count 0 | Gauge => Level (f64_of_Z 0) | Histogram => Observations [] end.

(** One recording on a series. *)
Inductive Rec : Type := Add (n : Z) | Set_ (x : spec_float) | Observe_ (x : spec_float).
Definition rec_kind (r : Rec) : Kind :=
  match r with Add _ => Counter | Set_ _ => Gauge | Observe_ _ => Histogram end.
Definition after (old : option Sample) (r : Rec) : Sample :=
  match r, old with
  | Add n, Some (Count m) => Count (m + n)
  | Add n, _ => Count n
  | Set_ x, _ => Level x
  | Observe_ x, Some (Observations l) => Observations (l ++ [x])
  | Observe_ x, _ => Observations [x]
  end.
Definition apply_rec `{PromLib} (v : Vec) (values : list string) (r : Rec) : res Vec :=
  match r with
  | Add n => Counter_Add v values n
  | Set_ x => Gauge_Set v values x
  | Observe_ x => Histogram_Observe v values x
  end.

(** The documented behaviour that the proxy relies on. *)
Class PromLaws `{PromLib} : Prop := {
  BuildFQName_bare ns name : ns <> "" -> name <> "" -> BuildFQName ns "" name = ns +:+ "_" +:+ name;
  BuildFQName_sub ns sub name : ns <> "" -> sub <> "" -> name <> "" ->
    BuildFQName ns sub name = ns +:+ "_" +:+ sub +:+ "_" +:+ name;
  registered_new : registered NewRegistry = [];
  Register_ok r ds :
    Forall valid_desc ds -> NoDup (fqName <$> ds) ->
    (forall d d', d ∈ ds -> d' ∈ registered r -> compatible d d') ->
    exists r', Register r ds = Some r' /\ registered r' = registered r ++ ds;
  Register_twice r ds d : d ∈ ds -> d ∈ registered r -> Register r ds = None;
  NewVec_ok o :
    valid_name (Name o) = true -> Forall (fun l => valid_name l = true) (Labels o) -> NoDup (Labels o) ->
    increasing (Buckets o) = true ->
    exists v, NewVec o = Ok v /\ opts_of v = o /\
      forall values, sample v values = if decide (Labels o = [] /\ values = []) then Some (zero (o_Kind o)) else None;
  apply_rec_ok v values r :
    rec_kind r = o_Kind (opts_of v) -> length values = length (Labels (opts_of v)) ->
    Forall (fun l => plain l = true) values -> (forall n, r = Add n -> 0 <= n) ->
    exists v', apply_rec v values r = Ok v' /\ opts_of v' = opts_of v /\
      sample v' values = Some (after (sample v values) r) /\
      forall values', values' <> values -> sample v' values' = sample v values';
  (* the collectors of the runtime have names of their own *)
  runtime_valid : Forall valid_desc (GoCollector ++ ProcessCollector);
  runtime_names : NoDup (fqName <$> GoCollector ++ ProcessCollector);
  runtime_foreign d s : d ∈ GoCollector ++ ProcessCollector -> fqName d <> namespace +:+ "_" +:+ s
}.
(** ** The collectors *)

(** One statement of [New]: a field gets a new registered collector, or a series is
    created by adding 0 to it. *)
Inductive Step : Type :=
| Create (f : Field) (o : Opts)
| Seed (f : Field) (values : list string).

Definition counterVec (sub name : string) (labels : list string) : Opts := mkOpts Counter sub name [] labels.
Definition gaugeVec (sub name : string) (labels : list string) : Opts := mkOpts Gauge sub name [] labels.
Definition histogramVec (sub name : string) (buckets : list Z) (labels : list string) : Opts :=
  mkOpts Histogram sub name buckets labels.

Definition seed (f : Field) (reasons : list string) : list Step := (fun r => Seed f [r]) <$> reasons.

Definition httpGroup : list Step :=
  [Create httpRequests (counterVec "http" "requests_total" ["server"; "route"; "status_class"]);
   Create httpDuration (histogramVec "http" "request_duration_seconds" httpBuckets ["server"; "route"])].

Definition storageGroup : list Step :=
  [Create storageOps (counterVec "storage" "operations_total" ["backend"; "namespace"; "operation"; "outcome"]);
   Create storageDuration (histogramVec "storage" "operation_duration_seconds" storageBuckets
     ["backend"; "namespace"; "operation"])].

Definition resultGroup : list Step :=
  [Create resultsProcessed (counterVec "" "results_processed_total" ["op_command"; "status_class"]);
   Create resultsLost (counterVec "" "results_lost_total" []);
   Create resultsNoActionID (counterVec "" "results_missing_action_id_total" []);
   Create resultsRejected (counterVec "" "results_rejected_total" ["reason"])] ++
  seed resultsRejected ["bad_signer"; "wrong_tee_id"; "bootstrap"] ++
  [Create resultChannelDropped (counterVec "" "result_channel_dropped_total" ["channel"])] ++
  seed resultChannelDropped ["key_actions"; "backups"; "backup_trigger"].

Definition walletGroup : list Step :=
  [Create walletSyncTotal (counterVec "wallet" "sync_total" ["result"])] ++
  seed walletSyncTotal ["success"; "enqueue_error"; "wait_error"; "parse_error"; "skipped"] ++
  [Create walletKeyUpdateFailed (counterVec "wallet" "key_update_failed_total" []);
   Create walletBackupApplyFailed (counterVec "wallet" "backup_apply_failed_total" [])].

Definition votingGroup : list Step :=
  [Create instructionsReceived (counterVec "" "instructions_received_total" []);
   Create instructionsRejected (counterVec "" "instructions_rejected_total" ["reason"])] ++
  seed instructionsRejected
    ["wrong_tee_id"; "invalid_op"; "invalid_signature";
     "invalid_voter"; "voting_ended"; "duplicate_signature"; "event_in_future";
     "no_round"; "inconsistent"; "rate_limited"; "not_eligible";
     "invalid_cosigner_threshold"; "invalid_cosigner_declaration"; "duplicate_cosigners";
     "invalid_backup_metadata"; "invalid_fdc_threshold";
     "oversized"; "non_instruction_command"; "malformed_payload"; "unknown_wallet";
     "zero_policy_threshold"; "other"] ++
  [Create votingsStarted (counterVec "" "votings_started_total" []);
   Create votingThresholdDuration (histogramVec "" "voting_threshold_duration_seconds" votingDurationBuckets []);
   Create finalizedEnqueueFail (counterVec "" "finalized_action_enqueue_failed_total" []);
   Create finalizedActionLost (counterVec "" "finalized_action_lost_total" ["reason"])] ++
  seed finalizedActionLost ["build_error"; "send_cancelled"; "send_failed"].

Definition queueGroup : list Step :=
  [Create actionDequeued (counterVec "" "action_dequeue_total" ["queue"; "result"]);
   Create actionEnqueued (counterVec "" "action_enqueue_total" ["queue"; "result"]);
   Create actionRedelivery (counterVec "" "action_redelivery_total" ["queue"; "result"])] ++
  (queue ← ["main"; "direct"; "backup"];
   [Seed actionEnqueued [queue; "store_error"];
    Seed actionEnqueued [queue; "queue_error"];
    Seed actionDequeued [queue; "error"];
    Seed actionDequeued [queue; "action_not_found"];
    Seed actionDequeued [queue; "dequeue_error"];
    Seed actionRedelivery [queue; "exhausted"];
    Seed actionRedelivery [queue; "requeue_failed"]]) ++
  [Create queueDepthReadFailures (counterVec "" "action_queue_depth_read_failures_total" ["queue"])].

Definition infoGroup : list Step :=
  [Create infoRefreshFailures (counterVec "" "info_refresh_failures_total" ["stage"]);
   Create infoRefreshExhausted (counterVec "" "info_refresh_exhausted_total" ["stage"]);
   Create infoRefreshDuration (histogramVec "" "info_refresh_duration_seconds" infoRefreshBuckets ["result"])].

Definition attestationGroup : list Step :=
  [Create attestationVerify (counterVec "" "attestation_verify_total" ["result"; "reason"]);
   Seed attestationVerify ["ok"; "ok"];
   Seed attestationVerify ["ok"; Attestation.ReasonMagicPass]] ++
  ((fun reason => Seed attestationVerify ["error"; reason]) <$> Attestation.ErrorReasons) ++
  [Create attestationPosture (gaugeVec "" "attestation_posture" ["setting"])].

Definition nodeGroup : list Step :=
  [Create nodeWaitDuration (histogramVec "node" "response_wait_duration_seconds" nodeBuckets ["path"]);
   Create nodeWaitTotal (counterVec "node" "response_wait_total" ["path"; "result"])] ++
  (path ← ["info"; "machinepath"; "wallet_key_info"; "wallet_key_proof"; "policy_update"];
   result ← ["timeout"; "error"];
   [Seed nodeWaitTotal [path; result]]) ++
  [Create machinepathPollTotal (counterVec "machinepath" "poll_total" ["result"])] ++
  seed machinepathPollTotal
    ["fetch_error"; "no_change"; "build_error"; "no_authorization"; "enqueue_error"; "wait_error"; "rejected";
     "confirmed"] ++
  [Create governancePosture (gaugeVec "" "governance_posture" ["setting"])].

Definition policyGroup : list Step :=
  [Create policyEpoch (gaugeVec "" "policy_active_reward_epoch" []);
   Create policyLastFetch (gaugeVec "" "policy_last_fetch_timestamp_seconds" []);
   Create policyUpdate (counterVec "" "policy_update_total" ["result"])] ++
  seed policyUpdate
    ["empty"; "fetch_error"; "reconciled"; "reconcile_error"; "build_failed";
     "pubkey_mismatch"; "sig_deadline"; "indexer"; "not_consecutive";
     "enqueue_failed"; "await_failed"; "rejected"; "applied"].

Definition livenessGroup : list Step := [Create ready (gaugeVec "" "ready" [])].

(** The groups in the order of [New]. *)
Definition collectorGroups : list ((Config -> bool) * list Step) :=
  [(HTTP, httpGroup); (Storage, storageGroup); (Result, resultGroup); (Wallet, walletGroup); (Voting, votingGroup);
   (Queue, queueGroup); (Info, infoGroup); (Attestation, attestationGroup); (Node, nodeGroup); (Policy, policyGroup);
   (Liveness, livenessGroup)].

(** What the binary knows of its build: [version.Version], [version.Revision], and the Go
    version and the settings that [debug.ReadBuildInfo] finds. *)
Record Build : Type := mkBuild {
  Version : string;
  Revision : string;
  ReadBuildInfo : option (string * list (string * string))
}.

Section Metrics.
Context `{PromLib}.

(** [fields]: the collector fields that are not nil.  [funcs]: the functions handed to
    the registry with the gauges that call them. *)
Record Metrics : Type := mkMetrics {
  cfg : Config;
  reg : Registry;
  fields : gmap Field Vec;
  funcs : list (Desc * Func)
}.

Definition set_field (m : Metrics) (f : Field) (v : Vec) : Metrics :=
  mkMetrics (cfg m) (reg m) (<[f := v]> (fields m)) (funcs m).

Definition MustRegister (m : Metrics) (ds : list Desc) : res Metrics :=
  match Register (reg m) ds with
  | Some r => Ok (mkMetrics (cfg m) r (fields m) (funcs m))
  | None => Panic
  end.

(** A method of a nil vector panics. *)
Definition record (m : Metrics) (e : Field * list string * Rec) : res Metrics :=
  let '(f, values, r) := e in
  match fields m !! f with
  | None => Panic
  | Some v => v ← apply_rec v values r; Ok (set_field m f v)
  end.
Fixpoint record_all (m : Metrics) (es : list (Field * list string * Rec)) : res Metrics :=
  match es with
  | [] => Ok m
  | e :: es => m ← record m e; record_all m es
  end.

Definition desc_of (o : Opts) : Desc := mkDesc (BuildFQName namespace (Subsystem o) (Name o)) (Labels o) [].

Definition run_step (m : Metrics) (s : Step) : res Metrics :=
  match s with
  | Create f o => v ← NewVec o; m ← MustRegister m [desc_of o]; Ok (set_field m f v)
  | Seed f values => record m (f, values, Add 0)
  end.
Fixpoint run_steps (m : Metrics) (l : list Step) : res Metrics :=
  match l with
  | [] => Ok m
  | s :: l => m ← run_step m s; run_steps m l
  end.

Definition buildInfo (b : Build) : Desc :=
  let '(revision, goVersion) :=
    match ReadBuildInfo b with
    | None => (Revision b, "unknown")
    | Some (goVersion, settings) =>
        (if decide (Revision b = "unknown")
         then foldl (fun r s => if decide (s.1 = "vcs.revision") then s.2 else r) (Revision b) settings
         else Revision b, goVersion)
    end in
  mkDesc (BuildFQName namespace "" "build_info") []
    [("version", Version b); ("revision", revision); ("go_version", goVersion)].

Definition enabled_steps (c : Config) : list Step :=
  mbind (fun g : (Config -> bool) * list Step => if g.1 c then g.2 else []) collectorGroups.

Definition New (b : Build) (c : Config) : res Metrics :=
  let m := mkMetrics c NewRegistry ∅ [] in
  if negb (Enable c) then Ok m
  else
    m ← (if Runtime c
         then m ← MustRegister m GoCollector; m ← MustRegister m ProcessCollector; MustRegister m [buildInfo b]
         else Ok m);
    run_steps m (enabled_steps c).

(** ** Recording

    A method does nothing on a nil receiver, and nothing when one of the fields it tests
    is nil; otherwise it records its entries in order. *)
Record Method : Type := mkMethod { gates : list Field; entries : list (Field * list string * Rec) }.

Definition present (m : Metrics) (f : Field) : bool := bool_decide (is_Some (fields m !! f)).

Definition call (mt : Method) (m : option Metrics) : res (option Metrics) :=
  match m with
  | None => Ok None
  | Some m =>
      if forallb (present m) (gates mt) then m ← record_all m (entries mt); Ok (Some m) else Ok (Some m)
  end.
Definition inc (f : Field) (values : list string) : Method := mkMethod [f] [(f, values, Add 1)].

(** [time.Duration.Seconds]. *)
Definition Seconds (d : Z) : spec_float :=
  SFadd 53 1024 (f64_of_Z (Z.quot d second)) (SFdiv 53 1024 (f64_of_Z (Z.rem d second)) (f64_of_Z second)).

Definition resultStatusClass (status : Z) : string :=
  if decide (status = 0) then "failed" else if decide (status = 1) then "final" else "transient".

Definition statusClass (status : Z) : string :=
  if decide (500 <= status) then "5xx"
  else if decide (400 <= status) then "4xx"
  else if decide (300 <= status) then "3xx"
  else if decide (200 <= status) then "2xx"
  else "1xx".

(** Whether the errors of an identity are network errors, and time-outs. *)
Class NetErrors : Type := net_Error : string -> option bool.

(** [errors.As] for a [net.Error], and its [Timeout]. *)
Fixpoint errors_As_net `{NetErrors} (e : error) : option bool :=
  match e with
  | mkError id ws =>
      match net_Error id with
      | Some t => Some t
      | None => (fix first (l : list error) : option bool :=
                   match l with
                   | [] => None
                   | w :: l => match errors_As_net w with Some t => Some t | None => first l end
                   end) ws
      end
  end.

Definition nodeWaitResult `{NetErrors} (err : option error) : string :=
  match err with
  | None => "ok"
  | Some e =>
      if errors_Is e "context.DeadlineExceeded" || errors_Is e "os.ErrDeadlineExceeded" then "timeout"
      else if bool_decide (errors_As_net e = Some true) then "timeout"
      else if errors_Is e "context.Canceled" then "cancelled"
      else "error"
  end.

(** The names of the commands are those of go-flare-common. *)
Class CommandNames : Type := command_name : Command -> string.

Definition knownOPCommands : list Command :=
  [TEEAttestation; KeyDataProviderRestore; KeyDataProviderRestoreTest; KeyDelete; KeyDirectBackup; KeyDirectRestore;
   KeyGenerate; VRF; KeyInfo; KeyProof; TEEBackup; TEEInfo; InitializePolicy; UpdatePolicy; SetMachinePathList; Pay;
   Reissue; Prove].
Definition opCommandLabel `{OpLib, CommandNames} (h : Hash) : string :=
  match HashToOPCommand h with
  | Some c => if decide (c ∈ knownOPCommands) then command_name c else "other"
  | None => "other"
  end.

Definition ObserveHTTP (server route : string) (status d : Z) : Method :=
  let route := if decide (route = "") then "unmatched" else route in
  mkMethod [httpRequests]
    [(httpRequests, [server; route; statusClass status], Add 1); (httpDuration, [server; route], Observe_ (Seconds d))].

Definition Observe (backend ns operation outcome : string) (d : Z) : Method :=
  mkMethod [storageOps]
    [(storageOps, [backend; ns; operation; outcome], Add 1);
     (storageDuration, [backend; ns; operation], Observe_ (Seconds d))].

Definition InstructionReceived : Method := inc instructionsReceived [].
Definition InstructionRejected (reason : string) : Method := inc instructionsRejected [reason].
Definition VotingStarted : Method := inc votingsStarted [].
Definition VotingThresholdReached (d : Z) : Method :=
  mkMethod [votingThresholdDuration] [(votingThresholdDuration, [], Observe_ (Seconds d))].
Definition FinalizedActionEnqueueFailed : Method := inc finalizedEnqueueFail [].
Definition FinalizedActionLost (reason : string) : Method := inc finalizedActionLost [reason].

Definition PreinitInfoStages (stages : list string) : Method :=
  mkMethod [infoRefreshFailures; infoRefreshExhausted]
    (s ← stages; [(infoRefreshFailures, [s], Add 0); (infoRefreshExhausted, [s], Add 0)]).
Definition InfoRefreshFailed (stage : string) : Method := inc infoRefreshFailures [stage].
Definition InfoRefreshExhausted (stage : string) : Method := inc infoRefreshExhausted [stage].
Definition InfoRefreshObserved (d : Z) (failed : bool) : Method :=
  mkMethod [infoRefreshDuration] [(infoRefreshDuration, [if failed then "error" else "ok"], Observe_ (Seconds d))].

Definition AttestationVerified (result reason : string) : Method := inc attestationVerify [result; reason].

(** The settings in the iteration order of the map. *)
Definition posture (f : Field) (settings : list (string * bool)) : Method :=
  mkMethod [f] ((fun s => (f, [s.1], Set_ (f64_of_Z (if s.2 : bool then 1 else 0)))) <$> settings).
Definition SetAttestationPosture (settings : list (string * bool)) : Method := posture attestationPosture settings.
Definition SetGovernancePosture (settings : list (string * bool)) : Method := posture governancePosture settings.

Definition ObserveNodeWait `{NetErrors} (path : string) (d : Z) (err : option error) : Method :=
  mkMethod [nodeWaitDuration]
    [(nodeWaitDuration, [path], Observe_ (Seconds d)); (nodeWaitTotal, [path; nodeWaitResult err], Add 1)].
Definition MachinepathPollObserved (result : string) : Method := inc machinepathPollTotal [result].

Definition SetActiveRewardEpoch (epoch : Z) : Method :=
  mkMethod [policyEpoch] [(policyEpoch, [], Set_ (f64_of_Z epoch))].
(** [now]: the current time in seconds, as the library reads it. *)
Definition SetPolicyFetched (now : spec_float) : Method := mkMethod [policyLastFetch] [(policyLastFetch, [], Set_ now)].
Definition PolicyUpdate (result : string) : Method := inc policyUpdate [result].

Definition SetReady (b : bool) : Method := mkMethod [ready] [(ready, [], Set_ (f64_of_Z (if b then 1 else 0)))].

Definition ActionDequeued (queue result : string) : Method := inc actionDequeued [queue; result].
Definition ActionEnqueued (queue result : string) : Method := inc actionEnqueued [queue; result].
Definition ActionRedelivery (queue result : string) : Method := inc actionRedelivery [queue; result].
Definition QueueDepthReadFailed (queue : string) : Method := inc queueDepthReadFailures [queue].

Definition WalletSyncObserved (result : string) : Method := inc walletSyncTotal [result].
Definition WalletKeyUpdateFailed : Method := inc walletKeyUpdateFailed [].
Definition WalletBackupApplyFailed : Method := inc walletBackupApplyFailed [].

Definition ResultProcessed `{OpLib, CommandNames} (opCommand : Hash) (status : Z) : Method :=
  inc resultsProcessed [opCommandLabel opCommand; resultStatusClass status].
Definition ResultLost : Method := inc resultsLost [].
Definition ResultMissingActionID : Method := inc resultsNoActionID [].
Definition ResultRejected (reason : string) : Method := inc resultsRejected [reason].
Definition ResultChannelDropped (channel : string) : Method := inc resultChannelDropped [channel].

(** ** What is enabled *)

Definition Enabled (m : option Metrics) : bool := match m with None => false | Some m => Enable (cfg m) end.
Definition Registry_ (m : option Metrics) : option Registry := reg <$> m.
Definition HTTPEnabled (m : option Metrics) : bool :=
  match m with None => false | Some m => present m httpRequests end.
Definition StorageObserver (m : option Metrics) : option Metrics :=
  match m with None => None | Some m => if present m storageOps then Some m else None end.
Definition group_on (g : Config -> bool) (m : option Metrics) : bool :=
  match m with None => false | Some m => Enable (cfg m) && g (cfg m) end.
Definition ActiveVotersEnabled : option Metrics -> bool := group_on ActiveVoters.
Definition NodeEnabled : option Metrics -> bool := group_on Node.
Definition PolicyEnabled : option Metrics -> bool := group_on Policy.
Definition LivenessEnabled : option Metrics -> bool := group_on Liveness.
Definition QueueEnabled : option Metrics -> bool := group_on Queue.
Definition WalletEnabled : option Metrics -> bool := group_on Wallet.

(** ** Gauges that are read at a scrape *)

Definition add_func (m : Metrics) (d : Desc) (f : Func) : Metrics :=
  mkMetrics (cfg m) (reg m) (fields m) (funcs m ++ [(d, f)]).

(** Nothing happens without the group or without a function. *)
Definition register (enabled : option Metrics -> bool) (d : Desc) (f : option Func) (m : option Metrics)
    : res (option Metrics) :=
  if negb (enabled m) then Ok m
  else
    match m, f with
    | Some m, Some f => m ← MustRegister m [d]; Ok (Some (add_func m d f))
    | m, _ => Ok m
    end.
Definition gaugeFunc (sub name : string) (const : list (string * string)) : Desc :=
  mkDesc (BuildFQName namespace sub name) [] const.

Definition RegisterActiveInitiators := register ActiveVotersEnabled (gaugeFunc "" "active_initiators" []).
Definition RegisterActiveDataProviderVoters :=
  register ActiveVotersEnabled (gaugeFunc "" "active_data_provider_voters" []).
Definition RegisterActiveDataProviderWeight :=
  register ActiveVotersEnabled (gaugeFunc "" "active_data_provider_weight_bips" []).
Definition RegisterMaxVotingWeight := register ActiveVotersEnabled (gaugeFunc "" "max_voting_weight_bips" []).
Definition RegisterVotingThreshold := register ActiveVotersEnabled (gaugeFunc "" "voting_threshold_bips" []).

Record ProviderPending : Type := mkPending { Provider : string; Pending : spec_float }.
(** [topPendingCollector.Collect]: one sample per provider, with its label values. *)
Definition Collect (top : list ProviderPending) : list (list string * spec_float) :=
  (fun p => ([Provider p], Pending p)) <$> top.
Definition RegisterTopUnfinalizedProposals :=
  register ActiveVotersEnabled
    (mkDesc (BuildFQName namespace "" "top_provider_unfinalized_proposals") ["provider"] []).

Definition RegisterGovernanceHashMatch := register NodeEnabled (gaugeFunc "" "governance_hash_match" []).
Definition RegisterOldestStoredPolicy :=
  register PolicyEnabled (gaugeFunc "" "signing_policy_oldest_reward_epoch" []).
Definition RegisterNodeAppliedPolicy := register PolicyEnabled (gaugeFunc "" "node_applied_policy_epoch" []).
Definition RegisterMaxConsensusEpoch := register PolicyEnabled (gaugeFunc "" "consensus_max_reward_epoch" []).
Definition RegisterInfoDelay := register LivenessEnabled (gaugeFunc "" "info_service_delay_seconds" []).
Definition RegisterCChainDelay := register LivenessEnabled (gaugeFunc "" "cchain_indexer_delay_seconds" []).
Definition RegisterQueueDepth (queue : string) :=
  register QueueEnabled (gaugeFunc "" "action_queue_depth" [("queue", queue)]).
Definition RegisterWalletKeysCached := register WalletEnabled (gaugeFunc "wallet" "keys_cached" []).
End Metrics.

(** ** What the collectors hold *)

Abbreviation Entry := (Field * list string * Rec)%type (only parsing).

(** The recordings on one series. *)
Definition recs (f : Field) (values : list string) (es : list Entry) : list Rec :=
  omap (fun e : Entry => if decide (e.1 = (f, values)) then Some e.2 else None) es.

Definition added (r : Rec) : option Z := match r with Add n => Some n | _ => None end.
Definition level (r : Rec) : option spec_float := match r with Set_ x => Some x | _ => None end.
Definition observation (r : Rec) : option spec_float := match r with Observe_ x => Some x | _ => None end.

(** A new series: there is one from the start only without labels. *)
Definition fresh (o : Opts) (values : list string) : option Sample :=
  if decide (Labels o = [] /\ values = []) then Some (zero (o_Kind o)) else None.

(** What a series holds after its recordings. *)
Definition holds (o : Opts) (values : list string) (rs : list Rec) : option Sample :=
  match o_Kind o with
  | Counter => if decide (rs = []) then fresh o values else Some (Count (Prelude.list_sum (omap added rs)))
  | Gauge => match last (omap level rs) with Some x => Some (Level x) | None => fresh o values end
  | Histogram => if decide (rs = []) then fresh o values else Some (Observations (omap observation rs))
  end.

Lemma recs_app f values es es' : recs f values (es ++ es') = recs f values es ++ recs f values es'.
Proof. apply omap_app. Qed.
Lemma recs_one f values f' values' r :
  recs f values [(f', values', r)] = if decide ((f', values') = (f, values)) then [r] else [].
Proof. unfold recs. cbn. by case_decide. Qed.
Lemma recs_none f values es : Forall (fun e : Entry => e.1.1 <> f) es -> recs f values es = [].
Proof.
  induction 1 as [|[[f' vs] r] es Hne _ IH]; [done|]. cbn. rewrite decide_False by naive_solver. exact IH.
Qed.
Lemma list_sum_app l k : Prelude.list_sum (l ++ k) = Prelude.list_sum l + Prelude.list_sum k.
Proof. induction l as [|x l IH]; [done|]. cbn [app]. rewrite !Prelude.list_sum_cons, IH. lia. Qed.

Lemma holds_nil o values : holds o values [] = fresh o values.
Proof. unfold holds. by destruct (o_Kind o). Qed.

(** One more recording of the series' kind. *)
Lemma holds_snoc o values rs r :
  Forall (fun r => rec_kind r = o_Kind o) rs -> rec_kind r = o_Kind o ->
  holds o values (rs ++ [r]) = Some (after (holds o values rs) r).
Proof.
  intros Hrs Hr. unfold holds. rewrite !omap_app. destruct r; cbn in Hr; rewrite <- Hr in *; cbn.
  - rewrite decide_False by apply snoc_not_nil. rewrite list_sum_app. cbn.
    case_decide as Hn; [subst; cbn|by rewrite Z.add_0_r]. unfold fresh. rewrite <- Hr. case_decide; cbn; f_equal; f_equal; lia.
  - by rewrite last_snoc.
  - rewrite decide_False by apply snoc_not_nil. case_decide as Hn; [subst; cbn|done].
    unfold fresh. rewrite <- Hr. by case_decide.
Qed.

(** ** Well-formed tables of collectors *)

(** [prometheus.BuildFQName] in the package's namespace. *)
Definition full_name (sub name : string) : string :=
  if decide (sub = "") then namespace +:+ "_" +:+ name else namespace +:+ "_" +:+ sub +:+ "_" +:+ name.
Definition opts_name (o : Opts) : string := full_name (Subsystem o) (Name o).

Definition opts_ok (o : Opts) : bool :=
  valid_name (Name o) && valid_name (opts_name o) && forallb valid_name (Labels o) &&
  bool_decide (NoDup (Labels o)) && increasing (Buckets o).

Definition creates (l : list Step) : list (Field * Opts) :=
  omap (fun s => match s with Create f o => Some (f, o) | Seed _ _ => None end) l.
Definition seeds (l : list Step) : list Entry :=
  omap (fun s => match s with Seed f values => Some (f, values, Add 0) | Create _ _ => None end) l.

(** Each collector is well-formed, and a series is created only on a vector of counters
    that exists already, with the right number of values. *)
Fixpoint steps_ok (made : list (Field * Opts)) (l : list Step) : bool :=
  match l with
  | [] => true
  | Create f o :: l => opts_ok o && steps_ok (made ++ [(f, o)]) l
  | Seed f values :: l =>
      existsb (fun p : Field * Opts => bool_decide (p.1 = f) && bool_decide (o_Kind p.2 = Counter) &&
                                       bool_decide (length values = length (Labels p.2))) made &&
      forallb plain values && steps_ok made l
  end.

Lemma forallb_Forall {A} (f : A -> bool) l : forallb f l = true -> Forall (fun x => f x = true) l.
Proof. intros Hf. apply Forall_forall. intros x Hx. eapply forallb_forall in Hf; [exact Hf|by apply list_elem_of_In]. Qed.

Lemma steps_ok_weaken made made' l :
  (forall p, p ∈ made -> p ∈ made') -> steps_ok made l = true -> steps_ok made' l = true.
Proof.
  revert made made'. induction l as [|[f o|f vs] l IH]; intros made made' Hsub; cbn; [done|..].
  - intros [-> Hl]%andb_true_iff. cbn. eapply IH; [|exact Hl]. set_solver.
  - intros [[Hx ->]%andb_true_iff Hl]%andb_true_iff. rewrite (IH _ _ Hsub Hl), !andb_true_r.
    apply existsb_exists in Hx as (p & Hp & Hx). apply existsb_exists. exists p. split; [|done].
    apply list_elem_of_In, Hsub, list_elem_of_In, Hp.
Qed.

Lemma steps_ok_app made l k :
  steps_ok made l = true -> steps_ok [] k = true -> steps_ok made (l ++ k) = true.
Proof.
  revert made. induction l as [|[f o|f vs] l IH]; intros made; cbn.
  - intros _. apply steps_ok_weaken. intros p Hp. by apply elem_of_nil in Hp.
  - intros [-> Hl]%andb_true_iff Hk. cbn. by apply IH.
  - intros [-> Hl]%andb_true_iff Hk. cbn. by apply IH.
Qed.

(** Every group is well-formed by itself, so any selection of them is. *)
Lemma groups_ok : Forall (fun g : (Config -> bool) * list Step => steps_ok [] g.2 = true) collectorGroups.
Proof. repeat (apply Forall_cons; split; [vm_compute; reflexivity|]). apply Forall_nil_2. Qed.

Definition select (sel : ((Config -> bool) * list Step) -> bool) (gs : list ((Config -> bool) * list Step))
    : list Step := mbind (fun g => if sel g then g.2 else []) gs.

Lemma select_ok sel gs :
  Forall (fun g : (Config -> bool) * list Step => steps_ok [] g.2 = true) gs -> steps_ok [] (select sel gs) = true.
Proof.
  induction 1 as [|g gs Hg _ IH]; [done|]. unfold select in *. rewrite bind_cons.
  apply steps_ok_app; [|done]. by destruct (sel g).
Qed.

Lemma enabled_select c : enabled_steps c = select (fun g => g.1 c) collectorGroups.
Proof. done. Qed.
Lemma enabled_ok c : steps_ok [] (enabled_steps c) = true.
Proof. rewrite enabled_select. apply select_ok, groups_ok. Qed.

(** All collectors: those of any configuration are among them, in order. *)
Definition all_collectors : list (Field * Opts) := creates (select (fun _ => true) collectorGroups).

Lemma creates_app l k : creates (l ++ k) = creates l ++ creates k.
Proof. apply omap_app. Qed.
Lemma seeds_app l k : seeds (l ++ k) = seeds l ++ seeds k.
Proof. apply omap_app. Qed.

Lemma select_sublist sel gs :
  sublist (creates (select sel gs)) (creates (select (fun _ => true) gs)).
Proof.
  induction gs as [|g gs IH]; [done|]. unfold select in *. rewrite !bind_cons, !creates_app.
  apply sublist_app; [|done]. destruct (sel g); [done|apply sublist_nil_l].
Qed.

Lemma all_fields : NoDup all_collectors.*1.
Proof. by apply (bool_decide_unpack _); vm_compute. Qed.
Lemma all_names : NoDup (opts_name <$> all_collectors.*2).
Proof. by apply (bool_decide_unpack _); vm_compute. Qed.
Lemma build_info_name : full_name "" "build_info" ∉ (opts_name <$> all_collectors.*2).
Proof. by apply (bool_decide_unpack _); vm_compute. Qed.

Lemma enabled_sublist c : sublist (creates (enabled_steps c)) all_collectors.
Proof. rewrite enabled_select. apply select_sublist. Qed.
Lemma enabled_fields c : NoDup (creates (enabled_steps c)).*1.
Proof. eapply sublist_NoDup; [apply all_fields|]. apply sublist_fmap, enabled_sublist. Qed.
Lemma enabled_names c : NoDup (opts_name <$> (creates (enabled_steps c)).*2).
Proof. eapply sublist_NoDup; [apply all_names|]. do 2 apply sublist_fmap. apply enabled_sublist. Qed.

(** ** Recording on well-formed collectors *)

Section Tracking.
Context `{PromLib, !PromLaws}.
Implicit Types (made : list (Field * Opts)) (es : list Entry).

(** A recording on an existing vector of its kind, with the right number of values. *)
Definition entry_ok made (e : Entry) : Prop :=
  Forall (fun s => plain s = true) e.1.2 /\ (forall n, e.2 = Add n -> 0 <= n) /\
  exists o, (e.1.1, o) ∈ made /\ rec_kind e.2 = o_Kind o /\ length e.1.2 = length (Labels o).

(** The collectors that exist are those of [made], and each series holds what was
    recorded on it. *)
Record tracks made es (m : Metrics) : Prop := {
  tr_vec f v : fields m !! f = Some v -> (f, opts_of v) ∈ made /\
    forall values, sample v values = holds (opts_of v) values (recs f values es);
  tr_made f o : (f, o) ∈ made -> is_Some (fields m !! f);
  tr_kinds e o : e ∈ es -> (e.1.1, o) ∈ made -> rec_kind e.2 = o_Kind o;
  tr_known e : e ∈ es -> e.1.1 ∈ made.*1
}.

Definition same_registry (m m' : Metrics) : Prop := cfg m' = cfg m /\ reg m' = reg m /\ funcs m' = funcs m.

Lemma recs_kind f values es k :
  (forall e, e ∈ es -> e.1.1 = f -> rec_kind e.2 = k) -> Forall (fun r => rec_kind r = k) (recs f values es).
Proof.
  intros Hk. apply Forall_forall. intros r Hr. unfold recs in Hr.
  apply list_elem_of_omap in Hr as (e & He & Hr). case_decide as Heq; [|done]. injection Hr as <-.
  apply Hk; [done|]. by rewrite Heq.
Qed.

Lemma record_tracks made es m e :
  NoDup made.*1 -> tracks made es m -> entry_ok made e ->
  exists m', record m e = Ok m' /\ tracks made (es ++ [e]) m' /\ same_registry m m'.
Proof.
  intros Hnd Ht (Hpl & Hadd & o & Hin & Hkind & Hlen). destruct e as [[f vs] r]. cbn in *.
  destruct (tr_made _ _ _ Ht _ _ Hin) as [v Hv]. destruct (tr_vec _ _ _ Ht _ _ Hv) as [Hvin Hsam].
  assert (opts_of v = o) as Ho by (by eapply NoDup_fst_inj).
  destruct (apply_rec_ok v vs r) as (v' & Hrec & Hopts & Hnew & Hold); [by rewrite Ho..|done|done|].
  exists (set_field m f v'). rewrite Hv. cbn. rewrite Hrec. cbn. split_and!; [done| |done].
  constructor; cbn.
  - intros f' w. rewrite lookup_insert. case_decide as Hf; [subst f'; intros [= <-]|].
    + rewrite Hopts, Ho. split; [done|]. intros values. rewrite recs_app, recs_one.
      destruct (decide (values = vs)) as [->|Hne].
      * rewrite decide_True, Hnew, Hsam, Ho by done. symmetry. apply holds_snoc; [|done].
        apply recs_kind. intros e' He' Hf'. eapply (tr_kinds _ _ _ Ht); [done|]. by rewrite Hf'.
      * rewrite decide_False by congruence. by rewrite app_nil_r, Hold, Hsam, Ho.
    + intros Hw. destruct (tr_vec _ _ _ Ht _ _ Hw) as [Hwin Hws]. split; [done|]. intros values.
      rewrite recs_app, recs_one, decide_False by congruence. by rewrite app_nil_r.
  - intros f' o' Hin'. rewrite lookup_insert. case_decide; [done|]. by eapply tr_made.
  - intros e o' [He| ->%list_elem_of_singleton]%elem_of_app Ho'; [by eapply tr_kinds|].
    cbn in *. by rewrite (NoDup_fst_inj _ _ _ _ Hnd Ho' Hin).
  - intros e [He| ->%list_elem_of_singleton]%elem_of_app; [by eapply tr_known|].
    apply (list_elem_of_fmap_2 fst) in Hin. done.
Qed.

Lemma same_registry_trans m m' m'' : same_registry m m' -> same_registry m' m'' -> same_registry m m''.
Proof. intros (? & ? & ?) (? & ? & ?). split_and!; congruence. Qed.

Lemma record_all_tracks made es m es' :
  NoDup made.*1 -> tracks made es m -> Forall (entry_ok made) es' ->
  exists m', record_all m es' = Ok m' /\ tracks made (es ++ es') m' /\ same_registry m m'.
Proof.
  intros Hnd Ht Hes. revert es m Ht. induction Hes as [|e es' He _ IH]; intros es m Ht; cbn [record_all].
  { exists m. by rewrite app_nil_r. }
  destruct (record_tracks _ _ _ _ Hnd Ht He) as (m1 & -> & Ht1 & Hr1). cbn.
  destruct (IH _ _ Ht1) as (m2 & -> & Ht2 & Hr2). exists m2. rewrite <- app_assoc in Ht2.
  split_and!; [done|done|]. by eapply same_registry_trans.
Qed.

Lemma opts_ok_spec o :
  opts_ok o = true ->
  valid_name (Name o) = true /\ valid_name (opts_name o) = true /\ Forall (fun l => valid_name l = true) (Labels o) /\
  NoDup (Labels o) /\ increasing (Buckets o) = true.
Proof.
  unfold opts_ok. intros Ho. bool_to_prop. split_and!; try done.
  by apply forallb_Forall.
Qed.

Lemma valid_name_nonempty s : valid_name s = true -> s <> "".
Proof. by intros Hv ->. Qed.

Lemma full_name_is sub name : name <> "" -> BuildFQName namespace sub name = full_name sub name.
Proof.
  intros Hn. unfold full_name. case_decide as Hs; [subst; by rewrite BuildFQName_bare|by rewrite BuildFQName_sub].
Qed.

Lemma desc_of_name o : opts_ok o = true -> fqName (desc_of o) = opts_name o.
Proof. intros (Hn & _)%opts_ok_spec. apply full_name_is. by apply valid_name_nonempty. Qed.

Lemma desc_of_valid o : opts_ok o = true -> valid_desc (desc_of o).
Proof.
  intros Ho. pose proof (desc_of_name o Ho) as Hn. apply opts_ok_spec in Ho as (_ & Hv & Hl & Hd & _).
  unfold valid_desc, label_names. rewrite Hn. cbn. rewrite app_nil_r. by split_and!.
Qed.

(** ** Building the collectors *)

Lemma create_tracks made es m f o extra :
  opts_ok o = true -> f ∉ made.*1 -> opts_name o ∉ (opts_name <$> made.*2) ->
  Forall (fun p : Field * Opts => opts_ok p.2 = true) made ->
  (forall d, d ∈ extra -> fqName d <> opts_name o) ->
  tracks made es m -> registered (reg m) = extra ++ (desc_of <$> made.*2) ->
  exists m', run_step m (Create f o) = Ok m' /\ tracks (made ++ [(f, o)]) es m' /\ cfg m' = cfg m /\
    funcs m' = funcs m /\ registered (reg m') = registered (reg m) ++ [desc_of o].
Proof.
  intros Ho Hf Hname Hmade Hextra Ht Hreg. apply opts_ok_spec in Ho as Hspec. destruct Hspec as (Hn & _ & Hl & Hd & Hb).
  destruct (NewVec_ok o Hn Hl Hd Hb) as (v & Hv & Hov & Hsam). cbn [run_step]. rewrite Hv. cbn.
  assert (Hcompat : forall d d', d ∈ [desc_of o] -> d' ∈ registered (reg m) -> compatible d d').
  { intros d d' ->%list_elem_of_singleton Hd'. left. rewrite desc_of_name by done. rewrite Hreg in Hd'.
    apply elem_of_app in Hd' as [Hd'|Hd']; [intros Heq; by eapply Hextra|].
    intros Heq. apply Hname. apply list_elem_of_fmap in Hd' as (o' & -> & Ho').
    rewrite Forall_forall in Hmade. apply list_elem_of_fmap in Ho' as (p & -> & Hp).
    rewrite Heq, desc_of_name by (by apply Hmade). do 2 apply list_elem_of_fmap_2. done. }
  destruct (Register_ok (reg m) [desc_of o]) as (r' & Hr & Hrs); [|apply NoDup_singleton|done|].
  { apply Forall_singleton. by apply desc_of_valid. }
  unfold MustRegister. rewrite Hr. cbn. eexists. split; [reflexivity|]. split_and!; [|done|done|done].
  constructor; cbn.
  - intros f' w. rewrite lookup_insert. case_decide as Heq; [subst f'; intros [= <-]|].
    + rewrite Hov. split; [set_solver|]. intros values. rewrite recs_none; [by rewrite holds_nil, Hsam|].
      apply Forall_forall. intros e He <-. by apply Hf, (tr_known _ _ _ Ht).
    + intros Hw. apply (tr_vec _ _ _ Ht) in Hw as [Hw ?]. split; [set_solver|done].
  - intros f' o' [Hin|[= -> ->]%list_elem_of_singleton]%elem_of_app; [|by rewrite lookup_insert_eq].
    rewrite lookup_insert. case_decide; [done|]. by eapply tr_made.
  - intros e o' He [Hin|[= Heq _]%list_elem_of_singleton]%elem_of_app; [by eapply tr_kinds|].
    destruct Hf. rewrite <- Heq. by eapply tr_known.
  - intros e He. rewrite fmap_app. apply elem_of_app. left. by eapply tr_known.
Qed.

Lemma seed_tracks made es m f values :
  NoDup made.*1 -> steps_ok made [Seed f values] = true -> tracks made es m ->
  exists m', run_step m (Seed f values) = Ok m' /\ tracks made (es ++ [(f, values, Add 0)]) m' /\ same_registry m m'.
Proof.
  intros Hnd Hok Ht. cbn [steps_ok] in Hok. rewrite andb_true_r in Hok.
  apply andb_true_iff in Hok as [Hx Hp]. apply existsb_exists in Hx as ([f' o] & Hin & Hx). cbn in Hx. bool_to_prop.
  subst f'. apply record_tracks; [done|done|]. split_and!; cbn.
  - by apply forallb_Forall.
  - intros n [= <-]. lia.
  - exists o. split_and!; [by apply list_elem_of_In|done|done].
Qed.

Lemma run_steps_tracks l made es m extra :
  steps_ok made l = true -> NoDup (made ++ creates l).*1 -> NoDup (opts_name <$> (made ++ creates l).*2) ->
  Forall (fun p : Field * Opts => opts_ok p.2 = true) made ->
  (forall d o, d ∈ extra -> o ∈ (creates l).*2 -> fqName d <> opts_name o) ->
  tracks made es m -> registered (reg m) = extra ++ (desc_of <$> made.*2) ->
  exists m', run_steps m l = Ok m' /\ tracks (made ++ creates l) (es ++ seeds l) m' /\ cfg m' = cfg m /\
    funcs m' = funcs m /\ registered (reg m') = extra ++ (desc_of <$> (made ++ creates l).*2).
Proof.
  revert made es m. induction l as [|s l IH]; intros made es m Hok Hf Hn Hmade Hextra Ht Hreg; cbn [run_steps].
  { exists m. cbn. rewrite !app_nil_r. by split_and!. }
  destruct s as [f o|f values].
  - cbn [steps_ok] in Hok. apply andb_true_iff in Hok as [Ho Hok].
    change (creates (Create f o :: l)) with ([(f, o)] ++ creates l) in *.
    change (seeds (Create f o :: l)) with (seeds l) in *. rewrite app_assoc in *.
    assert (Hnew : f ∉ made.*1 /\ opts_name o ∉ (opts_name <$> made.*2)).
    { rewrite !fmap_app in Hf. rewrite !fmap_app in Hn. apply NoDup_app in Hf as (Hf & _ & _), Hn as (Hn & _ & _).
      apply NoDup_app in Hf as (_ & Hf & _), Hn as (_ & Hn & _). cbn in *. set_solver. }
    destruct Hnew as [Hnf Hnn].
    destruct (create_tracks made es m f o extra) as (m1 & -> & Ht1 & Hc1 & Hu1 & Hr1); try done.
    { intros d Hd. apply Hextra; [done|]. cbn. set_solver. }
    cbn. destruct (IH (made ++ [(f, o)]) es m1) as (m2 & -> & Ht2 & Hc2 & Hu2 & Hr2); try done.
    { apply Forall_app. split; [done|]. by apply Forall_singleton. }
    { intros d o' Hd Ho'. apply Hextra; [done|]. rewrite fmap_app. set_solver. }
    { rewrite Hr1, Hreg, !fmap_app, app_assoc. done. }
    exists m2. split_and!; try done; congruence.
  - change (creates (Seed f values :: l)) with (creates l) in *.
    change (seeds (Seed f values :: l)) with ([(f, values, Add 0)] ++ seeds l) in *.
    assert (Hok' : steps_ok made [Seed f values] = true /\ steps_ok made l = true).
    { cbn [steps_ok] in *. apply andb_true_iff in Hok as [-> ->]. done. }
    destruct Hok' as [Hs Hl].
    destruct (seed_tracks made es m f values) as (m1 & -> & Ht1 & Hc1 & Hg1 & Hu1); try done.
    { rewrite fmap_app in Hf. by apply NoDup_app in Hf as (Hf & _). }
    cbn. destruct (IH made (es ++ [(f, values, Add 0)]) m1) as (m2 & -> & Ht2 & Hc2 & Hu2 & Hr2); try done.
    { by rewrite Hg1. }
    exists m2. rewrite <- app_assoc in Ht2. split_and!; try done; congruence.
Qed.

(** ** The new collectors *)

Definition runtime_collectors (b : Build) (c : Config) : list Desc :=
  if Runtime c then GoCollector ++ ProcessCollector ++ [buildInfo b] else [].

(** What the build reports of itself is made of ASCII characters. *)
Definition plain_build (b : Build) : Prop := Forall (fun l => plain l.2 = true) (constLabels (buildInfo b)).

Definition collectors (c : Config) : list (Field * Opts) := if Enable c then creates (enabled_steps c) else [].
Definition seeded (c : Config) : list Entry := if Enable c then seeds (enabled_steps c) else [].

Lemma full_name_prefix sub name : exists s, full_name sub name = namespace +:+ "_" +:+ s.
Proof. unfold full_name. case_decide; by eexists. Qed.

Lemma runtime_not_ours d sub name : d ∈ GoCollector ++ ProcessCollector -> fqName d <> full_name sub name.
Proof. intros Hd. destruct (full_name_prefix sub name) as [s ->]. by apply runtime_foreign. Qed.

Lemma buildInfo_name b : fqName (buildInfo b) = full_name "" "build_info".
Proof.
  unfold buildInfo. destruct (ReadBuildInfo b) as [[]|]; [case_decide|]; cbn; by apply full_name_is.
Qed.

Lemma buildInfo_valid b : plain_build b -> valid_desc (buildInfo b).
Proof.
  intros Hp. split_and!; [by rewrite buildInfo_name| | |done].
  - unfold buildInfo. destruct (ReadBuildInfo b) as [[]|]; [case_decide|];
      by apply (bool_decide_unpack _); vm_compute.
  - unfold buildInfo. destruct (ReadBuildInfo b) as [[]|]; [case_decide|];
      by apply (bool_decide_unpack _); vm_compute.
Qed.

Lemma buildInfo_not_ours b c o : o ∈ (creates (enabled_steps c)).*2 -> fqName (buildInfo b) <> opts_name o.
Proof.
  intros Ho Heq. apply build_info_name. rewrite <- (buildInfo_name b), Heq. apply list_elem_of_fmap_2.
  eapply elem_of_sublist; [exact Ho|]. apply sublist_fmap, enabled_sublist.
Qed.

Lemma runtime_tracks b c m :
  plain_build b -> registered (reg m) = [] ->
  exists m', (if Runtime c
              then m ← MustRegister m GoCollector; m ← MustRegister m ProcessCollector; MustRegister m [buildInfo b]
              else Ok m) = Ok m' /\
    fields m' = fields m /\ cfg m' = cfg m /\ funcs m' = funcs m /\ registered (reg m') = runtime_collectors b c.
Proof.
  intros Hb Hreg. unfold runtime_collectors. destruct (Runtime c); [|by exists m].
  pose proof runtime_valid as Hv. pose proof runtime_names as Hn. apply Forall_app in Hv as [Hg Hp].
  rewrite fmap_app in Hn. apply NoDup_app in Hn as (Hng & Hdis & Hnp). unfold MustRegister.
  destruct (Register_ok (reg m) GoCollector Hg Hng) as (r1 & -> & Hr1).
  { intros d d' _. rewrite Hreg. by intros ?%elem_of_nil. }
  rewrite Hreg in Hr1. cbn in Hr1 |- *.
  destruct (Register_ok r1 ProcessCollector Hp Hnp) as (r2 & -> & Hr2).
  { intros d d' Hd. rewrite Hr1. intros Hd'. left. intros Heq.
    apply (list_elem_of_fmap_2 fqName) in Hd, Hd'. apply (Hdis _ Hd'). by rewrite <- Heq. }
  cbn. rewrite Hr1 in Hr2.
  destruct (Register_ok r2 [buildInfo b]) as (r3 & -> & Hr3);
    [by apply Forall_singleton, buildInfo_valid|apply NoDup_singleton| |].
  { intros d d' ->%list_elem_of_singleton. rewrite Hr2. intros Hd'. left. rewrite buildInfo_name.
    apply not_eq_sym. by apply runtime_not_ours. }
  cbn. eexists. split; [reflexivity|]. cbn. split_and!; try done. by rewrite Hr3, Hr2, app_assoc.
Qed.

Lemma tracks_empty m : fields m = ∅ -> tracks [] [] m.
Proof.
  intros He. constructor; [|by intros ? ? ?%elem_of_nil..|by intros ? ?%elem_of_nil].
  intros f v. by rewrite He, lookup_empty.
Qed.

Lemma New_tracks b c :
  plain_build b ->
  exists m, New b c = Ok m /\ tracks (collectors c) (seeded c) m /\ cfg m = c /\ funcs m = [] /\
    registered (reg m) = (if Enable c then runtime_collectors b c else []) ++ (desc_of <$> (collectors c).*2).
Proof.
  intros Hb. unfold New, collectors, seeded. destruct (Enable c); cbn [negb].
  2:{ eexists. split; [reflexivity|]. split_and!; [by apply tracks_empty|done|done|apply registered_new]. }
  destruct (runtime_tracks b c (mkMetrics c NewRegistry ∅ []) Hb registered_new) as (m & -> & Hf & Hc & Hu & Hr).
  cbn [fields cfg funcs] in Hf, Hc, Hu. cbn [mbind res_bind]. destruct (run_steps_tracks (enabled_steps c) [] [] m (runtime_collectors b c)) as (m' & -> & Ht & Hc' & Hu' & Hr').
  - apply enabled_ok.
  - apply enabled_fields.
  - apply enabled_names.
  - done.
  - intros d o Hd Ho. unfold runtime_collectors in Hd. destruct (Runtime c); [|by apply elem_of_nil in Hd].
    rewrite app_assoc in Hd. apply elem_of_app in Hd as [Hd| ->%list_elem_of_singleton].
    + by apply runtime_not_ours.
    + by eapply buildInfo_not_ours.
  - by apply tracks_empty.
  - by rewrite Hr, app_nil_r.
  - exists m'. split_and!; try done; congruence.
Qed.

(** ** The recording methods *)

Section Methods.
Context `{NetErrors, OpLib, CommandNames}.

(** The recording methods, with label values of ASCII characters where they are the
    caller's. *)
Abbreviation ascii s := (plain s = true) (only parsing).
Inductive recording : Method -> Prop :=
| r_HTTP server route status d : ascii server -> ascii route -> recording (ObserveHTTP server route status d)
| r_Storage backend ns op outcome d : ascii backend -> ascii ns -> ascii op -> ascii outcome ->
    recording (Observe backend ns op outcome d)
| r_InstructionReceived : recording InstructionReceived
| r_InstructionRejected reason : ascii reason -> recording (InstructionRejected reason)
| r_VotingStarted : recording VotingStarted
| r_VotingThresholdReached d : recording (VotingThresholdReached d)
| r_FinalizedActionEnqueueFailed : recording FinalizedActionEnqueueFailed
| r_FinalizedActionLost reason : ascii reason -> recording (FinalizedActionLost reason)
| r_PreinitInfoStages stages : Forall (fun s => ascii s) stages -> recording (PreinitInfoStages stages)
| r_InfoRefreshFailed stage : ascii stage -> recording (InfoRefreshFailed stage)
| r_InfoRefreshExhausted stage : ascii stage -> recording (InfoRefreshExhausted stage)
| r_InfoRefreshObserved d failed : recording (InfoRefreshObserved d failed)
| r_AttestationVerified result reason : ascii result -> ascii reason -> recording (AttestationVerified result reason)
| r_AttestationPosture l : Forall (fun s : string * bool => ascii s.1) l -> recording (SetAttestationPosture l)
| r_GovernancePosture l : Forall (fun s : string * bool => ascii s.1) l -> recording (SetGovernancePosture l)
| r_NodeWait path d err : ascii path -> recording (ObserveNodeWait path d err)
| r_PollObserved result : ascii result -> recording (MachinepathPollObserved result)
| r_ActiveRewardEpoch epoch : recording (SetActiveRewardEpoch epoch)
| r_PolicyFetched now : recording (SetPolicyFetched now)
| r_PolicyUpdate result : ascii result -> recording (PolicyUpdate result)
| r_Ready b : recording (SetReady b)
| r_Dequeued queue result : ascii queue -> ascii result -> recording (ActionDequeued queue result)
| r_Enqueued queue result : ascii queue -> ascii result -> recording (ActionEnqueued queue result)
| r_Redelivery queue result : ascii queue -> ascii result -> recording (ActionRedelivery queue result)
| r_DepthReadFailed queue : ascii queue -> recording (QueueDepthReadFailed queue)
| r_WalletSync result : ascii result -> recording (WalletSyncObserved result)
| r_WalletKeyUpdateFailed : recording WalletKeyUpdateFailed
| r_WalletBackupApplyFailed : recording WalletBackupApplyFailed
| r_ResultProcessed c status : (forall c, ascii (command_name c)) -> recording (ResultProcessed c status)
| r_ResultLost : recording ResultLost
| r_ResultMissingActionID : recording ResultMissingActionID
| r_ResultRejected reason : ascii reason -> recording (ResultRejected reason)
| r_ResultChannelDropped channel : ascii channel -> recording (ResultChannelDropped channel).

(** The collector of a field in a table, by computation. *)
Definition find_opts made (f : Field) : option Opts :=
  match list_find (fun p : Field * Opts => p.1 = f) made with Some (_, p) => Some p.2 | None => None end.
Definition entry_fits made (e : Entry) : bool :=
  match find_opts made e.1.1 with
  | Some o => bool_decide (rec_kind e.2 = o_Kind o) && Nat.eqb (length e.1.2) (length (Labels o))
  | None => false
  end.

Lemma entry_fits_ok made e :
  entry_fits made e = true -> Forall (fun s => ascii s) e.1.2 -> (forall n, e.2 = Add n -> 0 <= n) -> entry_ok made e.
Proof.
  unfold entry_fits, find_opts. destruct (list_find _ made) as [[i [f o]]|] eqn:Hf; [|done]. cbn.
  intros Hb Hp Hn. bool_to_prop. split_and!; [done|done|]. exists o.
  apply list_find_Some in Hf as (Hi & Hf & _). cbn in Hf. subst f. split_and!; [|done|].
  - by eapply list_elem_of_lookup_2.
  - by apply Nat.eqb_eq.
Qed.

(** The fields a method tests and those it records on belong to one group. *)
Definition method_ok (mt : Method) : Prop :=
  exists g, g ∈ collectorGroups /\ gates mt <> [] /\ Forall (fun f => f ∈ (creates g.2).*1) (gates mt) /\
    Forall (entry_ok (creates g.2)) (entries mt).

Lemma plain_statusClass status : ascii (statusClass status).
Proof. unfold statusClass. by repeat case_decide. Qed.
Lemma plain_resultStatusClass status : ascii (resultStatusClass status).
Proof. unfold resultStatusClass. by repeat case_decide. Qed.
Lemma plain_nodeWaitResult err : ascii (nodeWaitResult err).
Proof. destruct err; cbn; by repeat case_match. Qed.
Lemma plain_opCommandLabel h : (forall c, ascii (command_name c)) -> ascii (opCommandLabel h).
Proof. intros Hc. unfold opCommandLabel. destruct (HashToOPCommand h); [|done]. by case_decide. Qed.
Lemma plain_failed (failed : bool) : ascii (if failed then "error" else "ok").
Proof. by destruct failed. Qed.
Hint Resolve plain_failed plain_statusClass plain_resultStatusClass plain_nodeWaitResult plain_opCommandLabel : core.

(** A group by its position, and the entries of a method one by one. *)
Ltac in_group n :=
  let g := eval lazy [nth collectorGroups] in (nth n collectorGroups (HTTP, [])) in
  exists g; split; [apply (list_elem_of_lookup_2 _ n); reflexivity|];
  split; [discriminate|];
  split; [repeat (apply Forall_cons; split; [apply (bool_decide_unpack _); vm_compute; reflexivity|]); apply Forall_nil_2|].
Ltac labels := cbn [fst snd]; repeat (apply Forall_cons; split; [solve [auto | reflexivity]|]); apply Forall_nil_2.
Ltac entry := apply entry_fits_ok; [reflexivity|labels|cbn; intros ? [= <-]; lia].
Ltac each_entry := repeat (apply Forall_cons; split; [entry|]); apply Forall_nil_2.

Lemma stage_entries made stages :
  entry_fits made (infoRefreshFailures, [""], Add 0) = true ->
  entry_fits made (infoRefreshExhausted, [""], Add 0) = true ->
  Forall (fun s => ascii s) stages -> Forall (entry_ok made) (entries (PreinitInfoStages stages)).
Proof.
  intros Hf He. cbn [entries PreinitInfoStages]. induction 1 as [|s stages Hs _ IH]; [apply Forall_nil_2|].
  rewrite bind_cons. apply Forall_app. split; [|done].
  repeat (apply Forall_cons; split; [apply entry_fits_ok; [done|by repeat constructor|cbn; intros ? [= <-]; lia]|]).
  apply Forall_nil_2.
Qed.

Lemma posture_entries made f l :
  entry_fits made (f, [""], Set_ (f64_of_Z 0)) = true ->
  Forall (fun s : string * bool => ascii s.1) l -> Forall (entry_ok made) (entries (posture f l)).
Proof.
  intros Hf Hl. apply Forall_fmap. eapply Forall_impl; [exact Hl|]. intros [s on] Hs. cbn in *.
  apply entry_fits_ok; [done|by repeat constructor|done].
Qed.

Lemma recording_ok mt : recording mt -> method_ok mt.
Proof.
  destruct 1.
  1: unfold ObserveHTTP; case_decide.
  1, 2: in_group 0%nat; each_entry.
  all: lazymatch goal with
  | |- method_ok (PreinitInfoStages _) => in_group 6%nat; by apply stage_entries
  | |- method_ok (SetAttestationPosture _) => in_group 7%nat; by apply posture_entries
  | |- method_ok (SetGovernancePosture _) => in_group 8%nat; by apply posture_entries
  | |- _ => idtac
  end.
  all: first [in_group 1%nat; each_entry|in_group 2%nat; each_entry|in_group 3%nat; each_entry
    |in_group 4%nat; each_entry|in_group 5%nat; each_entry|in_group 6%nat; each_entry
    |in_group 7%nat; each_entry|in_group 8%nat; each_entry|in_group 9%nat; each_entry|in_group 10%nat; each_entry].
Qed.

(** ** Recordings on the collectors of a configuration *)

Definition has_field (f : Field) (g : (Config -> bool) * list Step) : bool := bool_decide (f ∈ (creates g.2).*1).

Lemma one_group f : length (filter (fun g => has_field f g = true) collectorGroups) = 1%nat.
Proof. destruct f; vm_compute; reflexivity. Qed.

Lemma group_unique f g g' :
  g ∈ collectorGroups -> g' ∈ collectorGroups -> f ∈ (creates g.2).*1 -> f ∈ (creates g'.2).*1 -> g = g'.
Proof.
  intros Hg Hg' Hf Hf'. pose proof (one_group f) as Hone.
  assert (Hin : forall x, x ∈ collectorGroups -> f ∈ (creates x.2).*1 ->
    x ∈ filter (fun g => has_field f g = true) collectorGroups).
  { intros x Hx Hfx. apply list_elem_of_filter. split; [by apply bool_decide_eq_true|done]. }
  pose proof (Hin _ Hg Hf) as H1g. pose proof (Hin _ Hg' Hf') as H2g.
  destruct (filter _ collectorGroups) as [|x [|]]; [done| |done].
  apply list_elem_of_singleton in H1g, H2g. congruence.
Qed.

Lemma elem_of_fst {A B} (l : list (A * B)) a : a ∈ l.*1 <-> exists b, (a, b) ∈ l.
Proof.
  rewrite list_elem_of_fmap. split; [intros ([x y] & -> & Hp); by exists y|intros [b Hb]; by exists (a, b)].
Qed.

Lemma elem_of_select_seeds sel gs e : e ∈ seeds (select sel gs) <-> exists g, g ∈ gs /\ sel g = true /\ e ∈ seeds g.2.
Proof.
  induction gs as [|g gs IH].
  { cbn. split; [by intros ?%elem_of_nil|]. intros (g & Hg & _). by apply elem_of_nil in Hg. }
  unfold select in *. rewrite bind_cons, seeds_app, elem_of_app, IH. split.
  - intros [He|(g' & ? & ? & ?)]; [|exists g'; split; [by right|done]].
    destruct (sel g) eqn:Hg; [|by apply elem_of_nil in He]. exists g. split_and!; [by left|done|done].
  - intros (g' & [->|Hg']%elem_of_cons & Hs & He); [left; by rewrite Hs|right; by exists g'].
Qed.

(** A seeded series belongs to a collector of the same list. *)
Lemma seeds_created made l e : steps_ok made l = true -> e ∈ seeds l -> e.1.1 ∈ (made ++ creates l).*1.
Proof.
  revert made. induction l as [|[f o|f vs] l IH]; intros made Hok He; cbn [steps_ok] in Hok.
  - by apply elem_of_nil in He.
  - apply andb_true_iff in Hok as [_ Hok]. specialize (IH _ Hok He). by rewrite <- app_assoc in IH.
  - apply andb_true_iff in Hok as [[Hx _]%andb_true_iff Hok]. apply elem_of_cons in He as [->|He]; [|by apply IH].
    apply existsb_exists in Hx as ([f' o] & Hin & Hx). cbn in Hx. bool_to_prop. subst f'. cbn.
    rewrite fmap_app. apply elem_of_app. left. apply elem_of_fst. exists o. by apply list_elem_of_In.
Qed.

Lemma elem_of_collectors c p :
  p ∈ collectors c <->
  Enable c = true /\ exists g, g ∈ collectorGroups /\ g.1 c = true /\ p ∈ creates g.2.
Proof.
  unfold collectors. destruct (Enable c); [|split; [by intros ?%elem_of_nil|by intros [? _]]].
  rewrite enabled_select. unfold select. generalize collectorGroups as gs. intros gs.
  induction gs as [|g gs IH].
  { cbn. split; [by intros ?%elem_of_nil|]. intros (_ & g & Hg & _). by apply elem_of_nil in Hg. }
  rewrite bind_cons, creates_app, elem_of_app, IH. split.
  - intros [Hp|(_ & g' & ? & ? & ?)]; (split; [done|]); [|exists g'; split; [by right|done]].
    destruct (g.1 c) eqn:Hg; [|by apply elem_of_nil in Hp]. exists g. split_and!; [by left|done|done].
  - intros (_ & g' & [->|Hg']%elem_of_cons & Hc & Hp); [left; by rewrite Hc|].
    right. split; [done|]. by exists g'.
Qed.

Definition kept (c : Config) (es : list Entry) : list Entry := filter (fun e : Entry => e.1.1 ∈ (collectors c).*1) es.

Lemma recs_kept c f values es : f ∈ (collectors c).*1 -> recs f values (kept c es) = recs f values es.
Proof.
  intros Hf. unfold kept, recs. induction es as [|e es IH]; [done|]. rewrite filter_cons. case_decide as He; cbn.
  - by rewrite IH.
  - rewrite IH, decide_False; [done|]. intros Heq. apply He. by rewrite Heq.
Qed.

(** The group of a method is enabled if one of its fields is there. *)
Lemma group_enabled c g f :
  g ∈ collectorGroups -> f ∈ (creates g.2).*1 -> f ∈ (collectors c).*1 -> forall p, p ∈ creates g.2 -> p ∈ collectors c.
Proof.
  intros Hg Hf [o Ho]%elem_of_fst p Hp. apply elem_of_collectors in Ho as (He & g' & Hg' & Hc & Ho).
  assert (g' = g) as ->. { eapply group_unique; [done|done| |exact Hf]. apply elem_of_fst. by exists o. }
  apply elem_of_collectors. split; [done|]. by exists g.
Qed.

(** The series that any configuration creates at 0 are created when their group is on. *)
Lemma elem_of_seeded c e :
  e ∈ seeds (select (fun _ => true) collectorGroups) -> e.1.1 ∈ (collectors c).*1 -> e ∈ seeded c.
Proof.
  intros (g & Hg & _ & He)%elem_of_select_seeds Hc. pose proof Hc as [o Ho]%elem_of_fst.
  apply elem_of_collectors in Ho as (Hen & g' & Hg' & Hsel & Ho).
  assert (g' = g) as ->.
  { eapply group_unique; [done|done|apply elem_of_fst; by exists o|].
    pose proof groups_ok as Hok. rewrite Forall_forall in Hok. by apply (seeds_created [] g.2), He; apply Hok. }
  unfold seeded. rewrite Hen, enabled_select. apply elem_of_select_seeds. by exists g.
Qed.

Lemma present_iff c es m f : tracks (collectors c) es m -> present m f = true <-> f ∈ (collectors c).*1.
Proof.
  intros Ht. unfold present. rewrite bool_decide_eq_true, elem_of_fst. split.
  - intros [v Hv]. eexists. by apply (tr_vec _ _ _ Ht).
  - intros [o Ho]. by eapply tr_made.
Qed.

Lemma collectors_fields c : NoDup (collectors c).*1.
Proof. unfold collectors. destruct (Enable c); [apply enabled_fields|constructor]. Qed.

Lemma entry_ok_weaken made made' e : (forall p, p ∈ made -> p ∈ made') -> entry_ok made e -> entry_ok made' e.
Proof. intros Hsub (? & ? & o & ? & ?). split_and!; [done|done|]. exists o. split; [by apply Hsub|done]. Qed.

Lemma filter_every {A} (P : A -> Prop) `{!forall x, Decision (P x)} l : Forall P l -> filter P l = l.
Proof. induction 1; [done|]. rewrite filter_cons_True by done. by f_equal. Qed.
Lemma filter_no {A} (P : A -> Prop) `{!forall x, Decision (P x)} l : Forall (fun x => ~ P x) l -> filter P l = [].
Proof. induction 1; [done|]. by rewrite filter_cons_False. Qed.

Lemma call_tracks c es m mt :
  method_ok mt -> tracks (collectors c) es m ->
  exists m', call mt (Some m) = Ok (Some m') /\ tracks (collectors c) (es ++ kept c (entries mt)) m' /\ same_registry m m'.
Proof.
  intros (g & Hg & Hne & Hgates & Hes) Ht. unfold call.
  destruct (forallb (present m) (gates mt)) eqn:Hp.
  - assert (Hsub : forall p, p ∈ creates g.2 -> p ∈ collectors c).
    { destruct (gates mt) as [|f l]; [done|]. apply Forall_cons in Hgates as [Hf _]. cbn in Hp.
      apply andb_true_iff in Hp as [Hp _]. eapply group_enabled; [done|exact Hf|]. by eapply present_iff. }
    assert (Hok : Forall (entry_ok (collectors c)) (entries mt)).
    { eapply Forall_impl; [exact Hes|]. intros e. by apply entry_ok_weaken. }
    destruct (record_all_tracks _ _ m _ (collectors_fields c) Ht Hok) as (m' & -> & Ht' & Hr).
    exists m'. split_and!; [done| |done]. unfold kept. rewrite filter_every; [done|].
    rewrite Forall_forall in Hok. apply Forall_forall. intros e He. apply Hok in He as (_ & _ & o & Ho & _).
    apply elem_of_fst. by exists o.
  - exists m. split_and!; [done| |done]. unfold kept. rewrite filter_no; [by rewrite app_nil_r|].
    apply Forall_forall. intros e He Hin. assert (forallb (present m) (gates mt) = true); [|congruence].
    apply forallb_forall. intros f Hf. rewrite Forall_forall in Hgates. rewrite Forall_forall in Hes.
    apply list_elem_of_In in Hf. apply Hgates in Hf. apply (present_iff _ _ _ _ Ht).
    apply elem_of_fst in Hf as [o Ho]. apply elem_of_fst. exists o.
    apply Hes in He as (_ & _ & o' & Ho' & _). eapply group_enabled; [done| |exact Hin|done].
    apply elem_of_fst. by exists o'.
Qed.

Fixpoint run_calls (m : option Metrics) (calls : list Method) : res (option Metrics) :=
  match calls with
  | [] => Ok m
  | mt :: calls => m ← call mt m; run_calls m calls
  end.

Lemma run_calls_tracks c es m calls :
  Forall method_ok calls -> tracks (collectors c) es m ->
  exists m', run_calls (Some m) calls = Ok (Some m') /\
    tracks (collectors c) (es ++ kept c (mbind entries calls)) m' /\ same_registry m m'.
Proof.
  intros Hc. revert es m. induction Hc as [|mt calls Hmt _ IH]; intros es m Ht; cbn [run_calls].
  { exists m. cbn. by rewrite app_nil_r. }
  destruct (call_tracks c es m mt Hmt Ht) as (m1 & -> & Ht1 & Hr1). cbn [mbind res_bind].
  destruct (IH _ _ Ht1) as (m2 & -> & Ht2 & Hr2). exists m2. split; [done|].
  unfold kept in *. rewrite bind_cons, filter_app, app_assoc. split; [done|]. by eapply same_registry_trans.
Qed.

(** C19: whatever is enabled, the metrics can be built, and no sequence of recordings makes
    the proxy panic: a collector is there exactly when its group is enabled, and after
    any recordings each of its series holds what was recorded on it - a counter the sum of
    what was added, a gauge the last value, a histogram all that was observed - next to
    the series that were created at 0; the registry is untouched.  A nil [*Metrics]
    ignores everything. *)
Theorem metrics_record b c calls :
  plain_build b -> Forall recording calls ->
  (exists m m', New b c = Ok m /\ run_calls (Some m) calls = Ok (Some m') /\ same_registry m m' /\
    forall f,
      match fields m' !! f with
      | Some v => (f, opts_of v) ∈ collectors c /\
          forall values, sample v values
            = holds (opts_of v) values (recs f values (seeded c) ++ recs f values (mbind entries calls))
      | None => f ∉ (collectors c).*1
      end) /\
  run_calls None calls = Ok None.
Proof.
  intros Hb Hc. split; [|by induction Hc].
  destruct (New_tracks b c Hb) as (m & Hm & Ht & _).
  destruct (run_calls_tracks c _ m calls ltac:(eapply Forall_impl; [exact Hc|apply recording_ok]) Ht)
    as (m' & Hm' & Ht' & Hr). exists m, m'. split_and!; try done. intros f.
  destruct (fields m' !! f) as [v|] eqn:Hv.
  - destruct (tr_vec _ _ _ Ht' _ _ Hv) as [Hin Hs]. split; [done|]. intros values.
    rewrite Hs, recs_app, recs_kept; [done|]. apply elem_of_fst. by eexists.
  - intros [o Ho]%elem_of_fst. destruct (tr_made _ _ _ Ht' _ _ Ho) as [v Hs]. congruence.
Qed.
End Methods.

(** ** Gauges that are read at a scrape *)

(** The gauges and the top-pending collector, with their groups. *)
Record FuncGauge : Type := mkFuncGauge {
  g_group : Config -> bool;
  g_sub : string;
  g_name : string;
  g_labels : list string;
  g_const : list (string * string)
}.
Definition gauge_desc (g : FuncGauge) : Desc :=
  mkDesc (BuildFQName namespace (g_sub g) (g_name g)) (g_labels g) (g_const g).
Definition named_desc (g : FuncGauge) : Desc := mkDesc (full_name (g_sub g) (g_name g)) (g_labels g) (g_const g).

(** Gauges that one registry can hold next to all collectors. *)
Fixpoint apart (ds : list Desc) : Prop :=
  match ds with
  | [] => True
  | d :: ds => Forall (fun d' => compatible d' d) ds /\ apart ds
  end.
#[export] Instance apart_dec ds : Decision (apart ds).
Proof. induction ds; cbn; apply _. Defined.

Definition gauges_ok (gs : list FuncGauge) : Prop :=
  Forall (fun g => g_name g <> "") gs /\ Forall valid_desc (named_desc <$> gs) /\ apart (named_desc <$> gs) /\
  Forall (fun d => fqName d ∉ full_name "" "build_info" :: (opts_name <$> all_collectors.*2)) (named_desc <$> gs).

(** The enabled gauges, in the order of their registration. *)
Definition enabled_gauges (c : Config) (gs : list (FuncGauge * Func)) : list (Desc * Func) :=
  omap (fun p => if Enable c && g_group p.1 c then Some (gauge_desc p.1, p.2) else None) gs.

Fixpoint register_gauges (m : option Metrics) (gs : list (FuncGauge * Func)) : res (option Metrics) :=
  match gs with
  | [] => Ok m
  | (g, f) :: gs => m ← register (group_on (g_group g)) (gauge_desc g) (Some f) m; register_gauges m gs
  end.

Lemma gauge_named g : g_name g <> "" -> gauge_desc g = named_desc g.
Proof. intros Hn. unfold gauge_desc, named_desc. by rewrite full_name_is. Qed.

(** The descriptions of the collectors of a configuration. *)
Definition base (b : Build) (c : Config) : list Desc :=
  (if Enable c then runtime_collectors b c else []) ++ (desc_of <$> (collectors c).*2).

Lemma base_names b c d sub name :
  d ∈ base b c -> fqName d = full_name sub name ->
  full_name sub name ∈ full_name "" "build_info" :: (opts_name <$> all_collectors.*2).
Proof.
  unfold base, collectors. destruct (Enable c); [|by intros ?%elem_of_nil].
  intros [Hd|(o & -> & Ho)%list_elem_of_fmap]%elem_of_app Hn.
  - unfold runtime_collectors in Hd. destruct (Runtime c); [|by apply elem_of_nil in Hd].
    rewrite app_assoc in Hd. apply elem_of_app in Hd as [Hd| ->%list_elem_of_singleton].
    + by apply runtime_not_ours in Hn.
    + rewrite <- Hn, buildInfo_name. by left.
  - right. rewrite <- Hn. apply list_elem_of_fmap in Ho as (p & -> & Hp).
    assert (opts_ok p.2 = true) as Hok.
    { pose proof (enabled_ok c) as Hok. revert Hok Hp. generalize (enabled_steps c) as l, (@nil (Field * Opts)) as made.
      induction l as [|[f o|f vs] l IH]; intros made; cbn [steps_ok].
      - intros _ Hp. by apply elem_of_nil in Hp.
      - intros [Ho Hl]%andb_true_iff [->|Hp]%elem_of_cons; [done|by eapply IH].
      - intros [_ Hl]%andb_true_iff Hp. by eapply IH. }
    rewrite desc_of_name by done. do 2 apply list_elem_of_fmap_2. eapply elem_of_sublist; [exact Hp|apply enabled_sublist].
Qed.

(** The gauges read at a scrape.  Gauges with valid names, of their own or told apart
    by a constant label, can all be registered, in any configuration, next to the
    collectors: nothing panics, and exactly those of enabled groups are registered, in
    order, with their functions, so the function of a disabled group is never called.
    Registering an enabled gauge a second time is the end of the process. *)
Theorem gauges_registered b c gs :
  plain_build b -> gauges_ok (fst <$> gs) ->
  exists m m', New b c = Ok m /\ register_gauges (Some m) gs = Ok (Some m') /\
    cfg m' = c /\ fields m' = fields m /\ funcs m' = enabled_gauges c gs /\
    registered (reg m') = base b c ++ (enabled_gauges c gs).*1 /\
    forall g f f', (g, f) ∈ gs -> Enable c && g_group g c = true ->
      register (group_on (g_group g)) (gauge_desc g) (Some f') (Some m') = Panic.
Proof.
  intros Hb (Hnames & Hvalid & Hapart & Hnew). destruct (New_tracks b c Hb) as (m & Hm & _ & Hc & Hu & Hr).
  fold (base b c) in Hr. exists m.
  enough (Hgen : forall m done_, cfg m = c -> registered (reg m) = base b c ++ (enabled_gauges c done_).*1 ->
    Forall (fun d => Forall (fun d' => compatible d d') (enabled_gauges c done_).*1) (named_desc <$> gs.*1) ->
    exists m', register_gauges (Some m) gs = Ok (Some m') /\ cfg m' = c /\ fields m' = fields m /\
      funcs m' = funcs m ++ enabled_gauges c gs /\
      registered (reg m') = base b c ++ (enabled_gauges c (done_ ++ gs)).*1).
  { destruct (Hgen m [] Hc) as (m' & Hm' & Hc' & Hf' & Hu' & Hr').
    - by rewrite Hr, app_nil_r.
    - apply Forall_forall. intros d _. apply Forall_nil_2.
    - exists m'. rewrite Hu in Hu'. split_and!; try done. intros g f f' Hin Hen. unfold register, group_on. rewrite Hc', Hen.
      cbn. unfold MustRegister. rewrite (Register_twice _ _ (gauge_desc g)); [done|by left|].
      rewrite Hr'. apply elem_of_app. right. cbn. apply elem_of_fst. exists f. unfold enabled_gauges.
      apply list_elem_of_omap. exists (g, f). split; [done|]. cbn. by rewrite Hen. }
  clear m Hm Hc Hu Hr. induction gs as [|[g f] gs IH]; intros m done_ Hc Hr Hcomp; cbn [register_gauges].
  { exists m. rewrite !app_nil_r. by split_and!. }
  cbn in Hnames, Hvalid, Hapart, Hnew, Hcomp.
  apply Forall_cons in Hnames as [Hgn Hnames], Hvalid as [Hgv Hvalid], Hnew as [Hgnew Hnew], Hcomp as [Hgc Hcomp].
  destruct Hapart as [Hga Hapart]. specialize (IH Hnames Hvalid Hapart Hnew).
  assert (Hstep : exists m1, register (group_on (g_group g)) (gauge_desc g) (Some f) (Some m) = Ok (Some m1) /\
    cfg m1 = c /\ fields m1 = fields m /\ funcs m1 = funcs m ++ enabled_gauges c [(g, f)] /\
    registered (reg m1) = base b c ++ (enabled_gauges c (done_ ++ [(g, f)])).*1).
  { unfold register, group_on, enabled_gauges. rewrite Hc, omap_app. cbn.
    destruct (Enable c && g_group g c); cbn; [|exists m; by rewrite !app_nil_r].
    unfold MustRegister. destruct (Register_ok (reg m) [gauge_desc g]) as (r' & -> & Hr').
    - apply Forall_singleton. by rewrite gauge_named.
    - apply NoDup_singleton.
    - intros d d' ->%list_elem_of_singleton. rewrite Hr, gauge_named by done.
      intros [Hd'|Hd']%elem_of_app; [|by eapply Forall_forall in Hgc].
      left. intros Heq. apply Hgnew. cbn. eapply base_names; [exact Hd'|]. by rewrite <- Heq.
    - cbn. eexists. split; [reflexivity|]. cbn. split_and!; [done|done|done|].
      rewrite Hr', Hr, fmap_app, app_assoc. done. }
  destruct Hstep as (m1 & -> & Hc1 & Hf1 & Hu1 & Hr1). cbn [mbind res_bind].
  destruct (IH m1 (done_ ++ [(g, f)]) Hc1 Hr1) as (m2 & -> & Hc2 & Hf2 & Hu2 & Hr2).
  - apply Forall_forall. intros d Hd. unfold enabled_gauges. rewrite omap_app, fmap_app. apply Forall_app. split.
    + rewrite Forall_forall in Hcomp. by apply Hcomp.
    + cbn. destruct (Enable c && g_group g c); cbn; [|apply Forall_nil_2]. apply Forall_singleton.
      rewrite gauge_named by done. rewrite Forall_forall in Hga. by apply Hga.
  - exists m2. rewrite <- app_assoc in Hr2. split_and!; try done; [congruence|].
    rewrite Hu2, Hu1, <- app_assoc. unfold enabled_gauges. rewrite <- omap_app. done.
Qed.
End Tracking.

(** ** A concrete registry *)

Module DemoMetrics.
(** A registry is the list of its descriptions, a vector its options and its series. *)
Definition vec : Type := Opts * gmap (list string) Sample.

Definition add (v : vec) (values : list string) (r : Rec) : res vec :=
  if decide (rec_kind r = o_Kind v.1 /\ length values = length (Labels v.1))
  then Ok (v.1, <[values := after (v.2 !! values) r]> v.2)
  else Panic.

#[export] Instance lib : PromLib := {|
  Registry := list Desc;
  Vec := vec;
  Func := nat;
  BuildFQName ns sub name := ns +:+ "_" +:+ (if decide (sub = "") then name else sub +:+ "_" +:+ name);
  NewRegistry := [];
  registered r := r;
  Register r ds := if decide (Exists (fun d => d ∈ r) ds) then None else Some (r ++ ds);
  NewVec o := Ok (o, if decide (Labels o = []) then {[ [] := zero (o_Kind o) ]} else ∅);
  opts_of v := v.1;
  sample v values := v.2 !! values;
  Counter_Add v values n := add v values (Add n);
  Gauge_Set v values x := add v values (Set_ x);
  Histogram_Observe v values x := add v values (Observe_ x);
  GoCollector := [mkDesc "go_goroutines" [] []];
  ProcessCollector := [mkDesc "process_open_fds" [] []]
|}.

Lemma add_is v values r : apply_rec v values r = add v values r.
Proof. by destruct r. Qed.

#[export] Instance laws : @PromLaws lib.
Proof.
  constructor.
  - done.
  - intros ns sub name _ Hs _. cbn. by rewrite decide_False.
  - done.
  - intros r ds _ Hn Hc. cbn in *. rewrite decide_False; [by eexists|].
    intros (d & Hd & Hr)%Exists_exists. by destruct (Hc d d Hd Hr) as [|(_ & _ & ?)].
  - intros r ds d Hd Hr. cbn in *. rewrite decide_True; [done|]. apply Exists_exists. by exists d.
  - intros o _ _ _ _. eexists. split; [reflexivity|]. split; [done|]. intros values. cbn.
    destruct (decide (Labels o = [])) as [Hl|Hl].
    + destruct (decide (values = [])) as [->|Hv].
      * by rewrite decide_True, lookup_singleton_eq.
      * by rewrite decide_False, lookup_singleton_ne by naive_solver.
    + by rewrite decide_False, lookup_empty by naive_solver.
  - intros v values r Hk Hl _ _. rewrite add_is. unfold add. cbn in *. rewrite decide_True by done.
    eexists. split; [reflexivity|]. cbn. split; [done|]. split; [by rewrite lookup_insert_eq|].
    intros values' Hne. by rewrite lookup_insert_ne.
  - by apply (bool_decide_unpack _).
  - by apply (bool_decide_unpack _).
  - intros d s Hd. cbn in Hd. intros Heq.
    repeat (apply elem_of_cons in Hd as [->|Hd]; [cbn in Heq; discriminate|]). by apply elem_of_nil in Hd.
Qed.

#[export] Instance errors : NetErrors := fun id => if decide (id = "net.OpError") then Some true else None.
#[export] Instance names : CommandNames := fun _ => "PAY".
#[local] Existing Instance Types.Demo.op_lib.

Definition build : Build := mkBuild "v1.2.0" "unknown" (Some ("go1.24", [("vcs", "git"); ("vcs.revision", "abc")])).
Definition config : Config := mkConfig true true false true false true true false false false false false true true.

(** A failed wait is a time-out, and the queue group's counters start at 0. *)
Definition calls : list Method :=
  [ObserveNodeWait "info" 1500000000 (Some (errorf [mkError "net.OpError" []]));
   ActionEnqueued "main" "store_error"; ActionEnqueued "main" "store_error"; WalletSyncObserved "success"].

Lemma calls_recording : Forall recording calls.
Proof. repeat (apply Forall_cons; split; [by constructor|]). apply Forall_nil_2. Qed.

Definition read (m : Metrics) (f : Field) (values : list string) : option Sample := fields m !! f ≫= fun v => sample v values.

Definition readings : option (list (option Sample)) :=
  match New build config with
  | Ok m => match run_calls (Some m) calls with
            | Ok (Some m) =>
                Some [read m nodeWaitTotal ["info"; "timeout"]; read m actionEnqueued ["main"; "store_error"];
                      read m actionEnqueued ["backup"; "queue_error"]; read m walletSyncTotal ["success"]]
            | _ => None
            end
  | _ => None
  end.
Example readings_are : readings = Some [Some (Count 1); Some (Count 2); Some (Count 0); None].
Proof. vm_compute. reflexivity. Qed.

Lemma metrics_record_witness :
  plain_build build /\ Forall recording calls /\
  exists m m', New build config = Ok m /\ run_calls (Some m) calls = Ok (Some m') /\ fields m' !! walletSyncTotal = None.
Proof.
  assert (Hb : plain_build build) by by apply (bool_decide_unpack _).
  split; [done|]. split; [exact calls_recording|].
  destruct (metrics_record build config calls Hb calls_recording) as [(m & m' & Hm & Hm' & _ & Hf) _].
  exists m, m'. split_and!; [done|done|]. specialize (Hf walletSyncTotal).
  destruct (fields m' !! walletSyncTotal) as [v|]; [exfalso|reflexivity]. destruct Hf as [Hin _].
  assert (Hno : walletSyncTotal ∉ (collectors config).*1) by (apply (bool_decide_unpack _); vm_compute; exact I).
  apply Hno, elem_of_fst. exists (opts_of v). exact Hin.
Defined.

Definition depth (q : string) : FuncGauge := mkFuncGauge Queue "" "action_queue_depth" [] [("queue", q)].
Definition keys : FuncGauge := mkFuncGauge Wallet "wallet" "keys_cached" [] [].

Lemma gauges_registered_witness :
  let gs : list (FuncGauge * Func) := [(depth "main", 1%nat); (depth "direct", 2%nat); (keys, 3%nat)] in
  gauges_ok (fst <$> gs) /\
  exists m m', New build config = Ok m /\ register_gauges (Some m) gs = Ok (Some m') /\
    (funcs m').*2 = [1%nat; 2%nat].
Proof.
  intros gs. assert (Hok : gauges_ok (fst <$> gs)) by (by apply (bool_decide_unpack _); vm_compute).
  split; [done|].
  destruct (gauges_registered build config gs ltac:(by apply (bool_decide_unpack _)) Hok)
    as (m & m' & Hm & Hm' & _ & _ & Hf & _).
  exists m, m'. split_and!; [done|done|]. rewrite Hf. reflexivity.
Defined.
End DemoMetrics.

End Metrics.
