(* ===== verification/Info.v ===== *)
(** Node information ([internal/service/info]): one refresh of the node's information
    with its stages, the retries, the sticky attestation error, and what the other
    services read. *)

From S2P Require Import Prelude Hex Types Redis Queue Results Config Attestation.

Module Info.
Import Results(ActionResponse, ActionResult, Result, ar_Status, ar_Data, resp_Signature).
Import Attestation(TeeInfo, TeeInfoResponse, MachineData, teeInfo, machineData, attestation).

(** ** Stages *)

Inductive stage : Type :=
| fetchBlock | createAction | enqueue | waitResponse | actionStatus | unmarshal | parseTEEID | payloadHash
| verifySignature | verifyAttestation | unknown.
#[export] Instance stage_eq_dec : EqDecision stage.
Proof. solve_decision. Defined.

Definition String_ (s : stage) : string :=
  match s with
  | fetchBlock => "fetch_block" | createAction => "create_action" | enqueue => "enqueue"
  | waitResponse => "wait_response" | actionStatus => "action_status" | unmarshal => "unmarshal"
  | parseTEEID => "parse_tee_id" | payloadHash => "payload_hash" | verifySignature => "verify_signature"
  | verifyAttestation => "verify_attestation" | unknown => "unknown"
  end.

Definition allStages : list stage :=
  [fetchBlock; createAction; enqueue; waitResponse; actionStatus; unmarshal; parseTEEID; payloadHash;
   verifySignature; verifyAttestation; unknown].
Definition stageLabels : list string := String_ <$> allStages.

Definition nonRetryableStages (s : stage) : bool := bool_decide (s ∈ [verifySignature; verifyAttestation]).

(** A [*stageError]: an error that wraps another and is known by its stage. *)
Definition stage_id (s : stage) : string := "stageError " +:+ String_ s.
Definition stageError (s : stage) (e : error) : error := mkError (stage_id s) [e].
Definition as_stage (id : string) : option stage := snd <$> list_find (fun s => stage_id s = id) allStages.

(** [errors.As] for a [*stageError]: the first in the tree of wrapped errors. *)
Fixpoint errors_As (e : error) : option stage :=
  match e with
  | mkError id ws =>
      match as_stage id with
      | Some s => Some s
      | None => (fix first (l : list error) : option stage :=
                   match l with
                   | [] => None
                   | w :: l => match errors_As w with Some s => Some s | None => first l end
                   end) ws
      end
  end.

Definition refreshStage (err : error) : stage := default unknown (errors_As err).
Definition retryableStage (err : error) : bool := negb (nonRetryableStages (refreshStage err)).

Inductive InfoMetric : Type :=
| PreinitInfoStages (labels : list string)
| InfoRefreshFailed (stage : string)
| InfoRefreshExhausted (stage : string)
| InfoRefreshObserved (failed : bool)
| NodeWait (err : option error)
| AttestationVerified (result reason : string).

(** ** The libraries

    Marshalling of the request, [common.HexToHash], the key and the address of the
    node, the hash it signs and the check of its signature. *)
Class InfoLib : Type := {
  json_TeeInfoRequest : Hash -> res bytes;
  HexToHash : string -> Hash;
  NodeKey : Type;
  ParsePubKey : Attestation.PublicKey -> res NodeKey;
  PubkeyToAddress : NodeKey -> Address;
  Result_Hash : ActionResult -> Hash;
  TEEActionResult_Hash : Z -> Hash -> res Hash;
  VerifySignature : Hash -> bytes -> Address -> res unit
}.

Section Service.
Context `{RedisLib, Queue.NameLib, !Json Action, !Json Queue.ActionSubmissionID, !Json Queue.DirectInstruction}.
Context `{OpLib, InfoLib, Attestation.AttestationLib, !Json TeeInfoResponse}.

Record Service : Type := mkService {
  Latest : option TeeInfoResponse;        (* nil or the last one *)
  LastUpdated : Z;
  lastAttestationErr : option error;
  actionQueues : Queue.ActionQueues;
  timingConfig : Config.InfoTiming;
  attestationCfg : option Attestation.Config;
  metrics : list InfoMetric
}.

(** [new(types.TeeInfoResponse)]. *)
Definition zero_response : TeeInfoResponse :=
  Attestation.mkTeeInfoResponse (Attestation.mkTeeInfo zero_hash (0%N, 0%N) 0 zero_hash 0 0 [])
    (Attestation.mkMachineData (0%N, 0%N) zero_hash zero_hash []) "".

Definition NewService (aq : Queue.ActionQueues) (tc : Config.InfoTiming) (ac : option Attestation.Config) (now : Z)
    : Service :=
  mkService (Some zero_response) now None aq tc ac [PreinitInfoStages stageLabels].

Definition observe (s : Service) (m : InfoMetric) : Service :=
  mkService (Latest s) (LastUpdated s) (lastAttestationErr s) (actionQueues s) (timingConfig s) (attestationCfg s)
    (metrics s ++ [m]).
Definition set_queues (s : Service) (q : Queue.ActionQueues) : Service :=
  mkService (Latest s) (LastUpdated s) (lastAttestationErr s) q (timingConfig s) (attestationCfg s) (metrics s).
Definition set_attestation_err (s : Service) (e : error) : Service :=
  mkService (Latest s) (LastUpdated s) (Some e) (actionQueues s) (timingConfig s) (attestationCfg s) (metrics s).
Definition store (s : Service) (r : TeeInfoResponse) (now : Z) : Service :=
  mkService (Some r) now (lastAttestationErr s) (actionQueues s) (timingConfig s) (attestationCfg s) (metrics s).

(** [LastAttestationErr] is the field. *)
Definition LastAttestationErr (s : Service) : option error := lastAttestationErr s.
Definition LastAppliedPolicyID (s : Service) : Z :=
  match Latest s with None => 0 | Some r => Attestation.LastSigningPolicyID (teeInfo r) end.
Definition LastGovernanceHash (s : Service) : Hash :=
  match Latest s with None => zero_hash | Some r => Attestation.GovernanceHash (machineData r) end.

(** [fail]: counts the failure and tags the error. *)
Definition fail {A} (s : Service) (st : stage) (err : error) : stateful Service A :=
  (observe s (InfoRefreshFailed (String_ st)), Fail (stageError st err)).

(** A call whose error is reported at a stage. *)
Definition at_stage {A} (s : Service) (st : stage) (m : res A) : stateful Service A :=
  match m with
  | Ok a => (s, Ok a)
  | Fail e => fail s st e
  | Panic => (s, Panic)
  end.

Definition newInfoAction (challenge : Hash) (id : res Hash) : res Action :=
  msg ← json_TeeInfoRequest challenge;
  Queue.PrepareDirectAction GetType TEEInfo msg id.

Definition ParseTeeID (tir : TeeInfoResponse) : res Address :=
  teePub ← ParsePubKey (Attestation.ti_PublicKey (teeInfo tir));
  Ok (PubkeyToAddress teePub).

Definition attestationOutcome (tir : TeeInfoResponse) (vErr : option error) : string * string :=
  match vErr with
  | Some _ => ("error"%string, Attestation.Reason vErr)
  | None => if Attestation.IsMagicPass tir then ("ok"%string, Attestation.ReasonMagicPass)
            else ("ok"%string, Attestation.Reason None)
  end.

(** What one attempt meets: the hash of the latest block, the random identifier of the
    action, the time it is queued, the outcome of the wait, the time of the
    verification and that of the update. *)
Record Attempt : Type := mkAttempt {
  a_block : res string;
  a_id : res Hash;
  a_enqueued : Z;
  a_response : res ActionResponse;
  a_verified : Z;
  a_done : Z
}.

(** The verification of a response, when it is configured. *)
Definition verify_response (s : Service) (a : Attempt) (challenge : Hash) (response : ActionResponse)
    (result : TeeInfoResponse) : stateful Service unit :=
  match attestationCfg s with
  | None => (s, Ok tt)
  | Some cfg =>
      let* (s, teeID) := at_stage s parseTEEID (ParseTeeID result) in
      let* (s, signingHash) := at_stage s payloadHash
            (TEEActionResult_Hash (Attestation.ti_ChainID (teeInfo result)) (Result_Hash (Result response))) in
      let* (s, _u) := at_stage s verifySignature (VerifySignature signingHash (resp_Signature response) teeID) in
      match Attestation.Verify result challenge cfg (a_verified a) with
      | Panic => (s, Panic)
      | v =>
          let vErr := failure v in
          let s := if Attestation.Enabled cfg
                   then let '(r, reason) := attestationOutcome result vErr in observe s (AttestationVerified r reason)
                   else s in
          match vErr with
          | Some e => fail (set_attestation_err s e) verifyAttestation e
          | None => (s, Ok tt)
          end
      end
  end.

(** [updateInfo] without the deferred observation. *)
Definition attempt_update (s : Service) (a : Attempt) : stateful Service Hash :=
  let* (s, block) := at_stage s fetchBlock (a_block a) in
  let challenge := HexToHash block in
  let* (s, action) := at_stage s createAction (newInfoAction challenge (a_id a)) in
  let '(q, queued) := Queue.Enqueue (actionQueues s) (a_enqueued a) action Queue.Direct in
  let* (s, _u) := at_stage (set_queues s q) enqueue queued in
  let s := observe s (NodeWait (failure (a_response a))) in
  let* (s, response) := at_stage s waitResponse (a_response a) in
  if decide (ar_Status (Result response) <> 1) then fail s actionStatus (errorf [])
  else
    let* (s, result) := at_stage s unmarshal (json_Unmarshal (ar_Data (Result response))) in
    let* (s, _u) := verify_response s a challenge response result in
    (store s result (a_done a), Ok challenge).

Definition updateInfo (s : Service) (a : Attempt) : stateful Service Hash :=
  let '(s, r) := attempt_update s a in
  (observe s (InfoRefreshObserved (bool_decide (failure r <> None))), r).

(** ** Retries *)

(** One try of [retryUpdate]: the attempt, the error of the context right after it, and
    the error of the context during the pause. *)
Record Try : Type := mkTry { try_attempt : Attempt; try_ctx : option error; try_pause : option error }.

(** [after %d attempts: %w] from the second attempt on. *)
Definition after_attempts (attempt : Z) (err : error) : error := if decide (1 < attempt) then errorf [err] else err.

(** The loop over the tries it gets to; [None]: it goes on after the last. *)
Fixpoint retry_from (s : Service) (attempts attempt : Z) (tries : list Try) : Service * option (res Hash) :=
  match tries with
  | [] => (s, None)
  | t :: tries =>
      match updateInfo s (try_attempt t) with
      | (s, Ok challenge) => (s, Some (Ok challenge))
      | (s, Panic) => (s, Some Panic)
      | (s, Fail err) =>
          let spent := bool_decide (1 <= attempts /\ attempts <= attempt) in
          if spent || negb (retryableStage err) || bool_decide (try_ctx t <> None) then
            let s := match try_ctx t with
                     | None => observe s (InfoRefreshExhausted (String_ (refreshStage err)))
                     | Some _ => s
                     end in
            (s, Some (Fail (after_attempts attempt err)))
          else
            match try_pause t with
            | Some ctxErr => (s, Some (Fail (errorf [ctxErr])))
            | None => retry_from s attempts (attempt + 1) tries
            end
      end
  end.
Definition retryUpdate (s : Service) (attempts : Z) (tries : list Try) : Service * option (res Hash) :=
  retry_from s attempts 1 tries.

(** [FetchInfo]: no limit on the attempts. *)
Definition FetchInfo (s : Service) (tries : list Try) : Service * option (res (TeeInfoResponse * Hash)) :=
  match retryUpdate s 0 tries with
  | (s, None) => (s, None)
  | (s, Some (Ok challenge)) =>
      (s, Some (match Latest s with Some r => Ok (r, challenge) | None => Panic end))
  | (s, Some (Fail e)) => (s, Some (Fail e))
  | (s, Some Panic) => (s, Some Panic)
  end.

(** [Run]: the cycles until the context ends; a cycle that does not come to its end
    leaves the loop waiting. *)
Fixpoint Run (s : Service) (cycles : list (list Try)) : Service :=
  match cycles with
  | [] => s
  | tries :: cycles =>
      match retryUpdate s (Z.max (Config.MaxAttempts (timingConfig s)) 1) tries with
      | (s, Some (Ok _)) | (s, Some (Fail _)) => Run s cycles
      | (s, _) => s
      end
  end.

(** ** Errors and stages *)

Lemma as_stage_id st : as_stage (stage_id st) = Some st.
Proof. by destruct st. Qed.
Lemma refreshStage_stageError st e : refreshStage (stageError st e) = st.
Proof. unfold refreshStage, stageError. cbn [errors_As]. by rewrite as_stage_id. Qed.

(** ** One refresh *)

(** The information and the settings are the same; queues and metrics may differ. *)
Definition same_info (s s' : Service) : Prop :=
  Latest s' = Latest s /\ LastUpdated s' = LastUpdated s /\ timingConfig s' = timingConfig s /\
  attestationCfg s' = attestationCfg s.
(** ... and no attestation error was recorded. *)
Definition same_state (s s' : Service) : Prop := same_info s s' /\ lastAttestationErr s' = lastAttestationErr s.

Lemma same_state_refl s : same_state s s.
Proof. by split. Qed.
Lemma same_state_trans s s' s'' : same_state s s' -> same_state s' s'' -> same_state s s''.
Proof. intros [(? & ? & ? & ?) ?] [(? & ? & ? & ?) ?]. split; [split_and!|]; congruence. Qed.
Lemma same_state_observe s m : same_state s (observe s m).
Proof. done. Qed.
Lemma same_state_queues s q : same_state s (set_queues s q).
Proof. done. Qed.
Hint Resolve same_state_refl same_state_observe same_state_queues : core.

(** How far an attempt has got: its challenge, with the action queued; the node's response
    to it; the information in a response of status 1; and, when verification is
    configured, the node's address and the hash it signs. *)
Definition asked (s : Service) (a : Attempt) (challenge : Hash) : Prop :=
  exists block action q, a_block a = Ok block /\ challenge = HexToHash block /\
    newInfoAction challenge (a_id a) = Ok action /\
    Queue.Enqueue (actionQueues s) (a_enqueued a) action Queue.Direct = (q, Ok tt).
Definition informed (s : Service) (a : Attempt) (challenge : Hash) (response : ActionResponse) (result : TeeInfoResponse)
    : Prop :=
  asked s a challenge /\ a_response a = Ok response /\ ar_Status (Result response) = 1 /\
  json_Unmarshal (ar_Data (Result response)) = Ok result.
Definition signing_hash (response : ActionResponse) (result : TeeInfoResponse) : res Hash :=
  TEEActionResult_Hash (Attestation.ti_ChainID (teeInfo result)) (Result_Hash (Result response)).

(** Which check of an attempt fails, all those before it having passed. *)
Inductive fails_at (s : Service) (a : Attempt) : stage -> error -> Prop :=
| no_block e : a_block a = Fail e -> fails_at s a fetchBlock e
| no_action block e : a_block a = Ok block -> newInfoAction (HexToHash block) (a_id a) = Fail e ->
    fails_at s a createAction e
| not_queued block action q e : a_block a = Ok block -> newInfoAction (HexToHash block) (a_id a) = Ok action ->
    Queue.Enqueue (actionQueues s) (a_enqueued a) action Queue.Direct = (q, Fail e) -> fails_at s a enqueue e
| no_response challenge e : asked s a challenge -> a_response a = Fail e -> fails_at s a waitResponse e
| bad_status challenge response : asked s a challenge -> a_response a = Ok response ->
    ar_Status (Result response) <> 1 -> fails_at s a actionStatus (errorf [])
| undecodable challenge response e : asked s a challenge -> a_response a = Ok response ->
    ar_Status (Result response) = 1 ->
    (json_Unmarshal (ar_Data (Result response)) : res TeeInfoResponse) = Fail e -> fails_at s a unmarshal e
| no_key challenge response result c e : informed s a challenge response result -> attestationCfg s = Some c ->
    ParseTeeID result = Fail e -> fails_at s a parseTEEID e
| no_hash challenge response result c id e : informed s a challenge response result -> attestationCfg s = Some c ->
    ParseTeeID result = Ok id -> signing_hash response result = Fail e -> fails_at s a payloadHash e
| bad_signature challenge response result c id h e : informed s a challenge response result ->
    attestationCfg s = Some c -> ParseTeeID result = Ok id -> signing_hash response result = Ok h ->
    VerifySignature h (resp_Signature response) id = Fail e -> fails_at s a verifySignature e
| not_attested challenge response result c id h e : informed s a challenge response result ->
    attestationCfg s = Some c -> ParseTeeID result = Ok id -> signing_hash response result = Ok h ->
    VerifySignature h (resp_Signature response) id = Ok tt ->
    Attestation.Verify result challenge c (a_verified a) = Fail e -> fails_at s a verifyAttestation e.

(** A failed stage, one of [F]: the error is tagged, and the information is kept. *)
Definition failed (F : stage -> error -> Prop) (s s' : Service) (e : error) : Prop :=
  exists st err, e = stageError st err /\ F st err /\ same_info s s' /\
    lastAttestationErr s' = (if decide (st = verifyAttestation) then Some err else lastAttestationErr s).

Definition outcome {A} (F : stage -> error -> Prop) (s : Service) (m : stateful Service A) (Q : Service -> A -> Prop) : Prop :=
  match m with
  | (s', Ok a) => Q s' a
  | (s', Fail e) => failed F s s' e
  | (s', Panic) => same_state s s'
  end.

Lemma failed_trans F s s' s'' e : same_state s s' -> failed F s' s'' e -> failed F s s'' e.
Proof.
  intros [(? & ? & ? & ?) He] (st & err & -> & Hst & (? & ? & ? & ?) & Hl). exists st, err.
  split_and!; try done; try split_and!; try congruence. rewrite Hl. by rewrite He.
Qed.

Lemma outcome_fail {A} (F : stage -> error -> Prop) s st err (Q : Service -> A -> Prop) :
  F st err -> st <> verifyAttestation -> outcome F s (fail s st err) Q.
Proof. intros. exists st, err. split_and!; try done. by rewrite decide_False. Qed.

Lemma outcome_stage {A B} (F : stage -> error -> Prop) s st (m : res A) (k : Service -> A -> stateful Service B)
    (Q : Service -> B -> Prop) :
  (forall e, m = Fail e -> F st e) -> st <> verifyAttestation ->
  (forall a, m = Ok a -> outcome F s (k s a) Q) -> outcome F s (let* (s, a) := at_stage s st m in k s a) Q.
Proof.
  intros Hu Hv Hk. destruct m as [a|e|]; cbn [at_stage sbind].
  - by apply Hk.
  - apply (outcome_fail F s st e (fun _ (_ : B) => False)); auto.
  - apply same_state_refl.
Qed.

Lemma outcome_from {A} F s s' (m : stateful Service A) (Q : Service -> A -> Prop) :
  same_state s s' -> outcome F s' m Q -> outcome F s m Q.
Proof.
  destruct m as [s'' [a|e|]]; cbn; [done|apply failed_trans|apply same_state_trans].
Qed.

Lemma outcome_bind {A B} F s (m : stateful Service A) (k : Service -> A -> stateful Service B) P (Q : Service -> B -> Prop) :
  outcome F s m P -> (forall s' a, P s' a -> outcome F s (k s' a) Q) -> outcome F s (sbind m k) Q.
Proof. destruct m as [s' [a|e|]]; cbn; auto. Qed.

(** The response answers [challenge], is signed by the node it describes, and passes the
    attestation checks. *)
Definition trusted (cfg : option Attestation.Config) (a : Attempt) (challenge : Hash) (response : ActionResponse)
    (result : TeeInfoResponse) : Prop :=
  forall c, cfg = Some c -> exists id h,
    ParseTeeID result = Ok id /\
    TEEActionResult_Hash (Attestation.ti_ChainID (teeInfo result)) (Result_Hash (Result response)) = Ok h /\
    VerifySignature h (resp_Signature response) id = Ok tt /\
    Attestation.Verify result challenge c (a_verified a) = Ok tt.

Lemma verify_response_outcome s0 s a challenge response result :
  informed s0 a challenge response result -> attestationCfg s = attestationCfg s0 ->
  outcome (fails_at s0 a) s (verify_response s a challenge response result)
    (fun s' _ => same_state s s' /\ trusted (attestationCfg s) a challenge response result).
Proof.
  intros Hinf Hsame. unfold verify_response, trusted. destruct (attestationCfg s) as [cfg|] eqn:Hcfg; [|done].
  symmetry in Hsame.
  apply outcome_stage; [intros e He; by eapply no_key|done|]. intros id Hid. fold (signing_hash response result).
  apply outcome_stage; [intros e He; by eapply no_hash|done|]. intros h Hh.
  apply outcome_stage; [intros e He; by eapply bad_signature|done|]. intros [] Hsig.
  set (seen := fun r : res unit => let vErr := failure r in
         if Attestation.Enabled cfg
         then let '(r, reason) := attestationOutcome result vErr in observe s (AttestationVerified r reason) else s).
  assert (Hseen : forall r, same_state s (seen r)).
  { intros r. unfold seen. cbn zeta. destruct (Attestation.Enabled cfg); [|done]. by destruct (attestationOutcome _ _). }
  destruct (Attestation.Verify result challenge cfg (a_verified a)) as [[]|e|] eqn:Hv; cbn [failure].
  - split; [apply (Hseen (Ok tt))|]. intros c [= <-]. by exists id, h.
  - destruct (Hseen (Fail e : res unit)) as [Hs _]. exists verifyAttestation, e.
    split_and!; try done. by eapply not_attested.
  - done.
Qed.

(** What a successful refresh leaves. *)
Definition refreshed (s : Service) (a : Attempt) (s' : Service) (challenge : Hash) : Prop :=
  exists block response result,
    a_block a = Ok block /\ challenge = HexToHash block /\ a_response a = Ok response /\
    ar_Status (Result response) = 1 /\ json_Unmarshal (ar_Data (Result response)) = Ok result /\
    trusted (attestationCfg s) a challenge response result /\
    Latest s' = Some result /\ LastUpdated s' = a_done a /\ lastAttestationErr s' = lastAttestationErr s /\
    timingConfig s' = timingConfig s /\ attestationCfg s' = attestationCfg s.

Lemma attempt_update_outcome s a : outcome (fails_at s a) s (attempt_update s a) (refreshed s a).
Proof.
  unfold attempt_update. apply outcome_stage; [intros e He; by eapply no_block|done|]. intros block Hblock.
  apply outcome_stage; [intros e He; by eapply no_action|done|]. intros action Haction.
  destruct (Queue.Enqueue (actionQueues s) (a_enqueued a) action Queue.Direct) as [q queued] eqn:Hq.
  apply (outcome_from _ _ (set_queues s q)); [done|].
  apply outcome_stage; [intros e ->; by eapply not_queued|done|]. intros [] ->.
  assert (Hasked : asked s a (HexToHash block)) by by exists block, action, q.
  set (s1 := observe (set_queues s q) _). apply (outcome_from _ _ s1); [done|].
  apply outcome_stage; [intros e He; by eapply no_response|done|]. intros response Hresp.
  case_decide as Hst; [apply outcome_fail; [by eapply bad_status|done]|].
  apply outcome_stage; [intros e He; by eapply undecodable|done|]. intros result Hres.
  eapply outcome_bind; [by apply verify_response_outcome|]. intros s2 _ [[Hsame Herr] Htrust].
  destruct Hsame as (? & ? & ? & ?). unfold outcome, refreshed. exists block, response, result. by split_and!.
Qed.

Lemma updateInfo_outcome s a : outcome (fails_at s a) s (updateInfo s a) (refreshed s a).
Proof.
  unfold updateInfo. pose proof (attempt_update_outcome s a) as Ho.
  destruct (attempt_update s a) as [s' [c|e|]]; exact Ho.
Qed.

Lemma fails_at_known s a st e : fails_at s a st e -> st <> unknown.
Proof. by destruct 1. Qed.

(** C18: a refresh replaces the node's information exactly when it succeeds, and then
    with a response of status 1 that -- when verification is configured -- is signed by
    the node it describes and passes the attestation checks for the challenge that was
    sent; the block's hash is returned as the challenge.  A failure keeps the
    information, and its error is that of the first check that failed, tagged with the
    stage of that check (never [unknown]); it records an attestation error exactly at the
    attestation stage, and only a failed signature and a failed attestation are not worth
    a retry. *)
Theorem updateInfo_correct s a :
  match updateInfo s a with
  | (s', Ok challenge) => refreshed s a s' challenge
  | (s', Fail e) =>
      same_info s s' /\ refreshStage e <> unknown /\ refreshStage e ∈ allStages /\
      (exists err, fails_at s a (refreshStage e) err /\ error_wraps e = [err] /\
         lastAttestationErr s' = if decide (refreshStage e = verifyAttestation) then Some err else lastAttestationErr s) /\
      (retryableStage e = false <-> refreshStage e = verifySignature \/ refreshStage e = verifyAttestation)
  | (s', Panic) => same_state s s'
  end.
Proof.
  pose proof (updateInfo_outcome s a) as Ho. destruct (updateInfo s a) as [s' [c|e|]]; [exact Ho| |exact Ho].
  destruct Ho as (st & err & -> & Hst & Hs & Hl). pose proof (fails_at_known _ _ _ _ Hst).
  unfold retryableStage. rewrite refreshStage_stageError. split_and!; try done.
  - destruct st; set_solver.
  - by exists err.
  - unfold nonRetryableStages. rewrite negb_false_iff, bool_decide_eq_true. set_solver.
Qed.

(** ** Retries *)

(** A recorded attestation error stays recorded, and the configuration stays. *)
Definition sticky (s s' : Service) : Prop :=
  (lastAttestationErr s <> None -> lastAttestationErr s' <> None) /\
  attestationCfg s' = attestationCfg s /\ timingConfig s' = timingConfig s.

Lemma updateInfo_sticky s a : sticky s (updateInfo s a).1.
Proof.
  pose proof (updateInfo_outcome s a) as Ho. destruct (updateInfo s a) as [s' [c|e|]]; cbn.
  - destruct Ho as (? & ? & ? & _ & _ & _ & _ & _ & _ & _ & _ & Hl & ? & ?). split_and!; congruence.
  - destruct Ho as (st & err & -> & _ & (_ & _ & ? & ?) & Hl). split_and!; [|done..].
    intros He. rewrite Hl. by case_decide.
  - destruct Ho as [(_ & _ & ? & ?) Hl]. split_and!; congruence.
Qed.

Lemma sticky_trans s s' s'' : sticky s s' -> sticky s' s'' -> sticky s s''.
Proof. intros (? & ? & ?) (? & ? & ?). split_and!; [auto|congruence..]. Qed.

Lemma retry_from_sticky s attempts n tries : sticky s (retry_from s attempts n tries).1.
Proof.
  revert s n. induction tries as [|t tries IH]; intros s n; cbn [retry_from]; [by split_and!|].
  pose proof (updateInfo_sticky s (try_attempt t)) as Hs.
  destruct (updateInfo s (try_attempt t)) as [s1 [c|e|]]; cbn [fst] in *; [done| |done].
  destruct (_ || _); [by destruct (try_ctx t)|].
  destruct (try_pause t); [done|]. eapply sticky_trans; [exact Hs|apply IH].
Qed.

Lemma Run_sticky s cycles : lastAttestationErr s <> None -> lastAttestationErr (Run s cycles) <> None.
Proof.
  revert s. induction cycles as [|tries cycles IH]; intros s Hs; [done|]. cbn [Run].
  pose proof (retry_from_sticky s (Z.max (Config.MaxAttempts (timingConfig s)) 1) 1 tries) as (Hk & _).
  unfold retryUpdate. destruct (retry_from _ _ _ _) as [s' [[c|e|]|]]; cbn in *; auto.
Qed.

Lemma FetchInfo_sticky s tries : lastAttestationErr s <> None -> lastAttestationErr (FetchInfo s tries).1 <> None.
Proof.
  intros Hs. unfold FetchInfo, retryUpdate. pose proof (retry_from_sticky s 0 1 tries) as (Hk & _).
  destruct (retry_from _ _ _ _) as [s' [[c|e|]|]]; cbn in *; auto.
Qed.

Lemma attestation_stage_records s a s' e :
  updateInfo s a = (s', Fail e) -> refreshStage e = verifyAttestation -> lastAttestationErr s' <> None.
Proof.
  intros Hu Hst. pose proof (updateInfo_outcome s a) as Ho. rewrite Hu in Ho.
  destruct Ho as (st & err & -> & _ & _ & Hl). rewrite refreshStage_stageError in Hst. subst st.
  by rewrite Hl, decide_True.
Qed.

(** An attestation error is never cleared: once a refresh has failed at the
    attestation stage, an error is recorded after every further refresh cycle of [Run]
    and after every fetch. *)
Theorem attestation_error_sticky s a s' e
    (failed : updateInfo s a = (s', Fail e)) (at_attestation : refreshStage e = verifyAttestation) :
  (forall cycles, LastAttestationErr (Run s' cycles) <> None) /\
  (forall tries, LastAttestationErr (FetchInfo s' tries).1 <> None).
Proof.
  pose proof (attestation_stage_records s a s' e failed at_attestation) as Hl.
  split; intros x; [by apply Run_sticky|by apply FetchInfo_sticky].
Qed.

(** The tries that a run of the loop makes. *)
Fixpoint tries_made (s : Service) (attempts attempt : Z) (tries : list Try) : nat :=
  match tries with
  | [] => 0
  | t :: tries =>
      S (match updateInfo s (try_attempt t) with
         | (s, Fail err) =>
             if bool_decide (1 <= attempts /\ attempts <= attempt) || negb (retryableStage err)
                || bool_decide (try_ctx t <> None) || bool_decide (try_pause t <> None)
             then 0%nat else tries_made s attempts (attempt + 1) tries
         | _ => 0%nat
         end)
  end.

Lemma retry_from_bounded s attempts n tries :
  1 <= n <= attempts ->
  (Z.of_nat (tries_made s attempts n tries) <= attempts - n + 1) /\
  (attempts - n + 1 <= zlen tries -> (retry_from s attempts n tries).2 <> None).
Proof.
  revert s n. induction tries as [|t tries IH]; intros s n Hn; cbn [retry_from tries_made].
  - unfold zlen. cbn. split; [lia|]. intros ?. lia.
  - rewrite zlen_cons. destruct (updateInfo s (try_attempt t)) as [s1 [c|e|]]; [split; [lia|done]| |split; [lia|done]].
    destruct (decide (n = attempts)) as [->|Hne].
    { rewrite bool_decide_true by lia. cbn [orb]. split; [lia|done]. }
    rewrite bool_decide_false by lia. cbn [orb].
    destruct (negb (retryableStage e) || bool_decide (try_ctx t <> None)); cbn [orb]; [split; [lia|done]|].
    destruct (try_pause t); [rewrite bool_decide_true by done; split; [lia|done]|].
    rewrite bool_decide_false by tauto. destruct (IH s1 (n + 1)) as [Hm Hr]; [lia|]. split; [lia|].
    intros Hl. apply Hr. lia.
Qed.

(** A refresh with a positive limit comes to its end: it makes at most that many
    tries, and has a result as soon as it gets to that many.  Without a limit it goes on
    only while the tries fail for operational reasons: a failed signature or attestation
    check is never retried. *)
Theorem retryUpdate_bounded s attempts tries :
  (1 <= attempts ->
     Z.of_nat (tries_made s attempts 1 tries) <= attempts /\
     (attempts <= zlen tries -> (retryUpdate s attempts tries).2 <> None)) /\
  (forall t rest s1 e, tries = t :: rest -> updateInfo s (try_attempt t) = (s1, Fail e) ->
     refreshStage e = verifySignature \/ refreshStage e = verifyAttestation ->
     tries_made s attempts 1 tries = 1%nat /\ (retryUpdate s attempts tries).2 = Some (Fail e)).
Proof.
  split.
  - intros Ha. destruct (retry_from_bounded s attempts 1 tries) as [Hm Hr]; [lia|]. split; [lia|].
    intros Hl. apply Hr. lia.
  - intros t rest s1 e -> Hu Hst. unfold retryUpdate. cbn [retry_from tries_made]. rewrite Hu.
    assert (retryableStage e = false) as ->.
    { unfold retryableStage, nonRetryableStages. rewrite negb_false_iff, bool_decide_eq_true.
      destruct Hst as [-> | ->]; set_solver. }
    cbn [negb]. rewrite orb_true_r. cbn [orb]. split; [done|]. by destruct (try_ctx t).
Qed.
End Service.

(** ** A concrete node *)

Module DemoInfo.
Import DemoRedis Queue.DemoQueue Attestation.DemoAttestation.
#[local] Existing Instance Demo.op_lib.
#[export] Instance direct_json : Json Queue.DirectInstruction :=
  {| json_Marshal i := Ok []; json_Unmarshal b := Fail (errorf []) |}.
(** Every answer of the node is the response of [DemoAttestation]. *)
#[export] Instance response_json : Json TeeInfoResponse :=
  {| json_Marshal r := Ok []; json_Unmarshal b := Ok tir |}.
#[export] Instance info_lib : InfoLib := {|
  json_TeeInfoRequest h := Ok [byte_of (Z.of_N h)];
  HexToHash s := N.of_nat (String.length s);
  NodeKey := N;
  ParsePubKey k := Ok k.1;
  PubkeyToAddress k := k;
  Result_Hash r := 3%N;
  TEEActionResult_Hash c h := Ok h;
  VerifySignature h sig id := if decide (sig = [Byte.x01]) then Ok tt else Fail (errorf [])
|}.

Definition timing : Config.InfoTiming := Config.mkInfoTiming 0 1 1 3 1.
Definition s0 : Service := NewService Queue.DemoQueue.empty timing (Some cfg) 0.
Definition answer (sig : bytes) (status : Z) : res ActionResponse :=
  Ok (Results.mkResponse (Results.mkResult 1%N Submit status 0%N 0%N []) sig).
Definition attempt (sig : bytes) (status : Z) : Attempt :=
  mkAttempt (Ok "123456789"%string) (Ok 1%N) 0 (answer sig status) 1000 1010.

(** The node's platform is not in the list: the refresh fails at the attestation. *)
Lemma attestation_error_sticky_witness :
  exists s' e, updateInfo s0 (attempt [Byte.x01] 1) = (s', Fail e) /\
    refreshStage e = verifyAttestation /\
    LastAttestationErr (Run s' [[mkTry (attempt [] 1) None None]]) <> None.
Proof.
  assert (Hst : match (updateInfo s0 (attempt [Byte.x01] 1)).2 with
                | Fail e => refreshStage e = verifyAttestation | _ => False end) by (vm_compute; reflexivity).
  destruct (updateInfo s0 (attempt [Byte.x01] 1)) as [s' [c|e|]] eqn:Hu; [destruct Hst| |destruct Hst].
  cbn [snd] in Hst.
  exists s', e. split; [done|split; [exact Hst|]].
  destruct (attestation_error_sticky s0 (attempt [Byte.x01] 1) s' e Hu Hst) as [Hrun _]. apply Hrun.
Defined.

(** Without verification configured, the same answer is stored. *)
Example unverified :
  let s := NewService Queue.DemoQueue.empty timing None 0 in
  Latest (updateInfo s (attempt [] 1)).1 = Some tir /\ (updateInfo s (attempt [] 1)).2 = Ok 9%N.
Proof. vm_compute. split; reflexivity. Qed.
(** A failed action is tried again, a wrong signature is not. *)
Example retried :
  let tries := [mkTry (attempt [] 0) None None; mkTry (attempt [] 1) None None; mkTry (attempt [] 1) None None] in
  tries_made s0 3 1 tries = 2%nat.
Proof. vm_compute. reflexivity. Qed.
End DemoInfo.

End Info.
