(* ===== verification/Liveness.v ===== *)
(** Liveness ([internal/liveness]): the startup and readiness probes, as functions of
    what the information and result services have recorded. *)

From S2P Require Import Prelude Hex Types Redis Queue Results Config Attestation Info.

Module Liveness.

Definition cChainDelayTolerance : Z := 140 * second.
Definition infoDelayTolerance : Z := 140 * second.
Definition cChainDelayReadTimeout : Z := 2 * second.

Definition ErrStartUpNotFinished : error := sentinel "liveness.ErrStartUpNotFinished".
Definition errInfoServiceUninitialized : error := sentinel "liveness.errInfoServiceUninitialized".

Section Service.
Context {W : Type} `{RedisLib, Queue.NameLib, !Json Action, !Json Queue.ActionSubmissionID, !Json Queue.DirectInstruction}.
Context `{OpLib, Info.InfoLib, Attestation.AttestationLib, !Json Attestation.TeeInfoResponse, Results.SignerLib}.
Abbreviation InfoService := Info.Service.
Abbreviation ResultService := (@Results.Service W).

(** [ready]: the values the readiness gauge was set to. *)
Record liveness : Type := mkLiveness {
  startUpFinished : bool;
  info : option InfoService;
  result : option ResultService;
  ready : list bool
}.

Definition New (info : option InfoService) (results : option ResultService) : liveness :=
  mkLiveness false info results [].

Definition SignalStartupFinished (l : liveness) : liveness := mkLiveness true (info l) (result l) (ready l).

Definition Startup (l : liveness) : res unit :=
  if negb (startUpFinished l) then Fail ErrStartUpNotFinished else Ok tt.

(** The gauge of the age of the information. *)
Definition info_delay (i : InfoService) (now : Z) : Z := time_Sub now (Info.LastUpdated i).

(** [Ready] without the deferred gauge; [ping] and [delay] are the answers of the Redis
    client and of [database.CheckDelay]. *)
Definition ready_error (l : liveness) (ping delay : res unit) (now : Z) : res unit :=
  if negb (startUpFinished l) then Fail ErrStartUpNotFinished
  else
    _ ← wrap ping;
    _ ← wrap delay;
    match info l with
    | None => Fail errInfoServiceUninitialized
    | Some i =>
        if decide (infoDelayTolerance < info_delay i now) then Fail (errorf [])
        else
          match Info.LastAttestationErr i with
          | Some aErr => Fail (errorf [aErr])
          | None =>
              match result l with
              | None => Ok tt
              | Some r => match Results.LastStorageErr r with Some sErr => Fail (errorf [sErr]) | None => Ok tt end
              end
          end
    end.

Definition Ready (l : liveness) (ping delay : res unit) (now : Z) : stateful liveness unit :=
  let err := ready_error l ping delay now in
  (mkLiveness (startUpFinished l) (info l) (result l) (ready l ++ [is_ok err]), err).

(** ** Theorems *)

Lemma ready_iff l ping delay now :
  ready_error l ping delay now = Ok tt <->
    startUpFinished l = true /\ ping = Ok tt /\ delay = Ok tt /\
    (exists i, info l = Some i /\ now - Info.LastUpdated i <= infoDelayTolerance /\ Info.LastAttestationErr i = None) /\
    (forall r, result l = Some r -> Results.LastStorageErr r = None).
Proof.
  unfold ready_error, info_delay.
  destruct (startUpFinished l); cbn [negb]; [|naive_solver].
  destruct ping as [[]| |]; cbn [wrap mbind res_bind]; [|naive_solver..].
  destruct delay as [[]| |]; cbn [wrap mbind res_bind]; [|naive_solver..].
  destruct (info l) as [i|]; [|naive_solver].
  assert (Hd : infoDelayTolerance < time_Sub now (Info.LastUpdated i)
               <-> ~ now - Info.LastUpdated i <= infoDelayTolerance).
  { rewrite time_Sub_gt by (unfold infoDelayTolerance, second, maxInt64; lia). lia. }
  destruct (decide (infoDelayTolerance < time_Sub now (Info.LastUpdated i))) as [Hlate|Hlate]; rewrite Hd in Hlate.
  { split; [done|]. by intros (_ & _ & _ & (j & [= <-] & ? & _) & _). }
  apply dec_stable in Hlate.
  destruct (Info.LastAttestationErr i) as [e|] eqn:Ha.
  { split; [done|]. intros (_ & _ & _ & (j & [= <-] & _ & Hn) & _). congruence. }
  destruct (result l) as [r|]; [destruct (Results.LastStorageErr r) eqn:Hr|]; split; try done.
  - intros (_ & _ & _ & _ & Hall). by rewrite (Hall r) in Hr.
  - intros _. split_and!; try done; [by exists i|by intros ? [= <-]].
  - intros _. split_and!; try done. by exists i.
Qed.

(** The proxy is ready exactly when its start is done, Redis and the indexer answer
    as they should, the information is at most 140 seconds old, and neither an
    attestation nor a storage failure is recorded; the gauge says so, and the startup
    probe passes exactly from the end of the start on. *)
Theorem Ready_correct l ping delay now :
  ((Ready l ping delay now).2 = Ok tt <->
     Startup l = Ok tt /\ ping = Ok tt /\ delay = Ok tt /\
     (exists i, info l = Some i /\ now - Info.LastUpdated i <= infoDelayTolerance /\ Info.LastAttestationErr i = None) /\
     (forall r, result l = Some r -> Results.LastStorageErr r = None)) /\
  ready (Ready l ping delay now).1 = ready l ++ [is_ok (Ready l ping delay now).2] /\
  Startup (SignalStartupFinished l) = Ok tt /\
  Startup (Ready l ping delay now).1 = Startup l.
Proof.
  split; [|done]. cbn [Ready snd]. rewrite ready_iff.
  assert (Startup l = Ok tt <-> startUpFinished l = true) as ->; [|done].
  unfold Startup. by destruct (startUpFinished l).
Qed.

(** An attestation failure takes the proxy out of service for good: once a refresh
    has failed at the attestation stage, no probe finds the proxy ready, however many
    refresh cycles follow and whatever they meet. *)
Theorem attestation_failure_ends_readiness l i a i' e cycles ping delay now
    (failed : Info.updateInfo i a = (i', Fail e)) (at_attestation : Info.refreshStage e = Info.verifyAttestation) :
  let l' := mkLiveness (startUpFinished l) (Some (Info.Run i' cycles)) (result l) (ready l) in
  (Ready l' ping delay now).2 <> Ok tt.
Proof.
  cbn zeta. cbn [Ready snd]. rewrite ready_iff. cbn [info]. intros (_ & _ & _ & (j & [= <-] & _ & Hn) & _).
  revert Hn. by eapply Info.Run_sticky, Info.attestation_stage_records.
Qed.
End Service.

Module DemoLiveness.
Import DemoRedis Queue.DemoQueue Attestation.DemoAttestation Info.DemoInfo Results.DemoResults.
#[local] Existing Instance Demo.op_lib.

(** Ready before the failing refresh, and not after it. *)
Definition l0 : liveness (W := unit) := mkLiveness true (Some s0) None [].

Lemma attestation_failure_ends_readiness_witness :
  (Ready l0 (Ok tt) (Ok tt) 100).2 = Ok tt /\
  exists i' e, Info.updateInfo s0 (attempt [Byte.x01] 1) = (i', Fail e) /\
    (Ready (mkLiveness (W := unit) true (Some (Info.Run i' [])) None []) (Ok tt) (Ok tt) 1100).2 <> Ok tt.
Proof.
  split; [reflexivity|].
  assert (Hst : match (Info.updateInfo s0 (attempt [Byte.x01] 1)).2 with
                | Fail e => Info.refreshStage e = Info.verifyAttestation | _ => False end) by (vm_compute; reflexivity).
  destruct (Info.updateInfo s0 (attempt [Byte.x01] 1)) as [i' [c|e|]] eqn:Hu; [destruct Hst| |destruct Hst].
  cbn [snd] in Hst.
  exists i', e. split; [done|].
  apply (attestation_failure_ends_readiness l0 s0 (attempt [Byte.x01] 1) i' e [] (Ok tt) (Ok tt) 1100 Hu Hst).
Defined.
End DemoLiveness.
End Liveness.
