(* ===== verification/Receipts.v ===== *)
(** Vote receipts ([pkg/instruction/voting/voting.go]) and the signatures of the proxy: the
    payloads it signs carry what they are and the chain, and a signed receipt recovers to
    the proxy's key. *)

From S2P Require Import Prelude Types VotingData Results.

Module Receipts.
Import Results(SignerLib, PublicKey, SigToPub, TextHash).

(** What the proxy signs (go-flare-common [signing]). *)
Inductive Payload : Type := ProxyVoteReceipt | ProxyActionResult | ProxyTeeInfo.

(** [signing.NewPayload(..).Hash], [crypto.Sign] with a private key, the ABI encoding of a
    receipt and its hash. *)
Class SigningLib `{SignerLib} : Type := {
  PrivateKey : Type;
  Public : PrivateKey -> PublicKey;
  payload_Hash : Payload -> Z -> Hash -> res Hash;
  crypto_Sign : Hash -> PrivateKey -> res bytes;
  structs_Encode : Receipt -> res bytes;
  crypto_Keccak256Hash : bytes -> Hash
}.

(** Signatures recover to the key they were made with, and the library reports failures as
    errors. *)
Class SigningLaws `{SigningLib} : Prop := {
  Sign_recovers h sk sig : crypto_Sign h sk = Ok sig -> SigToPub h sig = Ok (Public sk);
  crypto_Sign_no_panic h sk : crypto_Sign h sk <> Panic;
  payload_Hash_no_panic p c h : payload_Hash p c h <> Panic;
  structs_Encode_no_panic r : structs_Encode r <> Panic
}.

Section Signing.
Context `{SigningLib}.

Definition Receipt_Hash (r : Receipt) : res Hash := e ← structs_Encode r; Ok (crypto_Keccak256Hash e).

Record SignedReceipt : Type := mkSignedReceipt { sr_Receipt : Receipt; sr_Signature : bytes }.

Definition SignHash (r : Receipt) (chainID : Z) : res Hash :=
  h ← Receipt_Hash r;
  payload_Hash ProxyVoteReceipt chainID h.

Definition Sign (r : Receipt) (sk : PrivateKey) (chainID : Z) : res SignedReceipt :=
  signHash ← SignHash r chainID;
  sig ← crypto_Sign (TextHash signHash) sk;
  Ok (mkSignedReceipt r sig).

Definition RecoverPubKey (sr : SignedReceipt) (chainID : Z) : res PublicKey :=
  signHash ← SignHash (sr_Receipt sr) chainID;
  SigToPub (TextHash signHash) (sr_Signature sr).

(** A signature of the proxy over a hash, for one purpose and chain. *)
Definition proxy_Sign (p : Payload) (sk : PrivateKey) (chainID : Z) (h : Hash) : res bytes :=
  signHash ← payload_Hash p chainID h;
  crypto_Sign (TextHash signHash) sk.
Definition signed_by (p : Payload) (pub : PublicKey) (chainID : Z) (h : Hash) (sig : bytes) : Prop :=
  exists signHash, payload_Hash p chainID h = Ok signHash /\ SigToPub (TextHash signHash) sig = Ok pub.
End Signing.

Section Facts.
Context `{SigningLaws}.

Lemma proxy_Sign_ok p sk chainID h sig :
  proxy_Sign p sk chainID h = Ok sig -> signed_by p (Public sk) chainID h sig.
Proof. intros (sh & Hh & Hs)%res_bind_ok. exists sh. split; [done|]. by apply Sign_recovers. Qed.

Lemma Sign_is r sk chainID :
  Sign r sk chainID = (h ← Receipt_Hash r; sig ← proxy_Sign ProxyVoteReceipt sk chainID h; Ok (mkSignedReceipt r sig)).
Proof.
  unfold Sign, SignHash, proxy_Sign. destruct (Receipt_Hash r); cbn; [|done..]. by destruct (payload_Hash _ _ _).
Qed.

(** The signed receipt of a receipt. *)
Lemma Sign_ok r sk chainID sr :
  Sign r sk chainID = Ok sr -> sr_Receipt sr = r /\ exists h, Receipt_Hash r = Ok h /\
    signed_by ProxyVoteReceipt (Public sk) chainID h (sr_Signature sr).
Proof.
  rewrite Sign_is. intros (h & Hh & (sig & Hs & [= <-])%res_bind_ok)%res_bind_ok.
  split; [done|]. exists h. split; [done|]. by apply proxy_Sign_ok.
Qed.

Lemma Sign_recovers_to r sk chainID sr :
  Sign r sk chainID = Ok sr -> sr_Receipt sr = r /\ RecoverPubKey sr chainID = Ok (Public sk).
Proof.
  intros (<- & h & Hh & sh & Hp & Hr)%Sign_ok. split; [done|].
  unfold RecoverPubKey, SignHash. rewrite Hh. cbn. by rewrite Hp.
Qed.
Lemma proxy_Sign_no_panic p sk chainID h : proxy_Sign p sk chainID h <> Panic.
Proof.
  unfold proxy_Sign. pose proof (payload_Hash_no_panic p chainID h).
  destruct (payload_Hash _ _ _) as [sh| |]; cbn; [apply crypto_Sign_no_panic|done..].
Qed.
Lemma Sign_no_panic r sk chainID : Sign r sk chainID <> Panic.
Proof.
  rewrite Sign_is. unfold Receipt_Hash.
  pose proof (structs_Encode_no_panic r). destruct (structs_Encode r) as [d| |]; cbn; [|done..].
  pose proof (proxy_Sign_no_panic ProxyVoteReceipt sk chainID (crypto_Keccak256Hash d)). by destruct (proxy_Sign _ _ _ _).
Qed.

(** A signed receipt carries the receipt it was made of, and recovers on the same
    chain to the key that signed it; [Sign] fails only if the encoding, the payload or
    the signature does. *)
Theorem signed_receipt_recovers r sk chainID :
  match Sign r sk chainID with
  | Ok sr => sr_Receipt sr = r /\ RecoverPubKey sr chainID = Ok (Public sk)
  | Fail e => structs_Encode r = Fail e \/
      exists h, Receipt_Hash r = Ok h /\
        (payload_Hash ProxyVoteReceipt chainID h = Fail e \/
         exists sh, payload_Hash ProxyVoteReceipt chainID h = Ok sh /\ crypto_Sign (TextHash sh) sk = Fail e)
  | Panic => False
  end.
Proof.
  destruct (Sign r sk chainID) as [sr|e|] eqn:Hs.
  - by apply Sign_recovers_to.
  - rewrite Sign_is in Hs. apply res_bind_fail in Hs as [Hs|(h & Hh & Hs)].
    + left. unfold Receipt_Hash in Hs. apply res_bind_fail in Hs as [?|(? & _ & ?)]; done.
    + right. exists h. split; [done|]. apply res_bind_fail in Hs as [Hs|(? & _ & ?)]; [|done].
      apply res_bind_fail in Hs as [?|(sh & ? & ?)]; eauto.
  - by apply Sign_no_panic in Hs.
Qed.
End Facts.

(** ** Concrete signatures *)

Module DemoReceipts.
Import Results.DemoResults.

(** A signature is the byte of the key. *)
#[export] Instance signing_lib : SigningLib := {|
  PrivateKey := Byte.byte;
  Public k := k;
  payload_Hash p c h := Ok (h + Z.to_N c)%N;
  crypto_Sign h k := Ok [k];
  structs_Encode r := Ok (rcpt_Signature r);
  crypto_Keccak256Hash b := N.of_nat (length b)
|}.
#[export] Instance signing_laws : SigningLaws.
Proof. constructor; try done. by intros h sk sig [= <-]. Qed.

Definition key : PrivateKey := Byte.x07.
Definition receipt : Receipt := mkReceipt 1 2 [Byte.x01] 3 4 5.

Lemma signed_receipt_recovers_witness :
  exists sr, Sign receipt key 16 = Ok sr /\ RecoverPubKey sr 16 = Ok (Public key).
Proof.
  exists (mkSignedReceipt receipt [Byte.x07]). split; [reflexivity|].
  apply (signed_receipt_recovers receipt key 16).
Defined.
End DemoReceipts.

End Receipts.
