(* ===== verification/Handlers.v ===== *)
(** The HTTP layer that the two servers share ([internal/server/handler.go]): what a
    handler reads of a request and writes as a reply, the preparation of a handler and
    its error replies, the recording of requests, and path parameters. *)

From stdpp Require Import pretty.
From S2P Require Import Prelude Hex Status Types Redis.

Open Scope Z_scope.

Module Handlers.

(** ** Requests and replies (net/http) *)

(** A request body: its data, and the limit of [http.MaxBytesReader]. *)
Record Body : Type := mkBody { b_data : bytes; b_limit : option Z }.

Record Request : Type := mkRequest {
  r_Pattern : string;                     (* the matched route *)
  r_path : gmap string string;            (* the path parameters *)
  r_header : gmap string string;
  r_query : string;
  r_Body : Body
}.

Definition PathValue (r : Request) (param : string) : string := default ""%string (r_path r !! param).
Definition Header_Get (r : Request) (k : string) : string := default ""%string (r_header r !! k).
Definition MaxBytesReader (r : Request) (n : Z) : Request :=
  mkRequest (r_Pattern r) (r_path r) (r_header r) (r_query r) (mkBody (b_data (r_Body r)) (Some n)).

(** The reply.  The status line and the headers are sent once, by the first
    [WriteHeader] or write; [w_calls] are the arguments of [WriteHeader].  [w_conn]
    holds the outcomes of the coming writes and flushes: the peer may be gone. *)
Record ResponseWriter : Type := mkWriter {
  w_header : gmap string string;
  w_sent : option (Z * gmap string string);
  w_calls : list Z;
  w_body : bytes;
  w_conn : list (option error)
}.

Definition new_writer (conn : list (option error)) : ResponseWriter := mkWriter ∅ None [] [] conn.
Definition Header_Set (w : ResponseWriter) (k v : string) : ResponseWriter :=
  mkWriter (<[k := v]> (w_header w)) (w_sent w) (w_calls w) (w_body w) (w_conn w).
Definition Header_Del (w : ResponseWriter) (k : string) : ResponseWriter :=
  mkWriter (base.delete k (w_header w)) (w_sent w) (w_calls w) (w_body w) (w_conn w).

(** The status line, unless it has been sent. *)
Definition send_header (w : ResponseWriter) (code : Z) : ResponseWriter :=
  mkWriter (w_header w) (Some (match w_sent w with Some x => x | None => (code, w_header w) end))
    (w_calls w) (w_body w) (w_conn w).
Definition WriteHeader (w : ResponseWriter) (code : Z) : ResponseWriter :=
  let w := send_header w code in
  mkWriter (w_header w) (w_sent w) (w_calls w ++ [code]) (w_body w) (w_conn w).

(** One use of the connection. *)
Definition use_conn (w : ResponseWriter) (d : bytes) : ResponseWriter * res unit :=
  match w_conn w with
  | Some e :: conn => (mkWriter (w_header w) (w_sent w) (w_calls w) (w_body w) conn, Fail e)
  | None :: conn => (mkWriter (w_header w) (w_sent w) (w_calls w) (w_body w ++ d) conn, Ok tt)
  | [] => (mkWriter (w_header w) (w_sent w) (w_calls w) (w_body w ++ d) [], Ok tt)
  end.
Definition Write (w : ResponseWriter) (d : bytes) : ResponseWriter * res unit := use_conn (send_header w 200) d.
Definition Flush (w : ResponseWriter) : ResponseWriter * res unit := use_conn (send_header w 200) [].

Definition text (s : string) : bytes := String.list_byte_of_string s.
Definition newline : bytes := [Byte.x0a].

(** [http.Error]; a failure of its write is ignored. *)
Definition http_Error (w : ResponseWriter) (msg : string) (code : Z) : ResponseWriter :=
  let w := Header_Del w "Content-Length" in
  let w := Header_Set w "Content-Type" "text/plain; charset=utf-8" in
  let w := Header_Set w "X-Content-Type-Options" "nosniff" in
  let w := WriteHeader w code in
  (Write w (text msg ++ newline)).1.

(** [json.NewEncoder(w).Encode(x)]: one write of the encoding and a newline, or none. *)
Definition Encode {T} `{Json T} (w : ResponseWriter) (x : T) : ResponseWriter * res unit :=
  match json_Marshal x with
  | Ok d => Write w (d ++ newline)
  | Fail e => (w, Fail e)
  | Panic => (w, Panic)
  end.
(** Marshalling reports what it cannot encode as an error. *)
Class Encodes (T : Type) `{Json T} : Prop := { Marshal_no_panic x : json_Marshal x <> Panic }.
#[export] Instance encodes {T} `{Json T, !JsonLaws T} : Encodes T := {| Marshal_no_panic := json_Marshal_no_panic |}.
Definition Encode_nil (w : ResponseWriter) : ResponseWriter * res unit := Write w (text "null" ++ newline).

(** [json.NewDecoder(r.Body)] with [DisallowUnknownFields], decoding into a pointer: [None]
    for null.  A body that is not complete within its limit is an error. *)
Class Decoder (T : Type) : Type := { json_Decode : Body -> res (option T) }.

(** A handler on a server with state [S]. *)
Definition handler (S : Type) : Type := S -> Request -> ResponseWriter -> (S * ResponseWriter) * res unit.

(** [err.Error()]: the text of an error, which the model does not otherwise keep. *)
Class ErrorText : Type := { Error_ : error -> string }.

(** [*http.MaxBytesError]. *)
Definition MaxBytesError : error := sentinel "http.MaxBytesError".

(** ** handler.go *)

Definition ErrInvalidBody : error := Status.http_sentinel "server.ErrInvalidBody" 400.
Definition noBody : Z := 0.

Definition invalidParam : error := errorf [Status.HTTP 400].

Section Prepare.
Context `{ErrorText} {S : Type}.

(** [order] is the iteration order of the table of status errors. *)
Definition handleError (order : list Z) (w : ResponseWriter) (err : error) : ResponseWriter :=
  if errors_Is err (error_id MaxBytesError) then http_Error w "payload too large" 413
  else
    let code := Status.ErrToCode order err in
    if decide (code = -1) then http_Error w "internal processing error" 500
    else http_Error w (Error_ err) code.

Definition prepareHandler (order : list Z) (f : handler S) (maxBodySize : Z) : handler S := fun s r w =>
  let w := Header_Set w "Content-Type" "application/json" in
  let r := if decide (0 <= maxBodySize) then MaxBytesReader r maxBodySize else r in
  match f s r w with
  | ((s, w), Fail err) => ((s, handleError order w err), Ok tt)
  | out => out
  end.

(** ** Recording *)

(** [ObserveHTTP]. *)
Record HTTPEvent : Type := ObserveHTTP { h_server : string; h_route : string; h_status : Z }.

(** [statusRecorder]: the last argument of [WriteHeader], 200 at first. *)
Definition statusRecorder (w : ResponseWriter) : Z := default 200 (last (w_calls w)).

(** [next] is the handler of the matched route; its panic is raised again. *)
Definition instrumentHTTP (enabled : bool) (server : string) (next : handler S) : handler (S * list HTTPEvent) :=
  fun '(s, events) r w =>
    match next s r w with
    | ((s, w), out) =>
        let status := match out with Panic => 500 | _ => statusRecorder w end in
        let events := if enabled then events ++ [ObserveHTTP server (r_Pattern r) status] else events in
        (((s, events), w), out)
    end.
End Prepare.

(** ** Path parameters *)

Definition hashParam (r : Request) (param : string) : res Hash :=
  let s := PathValue r param in
  let s := ToLower s in
  let s := CutPrefix s "0x" in
  match hex_DecodeString s with
  | Panic => Panic
  | Fail _ => Fail invalidParam
  | Ok sB => if decide (length sB <> HashLength) then Fail invalidParam else Ok (BytesToHash sB)
  end.

(** [strconv.ParseUint] in base 10: the value of the digits, if it fits. *)
Definition digit (c : Ascii.ascii) : option Z :=
  let n := Z.of_N (Ascii.N_of_ascii c) in if decide (48 <= n <= 57) then Some (n - 48) else None.
Fixpoint ParseDigits (max : Z) (n : Z) (l : list Ascii.ascii) : option Z :=
  match l with
  | [] => Some n
  | c :: l =>
      match digit c with
      | None => None
      | Some d => if decide (max < n * 10 + d) then None else ParseDigits max (n * 10 + d) l
      end
  end.
Definition ParseUint (s : string) (bits : Z) : res Z :=
  match String.list_ascii_of_string s with
  | [] => Fail (errorf [])
  | l => match ParseDigits (2 ^ bits - 1) 0 l with Some n => Ok n | None => Fail (errorf []) end
  end.

Definition uint64Param (r : Request) (param : string) : res Z :=
  match ParseUint (PathValue r param) 64 with
  | Ok s64 => Ok s64
  | Fail _ => Fail invalidParam
  | Panic => Panic
  end.
Definition uint32Param (r : Request) (param : string) : res Z :=
  match ParseUint (PathValue r param) 32 with
  | Ok s64 => Ok (u32 s64)
  | Fail _ => Fail invalidParam
  | Panic => Panic
  end.

(** ** Replies *)

Lemma send_header_sent w code : w_sent (send_header w code) = Some (default (code, w_header w) (w_sent w)).
Proof. cbn. by destruct (w_sent w). Qed.

Lemma use_conn_sent w d : w_sent (use_conn w d).1 = w_sent w.
Proof. unfold use_conn. by destruct (w_conn w) as [|[?|] ?]. Qed.
Lemma use_conn_calls w d : w_calls (use_conn w d).1 = w_calls w.
Proof. unfold use_conn. by destruct (w_conn w) as [|[?|] ?]. Qed.

Lemma Encode_ok {T} `{Json T} w (x : T) w1 :
  Encode w x = (w1, Ok tt) -> exists d, json_Marshal x = Ok d /\ w_body w1 = w_body w ++ d ++ newline.
Proof.
  unfold Encode. destruct (json_Marshal x) as [d|e|]; [|done..]. intros Hw. exists d. split; [done|].
  revert Hw. unfold Write, use_conn. destruct (w_conn (send_header w 200)) as [|[e|] conn]; intros [= <-]; done.
Qed.
Lemma Encode_no_panic {T} `{Json T, !Encodes T} w (x : T) : (Encode w x).2 <> Panic.
Proof.
  unfold Encode. pose proof (Marshal_no_panic x) as Hm. destruct (json_Marshal x) as [d|e|]; [|done..].
  unfold Write, use_conn. by destruct (w_conn (send_header w 200)) as [|[e|] conn].
Qed.

(** What a reply carries: the status of the first header, and the body. *)
Definition reply_code (w : ResponseWriter) : option Z := fst <$> w_sent w.

Lemma http_Error_code w msg code : reply_code (http_Error w msg code) = Some (default code (reply_code w)).
Proof.
  unfold reply_code, http_Error, Write. rewrite use_conn_sent. cbn. by destruct (w_sent w) as [[]|].
Qed.

(** The body grows by the whole message, or not at all when the connection fails. *)
Lemma http_Error_body w msg code :
  w_body (http_Error w msg code) = w_body w ++ text msg ++ newline \/
  (exists e conn, w_conn w = Some e :: conn) /\ w_body (http_Error w msg code) = w_body w.
Proof.
  unfold http_Error, Write, use_conn. cbn.
  destruct (w_conn w) as [|[e|] conn]; cbn; [by left| |by left]. right. by eauto.
Qed.

(** The status and the text that an error is answered with. *)
Definition error_code (e : error) : Z :=
  if errors_Is e (error_id MaxBytesError) then 413 else default 500 (head (Status.http_codes_of e)).
Definition error_message `{ErrorText} (e : error) : string :=
  if errors_Is e (error_id MaxBytesError) then "payload too large"
  else if decide (Status.http_codes_of e = []) then "internal processing error" else Error_ e.

Lemma handleError_is `{ErrorText} order w e :
  order ≡ₚ Status.http_codes -> Status.single_status e ->
  handleError order w e = http_Error w (error_message e) (error_code e).
Proof.
  intros Ho Hs. unfold handleError, error_code, error_message.
  destruct (errors_Is e (error_id MaxBytesError)); [done|].
  rewrite (Status.ErrToCode_single _ _ Ho Hs). destruct (Status.http_codes_of e) as [|c l] eqn:Hc; [done|].
  cbn. assert (Hin : c ∈ Status.http_codes).
  { assert (c ∈ Status.http_codes_of e) as Hx by (rewrite Hc; by left).
    by apply list_elem_of_filter in Hx as [_ ?]. }
  destruct (decide (c = -1)) as [->|]; [|done]. unfold Status.http_codes in Hin. set_solver.
Qed.

(** Error replies.  A prepared handler never lets an error through: with an error
    that follows the convention of [status] the client gets the status 413 for a body
    over the limit, the status that the error wraps with the error's text, and
    otherwise 500 with a text that says nothing of the error, whatever the iteration
    order of the status table; unless the handler had begun a reply, whose status then
    stands.  What the handler did to the server, and its own replies, are kept. *)
Theorem prepareHandler_replies `{ErrorText} {S : Type} order (f : handler S) n s r w :
  order ≡ₚ Status.http_codes ->
  let r' := if decide (0 <= n) then MaxBytesReader r n else r in
  let '((s1, w1), out) := f s r' (Header_Set w "Content-Type" "application/json") in
  let '((s', w'), out') := prepareHandler order f n s r w in
  s' = s1 /\
  match out with
  | Ok _ => w' = w1 /\ out' = Ok tt
  | Panic => w' = w1 /\ out' = Panic
  | Fail e => out' = Ok tt /\
      (Status.single_status e ->
        reply_code w' = Some (default (error_code e) (reply_code w1)) /\
        (w_body w' = w_body w1 ++ text (error_message e) ++ newline \/
         (exists err conn, w_conn w1 = Some err :: conn) /\ w_body w' = w_body w1))
  end.
Proof.
  intros Ho r'. unfold prepareHandler. fold r'.
  destruct (f s r' (Header_Set w "Content-Type" "application/json")) as [[s1 w1] [[]|e|]]; [done| |done].
  split; [done|]. split; [done|]. intros Hs. rewrite (handleError_is order w1 e Ho Hs).
  split; [apply http_Error_code|apply http_Error_body].
Qed.

(** ** Recorded requests *)

(** With metrics enabled each request is counted exactly once, on every outcome of
    its handler: a panic as a server error, and raised again; otherwise under the last
    status the handler set, which is the status the client got when the handler set it
    once and before it wrote.  The handler's state, reply and outcome are its own. *)
Theorem instrumentHTTP_records {S : Type} enabled server (next : handler S) s events r w :
  w_calls w = [] -> w_sent w = None ->
  let '((s1, w1), out) := next s r w in
  let '(((s', events'), w'), out') := instrumentHTTP enabled server next (s, events) r w in
  s' = s1 /\ w' = w1 /\ out' = out /\
  (enabled = false -> events' = events) /\
  (enabled = true -> exists status, events' = events ++ [ObserveHTTP server (r_Pattern r) status] /\
    (out = Panic -> status = 500) /\
    (forall code h, out <> Panic -> w_calls w1 = [code] -> w_sent w1 = Some (code, h) ->
      reply_code w1 = Some status) /\
    (out <> Panic -> w_calls w1 = [] -> status = 200)).
Proof.
  intros Hc Hs. unfold instrumentHTTP. destruct (next s r w) as [[s1 w1] out].
  destruct enabled; (split; [done|]; split; [done|]; split; [done|]; split; [done|intros He]); [|done].
  eexists. split; [done|]. split; [by intros ->|]. split.
  - intros code h Hp Hcalls Hsent. unfold reply_code, statusRecorder. rewrite Hcalls, Hsent. by destruct out.
  - intros Hp Hcalls. unfold statusRecorder. rewrite Hcalls. by destruct out.
Qed.

(** ** Path parameters *)

Lemma digit_range c d : digit c = Some d -> 0 <= d <= 9.
Proof. unfold digit. destruct (decide _); [|done]. intros [= <-]. lia. Qed.

(** The value of decimal digits. *)
Fixpoint value (n : Z) (l : list Ascii.ascii) : option Z :=
  match l with
  | [] => Some n
  | c :: l => match digit c with None => None | Some d => value (n * 10 + d) l end
  end.

Lemma value_ge n l v : 0 <= n -> value n l = Some v -> n <= v.
Proof.
  revert n. induction l as [|c l IH]; intros n Hn; cbn; [intros [= <-]; lia|].
  destruct (digit c) as [d|] eqn:Hd; [|done]. apply digit_range in Hd. intros Hv%IH; lia.
Qed.

Lemma ParseDigits_value max n l v :
  0 <= n <= max -> ParseDigits max n l = Some v <-> value n l = Some v /\ v <= max.
Proof.
  revert n. induction l as [|c l IH]; intros n Hn; cbn.
  - split; [intros [= <-]; split; [done|lia]|naive_solver].
  - destruct (digit c) as [d|] eqn:Hd; [|naive_solver]. apply digit_range in Hd.
    destruct (decide (max < n * 10 + d)) as [Hm|Hm]; [|apply IH; lia].
    split; [done|]. intros [Hv Hle]. apply value_ge in Hv; lia.
Qed.

Lemma ParseUint_value s bits n :
  0 <= bits -> ParseUint s bits = Ok n <->
  s <> ""%string /\ value 0 (String.list_ascii_of_string s) = Some n /\ n < 2 ^ bits.
Proof.
  intros Hb. unfold ParseUint. assert (0 < 2 ^ bits) by (apply Z.pow_pos_nonneg; lia).
  destruct s as [|c s]; [naive_solver|]. cbn [String.list_ascii_of_string].
  pose proof (fun v => ParseDigits_value (2 ^ bits - 1) 0 (c :: String.list_ascii_of_string s) v ltac:(lia)) as Hp.
  destruct (ParseDigits (2 ^ bits - 1) 0 _) as [v|]; split.
  - intros [= <-]. destruct (proj1 (Hp v) eq_refl). split_and!; [done|done|lia].
  - intros (_ & Hv & Hn). destruct (proj1 (Hp v) eq_refl) as [Hv' _]. congruence.
  - done.
  - intros (_ & Hv & Hn). specialize (Hp n). destruct Hp as [_ Hp]. discriminate Hp. split; [done|lia].
Qed.

Lemma value_app n l k m : value n l = Some m -> value n (l ++ k) = value m k.
Proof.
  revert n. induction l as [|c l IH]; intros n; cbn; [by intros [= ->]|].
  destruct (digit c); [|done]. apply IH.
Qed.

(** The decimal text of a number has its value. *)
Lemma digit_pretty x : (x < 10)%N -> digit (pretty_N_char x) = Some (Z.of_N x).
Proof.
  intros Hx. assert (x = 0 \/ x = 1 \/ x = 2 \/ x = 3 \/ x = 4 \/ x = 5 \/ x = 6 \/ x = 7 \/ x = 8 \/ x = 9)%N by lia.
  destruct_or!; subst x; reflexivity.
Qed.

Lemma value_pretty_go x s :
  value 0 (String.list_ascii_of_string (pretty_N_go x s)) = value (Z.of_N x) (String.list_ascii_of_string s).
Proof.
  revert s. induction (N.lt_wf_0 x) as [x _ IH]. intros s.
  destruct (decide (x = 0)%N) as [->|Hx]; [by rewrite pretty_N_go_0|].
  rewrite pretty_N_go_step by lia. rewrite IH by (apply N.div_lt; lia).
  cbn [String.list_ascii_of_string value]. pose proof (N.mod_lt x 10 ltac:(lia)).
  rewrite digit_pretty by done. f_equal.
  pose proof (N.div_mod x 10 ltac:(lia)). lia.
Qed.

Lemma value_pretty n : 0 <= n -> value 0 (String.list_ascii_of_string (pretty n)) = Some n.
Proof.
  intros Hn. destruct n as [|p|p]; [reflexivity| |lia].
  change (pretty (Z.pos p)) with (pretty_N_go (N.pos p) ""). apply value_pretty_go.
Qed.

Lemma pretty_nonempty n : 0 <= n -> pretty n <> ""%string.
Proof. intros Hn He. pose proof (value_pretty n Hn) as Hv. rewrite He in Hv. cbn in Hv. by injection Hv as <-. Qed.

(** Hexadecimal text is in lower case and has no 0x. *)
Lemma ToLower_0x s : CutPrefix (ToLower ("0x" +:+ s)) "0x" = ToLower s.
Proof.
  change (ToLower ("0x" +:+ s)) with ("0x" +:+ ToLower s). unfold CutPrefix.
  by rewrite HasPrefix_app, str_drop_app.
Qed.
Lemma ToLower_hex b : ToLower (hex_EncodeToString b) = hex_EncodeToString b.
Proof.
  unfold ToLower, hex_EncodeToString. rewrite String.list_ascii_of_string_of_list_ascii. f_equal.
  induction b as [|x b IH]; [done|]. unfold hex_Encode in *. cbn [mbind list_bind]. rewrite fmap_app, IH.
  by destruct x.
Qed.
Lemma CutPrefix_hex b : CutPrefix (hex_EncodeToString b) "0x" = hex_EncodeToString b.
Proof.
  unfold CutPrefix. rewrite (all_hex_prefix _ "0x"); [done|apply hex_digit_all|not_hex].
Qed.

Lemma hashParam_iff r p h :
  hashParam r p = Ok h <->
  hash_ok h /\ CutPrefix (ToLower (PathValue r p)) "0x" = hex_EncodeToString (hash_bytes h).
Proof.
  unfold hashParam. set (s := CutPrefix (ToLower (PathValue r p)) "0x").
  pose proof (hex_DecodeString_lower s) as Hd.
  specialize (fun b => Hd b (lower_CutPrefix _ _ (ToLower_lower _))).
  destruct (hex_DecodeString s) as [b|e|].
  - pose proof (proj1 (Hd b) eq_refl) as Hs. destruct (decide (length b <> HashLength)) as [Hl|Hl].
    + split; [done|]. intros [Hok Heq]. destruct Hl. rewrite Hs in Heq.
      apply hex_EncodeToString_inj in Heq as ->. apply be_bytes_length.
    + assert (Hl' : length b = HashLength) by lia. clear Hl. split.
      * intros [= <-]. split; [apply BytesToHash_ok; lia|]. rewrite Hs. f_equal.
        unfold BytesToHash, hash_bytes. rewrite Hl', Nat.sub_diag, drop_0, <- Hl'. by rewrite be_bytes_be.
      * intros [Hok Heq]. rewrite Hs in Heq. apply hex_EncodeToString_inj in Heq as ->.
        by rewrite BytesToHash_hash_bytes.
  - split; [done|]. intros [_ Heq]. discriminate (proj2 (Hd _) Heq).
  - split; [done|]. intros [_ Heq]. discriminate (proj2 (Hd _) Heq).
Qed.

(** Path parameters.  A hash is accepted exactly as its 64 hexadecimal digits, in
    either case, with or without 0x; a number exactly as decimal digits whose value fits
    its width, without wrapping; their texts are read back as themselves, and everything
    else is answered with a 400. *)
Theorem path_params_correct r p :
  (forall h, hashParam r p = Ok h <->
    hash_ok h /\ CutPrefix (ToLower (PathValue r p)) "0x" = hex_EncodeToString (hash_bytes h)) /\
  (forall h, hash_ok h -> PathValue r p = hex_EncodeToString (hash_bytes h) \/
    PathValue r p = "0x" +:+ hex_EncodeToString (hash_bytes h) -> hashParam r p = Ok h) /\
  (forall n, uint64Param r p = Ok n <->
    PathValue r p <> "" /\ value 0 (String.list_ascii_of_string (PathValue r p)) = Some n /\ n < 2 ^ 64) /\
  (forall n, uint32Param r p = Ok n <->
    PathValue r p <> "" /\ value 0 (String.list_ascii_of_string (PathValue r p)) = Some n /\ n < 2 ^ 32) /\
  (forall n, PathValue r p = pretty n ->
    (0 <= n < 2 ^ 64 -> uint64Param r p = Ok n) /\ (0 <= n < 2 ^ 32 -> uint32Param r p = Ok n)) /\
  (forall e, hashParam r p = Fail e \/ uint64Param r p = Fail e \/ uint32Param r p = Fail e -> error_code e = 400).
Proof.
  assert (H64 : forall n, uint64Param r p = Ok n <->
    PathValue r p <> ""%string /\ value 0 (String.list_ascii_of_string (PathValue r p)) = Some n /\ n < 2 ^ 64).
  { intros n. rewrite <- ParseUint_value by lia. unfold uint64Param. by destruct (ParseUint _ _). }
  assert (H32 : forall n, uint32Param r p = Ok n <->
    PathValue r p <> ""%string /\ value 0 (String.list_ascii_of_string (PathValue r p)) = Some n /\ n < 2 ^ 32).
  { intros n. rewrite <- ParseUint_value by lia. unfold uint32Param.
    destruct (ParseUint (PathValue r p) 32) as [m| |] eqn:Hm; [|done..].
    apply ParseUint_value in Hm as (_ & Hv & Hm); [|lia]. apply value_ge in Hv; [|lia].
    by rewrite u32_small by lia. }
  split_and!; [apply hashParam_iff| |done|done| |].
  - intros h Hok Hp. apply hashParam_iff. split; [done|].
    destruct Hp as [->| ->]; [by rewrite ToLower_hex, CutPrefix_hex|by rewrite ToLower_0x, ToLower_hex].
  - intros n Hp. rewrite H64, H32, Hp. split; intros Hn; (split_and!; [by apply pretty_nonempty; lia|apply value_pretty; lia|lia]).
  - intros e [He|[He|He]]; unfold hashParam, uint64Param, uint32Param in He; repeat case_match; simplify_eq; reflexivity.
Qed.

(** ** Concrete handlers *)

Module DemoHandlers.
#[export] Instance error_text : ErrorText := {| Error_ := error_id |}.

Definition request (path : list (string * string)) (data : bytes) : Request :=
  mkRequest "GET /x" (list_to_map path) ∅ "" (mkBody data None).

(** A handler that fails before it writes. *)
Definition failing (e : error) : handler nat := fun s r w => ((S s, w), Fail e).
Definition fine : handler nat := fun s r w => ((S s, WriteHeader w 200), Ok tt).
Definition reply (e : error) : ResponseWriter :=
  (prepareHandler Status.http_codes (failing e) noBody 0%nat (request [] []) (new_writer [])).1.2.

Lemma prepareHandler_replies_witness :
  reply_code (reply ErrInvalidBody) = Some 400 /\ reply_code (reply (errorf [MaxBytesError])) = Some 413 /\
  reply_code (reply (errorf [])) = Some 500 /\
  w_body (reply (errorf [])) = text "internal processing error" ++ newline.
Proof.
  split; [|split; [|split]]; [|reflexivity..].
  destruct (prepareHandler_replies Status.http_codes (failing ErrInvalidBody) noBody 0%nat (request [] [])
    (new_writer []) (Permutation_refl _)) as (_ & _ & Hr).
  apply Hr. apply (bool_decide_eq_true_1 _). vm_compute. reflexivity.
Defined.

Lemma instrumentHTTP_records_witness :
  (instrumentHTTP true "external" fine (0%nat, []) (request [] []) (new_writer [])).1.1.2
    = [ObserveHTTP "external" "GET /x" 200] /\
  exists status, (instrumentHTTP true "external" fine (0%nat, []) (request [] []) (new_writer [])).1.1.2
    = [ObserveHTTP "external" "GET /x" status] /\ Some 200 = Some status.
Proof.
  split; [reflexivity|].
  destruct (instrumentHTTP_records true "external" fine 0%nat [] (request [] []) (new_writer []) eq_refl eq_refl)
    as (_ & _ & _ & _ & Ht).
  destruct (Ht eq_refl) as (status & He & _ & Hs & _). exists status. split; [exact He|].
  apply (Hs 200 ∅); [discriminate|reflexivity|reflexivity].
Defined.
End DemoHandlers.

End Handlers.
