(* ===== verification/Internal.v ===== *)
(** The internal server ([internal/server/internal.go]): the node takes actions from the
    queues and posts their results, which are stored in the background; the end of the
    server; the endpoints of the orchestrator. *)

From S2P Require Import Prelude Status Types Redis Queue Results Attestation Info Liveness Handlers.

Module Internal.
Import Queue(ActionQueues, Delivery, del_Action, del_id, del_queueID, client, queues_of, upd, body, Attempt).
Import Results(ActionResponse).
Import Handlers.

#[local] Existing Instance Queue.QueueID_eq_dec.

Definition maxResultBodySize : Z := 25 * 2 ^ 20.
Definition resultWriteTimeout : Z := 10 * second.
Definition errInvalidQueueID : error := Status.http_sentinel "server.errInvalidQueueID" 400.

(** The queue named by a path ([processorutils.QueueID]). *)
Class QueueIDLib : Type := { QueueID_of : string -> Queue.QueueID }.

(** [FinalizedActionLost]. *)
Record LostEvent : Type := FinalizedActionLost { lost_reason : string }.

Section Server.
Context `{RedisLib, Queue.NameLib, !Json Action, !Json Queue.ActionSubmissionID, QueueIDLib}.
Context {W : Type} `{StorageI W ActionResponse, OpLib, Results.SignerLib, !Decoder ActionResponse}.

(** [resultWrites] holds the responses of the goroutines in the wait group. *)
Record Internal : Type := mkInternal {
  actionQueues : ActionQueues;
  resultService : @Results.Service W;
  resultWrites : list ActionResponse;
  draining : bool;
  lost : list LostEvent
}.

Definition set_queues (i : Internal) (q : ActionQueues) : Internal :=
  mkInternal q (resultService i) (resultWrites i) (draining i) (lost i).
Definition set_results (i : Internal) (sv : Results.Service) : Internal :=
  mkInternal (actionQueues i) sv (resultWrites i) (draining i) (lost i).
Definition set_writes (i : Internal) (l : list ActionResponse) : Internal :=
  mkInternal (actionQueues i) (resultService i) l (draining i) (lost i).
Definition start_draining (i : Internal) : Internal :=
  mkInternal (actionQueues i) (resultService i) (resultWrites i) true (lost i).
Definition count_lost (i : Internal) (e : LostEvent) : Internal :=
  mkInternal (actionQueues i) (resultService i) (resultWrites i) (draining i) (lost i ++ [e]).

(** ** Results *)

(** Errors are logged. *)
Definition storeResult (i : Internal) (now : Z) (response : ActionResponse) : stateful Internal unit :=
  match Results.ProcessAndStore (resultService i) now response with
  | (sv, Panic) => (set_results i sv, Panic)
  | (sv, _) => (set_results i sv, Ok tt)
  end.

(** A null body leaves a nil pointer, whose result the log line dereferences.  [now] is
    the time of a synchronous store. *)
Definition resultH (now : Z) : handler Internal := fun i r w =>
  match json_Decode (r_Body r) with
  | Fail _ => ((i, w), Fail ErrInvalidBody)
  | Panic | Ok None => ((i, w), Panic)
  | Ok (Some response) =>
      if draining i then let '(i, out) := storeResult i now response in ((i, w), out)
      else ((set_writes i (resultWrites i ++ [response]), w), Ok tt)
  end.

(** ** Actions *)

Definition undelivered (i : Internal) (d : Delivery) (queueID : Queue.QueueID) (cause : error)
    : stateful Internal unit :=
  match Queue.Restore (actionQueues i) d with
  | (q, Panic) => (set_queues i q, Panic)
  | (q, Ok _) => (set_queues i q, Fail (errorf [cause]))
  | (q, Fail _) =>
      let i := set_queues i q in
      let i := if decide (queueID = Queue.Main) then count_lost i (FinalizedActionLost "send_failed") else i in
      (i, Fail (errorf [cause]))
  end.

(** [cancelled] and [gone] are [ctx.Err()] before and after the action is taken. *)
Definition queueH (now : Z) (cancelled gone : option error) : handler Internal := fun i r w =>
  let queueID := QueueID_of (PathValue r "queueID") in
  match queueID with
  | Queue.OtherQueue _ => ((i, w), Fail errInvalidQueueID)
  | _ =>
      match Queue.Dequeue (actionQueues i) now cancelled queueID with
      | (q, Panic) => ((set_queues i q, w), Panic)
      | (q, Fail e) =>
          let i := set_queues i q in
          if errors_Is e "storage.ErrEmptyQueue" then let '(w, out) := Encode_nil w in ((i, w), out)
          else ((i, w), Fail e)
      | (q, Ok delivery) =>
          let i := set_queues i q in
          match gone with
          | Some err => let '(i, out) := undelivered i delivery queueID err in ((i, w), out)
          | None =>
              let '(w, out) := match Encode w (del_Action delivery) with
                               | (w, Ok _) => Flush w
                               | (w, out) => (w, out)
                               end in
              match out with
              | Panic => ((i, w), Panic)
              | Fail err => let '(i, out) := undelivered i delivery queueID err in ((i, w), out)
              | Ok _ =>
                  match Queue.Commit (actionQueues i) delivery with
                  | (q, Panic) => ((set_queues i q, w), Panic)
                  | (q, _) => ((set_queues i q, w), Ok tt)
                  end
              end
          end
      end
  end.
End Server.

(** ** The endpoints of the orchestrator *)

Section Probes.
Context {W : Type} `{RedisLib, Queue.NameLib, !Json Action, !Json Queue.ActionSubmissionID, !Json Queue.DirectInstruction}.
Context `{OpLib, Info.InfoLib, Attestation.AttestationLib, !Json Attestation.TeeInfoResponse, Results.SignerLib, ErrorText}.
Abbreviation liveness := (@Liveness.liveness W _ _).

Definition healthy : handler liveness := fun l r w => ((l, WriteHeader (Header_Set w "Content-Length" "0") 200), Ok tt).

Definition startup : handler liveness := fun l r w =>
  let w := Header_Set w "Content-Length" "0" in
  match Liveness.Startup l with
  | Panic => ((l, w), Panic)
  | Fail err => ((l, http_Error w (Error_ err) 503), Ok tt)
  | Ok _ => ((l, WriteHeader w 200), Ok tt)
  end.

(** [ping], [delay] and [now] are the answers the readiness check gets. *)
Definition ready (ping delay : res unit) (now : Z) : handler liveness := fun l r w =>
  let w := Header_Set w "Content-Length" "0" in
  match Liveness.Ready l ping delay now with
  | (l, Panic) => ((l, w), Panic)
  | (l, Fail err) => ((l, http_Error w (Error_ err) 503), Ok tt)
  | (l, Ok _) => ((l, WriteHeader w 200), Ok tt)
  end.
End Probes.

(** ** Delivery *)

Section Delivery.
Context `{RedisLib, !RedisLaws, Queue.NameLib, !Queue.NameLaws, !Json Action, !Json Queue.ActionSubmissionID, QueueIDLib}.
Context `{!JsonLaws Action, !JsonLaws Queue.ActionSubmissionID}.
Context {W : Type} `{StorageI W ActionResponse, OpLib, Results.SignerLib, !Decoder ActionResponse}.
Implicit Types i : Internal (W := W).

Abbreviation queues i := (client (actionQueues i)).

(** The next attempt of a submission. *)
Definition next (id : Queue.ActionSubmissionID) : Queue.ActionSubmissionID :=
  Queue.mkSubmissionID (Queue.ActionID id) (Queue.id_SubmissionTag id) (Attempt id + 1).

(** What is counted when an action of queue [k] is given up. *)
Definition lost_of (k : Queue.QueueID) : list LostEvent :=
  if decide (k = Queue.Main) then [FinalizedActionLost "send_failed"] else [].

(** An action that was taken and not delivered is the next to be delivered, with its body; or
    it is given up and counted: after its last attempt, or because writing the queue was
    reported to have failed, where the write may have reached the server all the same. *)
Definition given_back i i' k (q : Queue.QueueID -> list Queue.ActionSubmissionID) id rest : Prop :=
  (Attempt id + 1 < Queue.MaxDeliveryAttempts /\ queues_of (queues i') (upd q k (next id :: rest)) /\
    (forall now x, body (actionQueues i') now x = body (actionQueues i) now x) /\ lost i' = lost i) \/
  (lost i' = lost i ++ lost_of k /\
   (Queue.MaxDeliveryAttempts <= Attempt id + 1 /\ queues_of (queues i') (upd q k rest) \/
    Attempt id + 1 < Queue.MaxDeliveryAttempts /\
      (queues_of (queues i') (upd q k rest) \/ queues_of (queues i') (upd q k (next id :: rest))))).

Lemma undelivered_gives_back i d k q rest cause :
  queues_of (queues i) (upd q k rest) -> del_queueID d = k -> Queue.queueByID k = Ok (Queue.del_queue d) ->
  0 <= Attempt (del_id d) < 255 ->
  exists i', undelivered i d k cause = (i', Fail (errorf [cause])) /\ given_back i i' k q (del_id d) rest.
Proof.
  intros Hq Hk Hp Ha. unfold undelivered, given_back.
  pose proof (Queue.Restore_meets_spec (actionQueues i) d (upd q k rest) Hq) as Hr.
  rewrite Hk in Hr. specialize (Hr Hp Ha). unfold Queue.Restore_post in Hr. rewrite Hk, Queue.upd_eq in Hr.
  destruct (Queue.Restore (actionQueues i) d) as [q' [[]|e|]]; [| |done].
  - eexists. split; [done|]. left. destruct Hr as (Hm & Hq' & Hb). split_and!; [done|by eapply Queue.upd_upd|done|done].
  - eexists. split; [done|]. right. split.
    + unfold lost_of. destruct (decide (k = Queue.Main)); cbn; [done|by rewrite app_nil_r].
    + destruct (decide (k = Queue.Main)); cbn; (destruct Hr as [(Hm & [Hq1|Hq1] & _)|(Hm & _ & Hq1 & _)];
        [right; split; [done|by left]|right; split; [done|right; by eapply Queue.upd_upd]|by left]).
Qed.

Lemma Flush_body w w1 : Flush w = (w1, Ok tt) -> w_body w1 = w_body w.
Proof.
  unfold Flush, use_conn. destruct (w_conn (send_header w 200)) as [|[e|] conn]; intros [= <-]; cbn; by rewrite app_nil_r.
Qed.
Lemma Flush_no_panic w : (Flush w).2 <> Panic.
Proof. unfold Flush, use_conn. by destruct (w_conn (send_header w 200)) as [|[e|] conn]. Qed.

(** The send: the encoding and a flush. *)
Lemma send_cases (w : ResponseWriter) (a : Action) :
  match (match Encode w a with (w, Ok _) => Flush w | (w, out) => (w, out) end) with
  | (w', Ok _) => exists d, json_Marshal a = Ok d /\ w_body w' = w_body w ++ d ++ newline
  | (_, Fail _) => True
  | (_, Panic) => False
  end.
Proof.
  pose proof (Encode_no_panic w a) as Hp. destruct (Encode w a) as [w1 [[]|e|]] eqn:He; [| |done..].
  - apply Encode_ok in He as (d & Hd & Hb). pose proof (Flush_no_panic w1) as Hf.
    destruct (Flush w1) as [w2 [[]|e|]] eqn:Hw; [| |done..]; [|done].
    exists d. split; [done|]. by rewrite (Flush_body _ _ Hw).
  - done.
Qed.
(** The submission [d] that [Dequeue] took from queue [k], leaving [s1], was written to the node
    and committed: the queue is without it, and its body is gone unless that call of the
    store failed; the bodies of other submissions are what they were. *)
Definition delivered i i' now k (q : Queue.QueueID -> list Queue.ActionSubmissionID) s1 d rest w w' : Prop :=
  exists data, body (actionQueues i) now (del_id d) = Some (del_Action d) /\
    json_Marshal (del_Action d) = Ok data /\ w_body w' = w_body w ++ data ++ newline /\
    queues_of (queues i') (upd q k rest) /\ lost i' = lost i /\
    actionQueues i' = (Queue.Commit s1 d).1 /\ Queue.Commit_post s1 d (Queue.Commit s1 d).

Lemma deliver_outcome i d k q rest gone now w :
  queues_of (queues i) (upd q k rest) -> q k = del_id d :: rest -> del_queueID d = k ->
  Queue.queueByID k = Ok (Queue.del_queue d) -> 0 <= Attempt (del_id d) < 255 ->
  body (actionQueues i) now (del_id d) = Some (del_Action d) ->
  match
    match gone with
    | Some err => let '(i, out) := undelivered i d k err in ((i, w), out)
    | None =>
        let '(w, out) := match Encode w (del_Action d) with (w, Ok _) => Flush w | (w, out) => (w, out) end in
        match out with
        | Panic => ((i, w), Panic)
        | Fail err => let '(i, out) := undelivered i d k err in ((i, w), out)
        | Ok _ =>
            match Queue.Commit (actionQueues i) d with
            | (q, Panic) => ((set_queues i q, w), Panic)
            | (q, _) => ((set_queues i q, w), Ok tt)
            end
        end
    end
  with
  | ((i', w'), Ok _) => delivered i i' now k q (actionQueues i) d rest w w'
  | ((i', _), Fail _) => given_back i i' k q (del_id d) rest
  | (_, Panic) => False
  end.
Proof.
  intros Hq Hqk Hk Hp Ha Hb.
  pose proof (fun c => undelivered_gives_back i d k q rest c Hq Hk Hp Ha) as Hu.
  destruct gone as [err|]; [by destruct (Hu err) as (i' & -> & Hi)|].
  pose proof (send_cases w (del_Action d)) as Hs.
  destruct (match Encode w (del_Action d) with (w, Ok _) => Flush w | (w, out) => (w, out) end) as [w' [[]|e|]];
    [| |done].
  - destruct Hs as (data & Hdata & Hbody). pose proof (Queue.Commit_queues (actionQueues i) d _ Hq) as Hc.
    pose proof (Queue.Commit_no_panic (actionQueues i) d) as Hnp.
    pose proof (Queue.Commit_meets_spec (actionQueues i) d) as Hcp. unfold delivered.
    destruct (Queue.Commit (actionQueues i) d) as [q' [[]|e|]]; [..|done]; by exists data.
  - by destruct (Hu e) as (i' & -> & Hi).
Qed.

End Delivery.
(** ** The end of the server

    [Close] sets the flag under the mutex, has the HTTP server shut down and waits for
    the group of background writes.  Its steps interleave with the handlers of the
    results and the goroutines of the group; a handler may still be running when the
    shutdown runs out of time.  The critical section of [resultH] makes its test of the
    flag and its entry into the group one step. *)

Section Closing.
Context `{RedisLib} {W : Type} `{StorageI W ActionResponse, !StorageLaws W ActionResponse, Queue.NameLib, OpLib, !OpLaws}.
Context `{Results.SignerLib, !Results.SignerLaws, !Decoder ActionResponse}.
Abbreviation server := (Internal (W := W)).

(** Where [Close] is: not called, waiting for [Shutdown], waiting for the group, and
    returned because the group was done, or because the deadline had passed. *)
Inductive close_pc : Type := NotClosed | ShuttingDown | Waiting | Done | DeadlineReached.

(** [answered]: the results whose handler returned nil. *)
Record closing : Type := mkClosing { srv : server; pc : close_pc; answered : list ActionResponse }.

Inductive cstep : closing -> closing -> Prop :=
| c_result x now r w i w' response :
    json_Decode (r_Body r) = Ok (Some response) -> resultH now (srv x) r w = ((i, w'), Ok tt) ->
    cstep x (mkClosing i (pc x) (response :: answered x))
| c_rejected x now r w i w' e :
    resultH now (srv x) r w = ((i, w'), Fail e) -> cstep x (mkClosing i (pc x) (answered x))
| c_panicked x now r w i w' :
    resultH now (srv x) r w = ((i, w'), Panic) -> cstep x (mkClosing i (pc x) (answered x))
| c_write x now l response l' i out :
    resultWrites (srv x) = l ++ response :: l' ->
    storeResult (set_writes (srv x) (l ++ l')) now response = (i, out) ->
    cstep x (mkClosing i (pc x) (answered x))
| c_close x : pc x = NotClosed ->
    cstep x (mkClosing (start_draining (srv x)) ShuttingDown (answered x))
| c_shutdown x : pc x = ShuttingDown -> cstep x (mkClosing (srv x) Waiting (answered x))
| c_done x : pc x = Waiting -> resultWrites (srv x) = [] -> cstep x (mkClosing (srv x) Done (answered x))
| c_deadline x : pc x = Waiting -> cstep x (mkClosing (srv x) DeadlineReached (answered x)).

(** The result service after it has processed responses, each at its time. *)
Definition process_all (sv : Results.Service) (l : list (Z * ActionResponse)) : @Results.Service W :=
  foldl (fun sv e => (Results.ProcessAndStore sv e.1 e.2).1) sv l.

(** Of the results that were answered, [p] have been through the result service, and the
    others wait in the group. *)
Definition accounted (sv0 : @Results.Service W) (x : closing) (p : list (Z * ActionResponse)) : Prop :=
  resultService (srv x) = process_all sv0 p /\ answered x ≡ₚ p.*2 ++ resultWrites (srv x).

Definition closing_inv (sv0 : @Results.Service W) (x : closing) : Prop :=
  (exists p, accounted sv0 x p) /\
  (pc x <> NotClosed -> draining (srv x) = true) /\
  (pc x = Done -> resultWrites (srv x) = []).

Lemma process_all_snoc sv l now r :
  process_all sv (l ++ [(now, r)]) = (Results.ProcessAndStore (process_all sv l) now r).1.
Proof. unfold process_all. by rewrite foldl_app. Qed.

Lemma storeResult_is (i : server) now r :
  storeResult i now r = (set_results i (Results.ProcessAndStore (resultService i) now r).1, Ok tt).
Proof.
  unfold storeResult. pose proof (Results.ProcessAndStore_no_panic (resultService i) now r) as Hp.
  by destruct (Results.ProcessAndStore (resultService i) now r) as [sv [[]|e|]].
Qed.

(** A handler that answers has put its result into the group or through the service. *)
Lemma resultH_cases now (i : server) r w i' w' out :
  resultH now i r w = ((i', w'), out) -> draining i' = draining i /\
  match out with
  | Ok _ => exists response, json_Decode (r_Body r) = Ok (Some response) /\
      if draining i
      then resultWrites i' = resultWrites i /\ resultService i' = (Results.ProcessAndStore (resultService i) now response).1
      else resultWrites i' = resultWrites i ++ [response] /\ resultService i' = resultService i
  | _ => i' = i
  end.
Proof.
  unfold resultH. destruct (json_Decode (r_Body r)) as [[response|]|e|]; [|by intros [= <- _ <-]..].
  rewrite storeResult_is. destruct (draining i) eqn:Hdr; intros [= <- _ <-]; (split; [done|]); by exists response.
Qed.

Lemma cstep_inv sv0 x y : cstep x y -> closing_inv sv0 x -> closing_inv sv0 y.
Proof.
  intros Hs ((p & Hsv & Ha) & Hd & Hn). unfold closing_inv, accounted.
  inversion Hs as [x0 now r w i w' response Hj Hr|x0 now r w i w' e Hr|x0 now r w i w' Hr|x0 now l response l' i out Hl Hr|x0 Hpc|x0 Hpc
    |x0 Hpc Hw|x0 Hpc]; subst; cbn [srv pc answered] in *.
  - apply resultH_cases in Hr as [Hdr (response' & Hj' & Hr)]. rewrite Hj in Hj'. injection Hj' as <-.
    rewrite Hdr. destruct (draining (srv x)) eqn:Hdx; destruct Hr as [Hw Hsv']; rewrite Hw, Hsv'; (split_and!; [|done|]).
    + exists (p ++ [(now, response)]). rewrite process_all_snoc, <- Hsv. split; [done|]. rewrite fmap_app, <- (assoc_L (++)), Ha.
      cbn. by rewrite <- Permutation_middle.
    + done.
    + exists p. split; [done|]. rewrite (assoc_L (++)), <- Ha. by rewrite Permutation_cons_append.
    + intros Hp. exfalso. apply diff_false_true, Hd. congruence.
  - apply resultH_cases in Hr as [_ ->]. split_and!; [by exists p|done|done].
  - apply resultH_cases in Hr as [_ ->]. split_and!; [by exists p|done|done].
  - rewrite storeResult_is in Hr. injection Hr as <- _. cbn [set_results set_writes resultService resultWrites draining]. split_and!; [|done|].
    + exists (p ++ [(now, response)]). rewrite process_all_snoc, <- Hsv. split; [done|].
      rewrite fmap_app, <- (assoc_L (++)), Ha, Hl. cbn. by rewrite <- !Permutation_middle.
    + intros Hp. rewrite (Hn Hp) in Hl. by destruct l.
  - split_and!; [by exists p|done|done].
  - split_and!; [by exists p|intros _; apply Hd; congruence|done].
  - split_and!; [by exists p|intros _; apply Hd; congruence|done].
  - split_and!; [by exists p|intros _; apply Hd; congruence|done].
Qed.

(** Once the flag is set, nothing joins the group. *)
Lemma cstep_group x y : cstep x y -> draining (srv x) = true ->
  draining (srv y) = true /\ resultWrites (srv y) `sublist_of` resultWrites (srv x).
Proof.
  intros Hs Hdx.
  inversion Hs as [x0 now r w i w' response Hj Hr|x0 now r w i w' e Hr|x0 now r w i w' Hr|x0 now l response l' i out Hl Hr|x0 Hpc|x0 Hpc
    |x0 Hpc Hw|x0 Hpc]; subst; cbn [srv]; try done.
  - apply resultH_cases in Hr as [Hdr (response' & Hj' & Hr)]. rewrite Hdx in Hr, Hdr. destruct Hr as [-> _]. done.
  - by apply resultH_cases in Hr as [_ ->].
  - by apply resultH_cases in Hr as [_ ->].
  - rewrite storeResult_is in Hr. injection Hr as <- _. cbn. split; [done|]. rewrite Hl.
    apply sublist_app; [done|]. by apply sublist_cons.
Qed.

(** C12: no answered result is dropped while the server ends.  In every run, at every
    moment, the state of the result service is what it becomes by processing responses
    [p], and each result whose handler has answered without an error is one of [p] or in
    the group of background writes, as often as it was answered.  Once [Close] has set its
    flag the group only shrinks, so that no entry races the wait.  When [Close] returns
    because the group was done, all results answered until then, and at any later time,
    have been processed; when it returns at its deadline, only those still in the group
    have not. *)
Theorem answered_results_are_processed (i : server) x y :
  resultWrites i = [] -> rtc cstep (mkClosing i NotClosed []) x -> rtc cstep x y ->
  (exists p, accounted (resultService i) x p) /\
  (pc x <> NotClosed -> resultWrites (srv y) `sublist_of` resultWrites (srv x)) /\
  (pc x = Done -> exists p, resultService (srv y) = process_all (resultService i) p /\ answered y ≡ₚ p.*2).
Proof.
  intros Hi Hx Hxy.
  assert (Hinv : closing_inv (resultService i) x).
  { revert Hx. apply (rtc_ind_r (closing_inv (resultService i))); [|intros ? ? _ Hs; by apply cstep_inv].
    unfold closing_inv, accounted; cbn. split; [|done]. exists []. by rewrite Hi. }
  assert (Hgrow : draining (srv x) = true -> resultWrites (srv y) `sublist_of` resultWrites (srv x)).
  { intros Hd. enough (draining (srv y) = true /\ resultWrites (srv y) `sublist_of` resultWrites (srv x)) by tauto.
    revert Hxy. apply (rtc_ind_r (fun y => draining (srv y) = true /\ resultWrites (srv y) `sublist_of` resultWrites (srv x)));
      [done|]. intros y0 z _ Hs [Hd0 Hsub]. destruct (cstep_group _ _ Hs Hd0). split; [done|]. by etrans. }
  pose proof Hinv as (Ha & Hd & Hn). split_and!; [done|auto|]. intros Hp.
  specialize (Hgrow (Hd ltac:(congruence))). rewrite (Hn Hp) in Hgrow. apply sublist_nil_r in Hgrow.
  assert (closing_inv (resultService i) y) as ((p & Hsv & Hay) & _).
  { revert Hxy. apply (rtc_ind_r (closing_inv (resultService i))); [done|intros ? ? _ Hs; by apply cstep_inv]. }
  exists p. split; [done|]. by rewrite Hay, Hgrow, app_nil_r.
Qed.
End Closing.
(** ** A concrete server *)

Module DemoInternal.
Import DemoRedis Queue.DemoQueue Results.DemoResults RedisImplements Handlers.DemoHandlers.
#[export] Instance op_lib : OpLib := Types.Demo.op_lib.
#[export] Instance op_laws : OpLaws := Types.Demo.op_laws.
#[export] Instance results_store : StorageI redis ActionResponse := redis_storage "results".
#[export] Instance results_store_laws : StorageLaws redis ActionResponse := redis_storage_laws "results".
#[export] Instance queue_names : QueueIDLib := {|
  QueueID_of s := if decide (s = "main") then Queue.Main else if decide (s = "direct") then Queue.Direct
                  else if decide (s = "backup") then Queue.Backup else Queue.OtherQueue s
|}%string.
#[export] Instance results_decoder : Decoder ActionResponse := {|
  json_Decode b := match b_data b with
    | [] => Ok None
    | [n] => Ok (Some (Results.DemoResults.response (Byte.to_N n) 1))
    | _ => Fail (errorf [])
    end
|}.

Definition server0 (q : ActionQueues) : Internal (W := redis) :=
  mkInternal q (Results.NewService (Results.NewStorage (mkServer ∅ ∅ : redis) 1000 100) 0) [] false [].
Definition poll : Request := request [("queueID"%string, "main"%string)] [].


(** Of two results, one is posted before the end of the server and one after. *)
Definition post (n : Byte.byte) : Request := request [] [n].
Definition r1 : ActionResponse := Results.DemoResults.response 1 1.
Definition i1 : Internal (W := redis) := (resultH 1 (server0 s1) (post Byte.x01) (new_writer [])).1.1.
Definition i2 : Internal (W := redis) := start_draining i1.
Definition i3 : Internal (W := redis) := (storeResult (set_writes i2 []) 2 r1).1.
Definition closed : closing := mkClosing i3 Done [r1].

Lemma closed_reachable : rtc cstep (mkClosing (server0 s1) NotClosed []) closed.
Proof.
  eapply rtc_l; [eapply (c_result (mkClosing (server0 s1) NotClosed []) 1 (post Byte.x01) (new_writer [])); reflexivity|].
  eapply rtc_l; [apply c_close; reflexivity|]. eapply rtc_l; [apply c_shutdown; reflexivity|].
  eapply rtc_l; [apply (c_write _ 2 [] r1 [] i3 (storeResult (set_writes i2 []) 2 r1).2); [reflexivity|apply surjective_pairing]|].
  eapply rtc_l; [apply c_done; [reflexivity|]|apply rtc_refl].
  cbn [srv]. unfold i3. by rewrite storeResult_is.
Qed.

Lemma answered_results_are_processed_witness :
  exists p, resultService i3 = process_all (resultService (server0 s1)) p /\ [r1] ≡ₚ p.*2.
Proof.
  destruct (answered_results_are_processed (server0 s1) closed closed eq_refl closed_reachable (rtc_refl _ _))
    as (_ & _ & Hd). apply Hd. reflexivity.
Defined.
End DemoInternal.
End Internal.
