(* ===== verification/External.v ===== *)
(** The external server ([internal/server/external.go]): instructions and their receipts,
    direct instructions, results, statuses, node information, wallets and backups.  Each
    handler is over the state of the service it calls. *)

From Stdlib Require Import Ascii.
From S2P Require Import Prelude Hex Status Types Config VotingData Cyclic VotingStorage VotingProofs Redis Queue Results.
From S2P Require Import Wallets Backups Meta Instructions Attestation Info Receipts Handlers.

Open Scope Z_scope.

Module External.
Import Handlers Receipts.
Import Results(ActionResponse, Result, SignerLib, ActionResult_Hash, TextHash).

Definition kib : Z := 2 ^ 10.
Definition mib : Z := 2 ^ 20.
Definition instructionSizeLimit : Z := 10 * mib.
Definition maxHeaderBytes : Z := 16 * kib.

Definition errNoInfoService : error := sentinel "server.errNoInfoService".
Definition errProxyNotInitialized : error := Status.http_sentinel "server.errProxyNotInitialized" 503.
Definition errEmptySubmissionTag : error := Status.http_sentinel "server.errEmptySubmissionTag" 400.
Definition errInvalidSubmissionTag : error := Status.http_sentinel "server.errInvalidSubmissionTag" 400.
Definition errSystemDirect : error := Status.http_sentinel "server.errSystemDirect" 400.
Definition errUnauthorized : error := Status.http_sentinel "server.errUnauthorized" 401.
Definition errEnqueueFailed : error := Status.http_sentinel "server.errEnqueueFailed" 503.

Record DirectConfig : Type := mkDirectConfig {
  Enable : bool;
  APIKey : string;
  APIKeyOptional : bool;
  MaxBodySize : Z
}.

(** ** Routes *)

Inductive endpoint : Type :=
| instruction | action_result | action_status | tee_info | wallet_info | wallet | backup | backup_latest | direct.

(** The pattern of each endpoint and the limit on the bodies of its requests. *)
Definition registerRoutes (cfg : DirectConfig) (enableDirect : bool) : list (string * (endpoint * Z)) :=
  [("POST /instruction", (instruction, instructionSizeLimit));
   ("GET /action/result/{actionID}", (action_result, noBody));
   ("GET /action/status/{rewardEpochID}/{instructionID}", (action_status, noBody));
   ("GET /info", (tee_info, noBody));
   ("GET /wallet/info", (wallet_info, noBody));
   ("GET /wallet/{walletID}/{keyID}", (wallet, noBody));
   ("GET /backup/{backupIDHash}", (backup, noBody));
   ("GET /backup/{walletID}/{keyID}", (backup_latest, noBody))] ++
  (if enableDirect then
     [("POST /direct", (direct, if decide (0 < MaxBodySize cfg) then MaxBodySize cfg else instructionSizeLimit))]
   else [])%string.

(** ** Form values (net/url) *)

(** [strings.Cut] at a character: the text before and after its first occurrence. *)
Fixpoint cut (c : Ascii.ascii) (l : list Ascii.ascii) : list Ascii.ascii * list Ascii.ascii :=
  match l with
  | [] => ([], [])
  | x :: l => if decide (x = c) then ([], l) else let '(a, b) := cut c l in (x :: a, b)
  end.

Fixpoint QueryUnescape (l : list Ascii.ascii) : option (list Ascii.ascii) :=
  match l with
  | [] => Some []
  | c :: l =>
      if decide (c = "%"%char) then
        match l with
        | a :: b :: l =>
            match hex_digit a, hex_digit b, QueryUnescape l with
            | Some h, Some k, Some r => Some (Ascii.ascii_of_N (16 * h + k) :: r)
            | _, _, _ => None
            end
        | _ => None
        end
      else
        match QueryUnescape l with
        | Some r => Some ((if decide (c = "+"%char) then " "%char else c) :: r)
        | None => None
        end
  end.

(** [url.ParseQuery] without its error, which only tells whether a part was skipped: the
    parts between ampersands, those with a semicolon or a bad escape skipped. *)
Definition part_ok (part : list Ascii.ascii) : bool :=
  bool_decide (";"%char ∉ part) &&
  (let '(k, v) := cut "="%char part in
   match QueryUnescape k, QueryUnescape v with Some _, Some _ => true | _, _ => false end).
Definition part_value (part : list Ascii.ascii) : string * string :=
  let '(k, v) := cut "="%char part in
  (String.string_of_list_ascii (default [] (QueryUnescape k)), String.string_of_list_ascii (default [] (QueryUnescape v))).

Fixpoint split_parts (fuel : nat) (l : list Ascii.ascii) : list (list Ascii.ascii) :=
  match fuel, l with
  | S fuel, _ :: _ => let '(part, l) := cut "&"%char l in part :: split_parts fuel l
  | _, _ => []
  end.
Definition parts (query : string) : list (list Ascii.ascii) :=
  let l := String.list_ascii_of_string query in split_parts (length l) l.

Definition add_value (m : gmap string (list string)) (kv : string * string) : gmap string (list string) :=
  <[kv.1 := default [] (m !! kv.1) ++ [kv.2]]> m.

(** [r.ParseForm] of a request without a body: the form, and an error when a part was
    skipped.  Empty parts are passed over. *)
Definition ParseForm (r : Request) : res (gmap string (list string)) :=
  let ps := filter (fun p => p <> []) (parts (r_query r)) in
  if forallb part_ok ps then Ok (foldl add_value ∅ (part_value <$> ps)) else Fail (errorf []).

(** The tag named by a string ([types.SubmissionTag]). *)
Class TagLib : Type := { tag_of : string -> SubmissionTag }.

Section Tags.
Context `{TagLib}.

Definition submissionTagParam (form : gmap string (list string)) : res SubmissionTag :=
  match form !! "submissionTag"%string with
  | None => Ok Threshold
  | Some [tag] =>
      match tag_of tag with
      | OtherTag _ => Fail errInvalidSubmissionTag
      | st => Ok st
      end
  | Some _ => Fail errEmptySubmissionTag
  end.
End Tags.

(** ** Instructions *)

Section Instruction.
Context `{OpLib, InstructionLib, CyclicLib, RedisLib, Queue.NameLib, !Json Action, !Json Queue.ActionSubmissionID}.
Context `{SigningLib, !Decoder Instruction, !Json SignedReceipt}.

(** A null body leaves a nil pointer, which [ServeInstruction] dereferences once it has
    counted the instruction. *)
Definition instructionH (mt : Meta) (c : VotingStorage.Clock) (sent : bool) (privKey : PrivateKey) (chainID : Z)
    : handler Instructions.Service := fun s r w =>
  match json_Decode (r_Body r) with
  | Fail _ => ((s, w), Fail ErrInvalidBody)
  | Panic => ((s, w), Panic)
  | Ok None => ((Instructions.report s Instructions.InstructionReceived, w), Panic)
  | Ok (Some i) =>
      match Instructions.ServeInstruction s mt i c sent with
      | (s, Fail e) => ((s, w), Fail e)
      | (s, Panic) => ((s, w), Panic)
      | (s, Ok receipt) =>
          match Sign receipt privKey chainID with
          | Fail e => ((s, w), Fail e)
          | Panic => ((s, w), Panic)
          | Ok signedReceipt => let '(w, out) := Encode w signedReceipt in ((s, w), out)
          end
      end
  end.

Definition statusH `{!Json Statuses} : handler Instructions.Service := fun s r w =>
  match hashParam r "instructionID" with
  | Fail e => ((s, w), Fail e)
  | Panic => ((s, w), Panic)
  | Ok id =>
      match uint32Param r "rewardEpochID" with
      | Fail e => ((s, w), Fail e)
      | Panic => ((s, w), Panic)
      | Ok reID =>
          match Instructions.Statuses_ s id reID with
          | Fail e => ((s, w), Fail e)
          | Panic => ((s, w), Panic)
          | Ok result => let '(w, out) := Encode w result in ((s, w), out)
          end
      end
  end.
End Instruction.

(** ** Direct instructions *)

Section Direct.
Context `{OpLib, RedisLib, Queue.NameLib, !Json Action, !Json Queue.ActionSubmissionID, !Json Queue.DirectInstruction}.
Context `{!Decoder Queue.DirectInstruction}.

(** [subtle.ConstantTimeCompare] tells whether two slices are equal. *)
Definition verifyAPIKey (cfg : DirectConfig) (r : Request) : res unit :=
  if decide (Header_Get r "X-API-Key" <> APIKey cfg) then Fail errUnauthorized else Ok tt.

Definition validateDirect (i : Queue.DirectInstruction) : res unit :=
  if IsSystem (Queue.di_OPType i) then Fail errSystemDirect else Ok tt.

(** [id] is the random identifier of the action.  A null body leaves a nil pointer, which
    [validateDirect] dereferences. *)
Definition directH (cfg : DirectConfig) (now : Z) (id : res Hash) : handler Queue.ActionQueues := fun q r w =>
  match (if APIKeyOptional cfg then Ok tt else verifyAPIKey cfg r) with
  | Fail e => ((q, w), Fail e)
  | Panic => ((q, w), Panic)
  | Ok _ =>
      match json_Decode (r_Body r) with
      | Fail _ => ((q, w), Fail ErrInvalidBody)
      | Panic | Ok None => ((q, w), Panic)
      | Ok (Some i) =>
          match validateDirect i with
          | Fail e => ((q, w), Fail e)
          | Panic => ((q, w), Panic)
          | Ok _ =>
              match Queue.DirectInstructionToAction i id with
              | Fail _ => ((q, w), Fail ErrInvalidBody)
              | Panic => ((q, w), Panic)
              | Ok a =>
                  match Queue.Enqueue q now a Queue.Direct with
                  | (q, Fail _) => ((q, w), Fail errEnqueueFailed)
                  | (q, Panic) => ((q, w), Panic)
                  | (q, Ok _) => let '(w, out) := Encode w a in ((q, w), out)
                  end
              end
          end
      end
  end.
End Direct.

(** ** Results *)

Section Result.
Context {W : Type} `{StorageI W ActionResponse, Queue.NameLib, OpLib, SigningLib, TagLib}.

(** The response with the signature of the proxy, which replaces the one it had. *)
Record ProxyActionResponse : Type := mkProxyResponse { pr_Response : ActionResponse; pr_ProxySignature : bytes }.

Definition resultH `{!Json ProxyActionResponse} (privKey : PrivateKey) (chainID now : Z)
    : handler (@Results.Service W) := fun s r w =>
  match ParseForm r with
  | Fail _ => ((s, w), Fail (errorf [Status.HTTP 400]))
  | Panic => ((s, w), Panic)
  | Ok form =>
      match hashParam r "actionID" with
      | Fail e => ((s, w), Fail e)
      | Panic => ((s, w), Panic)
      | Ok id =>
          match submissionTagParam form with
          | Fail e => ((s, w), Fail e)
          | Panic => ((s, w), Panic)
          | Ok st =>
              match Results.Serve s now id st with
              | (s, Fail e) => ((s, w), Fail e)
              | (s, Panic) => ((s, w), Panic)
              | (s, Ok response) =>
                  match proxy_Sign ProxyActionResult privKey chainID
                          (Results.BytesToHash (ActionResult_Hash (Result response))) with
                  | Fail e => ((s, w), Fail e)
                  | Panic => ((s, w), Panic)
                  | Ok sig => let '(w, out) := Encode w (mkProxyResponse response sig) in ((s, w), out)
                  end
              end
          end
      end
  end.
End Result.

(** ** Node information *)

Section TeeInfo.
Context `{RedisLib, Queue.NameLib, !Json Action, !Json Queue.ActionSubmissionID, Attestation.AttestationLib, SigningLib}.
Import Attestation.

Record SignedTeeInfoResponse : Type := mkSignedTeeInfo { st_Response : TeeInfoResponse; st_ProxySignature : bytes }.

(** The information service may be nil. *)
Definition infoH `{!Json SignedTeeInfoResponse} (privKey : PrivateKey) : handler (option Info.Service) := fun s r w =>
  match s with
  | None => ((s, w), Fail errNoInfoService)
  | Some info =>
      match Info.Latest info with
      | None => ((s, w), Fail errProxyNotInitialized)
      | Some result =>
          match TeeInfo_Hash (teeInfo result) with
          | Fail e => ((s, w), Fail e)
          | Panic => ((s, w), Panic)
          | Ok h =>
              match proxy_Sign ProxyTeeInfo privKey (ti_ChainID (teeInfo result)) (Hex.BytesToHash h) with
              | Fail e => ((s, w), Fail e)
              | Panic => ((s, w), Panic)
              | Ok sig => let '(w, out) := Encode w (mkSignedTeeInfo result sig) in ((s, w), out)
              end
          end
      end
  end.
End TeeInfo.

(** ** Wallets and backups *)

Section Wallet.
Context `{!Json Wallets.WalletsInfoResponse, !Json Wallets.KeyData}.

Definition walletInfoH : handler Wallets.Cache := fun s r w =>
  let '(w, out) := Encode w (Wallets.WalletsInfo s) in ((s, w), out).

Definition walletH : handler Wallets.Cache := fun s r w =>
  match hashParam r "walletID" with
  | Fail e => ((s, w), Fail e)
  | Panic => ((s, w), Panic)
  | Ok wID =>
      match uint64Param r "keyID" with
      | Fail e => ((s, w), Fail e)
      | Panic => ((s, w), Panic)
      | Ok kID =>
          match Wallets.get_KeyData s wID kID with
          | Fail e => ((s, w), Fail e)
          | Panic => ((s, w), Panic)
          | Ok walletInfo => let '(w, out) := Encode w walletInfo in ((s, w), out)
          end
      end
  end.
End Wallet.

Section Backup.
Context {WI WB : Type} `{Backups.BackupLib, StorageI WI Hash, StorageI WB Backups.TEEBackupResponse}.
Context `{!Json (option Backups.TEEBackupResponse), !Json Backups.TEEBackupResponse}.

Definition backupH (now : Z) : handler (@Backups.Stores WI WB) := fun s r w =>
  match hashParam r "backupIDHash" with
  | Fail e => ((s, w), Fail e)
  | Panic => ((s, w), Panic)
  | Ok idHash =>
      match Backups.FetchBackup s now idHash with
      | (s, Fail e) => ((s, w), Fail e)
      | (s, Panic) => ((s, w), Panic)
      | (s, Ok backupResponse) => let '(w, out) := Encode w backupResponse in ((s, w), out)
      end
  end.

Definition backupLatestH (now now' : Z) : handler (@Backups.Stores WI WB) := fun s r w =>
  match hashParam r "walletID" with
  | Fail e => ((s, w), Fail e)
  | Panic => ((s, w), Panic)
  | Ok wID =>
      match uint64Param r "keyID" with
      | Fail e => ((s, w), Fail e)
      | Panic => ((s, w), Panic)
      | Ok kID =>
          match Backups.FetchLatestBackup s now now' (Wallets.mkIDPair wID kID) with
          | (s, Fail e) => ((s, w), Fail e)
          | (s, Panic) => ((s, w), Panic)
          | (s, Ok backupResponse) => let '(w, out) := Encode w backupResponse in ((s, w), out)
          end
      end
  end.
End Backup.

(** ** Theorems *)

(** Each cut takes at least one character, so the length of the text is enough fuel. *)
Lemma cut_shorter c x l : (length (cut c (x :: l)).2 <= length l)%nat.
Proof.
  revert x. induction l as [|y l IH]; intros x; cbn [cut]; destruct (decide (x = c)); cbn [snd length]; try lia.
  specialize (IH y). cbn [cut] in IH. destruct (decide (y = c)); cbn [snd] in *; [lia|].
  destruct (cut c l). cbn [snd] in *. lia.
Qed.
Lemma split_parts_enough n l : (length l <= n)%nat -> split_parts n l = split_parts (length l) l.
Proof.
  remember (length l) as m eqn:Hm. revert n l Hm. induction m as [m IH] using lt_wf_ind. intros n l -> Hn.
  destruct l as [|x l]; [by destruct n|]. destruct n as [|n]; cbn [length] in Hn; [lia|].
  cbn [split_parts length]. pose proof (cut_shorter "&"%char x l) as Hc.
  destruct (cut "&"%char (x :: l)) as [part rest]. cbn [snd] in Hc. f_equal.
  rewrite (IH (length rest)); [|cbn; lia|done|lia]. symmetry. apply (IH (length rest)); [cbn; lia|done|lia].
Qed.

(** The reply is the encoding of a value. *)
Definition replied {T} `{Json T} (w w' : ResponseWriter) (x : T) : Prop :=
  exists d, json_Marshal x = Ok d /\ w_body w' = w_body w ++ d ++ newline.

Lemma Encode_replied {T} `{Json T} w (x : T) w' : Encode w x = (w', Ok tt) -> replied w w' x.
Proof. apply Encode_ok. Qed.

(** *** Instructions *)

Section InstructionFacts.
Context `{OpLib, InstructionLib, CyclicLib, RedisLib, Queue.NameLib, !Json Action, !Json Queue.ActionSubmissionID}.
Context `{!InstructionLaws, !InstructionHashInj, !CyclicLaws, SigningLib, !SigningLaws, !Decoder Instruction}.
Context `{!Json SignedReceipt, !Encodes SignedReceipt}.
Import VotingProofs.

(** The receipt of an instruction.  In a running service, a reply is a receipt that
    [ServeInstruction] gave for the instruction in the body, that is for a vote that was
    recorded, and its signature recovers to the proxy's key on the proxy's chain.  An
    error leaves the service as it was, or as [ServeInstruction] left it; only an
    undecodable body or a null one keeps an instruction from [ServeInstruction]. *)
Theorem instructionH_receipt mt c sent privKey chainID s r w :
  Instructions.ireachable s -> MetaLaws mt ->
  (forall i, json_Decode (r_Body r) = Ok (Some i) -> request_ok (instruction_Data i) c) ->
  match instructionH mt c sent privKey chainID s r w with
  | ((s', w'), Ok _) => exists i receipt sr,
      json_Decode (r_Body r) = Ok (Some i) /\
      Instructions.ServeInstruction_spec s i sent (s', Ok receipt) /\
      sr_Receipt sr = receipt /\ RecoverPubKey sr chainID = Ok (Public privKey) /\ replied w w' sr
  | ((s', _), Fail e) =>
      (s' = s /\ e = ErrInvalidBody) \/
      (exists i out, json_Decode (r_Body r) = Ok (Some i) /\ Instructions.ServeInstruction_spec s i sent (s', out))
  | ((s', w'), Panic) =>
      (s' = s \/ s' = Instructions.report s Instructions.InstructionReceived) /\ w' = w /\
      forall i e, json_Decode (r_Body r) <> Ok (Some i) /\ json_Decode (r_Body r) <> Fail e
  end.
Proof.
  intros Hs Hmt Hreq. unfold instructionH.
  destruct (json_Decode (r_Body r)) as [[i|]|e|] eqn:Hj; [|split; [by right|done]|by left|split; [by left|done]].
  pose proof (Instructions.ServeInstruction_meets_spec s mt i c sent Hs Hmt (Hreq i eq_refl)) as Hspec.
  destruct (Instructions.ServeInstruction s mt i c sent) as [s' [receipt|e|]].
  - destruct (Sign receipt privKey chainID) as [sr|e|] eqn:Hsr.
    + pose proof (Encode_no_panic w sr) as Hnp. destruct (Encode w sr) as [w' [[]|e|]] eqn:He; [| |done].
      * exists i, receipt, sr. apply Sign_recovers_to in Hsr as [Hr Hk]. split_and!; try done. by apply Encode_replied.
      * right. by exists i, (Ok receipt).
    + right. by exists i, (Ok receipt).
    + by apply Sign_no_panic in Hsr.
  - right. by exists i, (Fail e).
  - by destruct Hspec as (_ & _ & ?).
Qed.
End InstructionFacts.

(** *** Direct instructions *)

Section DirectFacts.
Context `{OpLib, RedisLib, !RedisLaws, Queue.NameLib, !Queue.NameLaws, !Json Action, !Json Queue.ActionSubmissionID}.
Context `{!JsonLaws Action, !JsonLaws Queue.ActionSubmissionID, !Json Queue.DirectInstruction}.
Context `{!Encodes Queue.DirectInstruction, !Decoder Queue.DirectInstruction}.
Import Queue(queues_of, upd, client, actionTTL, mkSubmissionID).

(** The request may queue [a]: it carries the key unless the key is optional, and its
    body is an instruction that is not of a system type, with [a] as its action. *)
Definition direct_admits (cfg : DirectConfig) (r : Request) (id : res Hash) (a : Action) : Prop :=
  (APIKeyOptional cfg = true \/ Header_Get r "X-API-Key" = APIKey cfg) /\
  exists i, json_Decode (r_Body r) = Ok (Some i) /\ IsSystem (Queue.di_OPType i) = false /\
    Queue.DirectInstructionToAction i id = Ok a.

Lemma DirectInstructionToAction_id i id a :
  Queue.DirectInstructionToAction i id = Ok a -> id = Ok (ad_ID (action_Data a)) /\ ad_SubmissionTag (action_Data a) = Submit.
Proof.
  unfold Queue.DirectInstructionToAction. destruct id as [h| |]; cbn; [|done..].
  destruct (json_Marshal i); cbn; [|done..]. by intros [= <-].
Qed.

Lemma verifyAPIKey_ok cfg r :
  (if APIKeyOptional cfg then Ok tt else verifyAPIKey cfg r) = Ok tt <->
  APIKeyOptional cfg = true \/ Header_Get r "X-API-Key" = APIKey cfg.
Proof.
  unfold verifyAPIKey. destruct (APIKeyOptional cfg); [naive_solver|].
  destruct (decide (Header_Get r "X-API-Key" <> APIKey cfg)) as [Hk|Hk]; [naive_solver|].
  split; [intros _; right; by apply dec_stable|done].
Qed.

(** C20: direct instructions.  A reply without an error is the action of an admitted
    request, which is then the last of the direct queue, with its body stored for its
    time to live; the other queues are as before.  An error of a request that is not
    admitted leaves the queues untouched and has the status 401 without the key and 400
    otherwise; an admitted request fails with 503, after which its action may or may not
    be queued, or because the reply of a queued action could not be written.  Only a
    null body, or a marshalling that panics, is a panic. *)
Theorem directH_admission cfg now id q r w qs :
  queues_of (client q) qs ->
  let sub a := mkSubmissionID (ad_ID (action_Data a)) Submit 0 in
  match directH cfg now id q r w with
  | ((q', w'), Ok _) => exists a, direct_admits cfg r id a /\ replied w w' a /\
      queues_of (client q') (upd qs Queue.Direct (qs Queue.Direct ++ [sub a])) /\
      (forall t, actionTTL q = 0 \/ t < now + actionTTL q -> Queue.body q' t (sub a) = Some a)
  | ((q', _), Fail e) =>
      (q' = q /\ (forall a, ~ direct_admits cfg r id a) /\
        (e = errUnauthorized /\ error_code e = 401 /\ Header_Get r "X-API-Key" <> APIKey cfg \/
         error_code e = 400 /\ (APIKeyOptional cfg = true \/ Header_Get r "X-API-Key" = APIKey cfg))) \/
      (exists a, direct_admits cfg r id a /\
        (error_code e = 503 /\
           (queues_of (client q') qs \/ queues_of (client q') (upd qs Queue.Direct (qs Queue.Direct ++ [sub a]))) \/
         queues_of (client q') (upd qs Queue.Direct (qs Queue.Direct ++ [sub a])) /\ (Encode w a).2 = Fail e))
  | ((q', _), Panic) => q' = q /\ (forall i, json_Decode (r_Body r) = Ok (Some i) -> id = Panic)
  end.
Proof.
  intros Hq sub. unfold directH.
  destruct (if APIKeyOptional cfg then Ok tt else verifyAPIKey cfg r) as [[]|e|] eqn:Hv.
  2:{ left. split; [done|]. split; [intros a [Ha%verifyAPIKey_ok _]; congruence|].
      left. unfold verifyAPIKey in Hv. destruct (APIKeyOptional cfg); [done|].
      destruct (decide _); [|done]. by injection Hv as <-. }
  2:{ unfold verifyAPIKey in Hv. destruct (APIKeyOptional cfg); [done|]. by destruct (decide _). }
  pose proof (proj1 (verifyAPIKey_ok cfg r) Hv) as Hkey.
  destruct (json_Decode (r_Body r)) as [[i|]|e|] eqn:Hj; [|done| |done].
  2:{ left. split; [done|]. split; [|right; by split]. intros a (_ & i & Hj' & _). congruence. }
  unfold validateDirect. destruct (IsSystem (Queue.di_OPType i)) eqn:Hsys; cbv beta iota.
  { left. split; [done|]. split; [|right; by split]. intros a (_ & i' & Hj' & Hs & _). congruence. }
  destruct (Queue.DirectInstructionToAction i id) as [a|e|] eqn:Ha.
  2:{ left. split; [done|]. split; [|right; by split]. intros a (_ & i' & Hj' & _ & Ha'). congruence. }
  2:{ split; [done|]. intros i' _. unfold Queue.DirectInstructionToAction in Ha. destruct id; cbn in Ha; [|done..].
      pose proof (Marshal_no_panic i). by destruct (json_Marshal i). }
  assert (Hadm : direct_admits cfg r id a) by (split; [done|]; by exists i).
  apply DirectInstructionToAction_id in Ha as [_ Htag].
  pose proof (Queue.Enqueue_meets_spec q now a Queue.Direct qs Hq) as He. unfold Queue.Enqueue_spec in He.
  rewrite Htag in He. destruct (Queue.Enqueue q now a Queue.Direct) as [q' [[]|e|]]; [| |done].
  - destruct He as (_ & Hq' & Hb & _). pose proof (Encode_no_panic w a) as Hnp.
    destruct (Encode w a) as [w' [[]|e|]] eqn:Hw; [| |done]; cbv beta iota.
    + exists a. split; [done|]. split; [by apply Encode_replied|]. split; [done|]. exact Hb.
    + right. exists a. split; [done|]. right. split; [exact Hq'|by rewrite ?Hw].
  - destruct He as [_ He]. right. exists a. split; [done|]. left. by split.
Qed.
End DirectFacts.

(** *** Results and node information *)

Section ReadFacts.
Context {W : Type} `{StorageI W ActionResponse, !StorageLaws W ActionResponse, Queue.NameLib, OpLib}.
Context `{SigningLib, !SigningLaws, TagLib, !Json ProxyActionResponse, !Encodes ProxyActionResponse}.

(** The parameters of a request for a result. *)
Definition result_params (r : Request) (id : Hash) (st : SubmissionTag) : Prop :=
  hashParam r "actionID" = Ok id /\
  exists form, ParseForm r = Ok form /\ submissionTagParam form = Ok st.

Lemma submissionTagParam_cases form :
  match submissionTagParam form with
  | Ok st => (form !! "submissionTag"%string = None /\ st = Threshold) \/
      (exists tag, form !! "submissionTag"%string = Some [tag] /\ st = tag_of tag /\ forall x, st <> OtherTag x)
  | Fail e => error_code e = 400
  | Panic => False
  end.
Proof.
  unfold submissionTagParam. destruct (form !! "submissionTag"%string) as [[|tag [|tag' l]]|]; [done| |done|by left].
  destruct (tag_of tag) eqn:Ht; [right; exists tag; by rewrite Ht..|done].
Qed.

Lemma hashParam_cases r p :
  match hashParam r p with Ok h => hash_ok h | Fail e => e = invalidParam | Panic => False end.
Proof.
  destruct (hashParam r p) as [h|e|] eqn:Hh; [by apply hashParam_iff in Hh as [? _]| |];
    unfold hashParam in Hh; set (s := CutPrefix (ToLower (PathValue r p)) "0x") in Hh;
    pose proof (hex_Decode_no_panic (String.list_ascii_of_string s)) as Hnp;
    unfold hex_DecodeString in Hh; destruct (hex_Decode _) as [b|e'|]; [| |done| | |done]; try case_decide; congruence.
Qed.

(** Results.  A reply is the response stored under the identifier and the tag of the
    request, the threshold tag by default, with a signature of the proxy over its
    result on the proxy's chain in place of any other.  Invalid parameters are answered
    with a 400.  With valid parameters, a response that the store does not have is
    answered with a 404.  Nothing that is stored changes. *)
Theorem resultH_serves privKey chainID now (s : @Results.Service W) r w :
  let '((s', w'), out) := resultH privKey chainID now s r w in
  same_contents now (Results.s (Results.rs s)) (Results.s (Results.rs s')) /\
  match out with
  | Ok _ => exists id st response sig, result_params r id st /\
      st_view (Results.s (Results.rs s)) now (Results.key_of id st) = Some response /\
      signed_by ProxyActionResult (Public privKey) chainID
        (Results.BytesToHash (ActionResult_Hash (Result response))) sig /\
      replied w w' (mkProxyResponse response sig)
  | Fail e =>
      (error_code e = 400 /\ forall id st, ~ result_params r id st) \/
      (exists id st, result_params r id st /\
        (e = errorf [Status.HTTP 404] \/ (Results.Serve s now id st).2 = Fail e \/
         exists response, st_view (Results.s (Results.rs s)) now (Results.key_of id st) = Some response))
  | Panic => False
  end /\
  (forall id st, result_params r id st -> st_view (Results.s (Results.rs s)) now (Results.key_of id st) = None ->
    exists e, out = Fail e).
Proof.
  assert (Hrefl : same_contents now (Results.s (Results.rs s)) (Results.s (Results.rs s))) by by intros ? ?.
  unfold resultH. destruct (ParseForm r) as [form|e|] eqn:Hf.
  2:{ split; [done|]. split; [left; split; [done|]|]; intros id st (_ & form & Hf' & _); congruence. }
  2:{ exfalso. unfold ParseForm in Hf. by destruct (forallb part_ok _). }
  pose proof (hashParam_cases r "actionID") as Hh.
  destruct (hashParam r "actionID") as [id|e|] eqn:Hid; [| |done].
  2:{ subst e. split; [done|]. split; [left; split; [done|]|]; intros id' st [Hid' _]; congruence. }
  pose proof (submissionTagParam_cases form) as Ht.
  destruct (submissionTagParam form) as [st|e|] eqn:Htag; [| |done].
  2:{ split; [done|]. split; [left; split; [done|]|]; intros id' st (_ & form' & Hf' & Ht'); congruence. }
  assert (Hpar : result_params r id st) by (split; [done|]; by exists form).
  assert (Huniq : forall id' st', result_params r id' st' -> id' = id /\ st' = st).
  { intros id' st' (Hid' & form' & Hf' & Ht'). rewrite Hf in Hf'. injection Hf' as <-. split; congruence. }
  unfold Results.Serve, Results.FetchResponse, Results.fetchByID.
  pose proof (st_Get_law (Results.s (Results.rs s)) now (Results.key_of id st)) as Hg.
  destruct (st_Get (Results.s (Results.rs s)) now (Results.key_of id st)) as [w1 [response|e|]] eqn:Hget;
    destruct Hg as (Hsame & Hnp & Hok & Hnf); [| |done].
  - specialize (Hok response eq_refl).
    assert (Hsome : forall id' st' (out : res unit), result_params r id' st' ->
      st_view (Results.s (Results.rs s)) now (Results.key_of id' st') = None -> exists e, out = Fail e).
    { intros id' st' out Hp Hn. destruct (Huniq _ _ Hp) as [-> ->]. congruence. }
    pose proof (proxy_Sign_no_panic ProxyActionResult privKey chainID
      (Results.BytesToHash (ActionResult_Hash (Result response)))) as Hsp.
    destruct (proxy_Sign _ _ _ _) as [sig|e|] eqn:Hsig; [| |done].
    + pose proof (Encode_no_panic w (mkProxyResponse response sig)) as Hep.
      destruct (Encode w (mkProxyResponse response sig)) as [w' [[]|e|]] eqn:He; [| |done];
        (split; [done|]; split; [|by eauto]).
      * exists id, st, response, sig. split; [done|]. split; [done|]. split; [by apply proxy_Sign_ok|by apply Encode_replied].
      * right. exists id, st. split; [done|]. right. right. by exists response.
    + split; [done|]. split; [|by eauto]. right. exists id, st. split; [done|]. right. right. by exists response.
  - destruct (errors_Is e "storage.ErrNotFound") eqn:Hn.
    + split; [done|]. split; [|by eauto]. right. exists id, st. split; [done|]. by left.
    + split; [done|]. split; [|by eauto]. right. exists id, st. split; [done|]. right. left.
      unfold Results.Serve, Results.FetchResponse, Results.fetchByID. by rewrite Hget, Hn.
Qed.
End ReadFacts.

Section InfoFacts.
Context `{RedisLib, Queue.NameLib, !Json Action, !Json Queue.ActionSubmissionID, Attestation.AttestationLib}.
Context `{SigningLib, !SigningLaws, !Json SignedTeeInfoResponse, !Encodes SignedTeeInfoResponse}.
Import Attestation.

(** Node information.  A reply is the latest information, with a signature of the
    proxy over its hash on the chain the information itself names; before there is any,
    the answer is a 503.  The handler changes nothing. *)
Theorem infoH_serves privKey (s : option Info.Service) r w :
  let '((s', w'), out) := infoH privKey s r w in
  s' = s /\
  match out with
  | Ok _ => exists info result h sig, s = Some info /\ Info.Latest info = Some result /\
      TeeInfo_Hash (teeInfo result) = Ok h /\
      signed_by ProxyTeeInfo (Public privKey) (ti_ChainID (teeInfo result)) (Hex.BytesToHash h) sig /\
      replied w w' (mkSignedTeeInfo result sig)
  | Fail e =>
      (s = None /\ error_code e = 500) \/
      (exists info, s = Some info /\ Info.Latest info = None /\ error_code e = 503) \/
      (exists info result, s = Some info /\ Info.Latest info = Some result)
  | Panic => exists info result, s = Some info /\ Info.Latest info = Some result /\ TeeInfo_Hash (teeInfo result) = Panic
  end.
Proof.
  unfold infoH. destruct s as [info|]; [|split; [done|]; by left].
  destruct (Info.Latest info) as [result|] eqn:Hl; [|split; [done|]; right; left; by exists info].
  assert (Hlast : exists info0 result0, Some info = Some info0 /\ Info.Latest info0 = Some result0) by by exists info, result.
  destruct (TeeInfo_Hash (teeInfo result)) as [h|e|] eqn:Hh; [|split; [done|]; right; by right|split; [done|]; by exists info, result].
  pose proof (proxy_Sign_no_panic ProxyTeeInfo privKey (ti_ChainID (teeInfo result)) (Hex.BytesToHash h)) as Hsp.
  destruct (proxy_Sign _ _ _ _) as [sig|e|] eqn:Hsig; [|split; [done|]; right; by right|done].
  pose proof (Encode_no_panic w (mkSignedTeeInfo result sig)) as Hep.
  destruct (Encode w (mkSignedTeeInfo result sig)) as [w' [[]|e|]] eqn:He; [|split; [done|]; right; by right|done].
  split; [done|]. exists info, result, h, sig. split_and!; try done; [by apply proxy_Sign_ok|by apply Encode_replied].
Qed.
End InfoFacts.

(** *** Bodies that are not decoded *)

Section BodyFacts.
Context `{OpLib, InstructionLib, CyclicLib, RedisLib, Queue.NameLib, !Json Action, !Json Queue.ActionSubmissionID}.
Context `{SigningLib, !Decoder Instruction, !Json SignedReceipt, !Json Queue.DirectInstruction, !Decoder Queue.DirectInstruction}.
Context `{ErrorText}.

Lemma prepared_bad_body {S : Type} order (f : handler S) n (s : S) r w :
  order ≡ₚ Status.http_codes -> w_sent w = None ->
  f s (if decide (0 <= n) then MaxBytesReader r n else r) (Header_Set w "Content-Type" "application/json") =
    ((s, Header_Set w "Content-Type" "application/json"), Fail ErrInvalidBody) ->
  reply_code (prepareHandler order f n s r w).1.2 = Some 400.
Proof.
  intros Ho Hw Hf. unfold prepareHandler. rewrite Hf. cbn [fst snd].
  rewrite handleError_is by (done || by vm_compute; lia). rewrite http_Error_code. unfold reply_code. cbn. by rewrite Hw.
Qed.

(** C39: bodies that are not decoded.  The instruction endpoint, and the direct endpoint
    after its check of the key, answer every failure to decode the body with a 400 and do
    nothing else, a body over the size limit included, for which the reader's own error
    is dropped; a null body passes the decoding and is a nil pointer, on which the
    handlers panic. *)
Theorem undecoded_bodies order mt c sent privKey chainID s q cfg now id n r w :
  order ≡ₚ Status.http_codes -> w_sent w = None -> 0 <= n ->
  APIKeyOptional cfg = true \/ Header_Get r "X-API-Key" = APIKey cfg ->
  let limited := mkBody (b_data (r_Body r)) (Some n) in
  let instructions := prepareHandler order (instructionH mt c sent privKey chainID) n s r w in
  let directs := prepareHandler order (directH cfg now id) n q r w in
  (forall e, (json_Decode limited : res (option Instruction)) = Fail e ->
    instructions.1.1 = s /\ instructions.2 = Ok tt /\ reply_code instructions.1.2 = Some 400) /\
  (forall e, (json_Decode limited : res (option Queue.DirectInstruction)) = Fail e ->
    directs.1.1 = q /\ directs.2 = Ok tt /\ reply_code directs.1.2 = Some 400) /\
  ((json_Decode limited : res (option Instruction)) = Ok None -> instructions.2 = Panic) /\
  ((json_Decode limited : res (option Queue.DirectInstruction)) = Ok None -> directs.2 = Panic).
Proof.
  intros Ho Hw Hn Hkey limited instructions directs.
  assert (Hlim : (if decide (0 <= n) then MaxBytesReader r n else r) = MaxBytesReader r n) by by rewrite decide_True.
  assert (Hv : (if APIKeyOptional cfg then Ok tt else verifyAPIKey cfg (MaxBytesReader r n)) = Ok tt)
    by by apply verifyAPIKey_ok.
  set (w1 := Header_Set w "Content-Type" "application/json").
  assert (Hi : forall e, (json_Decode limited : res (option Instruction)) = Fail e ->
    instructionH mt c sent privKey chainID s (MaxBytesReader r n) w1 = ((s, w1), Fail ErrInvalidBody)).
  { intros e He. unfold instructionH. cbn [r_Body MaxBytesReader]. fold limited. by rewrite He. }
  assert (Hd : forall e, (json_Decode limited : res (option Queue.DirectInstruction)) = Fail e ->
    directH cfg now id q (MaxBytesReader r n) w1 = ((q, w1), Fail ErrInvalidBody)).
  { intros e He. unfold directH. rewrite Hv. cbn [r_Body MaxBytesReader]. fold limited. by rewrite He. }
  split_and!.
  - intros e He. split_and!; [| |by apply prepared_bad_body; [done|done|]; rewrite Hlim; eapply Hi];
      unfold instructions, prepareHandler; rewrite Hlim; fold w1; by rewrite (Hi e He).
  - intros e He. split_and!; [| |by apply prepared_bad_body; [done|done|]; rewrite Hlim; eapply Hd];
      unfold directs, prepareHandler; rewrite Hlim; fold w1; by rewrite (Hd e He).
  - intros He. unfold instructions, prepareHandler, instructionH. rewrite Hlim. cbn [r_Body MaxBytesReader].
    fold limited. by rewrite He.
  - intros He. unfold directs, prepareHandler, directH. rewrite Hlim, Hv. cbn [r_Body MaxBytesReader].
    fold limited. by rewrite He.
Qed.
End BodyFacts.

(** ** Concrete requests *)

Module DemoExternal.
Import DemoRedis Queue.DemoQueue Results.DemoResults RedisImplements Handlers.DemoHandlers Receipts.DemoReceipts.
Import VotingProofs(DemoRun.clock, DemoRun.request).
#[local] Existing Instance Demo.instruction_lib.
#[local] Existing Instance Demo.op_lib.
#[local] Existing Instance Demo.instruction_laws.
#[local] Existing Instance Demo.instruction_hash_inj.
#[local] Existing Instance DemoCyclic.cyclic_lib.
#[local] Existing Instance DemoCyclic.cyclic_laws.

(** The empty body is null, one byte is a value, a longer body is not decoded. *)
Definition decode {T} (x : T) (b : Body) : res (option T) :=
  match b_data b with
  | [] => Ok None
  | d => if (match b_limit b with Some n => n <? zlen d | None => false end) then Fail MaxBytesError else Ok (Some x)
  end.
#[export] Instance instruction_decoder : Decoder Instruction := {| json_Decode := decode Instructions.DemoInstructions.instr |}.
#[export] Instance receipt_json : Json SignedReceipt :=
  {| json_Marshal x := Ok (sr_Signature x); json_Unmarshal d := Fail (errorf []) |}.
#[export] Instance receipt_encodes : Encodes SignedReceipt.
Proof. done. Qed.

Definition post (n : nat) : Request := mkRequest "POST /x" ∅ {[ "X-API-Key"%string := "secret"%string ]} "" (mkBody (repeat Byte.x01 n) None).
Definition w0 : ResponseWriter := new_writer [].

Lemma posted i : (json_Decode (r_Body (post 1)) : res (option Instruction)) = Ok (Some i) ->
  VotingProofs.request_ok (instruction_Data i) DemoRun.clock.
Proof. vm_compute. intros Heq. injection Heq as <-. exact DemoRun.request. Qed.

Lemma instructionH_receipt_witness :
  exists s' w' sr, instructionH DemoMeta.meta DemoRun.clock true key 16 Instructions.DemoInstructions.s1 (post 1) w0
      = ((s', w'), Ok tt) /\ RecoverPubKey sr 16 = Ok (Public key) /\ replied w0 w' sr.
Proof.
  pose proof (instructionH_receipt DemoMeta.meta DemoRun.clock true key 16 Instructions.DemoInstructions.s1 (post 1) w0
    Instructions.DemoInstructions.service_s1_reachable DemoMeta.meta_laws
    posted) as Hi.
  assert (Hok : is_ok (instructionH DemoMeta.meta DemoRun.clock true key 16 Instructions.DemoInstructions.s1 (post 1) w0).2
    = true) by (vm_compute; reflexivity).
  destruct (instructionH _ _ _ _ _ _ _ _) as [[s' w'] [[]|e|]]; [|discriminate Hok..].
  destruct Hi as (i & receipt & sr & _ & _ & _ & Hr & Hw). exists s', w', sr. split; [reflexivity|]. by split.
Defined.


(** *** A direct instruction, once with and once without its key *)

#[export] Instance direct_json : Json Queue.DirectInstruction :=
  {| json_Marshal i := Ok (Queue.di_Message i); json_Unmarshal d := Fail (errorf []) |}.
#[export] Instance direct_encodes : Encodes Queue.DirectInstruction.
Proof. done. Qed.
#[export] Instance direct_decoder : Decoder Queue.DirectInstruction :=
  {| json_Decode := decode (Queue.mkDirect 1000 2 [Byte.x05]) |}.
Definition cfg : DirectConfig := mkDirectConfig true "secret" false 0.

Lemma directH_admission_witness :
  (exists q' w' a, directH cfg 0 (Ok 9%N) empty (post 1) w0 = ((q', w'), Ok tt) /\
    Queue.queues_of (Queue.client q') (Queue.upd (fun _ => []) Queue.Direct
      [Queue.mkSubmissionID (ad_ID (action_Data a)) Submit 0]) /\ replied w0 w' a) /\
  (directH (mkDirectConfig true "other" false 0) 0 (Ok 9%N) empty (post 1) w0).2 = Fail errUnauthorized.
Proof.
  split; [|reflexivity].
  pose proof (directH_admission cfg 0 (Ok 9%N) empty (post 1) w0 _ empty_queues) as Hd.
  assert (Hok : is_ok (directH cfg 0 (Ok 9%N) empty (post 1) w0).2 = true) by (vm_compute; reflexivity).
  destruct (directH _ _ _ _ _ _) as [[q' w'] [[]|e|]]; [|discriminate Hok..].
  destruct Hd as (a & _ & Hw & Hq & _). exists q', w', a. split; [reflexivity|]. by split.
Defined.

(** *** A result, by the default tag and by a tag in the query *)

#[export] Instance results_store : StorageI redis ActionResponse := redis_storage "results".
#[export] Instance results_laws : StorageLaws redis ActionResponse := redis_storage_laws "results".
#[export] Instance tags : TagLib := {|
  tag_of s := if decide (s = "threshold") then Threshold else if decide (s = "end") then End
              else if decide (s = "submit") then Submit else OtherTag s
|}%string.
#[export] Instance response_json : Json ProxyActionResponse :=
  {| json_Marshal x := Ok (pr_ProxySignature x); json_Unmarshal d := Fail (errorf []) |}.
#[export] Instance response_encodes : Encodes ProxyActionResponse.
Proof. done. Qed.

Definition results : @Results.Service redis := Results.NewService Results.DemoResults.store1 16.
Definition get (query : string) : Request :=
  mkRequest "GET /x" {[ "actionID"%string := hex_EncodeToString (hash_bytes 1%N) ]} ∅ query (mkBody [] None).

Example tag_in_query : submissionTagParam <$> ParseForm (get "a=b&submissionTag=%73ubmit") = Ok (Ok Submit).
Proof. vm_compute. reflexivity. Qed.
Example tag_by_default : submissionTagParam <$> ParseForm (get "") = Ok (Ok Threshold).
Proof. vm_compute. reflexivity. Qed.
Example semicolon : is_ok (ParseForm (get "a;b")) = false.
Proof. vm_compute. reflexivity. Qed.

Lemma resultH_serves_witness :
  exists s' w' response sig, resultH key 16 50 results (get "submissionTag=submit") w0 = ((s', w'), Ok tt) /\
    signed_by ProxyActionResult (Public key) 16 (Results.BytesToHash (ActionResult_Hash (Result response))) sig.
Proof.
  pose proof (resultH_serves key 16 50 results (get "submissionTag=submit") w0) as Hr.
  assert (Hok : is_ok (resultH key 16 50 results (get "submissionTag=submit") w0).2 = true) by (vm_compute; reflexivity).
  destruct (resultH _ _ _ _ _ _) as [[s' w'] [[]|e|]]; [|discriminate Hok..].
  destruct Hr as (_ & (id & st & response & sig & _ & _ & Hs & _) & _). exists s', w', response, sig. by split.
Defined.

(** *** Node information *)

#[export] Instance info_json : Json SignedTeeInfoResponse :=
  {| json_Marshal x := Ok (st_ProxySignature x); json_Unmarshal d := Fail (errorf []) |}.
#[export] Instance info_encodes : Encodes SignedTeeInfoResponse.
Proof. done. Qed.
#[local] Existing Instance Attestation.DemoAttestation.lib.
Definition node (latest : option Attestation.TeeInfoResponse) : option Info.Service :=
  Some (Info.mkService latest 0 None empty Info.DemoInfo.timing None []).

Lemma infoH_serves_witness :
  (infoH key (node (Some Attestation.DemoAttestation.tir)) (get "") w0).2 = Ok tt /\
  exists e, (infoH key (node None) (get "") w0).2 = Fail e /\ error_code e = 503.
Proof.
  split; [reflexivity|].
  pose proof (infoH_serves key (node None) (get "") w0) as Hi.
  destruct (infoH key (node None) (get "") w0) as [[s' w'] [[]|e|]].
  - exfalso. destruct Hi as (_ & info & result & h & sig & [= <-] & Hl & _). discriminate.
  - exists e. split; [reflexivity|]. destruct Hi as (_ & [[? _]|[(info & _ & _ & He)|(info & result & [= <-] & Hl)]]);
      [discriminate|exact He|discriminate].
  - exfalso. destruct Hi as (_ & info & result & [= <-] & Hl & _). discriminate.
Defined.

(** *** A body over the limit, and a null body *)

Lemma undecoded_bodies_witness :
  reply_code (prepareHandler Status.http_codes (instructionH DemoMeta.meta DemoRun.clock true key 16) 2
    Instructions.DemoInstructions.s1 (post 3) w0).1.2 = Some 400 /\
  (prepareHandler Status.http_codes (directH cfg 0 (Ok 9%N)) 2 empty (post 0) w0).2 = Panic.
Proof.
  assert (Hz : 0 <= 2) by lia. split.
  - destruct (undecoded_bodies Status.http_codes DemoMeta.meta DemoRun.clock true key 16
      Instructions.DemoInstructions.s1 empty cfg 0 (Ok 9%N) 2 (post 3) w0 (Permutation_refl _) eq_refl Hz (or_intror eq_refl))
      as (Hi & _). apply (Hi MaxBytesError). reflexivity.
  - destruct (undecoded_bodies Status.http_codes DemoMeta.meta DemoRun.clock true key 16
      Instructions.DemoInstructions.s1 empty cfg 0 (Ok 9%N) 2 (post 0) w0 (Permutation_refl _) eq_refl Hz (or_intror eq_refl))
      as (_ & _ & _ & Hd). apply Hd. reflexivity.
Defined.
End DemoExternal.
End External.
