(* ===== verification/Servers.v ===== *)
(** The two HTTP servers as wholes: how [registerRoutes] and the constructors of
    [internal/server/external.go] and [internal/server/internal.go] put the handlers behind
    the multiplexer of the standard library (net/http), and what becomes of any request. *)

From Stdlib Require Import Ascii.
From S2P Require Import Prelude Hex Status Types Cyclic Config VotingData VotingStorage VotingProofs Redis Queue Results.
From S2P Require Import Wallets Backups Meta Instructions Attestation Info Liveness Receipts Handlers Internal External.

Open Scope Z_scope.

(** ** The multiplexer of net/http *)

Module ServeMux.
Import Handlers.

(** A pattern is a method and the segments of a path, each a literal or a wildcard that
    matches one segment.  The source uses no host, no multi-segment wildcard and no
    trailing slash. *)
Inductive segment : Type := Lit (s : string) | Wild (name : string).
#[export] Instance segment_eq_dec : EqDecision segment.
Proof. solve_decision. Defined.
Record pattern : Type := mkPattern { pt_str : string; pt_method : string; pt_segments : list segment }.

Definition names (segs : list segment) : list string := omap (fun s => match s with Wild n => Some n | Lit _ => None end) segs.

(** [strings.Split] at a character. *)
Fixpoint Split (c : Ascii.ascii) (l : list Ascii.ascii) : list (list Ascii.ascii) :=
  match l with
  | [] => [[]]
  | x :: l =>
      if decide (x = c) then [] :: Split c l
      else match Split c l with p :: ps => (x :: p) :: ps | [] => [[x]] end
  end.

Definition is_brace (c : Ascii.ascii) : bool := bool_decide (c = "{"%char \/ c = "}"%char).

(** A segment in braces is a wildcard; braces stand nowhere else. *)
Definition parse_segment (l : list Ascii.ascii) : option segment :=
  match l with
  | [] => None
  | c :: l' =>
      if decide (c = "{"%char) then
        match reverse l' with
        | d :: name =>
            if decide (d = "}"%char /\ name <> [] /\ forallb (fun c => negb (is_brace c)) name = true)
            then Some (Wild (String.string_of_list_ascii (reverse name))) else None
        | [] => None
        end
      else if forallb (fun c => negb (is_brace c)) l then Some (Lit (String.string_of_list_ascii l)) else None
  end.

(** [parsePattern]: the method, one space, and the path. *)
Definition parsePattern (s : string) : option pattern :=
  let '(method, path) := External.cut " "%char (String.list_ascii_of_string s) in
  match path with
  | c :: path =>
      if decide (c = "/"%char /\ method <> []) then
        segs ← mapM parse_segment (Split "/"%char path);
        if decide (NoDup (names segs)) then Some (mkPattern s (String.string_of_list_ascii method) segs) else None
      else None
  | [] => None
  end.

(** How the requests that two patterns match compare. *)
Inductive relationship : Type := equivalent | moreGeneral | moreSpecific | disjoint | overlaps.

Definition combine (a b : relationship) : relationship :=
  match a, b with
  | equivalent, r | r, equivalent => r
  | disjoint, _ | _, disjoint => disjoint
  | moreGeneral, moreGeneral => moreGeneral
  | moreSpecific, moreSpecific => moreSpecific
  | _, _ => overlaps
  end.
Definition compare_segments (a b : segment) : relationship :=
  match a, b with
  | Lit s, Lit t => if decide (s = t) then equivalent else disjoint
  | Wild _, Wild _ => equivalent
  | Wild _, Lit _ => moreGeneral
  | Lit _, Wild _ => moreSpecific
  end.
Fixpoint compare_paths (a b : list segment) : relationship :=
  match a, b with
  | [], [] => equivalent
  | x :: a, y :: b => combine (compare_segments x y) (compare_paths a b)
  | _, _ => disjoint
  end.
(** A pattern for GET also matches HEAD. *)
Definition compare_methods (a b : string) : relationship :=
  if decide (a = b) then equivalent
  else if decide (a = "GET" /\ b = "HEAD") then moreGeneral
  else if decide (b = "GET" /\ a = "HEAD") then moreSpecific
  else disjoint.
Definition conflictsWith (p q : pattern) : bool :=
  match combine (compare_methods (pt_method p) (pt_method q)) (compare_paths (pt_segments p) (pt_segments q)) with
  | equivalent | overlaps => true
  | _ => false
  end.

Section Mux.
Context {H : Type}.

(** The registered patterns with their handlers. *)
Definition ServeMux : Type := list (pattern * H).
Definition NewServeMux : ServeMux := [].

(** [HandleFunc] panics on a pattern that it cannot parse or that conflicts with one that is
    registered. *)
Definition HandleFunc (m : res ServeMux) (s : string) (h : H) : res ServeMux :=
  m ← m;
  match parsePattern s with
  | None => Panic
  | Some p => if existsb (fun e => conflictsWith p e.1) m then Panic else Ok (m ++ [(p, h)])
  end.

(** The tree of the registered patterns below one method, as the list of their remaining
    segments.  [path] are the unescaped segments of the cleaned path, a trailing slash
    being a segment "/"; [matches] what the wildcards have matched. *)
Definition node : Type := list (list segment * (pattern * H)).

Definition findChild (n : node) (seg : string) : node :=
  omap (fun e => match e.1 with Lit s :: rest => if decide (s = seg) then Some (rest, e.2) else None | _ => None end) n.
Definition emptyChild (n : node) : node :=
  omap (fun e => match e.1 with Wild _ :: rest => Some (rest, e.2) | _ => None end) n.
Definition leaves (n : node) : list (pattern * H) := omap (fun e => match e.1 with [] => Some e.2 | _ => None end) n.
Definition leaf (n : node) : option (pattern * H) := head (leaves n).

(** A literal is tried before a wildcard. *)
Fixpoint matchPath (n : node) (path matches : list string) : option ((pattern * H) * list string) :=
  match path with
  | [] => l ← leaf n; Some (l, matches)
  | seg :: rest =>
      match matchPath (findChild n seg) rest matches with
      | Some r => Some r
      | None => if decide (seg = "/") then None else matchPath (emptyChild n) rest (matches ++ [seg])
      end
  end.

Definition method_child (m : ServeMux) (method : string) : node :=
  omap (fun e => if decide (pt_method e.1 = method) then Some (pt_segments e.1, e) else None) m.

(** GET matches HEAD too. *)
Definition matchMethodAndPath (m : ServeMux) (method : string) (path : list string) : option ((pattern * H) * list string) :=
  match matchPath (method_child m method) path [] with
  | Some r => Some r
  | None => if decide (method = "HEAD") then matchPath (method_child m "GET") path [] else None
  end.

(** The methods under which the path is known, in order, of those that the source uses. *)
Definition matchingMethods (m : ServeMux) (path : list string) : list string :=
  filter (fun method => is_Some (matchMethodAndPath m method path)) ["GET"; "HEAD"; "POST"].

(** A request as the connection delivers it, its path cleaned and unescaped: a request with
    another path is redirected to the cleaned one. *)
Record Arrival : Type := mkArrival {
  rq_method : string;
  rq_path : list string;
  rq_header : gmap string string;
  rq_query : string;
  rq_body : bytes
}.

(** [mux.findHandler]: the request with its pattern and path values; [inr] the methods
    that are allowed, none for a path that is not known. *)
Definition findHandler (m : ServeMux) (a : Arrival) : Request * (H + list string) :=
  let request pat params := mkRequest pat params (rq_header a) (rq_query a) (mkBody (rq_body a) None) in
  match matchMethodAndPath m (rq_method a) (rq_path a) with
  | Some ((p, h), matches) => (request (pt_str p) (list_to_map (zip (names (pt_segments p)) matches)), inl h)
  | None => (request "" ∅, inr (matchingMethods m (rq_path a)))
  end.

(** The replies of the multiplexer itself. *)
Definition NotFound (w : ResponseWriter) : ResponseWriter := http_Error w "404 page not found" 404.
Definition MethodNotAllowed (allowed : list string) (w : ResponseWriter) : ResponseWriter :=
  http_Error (Header_Set w "Allow" (String.concat ", " allowed)) "Method Not Allowed" 405.
Definition unrouted (allowed : list string) (w : ResponseWriter) : ResponseWriter :=
  if decide (allowed = []) then NotFound w else MethodNotAllowed allowed w.
End Mux.
Arguments ServeMux : clear implicits.

(** The multiplexer as a handler behind [instrumentHTTP]: it sets the pattern and the path
    values in the request that [instrumentHTTP] reads afterwards. *)
Definition ServeHTTP {H S} (m : ServeMux H) (serve : H -> handler S) (enabled : bool) (server : string)
    (a : Arrival) (s : S * list HTTPEvent) (w : ResponseWriter) : ((S * list HTTPEvent) * ResponseWriter) * res unit :=
  let '(r, h) := findHandler m a in
  let next := match h with
              | inl h => serve h
              | inr allowed => fun s r w => ((s, unrouted allowed w), Ok tt)
              end in
  instrumentHTTP enabled server next s r w.

(** A handler of one part of the server's state. *)
Definition focus {S A} (get : S -> A) (put : A -> S -> S) (h : handler A) : handler S := fun s r w =>
  let '((a, w), out) := h (get s) r w in ((put a s, w), out).

(** ** What the multiplexer finds *)

(** A path that the segments of a pattern match, and what its wildcards capture. *)
Definition accepts (segs : list segment) (path : list string) : Prop :=
  Forall2 (fun s x => match s with Lit l => x = l | Wild _ => x <> "/"%string end) segs path.
Fixpoint captured (segs : list segment) (path : list string) : list string :=
  match segs, path with
  | Wild _ :: segs, x :: path => x :: captured segs path
  | Lit _ :: segs, _ :: path => captured segs path
  | _, _ => []
  end.
Definition method_ok (pattern_method method : string) : Prop :=
  method = pattern_method \/ (pattern_method = "GET" /\ method = "HEAD").

Lemma elem_of_findChild {H} (n : @node H) seg rest v :
  (rest, v) ∈ findChild n seg <-> (Lit seg :: rest, v) ∈ n.
Proof.
  unfold findChild. rewrite list_elem_of_omap. split.
  - intros ([[|[s|s] l] y] & Hin & Hx); cbn in Hx; try done. case_decide; naive_solver.
  - intros Hin. exists (Lit seg :: rest, v). split; [done|]. cbn. by rewrite decide_True.
Qed.
Lemma elem_of_emptyChild {H} (n : @node H) rest v :
  (rest, v) ∈ emptyChild n <-> exists name, (Wild name :: rest, v) ∈ n.
Proof.
  unfold emptyChild. rewrite list_elem_of_omap. split.
  - intros ([[|[s|s] l] y] & Hin & Hx); cbn in Hx; try done. injection Hx as -> ->. by exists s.
  - intros [name Hin]. by exists (Wild name :: rest, v).
Qed.
Lemma elem_of_leaves {H} (n : @node H) v : v ∈ leaves n <-> ([], v) ∈ n.
Proof.
  unfold leaves. rewrite list_elem_of_omap. split.
  - intros ([[|] y] & Hin & Hx); [|done]. by injection Hx as ->.
  - intros Hin. by exists ([], v).
Qed.
Lemma leaf_elem {H} (n : @node H) v : leaf n = Some v -> ([], v) ∈ n.
Proof. rewrite <- elem_of_leaves. unfold leaf. destruct (leaves n); [done|]. intros [= ->]. by left. Qed.
Lemma leaf_some {H} (n : @node H) v : ([], v) ∈ n -> is_Some (leaf n).
Proof. rewrite <- elem_of_leaves. unfold leaf. destruct (leaves n); [by intros ?%not_elem_of_nil|by eexists]. Qed.

Lemma matchPath_sound {H} (n : @node H) path ms v out :
  matchPath n path ms = Some (v, out) ->
  exists segs, (segs, v) ∈ n /\ accepts segs path /\ out = ms ++ captured segs path.
Proof.
  revert n ms. induction path as [|x path IH]; intros n ms; cbn [matchPath].
  - destruct (leaf n) as [u|] eqn:Hl; [|done]. intros [= -> ->]. exists []. split_and!; [by apply leaf_elem|constructor|by rewrite app_nil_r].
  - destruct (matchPath (findChild n x) path ms) as [r|] eqn:Hc.
    + intros [= ->]. apply IH in Hc as (segs & Hin & Ha & ->). apply elem_of_findChild in Hin.
      exists (Lit x :: segs). split_and!; [done|by constructor|done].
    + case_decide as Hx; [done|]. intros (segs & Hin & Ha & ->)%IH. apply elem_of_emptyChild in Hin as [name Hin].
      exists (Wild name :: segs). split_and!; [done|by constructor|]. by rewrite <- app_assoc.
Qed.
Lemma matchPath_complete {H} (n : @node H) segs v path ms :
  (segs, v) ∈ n -> accepts segs path -> is_Some (matchPath n path ms).
Proof.
  intros Hin Ha. revert n ms Hin. induction Ha as [|s x segs path Hs Ha IH]; intros n ms Hin; cbn [matchPath].
  - destruct (leaf_some _ _ Hin) as [u ->]. by eexists.
  - destruct (matchPath (findChild n x) path ms) as [r|] eqn:Hc; [by eexists|].
    destruct s as [l|name].
    + subst x. apply elem_of_findChild in Hin. destruct (IH _ ms Hin) as [? ?]. congruence.
    + rewrite decide_False by done. apply IH, elem_of_emptyChild. by exists name.
Qed.

Lemma combine_disjoint a b : combine a b = disjoint -> a = disjoint \/ b = disjoint.
Proof. by destruct a, b; auto. Qed.
Lemma disjoint_paths a b path : compare_paths a b = disjoint -> accepts a path -> ~ accepts b path.
Proof.
  revert b path. induction a as [|s a IH]; intros [|s' b] path Hd Ha Hb; inversion Ha; subst; inversion Hb; subst; try done.
  cbn in Hd. apply combine_disjoint in Hd as [Hd|Hd]; [|by eapply IH].
  destruct s, s'; cbn in *; try done. case_decide; congruence.
Qed.

(** Patterns that no request matches both of. *)
Definition apart (p q : pattern) : bool :=
  match combine (compare_methods (pt_method p) (pt_method q)) (compare_paths (pt_segments p) (pt_segments q)) with
  | disjoint => true
  | _ => false
  end.

Section Routes.
Context {E H : Type} `{EqDecision E} (template : E -> pattern) (val : E -> H) (es : list E).

Definition routes : ServeMux H := (fun e => (template e, val e)) <$> es.
Definition asks (a : Arrival) (e : E) : Prop :=
  e ∈ es /\ method_ok (pt_method (template e)) (rq_method a) /\ accepts (pt_segments (template e)) (rq_path a).
Definition known (a : Arrival) : Prop := exists e, e ∈ es /\ accepts (pt_segments (template e)) (rq_path a).

(** The request as the handler of an endpoint gets it. *)
Definition arrives (a : Arrival) (e : E) : Request :=
  let segs := pt_segments (template e) in
  mkRequest (pt_str (template e)) (list_to_map (zip (names segs) (captured segs (rq_path a)))) (rq_header a) (rq_query a)
    (mkBody (rq_body a) None).

Hypothesis routes_apart : forall e e', e ∈ es -> e' ∈ es -> e <> e' -> apart (template e) (template e') = true.
Hypothesis routes_methods : forall e, e ∈ es -> pt_method (template e) ∈ ["GET"; "POST"]%string.

Lemma asked_once a e e' : asks a e -> asks a e' -> e = e'.
Proof.
  intros (Hin & Hm & Ha) (Hin' & Hm' & Ha'). destruct (decide (e = e')) as [|Hne]; [done|exfalso].
  pose proof (routes_apart _ _ Hin Hin' Hne) as Hp. unfold apart in Hp.
  destruct (combine _ _) eqn:Hd; try done. apply combine_disjoint in Hd as [Hd|Hd]; [|by eapply disjoint_paths].
  unfold compare_methods in Hd. destruct Hm as [Hm|[Hm ?]], Hm' as [Hm'|[Hm' ?]];
    repeat case_decide; try done; naive_solver congruence.
Qed.

Lemma elem_of_method_child method segs v :
  (segs, v) ∈ method_child routes method <->
  exists e, e ∈ es /\ pt_method (template e) = method /\ segs = pt_segments (template e) /\ v = (template e, val e).
Proof.
  unfold method_child, routes. rewrite list_elem_of_omap. split.
  - intros (x & (e & -> & He)%list_elem_of_fmap & Hx). cbn in Hx. case_decide; naive_solver.
  - intros (e & He & Hm & -> & ->). exists (template e, val e). split; [by apply list_elem_of_fmap_2 with (f := fun e => (template e, val e))|].
    cbn. by rewrite decide_True.
Qed.

Lemma found_asks a v out :
  matchMethodAndPath routes (rq_method a) (rq_path a) = Some (v, out) ->
  exists e, asks a e /\ v = (template e, val e) /\ out = captured (pt_segments (template e)) (rq_path a).
Proof.
  unfold matchMethodAndPath. destruct (matchPath _ _ _) as [r|] eqn:Hm; [intros [= ->]|case_decide as Hh; [|done]; intros Hm'; clear Hm; rename Hm' into Hm];
    apply matchPath_sound in Hm as (segs & Hin & Ha & ->); apply elem_of_method_child in Hin as (e & He & Hme & -> & ->);
    exists e; (split; [|done]); (split_and!; [done| |done]); unfold method_ok; auto.
Qed.
Lemma asks_found a e : asks a e -> is_Some (matchMethodAndPath routes (rq_method a) (rq_path a)).
Proof.
  intros (He & Hm & Ha). unfold matchMethodAndPath.
  destruct (matchPath (method_child routes (rq_method a)) (rq_path a) []) as [r|] eqn:Hr; [by eexists|].
  assert (Hin : (pt_segments (template e), (template e, val e)) ∈ method_child routes (pt_method (template e)))
    by (apply elem_of_method_child; by exists e).
  destruct Hm as [Hm|[Hm Hh]].
  - rewrite <- Hm in Hin. destruct (matchPath_complete _ _ _ _ [] Hin Ha). congruence.
  - rewrite decide_True by done. rewrite Hm in Hin. by eapply matchPath_complete.
Qed.

Lemma asked_or_not a : (exists e, asks a e) \/ (forall e, ~ asks a e).
Proof.
  destruct (matchMethodAndPath routes (rq_method a) (rq_path a)) as [[v out]|] eqn:Hm.
  - left. destruct (found_asks _ _ _ Hm) as (e & He & _). by exists e.
  - right. intros e He. destruct (asks_found _ _ He). congruence.
Qed.

(** A request that asks for an endpoint gets its handler. *)
Lemma findHandler_asked a e : asks a e -> findHandler routes a = (arrives a e, inl (val e)).
Proof.
  intros Ha. unfold findHandler. destruct (asks_found _ _ Ha) as [[v out] Hf]. rewrite Hf.
  destruct (found_asks _ _ _ Hf) as (e' & Ha' & -> & ->). by rewrite (asked_once _ _ _ Ha Ha').
Qed.

Lemma matchingMethods_known a : matchingMethods routes (rq_path a) <> [] <-> known a.
Proof.
  assert (Hin : forall m, m ∈ matchingMethods routes (rq_path a) <->
      is_Some (matchMethodAndPath routes m (rq_path a)) /\ m ∈ ["GET"; "HEAD"; "POST"]%string)
    by (intros m; unfold matchingMethods; by rewrite list_elem_of_filter).
  split.
  - intros Hn. destruct (matchingMethods _ _) as [|m l]; [done|].
    destruct (proj1 (Hin m) ltac:(by left)) as [[[v out] Hm] _].
    destruct (found_asks (mkArrival m (rq_path a) ∅ "" []) v out Hm) as (e & (He & _ & Ha) & _). by exists e.
  - intros (e & He & Ha) Hn. rewrite Hn in Hin. apply (not_elem_of_nil (pt_method (template e))), Hin. split.
    + apply (asks_found (mkArrival (pt_method (template e)) (rq_path a) ∅ "" []) e). split_and!; [done|by left|done].
    + clear routes_apart. pose proof (routes_methods e He). set_solver.
Qed.

(** Every other request is answered by the multiplexer. *)
Lemma findHandler_unasked a :
  (forall e, ~ asks a e) ->
  exists allowed, findHandler routes a = (mkRequest "" ∅ (rq_header a) (rq_query a) (mkBody (rq_body a) None), inr allowed) /\
    (allowed <> [] <-> known a).
Proof.
  intros Hn. unfold findHandler. destruct (matchMethodAndPath routes (rq_method a) (rq_path a)) as [[v out]|] eqn:Hm.
  - destruct (found_asks _ _ _ Hm) as (e & Ha & _). by destruct (Hn e).
  - eexists. split; [done|]. apply matchingMethods_known.
Qed.
End Routes.
End ServeMux.

Module HttpServers.
Import Handlers ServeMux Receipts.
Import Results(ActionResponse, SignerLib).

(** [http.Server]; net/http enforces the timeouts. *)
Record Server (H : Type) : Type := mkServer {
  Addr : string;
  ReadTimeout : Z;
  ReadHeaderTimeout : Z;
  WriteTimeout : Z;
  IdleTimeout : Z;
  MaxHeaderBytes : Z;
  mux : ServeMux H
}.
Arguments mkServer {H}.
Arguments mux {H}.

(** ** The external server *)

(** The routes with their handlers: the endpoint and the limit on its bodies. *)
Definition register {H} (routes : list (string * H)) : res (ServeMux H) :=
  foldl (fun m e => HandleFunc m e.1 e.2) (Ok NewServeMux) routes.

Definition NewExternal (port : string) (direct : External.DirectConfig) : res (Server (External.endpoint * Z)) :=
  mux ← register (External.registerRoutes direct (External.Enable direct));
  Ok (mkServer (":" +:+ port) (10 * second) (2 * second) (15 * second) (60 * second) External.maxHeaderBytes mux).

Section ExternalServer.
Context `{OpLib, InstructionLib, CyclicLib, RedisLib, Queue.NameLib, !Json Action, !Json Queue.ActionSubmissionID}.
Context `{SigningLib, !Decoder Instruction, !Json SignedReceipt, !Json VotingData.Statuses, !Json Queue.DirectInstruction}.
Context `{!Decoder Queue.DirectInstruction, External.TagLib, Attestation.AttestationLib, ErrorText}.
Context {W : Type} `{StorageI W ActionResponse, !Json External.ProxyActionResponse, !Json External.SignedTeeInfoResponse}.
Context `{!Json Wallets.WalletsInfoResponse, !Json Wallets.KeyData}.
Context {WI WB : Type} `{Backups.BackupLib, StorageI WI Hash, StorageI WB Backups.TEEBackupResponse}.
Context `{!Json (option Backups.TEEBackupResponse), !Json Backups.TEEBackupResponse}.

(** The services behind the server.  Its action queues are those of the instruction
    service. *)
Record Services : Type := mkServices {
  instructionService : Instructions.Service;
  resultService : @Results.Service W;
  teeInfo : option Info.Service;
  wallet : Wallets.Cache;
  stores : @Backups.Stores WI WB
}.

Definition actionQueues (s : Services) : Queue.ActionQueues := Instructions.aq (instructionService s).
Definition set_instruction (i : Instructions.Service) (s : Services) : Services :=
  mkServices i (resultService s) (teeInfo s) (wallet s) (stores s).
Definition set_queues (q : Queue.ActionQueues) (s : Services) : Services :=
  let i := instructionService s in
  set_instruction (Instructions.mkService (Instructions.teeID i) (Instructions.chainID i) (Instructions.vs i) q
    (Instructions.forwarded i) (Instructions.ievents i)) s.
Definition set_results (r : @Results.Service W) (s : Services) : Services :=
  mkServices (instructionService s) r (teeInfo s) (wallet s) (stores s).
Definition set_info (i : option Info.Service) (s : Services) : Services :=
  mkServices (instructionService s) (resultService s) i (wallet s) (stores s).
Definition set_wallet (c : Wallets.Cache) (s : Services) : Services :=
  mkServices (instructionService s) (resultService s) (teeInfo s) c (stores s).
Definition set_stores (b : @Backups.Stores WI WB) (s : Services) : Services :=
  mkServices (instructionService s) (resultService s) (teeInfo s) (wallet s) b.

(** What a request meets: the clock, the times of storage accesses, the random identifier of
    a direct action, whether a full channel took the voting's actions, and the iteration
    order of the table of status errors. *)
Record Moment : Type := mkMoment {
  clock : VotingStorage.Clock;
  sent : bool;
  now : Z;
  later : Z;
  random : res Hash;
  order : list Z
}.

Context (mt : VotingData.Meta) (privKey : PrivateKey) (chainID : Z) (direct : External.DirectConfig).

(** The handler of each endpoint. *)
Definition endpointH (t : Moment) (e : External.endpoint) : handler Services :=
  match e with
  | External.instruction => focus instructionService set_instruction (External.instructionH mt (clock t) (sent t) privKey chainID)
  | External.action_result => focus resultService set_results (External.resultH privKey chainID (now t))
  | External.action_status => focus instructionService set_instruction External.statusH
  | External.tee_info => focus teeInfo set_info (External.infoH privKey)
  | External.wallet_info => focus wallet set_wallet External.walletInfoH
  | External.wallet => focus wallet set_wallet External.walletH
  | External.backup => focus stores set_stores (External.backupH (now t))
  | External.backup_latest => focus stores set_stores (External.backupLatestH (now t) (later t))
  | External.direct => focus actionQueues set_queues (External.directH direct (now t) (random t))
  end.

(** One request to the external server. *)
Definition serve_external (srv : Server (External.endpoint * Z)) (httpMetrics : bool) (t : Moment) (a : Arrival)
    (s : Services * list HTTPEvent) (w : ResponseWriter) : ((Services * list HTTPEvent) * ResponseWriter) * res unit :=
  ServeHTTP (mux srv) (fun '(e, limit) => prepareHandler (order t) (endpointH t e) limit) httpMetrics "external" a s w.
End ExternalServer.

(** ** The internal server *)

Inductive internal_endpoint : Type := result | queue | healthy | startup | ready | metrics.

(** The last component is the limit on the bodies of a prepared handler. *)
Definition internal_routes (metricsEnabled : bool) : list (string * (internal_endpoint * option Z)) :=
  [("POST /result", (result, Some Internal.maxResultBodySize));
   ("POST /queue/{queueID}", (queue, Some noBody));
   ("GET /healthy", (healthy, None));
   ("GET /startup", (startup, None));
   ("GET /ready", (ready, None))] ++
  (if metricsEnabled then [("GET /metrics", (metrics, None))] else [])%string.

Definition NewInternal (port : string) (metricsEnabled : bool) : res (Server (internal_endpoint * option Z)) :=
  mux ← register (internal_routes metricsEnabled);
  Ok (mkServer (":" +:+ port) (10 * second) (2 * second) (15 * second) (60 * second) (16 * 1024) mux).

Section InternalServer.
Context `{RedisLib, Queue.NameLib, !Json Action, !Json Queue.ActionSubmissionID, Internal.QueueIDLib}.
Context {W : Type} `{StorageI W ActionResponse, OpLib, SignerLib, !Decoder ActionResponse, !Json Queue.DirectInstruction}.
Context `{Info.InfoLib, Attestation.AttestationLib, !Json Attestation.TeeInfoResponse, ErrorText}.

(** The server and the liveness component, whose result service is the server's. *)
Record System : Type := mkSystem {
  internal : @Internal.Internal _ W;
  live : @Liveness.liveness W _ _
}.
Definition set_internal (i : @Internal.Internal _ W) (s : System) : System := mkSystem i (live s).
Definition liveness_of (s : System) : @Liveness.liveness W _ _ :=
  Liveness.mkLiveness (Liveness.startUpFinished (live s)) (Liveness.info (live s))
    ((fun _ => Internal.resultService (internal s)) <$> Liveness.result (live s)) (Liveness.ready (live s)).
Definition set_live (l : @Liveness.liveness W _ _) (s : System) : System := mkSystem (internal s) l.

(** What a request meets: the time, the context before and after an action is taken, the
    answers of Redis and of the indexer to a readiness check, and the depth gauges that are
    registered, in the order a scrape reads them (none without the metrics of the queues,
    else [Queue.depth_gauges] in some order). *)
Record InternalMoment : Type := mkInternalMoment {
  i_now : Z;
  cancelled : option error;
  gone : option error;
  ping : res unit;
  delay : res unit;
  i_order : list Z;
  i_gauges : list Queue.QueueID
}.

(** [promhttp] is the exposition of the registry by its library.  It runs the functions of
    the registered gauges first: those of the queues read Redis and count their failures;
    the others (voting, wallets, delays, attestation) read fields and change nothing, and
    their values are part of this parameter. *)
Context (promhttp : list (Queue.QueueID * Z) -> Request -> ResponseWriter -> ResponseWriter * res unit).

Definition scrape (gauges : list Queue.QueueID) : handler System := fun s r w =>
  let '(q, depths) := Queue.read_depths (Internal.actionQueues (internal s)) gauges in
  let s := set_internal (Internal.set_queues (internal s) q) s in
  match depths with
  | Ok depths => let '(w, out) := promhttp depths r w in ((s, w), out)
  | Fail e => ((s, w), Fail e)
  | Panic => ((s, w), Panic)
  end.

Definition internalH (t : InternalMoment) (e : internal_endpoint) : handler System :=
  match e with
  | result => focus internal set_internal (Internal.resultH (i_now t))
  | queue => focus internal set_internal (Internal.queueH (i_now t) (cancelled t) (gone t))
  | healthy => focus liveness_of set_live Internal.healthy
  | startup => focus liveness_of set_live Internal.startup
  | ready => focus liveness_of set_live (Internal.ready (ping t) (delay t) (i_now t))
  | metrics => scrape (i_gauges t)
  end.

(** One request to the internal server. *)
Definition serve_internal (srv : Server (internal_endpoint * option Z)) (httpMetrics : bool) (t : InternalMoment)
    (a : Arrival) (s : System * list HTTPEvent) (w : ResponseWriter)
    : ((System * list HTTPEvent) * ResponseWriter) * res unit :=
  ServeHTTP (mux srv) (fun '(e, limit) => match limit with
                                          | Some n => prepareHandler (i_order t) (internalH t e) n
                                          | None => internalH t e
                                          end) httpMetrics "internal" a s w.
End InternalServer.
(** ** Every request *)

(** The method and the path of each endpoint. *)
Definition external_template (e : External.endpoint) : pattern :=
  match e with
  | External.instruction => mkPattern "POST /instruction" "POST" [Lit "instruction"]
  | External.action_result => mkPattern "GET /action/result/{actionID}" "GET" [Lit "action"; Lit "result"; Wild "actionID"]
  | External.action_status => mkPattern "GET /action/status/{rewardEpochID}/{instructionID}" "GET"
                                [Lit "action"; Lit "status"; Wild "rewardEpochID"; Wild "instructionID"]
  | External.tee_info => mkPattern "GET /info" "GET" [Lit "info"]
  | External.wallet_info => mkPattern "GET /wallet/info" "GET" [Lit "wallet"; Lit "info"]
  | External.wallet => mkPattern "GET /wallet/{walletID}/{keyID}" "GET" [Lit "wallet"; Wild "walletID"; Wild "keyID"]
  | External.backup => mkPattern "GET /backup/{backupIDHash}" "GET" [Lit "backup"; Wild "backupIDHash"]
  | External.backup_latest => mkPattern "GET /backup/{walletID}/{keyID}" "GET" [Lit "backup"; Wild "walletID"; Wild "keyID"]
  | External.direct => mkPattern "POST /direct" "POST" [Lit "direct"]
  end%string.
Definition external_limit (d : External.DirectConfig) (e : External.endpoint) : Z :=
  match e with
  | External.instruction => External.instructionSizeLimit
  | External.direct => if decide (0 < External.MaxBodySize d) then External.MaxBodySize d else External.instructionSizeLimit
  | _ => noBody
  end.
Definition external_endpoints (d : External.DirectConfig) : list External.endpoint :=
  [External.instruction; External.action_result; External.action_status; External.tee_info; External.wallet_info;
   External.wallet; External.backup; External.backup_latest] ++ (if External.Enable d then [External.direct] else []).
Definition external_mux (d : External.DirectConfig) : ServeMux (External.endpoint * Z) :=
  routes external_template (fun e => (e, external_limit d e)) (external_endpoints d).

Definition internal_template (e : internal_endpoint) : pattern :=
  match e with
  | result => mkPattern "POST /result" "POST" [Lit "result"]
  | queue => mkPattern "POST /queue/{queueID}" "POST" [Lit "queue"; Wild "queueID"]
  | healthy => mkPattern "GET /healthy" "GET" [Lit "healthy"]
  | startup => mkPattern "GET /startup" "GET" [Lit "startup"]
  | ready => mkPattern "GET /ready" "GET" [Lit "ready"]
  | metrics => mkPattern "GET /metrics" "GET" [Lit "metrics"]
  end%string.
Definition internal_limit (e : internal_endpoint) : option Z :=
  match e with result => Some Internal.maxResultBodySize | queue => Some noBody | _ => None end.
Definition internal_endpoints (metricsEnabled : bool) : list internal_endpoint :=
  [result; queue; healthy; startup; ready] ++ (if metricsEnabled then [metrics] else []).
Definition internal_mux (metricsEnabled : bool) : ServeMux (internal_endpoint * option Z) :=
  routes internal_template (fun e => (e, internal_limit e)) (internal_endpoints metricsEnabled).

#[export] Instance endpoint_eq_dec : EqDecision External.endpoint.
Proof. solve_decision. Defined.
#[export] Instance internal_endpoint_eq_dec : EqDecision internal_endpoint.
Proof. solve_decision. Defined.

(** The patterns parse, and none conflicts with another. *)
Lemma external_registered d : register (External.registerRoutes d (External.Enable d)) = Ok (external_mux d).
Proof. unfold External.registerRoutes, external_mux, external_endpoints. by destruct (External.Enable d). Qed.
Lemma internal_registered m : register (internal_routes m) = Ok (internal_mux m).
Proof. by destruct m. Qed.
Lemma NewExternal_ok port d : exists srv, NewExternal port d = Ok srv /\ mux srv = external_mux d.
Proof. unfold NewExternal. rewrite external_registered. by eexists. Qed.
Lemma NewInternal_ok port m : exists srv, NewInternal port m = Ok srv /\ mux srv = internal_mux m.
Proof. unfold NewInternal. rewrite internal_registered. by eexists. Qed.

Lemma external_apart e e' : e <> e' -> ServeMux.apart (external_template e) (external_template e') = true.
Proof. by destruct e, e'. Qed.
Lemma internal_apart e e' : e <> e' -> ServeMux.apart (internal_template e) (internal_template e') = true.
Proof. by destruct e, e'. Qed.
Lemma external_methods e : pt_method (external_template e) ∈ ["GET"; "POST"]%string.
Proof. destruct e; cbn; set_solver. Qed.
Lemma internal_methods e : pt_method (internal_template e) ∈ ["GET"; "POST"]%string.
Proof. destruct e; cbn; set_solver. Qed.
(** A prepared handler leaves the state to its handler. *)
Lemma prepareHandler_state `{ErrorText} {S : Type} order (f : handler S) n s r w :
  exists r' w', (prepareHandler order f n s r w).1.1 = (f s r' w').1.1.
Proof.
  unfold prepareHandler. set (r' := if decide (0 <= n) then _ else _). exists r', (Header_Set w "Content-Type" "application/json").
  by destruct (f s r' _) as [[s1 w1] [|e|]].
Qed.

(** How a request is answered: by the endpoint that it asks for, or by the multiplexer; and
    under which pattern and status it is counted. *)
Definition answered {E S} (template : E -> pattern) (es : list E) (serve : E -> handler S) (server : string)
    (httpMetrics : bool) (a : Arrival) (s : S) (events : list HTTPEvent) (w : ResponseWriter)
    (outcome : ((S * list HTTPEvent) * ResponseWriter) * res unit) : Prop :=
  let '(((s', events'), w'), out) := outcome in
  (forall e, asks template es a e ->
     serve e s (arrives template a e) w = ((s', w'), out) /\
     events' = events ++ if httpMetrics then [ObserveHTTP server (pt_str (template e))
                           match out with Panic => 500 | _ => statusRecorder w' end] else []) /\
  ((forall e, ~ asks template es a e) ->
     exists code, s' = s /\ out = Ok tt /\ (reply_code w = None -> reply_code w' = Some code) /\
       (code = 405 /\ known template es a \/ code = 404 /\ ~ known template es a) /\
       events' = events ++ if httpMetrics then [ObserveHTTP server "" code] else []).

Lemma http_Error_recorded w msg code : w_calls w = [] -> statusRecorder (http_Error w msg code) = code.
Proof. intros Hc. unfold statusRecorder, http_Error, Write. rewrite use_conn_calls. cbn. by rewrite Hc. Qed.

Lemma ServeHTTP_answered {E H S} `{EqDecision E} (template : E -> pattern) (val : E -> H) es (serve : H -> handler S)
    httpMetrics server a s events w :
  (forall e e', e <> e' -> ServeMux.apart (template e) (template e') = true) ->
  (forall e, pt_method (template e) ∈ ["GET"; "POST"]%string) -> w_calls w = [] ->
  answered template es (fun e => serve (val e)) server httpMetrics a s events w
    (ServeHTTP (routes template val es) serve httpMetrics server a (s, events) w).
Proof.
  intros Hap Hm Hw. unfold answered, ServeHTTP.
  destruct (findHandler (routes template val es) a) as [r h] eqn:Hf.
  destruct (instrumentHTTP _ _ _ _ _ _) as [[[s' events'] w'] out] eqn:Hi. unfold instrumentHTTP in Hi. split.
  - intros e He. rewrite (findHandler_asked template val es (fun e e' _ _ => Hap e e') a e He) in Hf. injection Hf as <- <-.
    destruct (serve (val e) s (arrives template a e) w) as [[s1 w1] out1].
    injection Hi as <- <- <- <-. split; [done|]. destruct httpMetrics; [done|by rewrite app_nil_r].
  - intros Hn. destruct (findHandler_unasked template val es (fun e _ => Hm e) a Hn) as (allowed & Hf' & Hk).
    rewrite Hf in Hf'. injection Hf' as -> ->. injection Hi as <- <- <- <-. unfold unrouted.
    destruct (decide (allowed = [])) as [Ha|Ha].
    + exists 404. split_and!; [done|done| |right; naive_solver|].
      * intros Hr. unfold NotFound. by rewrite http_Error_code, Hr.
      * unfold NotFound. rewrite http_Error_recorded by done. cbn. destruct httpMetrics; [done|by rewrite app_nil_r].
    + exists 405. split_and!; [done|done| |left; split; [done|]|].
      * intros Hr. unfold MethodNotAllowed. rewrite http_Error_code. unfold reply_code in *. cbn. by rewrite Hr.
      * by apply Hk.
      * unfold MethodNotAllowed. rewrite http_Error_recorded by done. cbn. destruct httpMetrics; [done|by rewrite app_nil_r].
Qed.
Lemma internal_not_external i e : ServeMux.compare_paths (pt_segments (internal_template i)) (pt_segments (external_template e)) = disjoint.
Proof. by destruct i, e. Qed.

Section ExternalFacts.
Context `{OpLib, InstructionLib, CyclicLib, RedisLib, Queue.NameLib, !Json Action, !Json Queue.ActionSubmissionID}.
Context `{SigningLib, !Decoder Instruction, !Json SignedReceipt, !Json VotingData.Statuses, !Json Queue.DirectInstruction}.
Context `{!Decoder Queue.DirectInstruction, External.TagLib, Attestation.AttestationLib, ErrorText}.
Context {W : Type} `{StorageI W ActionResponse, !Json External.ProxyActionResponse, !Json External.SignedTeeInfoResponse}.
Context `{!Json Wallets.WalletsInfoResponse, !Json Wallets.KeyData}.
Context {WI WB : Type} `{Backups.BackupLib, StorageI WI Hash, StorageI WB Backups.TEEBackupResponse}.
Context `{!Json (option Backups.TEEBackupResponse), !Json Backups.TEEBackupResponse}.
Context (mt : VotingData.Meta) (privKey : PrivateKey) (chainID : Z) (direct : External.DirectConfig).
Abbreviation Services := (Services (W := W) (WI := WI) (WB := WB)).
Abbreviation endpointH := (endpointH (W := W) (WI := WI) (WB := WB) mt privKey chainID direct).

(** What a request to an endpoint may change. *)
Definition external_frame (e : External.endpoint) (s s' : Services) : Prop :=
  match e with
  | External.instruction => s' = set_instruction (instructionService s') s
  | External.direct => s' = set_queues (actionQueues s') s
  | External.action_result => s' = set_results (resultService s') s
  | External.backup | External.backup_latest => s' = set_stores (stores s') s
  | _ => s' = s
  end.

Lemma focus_state {S A} (get : S -> A) put (h : handler A) s r w :
  (focus get put h s r w).1.1 = put (h (get s) r w).1.1 s.
Proof. unfold focus. by destruct (h (get s) r w) as [[a w'] out]. Qed.

Lemma reads_only {T A} `{Json T} (m : res T) (s : A) w :
  (match m with
   | Fail e => ((s, w), Fail e)
   | Panic => ((s, w), Panic)
   | Ok x => let '(w, out) := Encode w x in ((s, w), out)
   end : (A * ResponseWriter) * res unit).1.1 = s.
Proof. destruct m as [x|e|]; [|done..]. by destruct (Encode w x). Qed.

Lemma statusH_state s r w : (External.statusH s r w).1.1 = s.
Proof.
  unfold External.statusH. destruct (hashParam _ _); [|done..]. destruct (uint32Param _ _); [|done..]. apply reads_only.
Qed.
Lemma infoH_state s r w : (External.infoH privKey s r w).1.1 = s.
Proof.
  unfold External.infoH. destruct s as [i|]; [|done]. destruct (Info.Latest i); [|done].
  destruct (Attestation.TeeInfo_Hash _); [|done..]. destruct (proxy_Sign _ _ _ _); [|done..]. by destruct (Encode _ _).
Qed.
Lemma walletInfoH_state s r w : (External.walletInfoH s r w).1.1 = s.
Proof. unfold External.walletInfoH. by destruct (Encode _ _). Qed.
Lemma walletH_state s r w : (External.walletH s r w).1.1 = s.
Proof.
  unfold External.walletH. destruct (hashParam _ _); [|done..]. destruct (uint64Param _ _); [|done..]. apply reads_only.
Qed.

Lemma endpointH_frame t e s r w : external_frame e s (endpointH t e s r w).1.1.
Proof.
  destruct s. destruct e; cbn [endpointH external_frame]; rewrite focus_state;
    rewrite ?statusH_state, ?infoH_state, ?walletInfoH_state, ?walletH_state; reflexivity.
Qed.

(** C35: the external server as a whole.  Its routes can be registered, so that it is made
    in every configuration.  A request is answered by the one endpoint whose method and
    path it asks for, prepared with the limit of that endpoint, HEAD counting as GET and
    /direct being there only when it is enabled; and otherwise by 405 when the path is
    known under another method and 404 when it is not, without any effect.  Each request
    is counted once, under the pattern of its endpoint.  A request changes nothing but the
    service of its endpoint, one that is not a POST changes neither votes nor queues, and no
    path of the internal server can be reached. *)
Theorem external_requests port httpMetrics t a (s : Services) events conn :
  let w := new_writer conn in
  exists srv, NewExternal port direct = Ok srv /\
    let outcome := serve_external mt privKey chainID direct srv httpMetrics t a (s, events) w in
    let s' := outcome.1.1.1 in
    answered external_template (external_endpoints direct)
      (fun e => prepareHandler (order t) (endpointH t e) (external_limit direct e)) "external" httpMetrics a s events w outcome /\
    (forall e e', asks external_template (external_endpoints direct) a e ->
       asks external_template (external_endpoints direct) a e' -> e = e') /\
    (forall e, asks external_template (external_endpoints direct) a e -> external_frame e s s') /\
    (rq_method a <> "POST"%string -> instructionService s' = instructionService s) /\
    (forall i, accepts (pt_segments (internal_template i)) (rq_path a) -> s' = s /\ reply_code outcome.1.2 = Some 404).
Proof.
  intros w. assert (Hc : w_calls w = []) by done. destruct (NewExternal_ok port direct) as (srv & Hsrv & Hmux). exists srv. split; [done|].
  unfold serve_external. rewrite Hmux. unfold external_mux.
  pose proof (ServeHTTP_answered external_template (fun e => (e, external_limit direct e)) (external_endpoints direct)
    (fun '(e, limit) => prepareHandler (order t) (endpointH t e) limit) httpMetrics "external" a s events w
    external_apart external_methods Hc) as Ha.
  destruct (ServeHTTP _ _ _ _ _ _ _) as [[[s' events'] w'] out]. cbn [fst snd].
  pose proof Ha as [Hasked Hnot].
  assert (Hf : forall e, asks external_template (external_endpoints direct) a e -> external_frame e s s').
  { intros e He. destruct (Hasked e He) as [Hp _].
    destruct (prepareHandler_state (order t) (endpointH t e) (external_limit direct e) s (arrives external_template a e) w)
      as (r1 & w1 & Hst). rewrite Hp in Hst. cbn [fst] in Hst. rewrite Hst. apply endpointH_frame. }
  assert (Hr : reply_code w = None) by done.
  split_and!; [exact Ha| |exact Hf| |].
  - intros e e'. apply (asked_once external_template (fun e => e)). intros * _ _. apply external_apart.
  - intros Hm. destruct (asked_or_not external_template (fun e => e) (external_endpoints direct) a) as [[e He]|Hn].
    + specialize (Hf e He). destruct He as (_ & Hmeth & _). unfold method_ok in Hmeth.
      destruct e; cbn in Hmeth, Hf; try (by rewrite Hf); naive_solver.
    + by destruct (Hnot Hn) as (? & -> & _).
  - intros i Hi. assert (Hn : forall e, ~ accepts (pt_segments (external_template e)) (rq_path a)).
    { intros e. eapply disjoint_paths; [apply internal_not_external|done]. }
    destruct Hnot as (code & -> & _ & Hcode & Hk & _); [by intros e (_ & _ & He%Hn)|]. split; [done|].
    rewrite (Hcode Hr). destruct Hk as [[_ (e & _ & He%Hn)]|[-> _]]; done.
Qed.
End ExternalFacts.
Section InternalFacts.
Context `{RedisLib, Queue.NameLib, !Json Action, !Json Queue.ActionSubmissionID, Internal.QueueIDLib}.
Context {W : Type} `{StorageI W ActionResponse, OpLib, SignerLib, !Decoder ActionResponse, !Json Queue.DirectInstruction}.
Context `{Info.InfoLib, Attestation.AttestationLib, !Json Attestation.TeeInfoResponse, ErrorText}.
Context (promhttp : list (Queue.QueueID * Z) -> Request -> ResponseWriter -> ResponseWriter * res unit).
Abbreviation System := (System (W := W)).
Abbreviation internalH := (internalH (W := W) promhttp).

(** The handler of an endpoint, prepared where it is. *)
Definition internal_handler (t : InternalMoment) (e : internal_endpoint) : handler System :=
  match internal_limit e with
  | Some n => prepareHandler (i_order t) (internalH t e) n
  | None => internalH t e
  end.

(** A scrape reads the queues: Redis holds what it held, and all else of the server is as it
    was. *)
Definition scraped (i i' : @Internal.Internal _ W) : Prop :=
  Queue.only_read (Internal.actionQueues i) (Internal.actionQueues i') /\
  i' = Internal.set_queues i (Internal.actionQueues i').

(** What a request to an endpoint may change: the queues and the results, the record of
    readiness, or the count of failed reads. *)
Definition internal_frame (t : InternalMoment) (e : internal_endpoint) (s s' : System) : Prop :=
  match e with
  | result | queue => live s' = live s
  | metrics => live s' = live s /\ scraped (internal s) (internal s') /\ (i_gauges t = [] -> s' = s)
  | healthy | startup => internal s' = internal s /\ live s' = liveness_of s
  | ready => internal s' = internal s /\ Liveness.startUpFinished (live s') = Liveness.startUpFinished (live s)
  end.

Lemma startup_state l r w : (Internal.startup (W := W) l r w).1.1 = l.
Proof. unfold Internal.startup. by destruct (Liveness.Startup l). Qed.
Lemma ready_state p d n l r w :
  Liveness.startUpFinished (Internal.ready (W := W) p d n l r w).1.1 = Liveness.startUpFinished l.
Proof.
  unfold Internal.ready. destruct (Liveness.Ready l p d n) as [l' out] eqn:Hr.
  assert (Liveness.startUpFinished l' = Liveness.startUpFinished l) as <- by (unfold Liveness.Ready in Hr; by injection Hr as <- <-).
  by destruct out.
Qed.

Lemma scraped_refl i : scraped i i.
Proof. split; [apply Queue.only_read_refl|by destruct i]. Qed.
Lemma scrape_frame t s r w : internal_frame t metrics s (scrape promhttp (i_gauges t) s r w).1.1.
Proof.
  unfold scrape. pose proof (Queue.read_depths_only_read (Internal.actionQueues (internal s)) (i_gauges t)) as Hr.
  assert (Hnone : i_gauges t = [] -> Queue.read_depths (Internal.actionQueues (internal s)) (i_gauges t)
    = (Internal.actionQueues (internal s), Ok [])) by (by intros ->).
  destruct (Queue.read_depths _ _) as [q depths]. cbn [fst] in Hr.
  set (s' := set_internal _ s).
  assert (Hs : internal_frame t metrics s s').
  { split_and!; [done|by split|]. intros Hg. injection (Hnone Hg) as -> _. subst s'. by destruct s as [[] ?]. }
  destruct depths as [depths|e|]; [by destruct (promhttp depths r w)|exact Hs..].
Qed.
Lemma internalH_frame t e s r w : internal_frame t e s (internalH t e s r w).1.1.
Proof.
  destruct e; cbn [internalH internal_frame]; rewrite ?focus_state; try done.
  - by rewrite startup_state.
  - split; [done|]. cbn [set_live live]. by rewrite ready_state.
  - apply scrape_frame.
Qed.
Lemma internal_handler_frame t e s r w : internal_frame t e s (internal_handler t e s r w).1.1.
Proof.
  unfold internal_handler. destruct (internal_limit e) as [n|]; [|apply internalH_frame].
  destruct (prepareHandler_state (i_order t) (internalH t e) n s r w) as (r1 & w1 & ->). apply internalH_frame.
Qed.

(** C28: the internal server as a whole.  It is made in every configuration; each request is
    answered by the one endpoint it asks for or by the multiplexer without any effect, and
    counted once.  Results and polls come by POST with their body limits; the probes of the
    orchestrator change neither queues nor results; the exposition of metrics, which is
    there only when metrics are on, reads the depths of the queues and changes nothing but
    the count of the reads that failed, and no request finishes the startup. *)
Theorem internal_requests port metricsEnabled httpMetrics t a (s : System) events conn :
  let w := new_writer conn in
  exists srv, NewInternal port metricsEnabled = Ok srv /\
    let outcome := serve_internal promhttp srv httpMetrics t a (s, events) w in
    let s' := outcome.1.1.1 in
    answered internal_template (internal_endpoints metricsEnabled) (internal_handler t) "internal" httpMetrics a s events w outcome /\
    (forall e e', asks internal_template (internal_endpoints metricsEnabled) a e ->
       asks internal_template (internal_endpoints metricsEnabled) a e' -> e = e') /\
    (forall e, asks internal_template (internal_endpoints metricsEnabled) a e -> internal_frame t e s s') /\
    (rq_method a <> "POST"%string -> scraped (internal s) (internal s') /\
       (rq_path a <> ["metrics"%string] \/ i_gauges t = [] -> internal s' = internal s)) /\
    Liveness.startUpFinished (live s') = Liveness.startUpFinished (live s) /\
    (metricsEnabled = false -> rq_path a = ["metrics"%string] -> s' = s /\ reply_code outcome.1.2 = Some 404).
Proof.
  intros w. destruct (NewInternal_ok port metricsEnabled) as (srv & Hsrv & Hmux). exists srv. split; [done|].
  unfold serve_internal. rewrite Hmux. unfold internal_mux.
  pose proof (ServeHTTP_answered internal_template (fun e => (e, internal_limit e)) (internal_endpoints metricsEnabled)
    (fun '(e, limit) => match limit with Some n => prepareHandler (i_order t) (internalH t e) n | None => internalH t e end)
    httpMetrics "internal" a s events w internal_apart internal_methods eq_refl) as Ha.
  destruct (ServeHTTP _ _ _ _ _ _ _) as [[[s' events'] w'] out]. cbn [fst snd].
  pose proof Ha as [Hasked Hnot].
  assert (Hf : forall e, asks internal_template (internal_endpoints metricsEnabled) a e -> internal_frame t e s s').
  { intros e He. destruct (Hasked e He) as [Hp _].
    pose proof (internal_handler_frame t e s (arrives internal_template a e) w) as Hfr.
    unfold internal_handler in Hfr. by rewrite Hp in Hfr. }
  destruct (asked_or_not internal_template (fun e => e) (internal_endpoints metricsEnabled) a) as [[e He]|Hn].
  - pose proof (Hf e He) as Hfe. split_and!; [exact Ha| |exact Hf| | |].
    + intros e1 e2. apply (asked_once internal_template (fun e => e)). intros * _ _. apply internal_apart.
    + intros Hm. destruct He as (_ & Hmeth & Hacc). unfold method_ok in Hmeth.
      destruct e; cbn in Hmeth, Hfe; [exfalso; clear -Hm Hmeth; naive_solver..| | | |].
      1-3: destruct Hfe as [-> _]; split; [apply scraped_refl|done].
      destruct Hfe as (_ & Hsc & Hno). split; [exact Hsc|]. intros [Hp|Hg]; [|by rewrite Hno].
      exfalso. apply Hp. clear -Hacc. destruct (rq_path a) as [|x l]; [inversion Hacc|].
      apply Forall2_cons in Hacc as [Hx ->%Forall2_nil_inv_l]. cbn in Hx. congruence.
    + destruct e; cbn in Hfe; [by rewrite Hfe..| | | |by destruct Hfe as [-> _]]; by destruct Hfe as [_ Hl]; rewrite ?Hl.
    + intros -> Hp. exfalso. destruct He as (Hin & _ & Hacc). rewrite Hp in Hacc.
      cbn in Hin. set_unfold in Hin. destruct_or?; subst e; inversion Hacc; by subst.
  - destruct (Hnot Hn) as (code & -> & Hout & Hcode & Hk & _). specialize (Hcode eq_refl). split_and!; [exact Ha| |exact Hf|split; [apply scraped_refl|done]|done|].
    + by intros e1 e2 ?%Hn.
    + intros -> Hp. split; [done|]. rewrite Hcode. destruct Hk as [[_ (e & Hin & Hacc)]|[-> _]]; [exfalso|done].
      rewrite Hp in Hacc. cbn in Hin. set_unfold in Hin. destruct_or?; subst e; inversion Hacc; by subst.
Qed.
End InternalFacts.

(** ** Some requests *)

Module DemoServers.
Definition arrival (method : string) (path : list string) : Arrival := mkArrival method path ∅ "" [].
Definition cfg (enable : bool) : External.DirectConfig := External.mkDirectConfig enable "secret" false 0.
Definition found (enable : bool) (method : string) (path : list string) : string + list string :=
  match findHandler (external_mux (cfg enable)) (arrival method path) with
  | (r, inl _) => inl (r_Pattern r)
  | (_, inr allowed) => inr allowed
  end.

Example direct_disabled : found false "POST" ["direct"] = inr [].
Proof. reflexivity. Qed.
Example direct_enabled : found true "POST" ["direct"] = inl "POST /direct"%string.
Proof. reflexivity. Qed.
Example info_by_head : found false "HEAD" ["info"] = inl "GET /info"%string.
Proof. reflexivity. Qed.
Example info_by_post : found false "POST" ["info"] = inr ["GET"; "HEAD"]%string.
Proof. reflexivity. Qed.
Example backup_by_key : found false "GET" ["backup"; "0x01"; "7"] = inl "GET /backup/{walletID}/{keyID}"%string.
Proof. reflexivity. Qed.
Example trailing_slash : found false "GET" ["backup"; "/"] = inr [].
Proof. reflexivity. Qed.
(** A second handler for a pattern panics. *)
Example registered_twice : register [("GET /a/{x}"%string, 1); ("GET /a/{y}"%string, 2)] = Panic.
Proof. reflexivity. Qed.
End DemoServers.
End HttpServers.
