(* ===== verification/MachinePath.v ===== *)
(** Machine path lists ([pkg/machinepath]): the order of the paths of a list, the
    collection of its governance signatures and of a Safe approval, and the action
    that hands the list to the node.  The indexer, the contract ABI and the crypto
    are parameters. *)

From S2P Require Import Prelude Hex Types Redis Queue.

Module MachinePath.

Definition txSuccessStatus : Z := 1.
Definition recentSignedLogsLimit : Z := 20.

Definition errNoPaths : error := sentinel "machinepath.errNoPaths".
Definition errInvalidInputs : error := sentinel "machinepath.errInvalidInputs".
Definition ErrNoAuthorization : error := sentinel "machinepath.ErrNoAuthorization".

(** [machinepathmanager.Signature]. *)
Record Signature : Type := mkSignature { sig_R : bytes; sig_S : bytes; sig_V : Z (* uint8 *) }.

(** [cmpaths.IMachinePathManagerMachinePath]. *)
Record Path : Type := mkPath { SourceTeeIds : list Address; DestinationTeeIds : list Address }.

(** [types.Governance] of the node. *)
Record Governance : Type := mkGovernance {
  gov_Signers : list Address;
  gov_Threshold : Z;
  gov_Safe : Address
}.

(** [database.Transaction], as far as it is used. *)
Record Transaction : Type := mkTransaction { tx_Hash : string; tx_Status : Z; tx_Input : string }.

(** [safe.ExecTransactionInputs]: the fields the proxy compares, and the rest. *)
Record ExecTransactionInputs (R : Type) : Type := mkInputs { To : Address; Operation : Z; in_Data : bytes; in_rest : R }.
Arguments mkInputs {R}.
Arguments To {R}.
Arguments Operation {R}.
Arguments in_Data {R}.
Arguments in_rest {R}.

(** [safe.Approval]. *)
Record Approval (R : Type) : Type := mkApproval { ExecTransaction : ExecTransactionInputs R; app_Nonce : Z }.
Arguments mkApproval {R}.
Arguments ExecTransaction {R}.
Arguments app_Nonce {R}.

(** The libraries: logs as go-ethereum parses them, [UnpackSign] the unpacking of the
    arguments of signMachinePathList (two big.Int and a signature), [approval_Verify]
    the check of the node. *)
Class PathLib : Type := {
  EthLog : Type;
  LogBody : Type;
  ExecRest : Type;
  convert_log : LogBody -> res EthLog;
  ParseMachinePathListSigned : EthLog -> res Z;
  ParseMachinePathsAdded : EthLog -> res (list Path);
  ParseMachinePathListApproved : EthLog -> res Z;
  MachinePathListSignedEventSel : Hash;
  machinePathsAddedEventSel : Hash;
  machinePathListApprovedEventSel : Hash;
  signMachinePathListSel : Z;
  ExecTransactionSelector : Z;
  OperationCall : Z;
  Uint64ToHash : Z -> Hash;
  UnpackSign : bytes -> res (Z * Z * Signature);
  SignatureToSignersAddress : Hash -> bytes -> res Address;
  MachinePathListDataHash : Hash -> Z -> list Path -> res Hash;
  PayloadHash : Z -> Hash -> res Hash;
  ApproveMachinePathListCalldata : Hash -> Z -> Hash -> res bytes;
  DecodeExecTransactionCalldata : bytes -> res (ExecTransactionInputs ExecRest);
  approval_Verify : Approval ExecRest -> Z -> Address -> list Address -> Z -> res unit;
  json_SetMachinePathListRequest : list Path -> Z -> list bytes -> option (Approval ExecRest) -> res bytes
}.

(** [database.Log]. *)
Record Log `{PathLib} : Type := mkLog {
  BlockNumber : Z;         (* uint64 *)
  LogIndex : Z;            (* uint64 *)
  TransactionHash : string;
  log_body : LogBody
}.
Arguments mkLog {_}.
Definition ToEthLog `{PathLib} (l : Log) : res EthLog := convert_log (log_body l).

(** The indexer as a query sees it: logs of an address by topics (with a limit, newest
    first), and transactions and logs by address and selector or topic in the blocks
    [(from, to]]. *)
Record DB `{PathLib} : Type := mkDB {
  FetchLogsFull : Address -> list Hash -> Z -> res (list Log);
  FetchTransactions : Address -> Z -> Z -> Z -> res (list Transaction);
  FetchLogs : Address -> Hash -> Z -> Z -> res (list Log)
}.
Arguments mkDB {_}.

Section Ops.
Context `{PathLib}.

(** ** The latest list *)

(** The variables of the loop: the highest nonce so far and its block. *)
Fixpoint scan_signed (afterNonce : Z) (best : option (Z * Z)) (logs : list Log) : res (option (Z * Z)) :=
  match logs with
  | [] => Ok best
  | l :: logs =>
      ethLog ← wrap (ToEthLog l);
      n ← wrap (ParseMachinePathListSigned ethLog);
      if decide (~ 0 <= n < 2 ^ 64) then scan_signed afterNonce best logs
      else if decide (afterNonce < n /\ (best = None \/ default 0 (fst <$> best) < n))
           then scan_signed afterNonce (Some (n, BlockNumber l)) logs
           else scan_signed afterNonce best logs
  end.

(** [None] for found = false. *)
Definition LatestSignedList (db : DB) (managerAddress : Address) (extensionID : Hash) (afterNonce : Z)
    : res (option (Z * Z)) :=
  logs ← FetchLogsFull db managerAddress [MachinePathListSignedEventSel; extensionID; zero_hash; zero_hash]
           recentSignedLogsLimit;
  scan_signed afterNonce None logs.

(** ** The paths *)

(** [less] of the sort: the position on the chain. *)
Definition log_before (l k : Log) : Prop :=
  BlockNumber l < BlockNumber k \/ (BlockNumber l = BlockNumber k /\ LogIndex l < LogIndex k).
Definition log_le (l k : Log) : Prop := ~ log_before k l.
#[export] Instance log_before_dec l k : Decision (log_before l k) := _.
#[export] Instance log_le_dec l k : Decision (log_le l k) := _.

Fixpoint parse_paths (logs : list Log) : res (list Path) :=
  match logs with
  | [] => Ok []
  | l :: logs =>
      ethLog ← wrap (ToEthLog l);
      ps ← wrap (ParseMachinePathsAdded ethLog);
      rest ← parse_paths logs;
      Ok (ps ++ rest)
  end.

Definition fetchPaths (db : DB) (managerAddress : Address) (extensionID : Hash) (nonce : Z)
    : res (list Path * Z) :=
  logs ← FetchLogsFull db managerAddress [machinePathsAddedEventSel; extensionID; Uint64ToHash nonce; zero_hash] (-1);
  if decide (logs = []) then Fail errNoPaths
  else
    let logs := merge_sort log_le logs in
    paths ← parse_paths logs;
    match logs with
    | l :: _ => Ok (paths, BlockNumber l)
    | [] => Panic                          (* logs[0] *)
    end.

(** ** Governance signatures *)

Definition serializeSig (s : Signature) : bytes := sig_R s ++ sig_S s ++ [byte_of (sig_V s - 27)].

Definition recoverSignMachinePathListInputs (input : string) : res (Z * Z * Signature) :=
  inputB ← wrap (hex_DecodeString input);
  if decide (zlen inputB < 4) then Fail errInvalidInputs
  else UnpackSign (drop 4 inputB).

(** The loop over the transactions: the addresses seen and the signatures. *)
Fixpoint collect (extensionID : Hash) (nonce : Z) (hash : Hash) (seen : gset Address) (sigs : list bytes)
    (txs : list Transaction) : res (list bytes) :=
  match txs with
  | [] => Ok sigs
  | tx :: txs =>
      if decide (tx_Status tx <> txSuccessStatus) then collect extensionID nonce hash seen sigs txs
      else
        match recoverSignMachinePathListInputs (tx_Input tx) with
        | Panic => Panic
        | Fail _ => collect extensionID nonce hash seen sigs txs
        | Ok (extID, txNonce, sig) =>
            if decide (extID <> Z.of_N extensionID \/ txNonce <> nonce)
            then collect extensionID nonce hash seen sigs txs
            else
              let serialized := serializeSig sig in
              match SignatureToSignersAddress hash serialized with
              | Panic => Panic
              | Fail _ => collect extensionID nonce hash seen sigs txs
              | Ok signer =>
                  if decide (signer ∈ seen) then collect extensionID nonce hash seen sigs txs
                  else collect extensionID nonce hash ({[signer]} ∪ seen) (sigs ++ [serialized]) txs
              end
        end
  end.

Definition collectSignatures (db : DB) (managerAddress : Address) (extensionID : Hash) (nonce : Z) (hash : Hash)
    (fromBlock toBlock : Z) : res (list bytes) :=
  txs ← FetchTransactions db managerAddress signMachinePathListSel fromBlock toBlock;
  collect extensionID nonce hash ∅ [] txs.

(** ** The Safe approval *)

(** [strings.EqualFold] on ASCII text, which transaction hashes are. *)
Definition EqualFold (s t : string) : bool :=
  bool_decide ((to_lower <$> String.list_ascii_of_string s) = (to_lower <$> String.list_ascii_of_string t)).

(** The comparison of two transaction hashes, with or without 0x. *)
Definition same_hash (s t : string) : bool := EqualFold (CutPrefix s "0x") (CutPrefix t "0x").

Definition execTransactionByHash (db : DB) (safeAddress : Address) (blockNumber : Z) (txHash : string)
    : res (option Transaction) :=
  txs ← FetchTransactions db safeAddress ExecTransactionSelector (i64 (i64 blockNumber - 1)) (i64 blockNumber);
  Ok (snd <$> list_find (fun tx => same_hash (tx_Hash tx) txHash = true) txs).

Definition matchApproval (input : string) (expectedData : bytes) (managerAddress : Address)
    : res (option (ExecTransactionInputs ExecRest)) :=
  match hex_DecodeString input with
  | Panic => Panic
  | Fail _ => Ok None
  | Ok inputB =>
      match DecodeExecTransactionCalldata inputB with
      | Panic => Panic
      | Fail _ => Ok None
      | Ok inputs =>
          if decide (To inputs <> managerAddress \/ Operation inputs <> OperationCall) then Ok None
          else if decide (in_Data inputs <> expectedData) then Ok None
          else Ok (Some inputs)
      end
  end.

Definition approvalFromLog (db : DB) (gov : Governance) (managerAddress : Address) (expectedData : bytes)
    (chainID : Z) (log : Log) : res (option (Approval ExecRest)) :=
  ethLog ← wrap (ToEthLog log);
  safeNonce ← wrap (ParseMachinePathListApproved ethLog);
  tx ← execTransactionByHash db (gov_Safe gov) (BlockNumber log) (TransactionHash log);
  match tx with
  | None => Ok None
  | Some tx =>
      inputs ← matchApproval (tx_Input tx) expectedData managerAddress;
      match inputs with
      | None => Ok None
      | Some inputs =>
          let approval := mkApproval inputs (u64 safeNonce) in
          match approval_Verify approval chainID (gov_Safe gov) (gov_Signers gov) (gov_Threshold gov) with
          | Panic => Panic
          | Fail _ => Ok None
          | Ok _ => Ok (Some approval)
          end
      end
  end.

(** The loop over the approval logs. *)
Fixpoint first_approval (db : DB) (gov : Governance) (managerAddress : Address) (expectedData : bytes)
    (chainID : Z) (logs : list Log) : res (option (Approval ExecRest)) :=
  match logs with
  | [] => Ok None
  | l :: logs =>
      approval ← approvalFromLog db gov managerAddress expectedData chainID l;
      match approval with
      | Some a => Ok (Some a)
      | None => first_approval db gov managerAddress expectedData chainID logs
      end
  end.

Definition collectSafeApproval (db : DB) (gov : Governance) (managerAddress : Address) (extensionID : Hash)
    (nonce : Z) (messageHash : Hash) (chainID fromBlock toBlock : Z) : res (option (Approval ExecRest)) :=
  expectedData ← wrap (ApproveMachinePathListCalldata extensionID nonce messageHash);
  logs ← wrap (FetchLogs db managerAddress machinePathListApprovedEventSel fromBlock toBlock);
  first_approval db gov managerAddress expectedData chainID logs.
End Ops.

(** ** The action *)

Section Action.
Context `{PathLib, OpLib, !Json Queue.DirectInstruction}.

(** [id] is the random identifier of the action. *)
Definition SetMachinePathListAction (db : DB) (managerAddress : Address) (gov : Governance) (extensionID : Hash)
    (chainID nonce toBlock : Z) (id : res Hash) : res Action :=
  '(paths, fromBlock) ← wrap (fetchPaths db managerAddress extensionID nonce);
  dataHash ← wrap (MachinePathListDataHash extensionID nonce paths);
  hash ← wrap (PayloadHash chainID dataHash);
  let from := i64 (i64 fromBlock - 1) in
  sigs ← wrap (collectSignatures db managerAddress extensionID nonce hash from (i64 toBlock));
  approval ← (if decide (gov_Safe gov <> zero_address)
              then wrap (collectSafeApproval db gov managerAddress extensionID nonce hash chainID from (i64 toBlock))
              else Ok None);
  if decide (sigs = [] /\ approval = None) then Fail ErrNoAuthorization
  else
    msg ← wrap (json_SetMachinePathListRequest paths nonce sigs approval);
    Queue.PrepareDirectAction GovernanceType SetMachinePathList msg id.
End Action.

(** ** Theorems *)

Section Facts.
Context `{PathLib}.

(** *** The latest list *)

Definition signed (l : Log) (n : Z) : Prop :=
  exists e, ToEthLog l = Ok e /\ ParseMachinePathListSigned e = Ok n.
Definition is_uint64 (n : Z) : Prop := 0 <= n < 2 ^ 64.

(** [best] is the largest of the nonces [ns] above [after], with the block of the
    first log that has it. *)
Definition is_latest (after : Z) (logs : list Log) (ns : list Z) (best : option (Z * Z)) : Prop :=
  match best with
  | None => forall n, n ∈ ns -> is_uint64 n -> n <= after
  | Some (n, b) =>
      after < n /\ is_uint64 n /\ (forall m, m ∈ ns -> is_uint64 m -> m <= n) /\
      exists i l, ns !! i = Some n /\ logs !! i = Some l /\ BlockNumber l = b
                  /\ (forall j m, (j < i)%nat -> ns !! j = Some m -> m <> n)
  end.

(** A further log with a nonce that is no better changes nothing. *)
Lemma is_latest_keep after logs ns best l n :
  length logs = length ns ->
  (is_uint64 n -> n <= after \/ exists m b, best = Some (m, b) /\ n <= m) ->
  is_latest after logs ns best -> is_latest after (logs ++ [l]) (ns ++ [n]) best.
Proof.
  intros Hlen Hn. destruct best as [[m b]|]; cbn.
  - intros (Ha & Hm & Hmax & i & k & Hi & Hk & Hb & Hfirst). split_and!; try done.
    + intros o [Ho|Ho%list_elem_of_singleton]%elem_of_app Hou; [eauto|]. subst o.
      destruct (Hn Hou) as [?|(m' & b' & [= <- <-] & ?)]; lia.
    + exists i, k. split_and!; try done; try by apply lookup_app_l_Some.
      intros j o Hj Ho. apply Hfirst with j; [done|].
      apply lookup_lt_Some in Hi. by rewrite lookup_app_l in Ho by lia.
  - intros Hmax o [Ho|Ho%list_elem_of_singleton]%elem_of_app Hou; [eauto|]. subst o.
    destruct (Hn Hou) as [?|(? & ? & ? & _)]; done.
Qed.

(** A better one is the new best. *)
Lemma is_latest_better after logs ns best l n :
  length logs = length ns -> is_uint64 n -> after < n -> (forall m b, best = Some (m, b) -> m < n) ->
  is_latest after logs ns best ->
  is_latest after (logs ++ [l]) (ns ++ [n]) (Some (n, BlockNumber l)).
Proof.
  intros Hlen Hu Ha Hbetter Hbest.
  assert (Hless : forall m, m ∈ ns -> is_uint64 m -> m < n).
  { destruct best as [[m b]|]; cbn in Hbest.
    - destruct Hbest as (_ & _ & Hmax & _). intros o Ho Hou. specialize (Hbetter m b eq_refl).
      specialize (Hmax o Ho Hou). lia.
    - intros o Ho Hou. specialize (Hbest o Ho Hou). lia. }
  split_and!; try done.
  - intros m [Hm|Hm%list_elem_of_singleton]%elem_of_app Hmu; [specialize (Hless m Hm Hmu); lia|subst; done].
  - exists (length ns), l. split_and!; try done.
    + by rewrite lookup_app_r, Nat.sub_diag.
    + by rewrite lookup_app_r, Hlen, Nat.sub_diag by lia.
    + intros j m Hj Hm ->. rewrite lookup_app_l in Hm by done.
      apply list_elem_of_lookup_2 in Hm. specialize (Hless n Hm Hu). lia.
Qed.

Lemma scan_signed_latest after logs0 ns0 best logs r :
  Forall2 signed logs0 ns0 -> is_latest after logs0 ns0 best ->
  scan_signed after best logs = Ok r ->
  exists ns, Forall2 signed logs ns /\ is_latest after (logs0 ++ logs) (ns0 ++ ns) r.
Proof.
  revert logs0 ns0 best. induction logs as [|l logs IH]; intros logs0 ns0 best Hs0 Hbest Hr; cbn in Hr.
  - injection Hr as <-. exists []. rewrite !app_nil_r. split; [constructor|done].
  - apply res_bind_ok in Hr as (e & He & Hr). rewrite wrap_ok in He.
    apply res_bind_ok in Hr as (n & Hn & Hr). rewrite wrap_ok in Hn.
    pose proof (Forall2_length _ _ _ Hs0) as Hlen.
    assert (Hsl : Forall2 signed (logs0 ++ [l]) (ns0 ++ [n]))
      by (apply Forall2_app; [done|]; constructor; [by exists e|constructor]).
    assert (Hgoal : forall best', is_latest after (logs0 ++ [l]) (ns0 ++ [n]) best' ->
              scan_signed after best' logs = Ok r ->
              exists ns, Forall2 signed (l :: logs) ns /\ is_latest after (logs0 ++ l :: logs) (ns0 ++ ns) r).
    { intros best' Hb Hr'. destruct (IH _ _ _ Hsl Hb Hr') as (ns & Hns & Hl). exists (n :: ns).
      rewrite <- !app_assoc in Hl. split; [|done]. constructor; [by exists e|done]. }
    clear IH. destruct (decide (~ 0 <= n < 2 ^ 64)) as [Hu|Hu]; [|destruct (decide (after < n /\ _)) as [Hb|Hb]];
      eapply Hgoal; try exact Hr.
    + by apply is_latest_keep.
    + eapply is_latest_better; try done; unfold is_uint64; [lia|lia|].
      intros m b ->. by destruct Hb as [_ [?|?]].
    + apply is_latest_keep; try done. intros _. destruct best as [[m b]|]; cbn in *.
      * destruct (decide (n <= m)); [right; eauto|left]. apply dec_stable. intros ?. apply Hb. split; [lia|right; lia].
      * left. apply dec_stable. intros ?. apply Hb. split; [lia|by left].
Qed.

(** *** The order of the paths *)

#[export] Instance log_le_total : Total log_le.
Proof. intros l k. unfold log_le, log_before. lia. Qed.
#[export] Instance log_le_trans : Transitive log_le.
Proof. intros l k m. unfold log_le, log_before. lia. Qed.

(** Logs with different positions can be sorted in one way only. *)
Lemma sorted_unique (chain logs : list Log) :
  StronglySorted log_before chain -> StronglySorted log_le logs -> chain ≡ₚ logs -> chain = logs.
Proof.
  intros Hc Hl Hp.
  assert (Hcle : StronglySorted log_le chain).
  { rewrite <- (list_fmap_id chain). eapply StronglySorted_fmap; [|exact Hc].
    intros l k. unfold log_le, log_before, id. lia. }
  apply (StronglySorted_unique_strong log_le chain logs); [|done..].
  intros l k Hlc Hkl. rewrite <- Hp in Hkl. clear - Hc Hlc Hkl.
  induction Hc as [|m chain Hc IH Hm]; [by apply not_elem_of_nil in Hlc|].
  rewrite Forall_forall in Hm. unfold log_le in *.
  apply elem_of_cons in Hlc as [->|Hlc], Hkl as [->|Hkl]; intros ? ?; try done.
  - by pose proof (Hm k Hkl).
  - by pose proof (Hm l Hlc).
  - by apply IH.
Qed.

(** The paths that the logs of a list add. *)
Definition adds (l : Log) (ps : list Path) : Prop :=
  exists e, ToEthLog l = Ok e /\ ParseMachinePathsAdded e = Ok ps.

Lemma parse_paths_adds logs pss : Forall2 adds logs pss -> parse_paths logs = Ok (concat pss).
Proof.
  induction 1 as [|l ps logs pss (e & He & Hps) _ IH]; [done|].
  cbn [parse_paths]. rewrite He. cbn. rewrite Hps. cbn. rewrite IH. done.
Qed.

Lemma parse_paths_inv logs paths : parse_paths logs = Ok paths -> exists pss, Forall2 adds logs pss /\ paths = concat pss.
Proof.
  revert paths. induction logs as [|l logs IH]; intros paths; cbn [parse_paths].
  - intros [= <-]. by exists [].
  - intros (e & He & Hp)%res_bind_ok. rewrite wrap_ok in He.
    apply res_bind_ok in Hp as (ps & Hps & Hp). rewrite wrap_ok in Hps.
    apply res_bind_ok in Hp as (rest & Hrest & [= <-]). destruct (IH rest Hrest) as (pss & Hpss & ->).
    exists (ps :: pss). split; [|done]. constructor; [by exists e|done].
Qed.

(** *** Governance signatures *)

(** A transaction that succeeded and carries the signature [s] of [a] for the list. *)
Definition signs_list (extensionID : Hash) (nonce : Z) (hash : Hash) (tx : Transaction) (a : Address) (s : bytes)
    : Prop :=
  tx_Status tx = txSuccessStatus /\
  exists sig, recoverSignMachinePathListInputs (tx_Input tx) = Ok (Z.of_N extensionID, nonce, sig) /\
    s = serializeSig sig /\ SignatureToSignersAddress hash s = Ok a.

(** What the collection returns: one signature per signer. *)
Record evidence (extensionID : Hash) (nonce : Z) (hash : Hash) (txs : list Transaction) (signers : list Address)
    (sigs : list bytes) : Prop := {
  ev_distinct : NoDup signers;
  ev_sound : Forall2 (fun a s => exists tx, tx ∈ txs /\ signs_list extensionID nonce hash tx a s) signers sigs;
  ev_complete tx a s : tx ∈ txs -> signs_list extensionID nonce hash tx a s -> a ∈ signers
}.

Lemma evidence_skip ext nonce hash txs tx signers sigs :
  (forall a s, signs_list ext nonce hash tx a s -> a ∈ signers) ->
  evidence ext nonce hash txs signers sigs -> evidence ext nonce hash (txs ++ [tx]) signers sigs.
Proof.
  intros Hno [Hd Hs Hc]. split; [done| |].
  - eapply Forall2_impl; [exact Hs|]. intros a s (t & Ht & ?). exists t. split; [set_solver|done].
  - intros t a s [Ht|Ht%list_elem_of_singleton]%elem_of_app Hsig; [eauto|subst; eauto].
Qed.

Lemma path_evidence_add ext nonce hash txs tx a s signers sigs :
  signs_list ext nonce hash tx a s -> a ∉ signers ->
  evidence ext nonce hash txs signers sigs ->
  evidence ext nonce hash (txs ++ [tx]) (signers ++ [a]) (sigs ++ [s]).
Proof.
  intros Hsig Ha [Hd Hs Hc]. split.
  - apply NoDup_app. split_and!; [done| |apply NoDup_singleton]. intros b Hb Hba. set_solver.
  - apply Forall2_app.
    + eapply Forall2_impl; [exact Hs|]. intros b u (t & Ht & ?). exists t. split; [set_solver|done].
    + constructor; [|constructor]. exists tx. split; [set_solver|done].
  - intros t b u [Ht|Ht%list_elem_of_singleton]%elem_of_app Hb; [set_solver|subst t].
    destruct Hsig as (_ & g & Hg & -> & Ha'), Hb as (_ & g' & Hg' & -> & Hb').
    rewrite Hg in Hg'. injection Hg' as <-. rewrite Ha' in Hb'. injection Hb' as <-. set_solver.
Qed.

Lemma collect_evidence ext nonce hash txs0 signers sigs txs r :
  evidence ext nonce hash txs0 signers sigs ->
  collect ext nonce hash (list_to_set signers) sigs txs = Ok r ->
  exists signers', evidence ext nonce hash (txs0 ++ txs) signers' r.
Proof.
  revert txs0 signers sigs. induction txs as [|tx txs IH]; intros txs0 signers sigs Hev Hr; cbn [collect] in Hr.
  { injection Hr as <-. exists signers. by rewrite app_nil_r. }
  rewrite (app_assoc txs0 [tx] txs : txs0 ++ tx :: txs = _).
  assert (Hskip : (forall a s, signs_list ext nonce hash tx a s -> a ∈ signers) ->
    collect ext nonce hash (list_to_set signers) sigs txs = Ok r ->
    exists signers', evidence ext nonce hash ((txs0 ++ [tx]) ++ txs) signers' r).
  { intros Hno Hr'. eapply IH; [|exact Hr']. by apply evidence_skip. }
  case_decide as Hst; [apply Hskip; [|done]; by intros a s [? _]|].
  destruct (recoverSignMachinePathListInputs (tx_Input tx)) as [[[e n] g]|err|] eqn:Hg;
    [|apply Hskip; [|done]; intros a s (_ & g & Hg' & _); congruence|done].
  case_decide as Hen.
  { apply Hskip; [|done]. intros a s (_ & g' & Hg' & _). rewrite Hg in Hg'. injection Hg' as -> ->. tauto. }
  assert (Heq : e = Z.of_N ext /\ n = nonce) by lia. destruct Heq as [-> ->]. cbn zeta in Hr.
  destruct (SignatureToSignersAddress hash (serializeSig g)) as [a|err|] eqn:Ha; [|..|done].
  - case_decide as Hin.
    + apply Hskip; [|done]. intros b s (_ & g' & Hg' & -> & Hb). rewrite Hg in Hg'. injection Hg' as <-.
      rewrite Ha in Hb. injection Hb as <-. set_solver.
    + assert (Hnot : a ∉ signers) by set_solver.
      eapply IH; [|].
      * apply path_evidence_add; [|exact Hnot|exact Hev]. split; [done|]. by exists g.
      * rewrite list_to_set_app_L. cbn [list_to_set]. rewrite union_empty_r_L, (union_comm_L _ {[a]}). exact Hr.
  - apply Hskip; [|done]. intros b s (_ & g' & Hg' & -> & Hb). rewrite Hg in Hg'. injection Hg' as <-. congruence.
Qed.

Lemma collectSignatures_evidence db manager ext nonce hash from to sigs :
  collectSignatures db manager ext nonce hash from to = Ok sigs ->
  exists txs signers, FetchTransactions db manager signMachinePathListSel from to = Ok txs /\
    evidence ext nonce hash txs signers sigs.
Proof.
  intros (txs & Htxs & Hr)%res_bind_ok. exists txs.
  destruct (collect_evidence ext nonce hash [] [] [] txs sigs) as (signers & Hev).
  - split; [constructor|constructor|]. intros tx a s Htx. by apply not_elem_of_nil in Htx.
  - exact Hr.
  - by exists signers.
Qed.

(** *** The Safe approval *)

(** The evidence the node checks: the call that approves exactly this list, made by the
    transaction of the log, which verifies against the governance at the nonce of the
    event. *)
Definition approved (db : DB) (gov : Governance) (manager : Address) (data : bytes) (chain : Z) (l : Log)
    (a : Approval ExecRest) : Prop :=
  exists e n txs tx b,
    ToEthLog l = Ok e /\ ParseMachinePathListApproved e = Ok n /\
    FetchTransactions db (gov_Safe gov) ExecTransactionSelector (i64 (i64 (BlockNumber l) - 1)) (i64 (BlockNumber l))
      = Ok txs /\
    tx ∈ txs /\ same_hash (tx_Hash tx) (TransactionHash l) = true /\
    hex_DecodeString (tx_Input tx) = Ok b /\ DecodeExecTransactionCalldata b = Ok (ExecTransaction a) /\
    To (ExecTransaction a) = manager /\ Operation (ExecTransaction a) = OperationCall /\
    in_Data (ExecTransaction a) = data /\ app_Nonce a = u64 n /\
    approval_Verify a chain (gov_Safe gov) (gov_Signers gov) (gov_Threshold gov) = Ok tt.

Lemma matchApproval_some input data manager i :
  matchApproval input data manager = Ok (Some i) ->
  exists b, hex_DecodeString input = Ok b /\ DecodeExecTransactionCalldata b = Ok i /\
    To i = manager /\ Operation i = OperationCall /\ in_Data i = data.
Proof.
  unfold matchApproval. destruct (hex_DecodeString input) as [b| |]; [|done..].
  destruct (DecodeExecTransactionCalldata b) as [j| |] eqn:Hj; [|done..].
  case_decide as Hto; [done|]. case_decide as Hd; [done|]. intros [= ->].
  exists b. destruct (decide (To i = manager)), (decide (Operation i = OperationCall)); tauto.
Qed.

Lemma approvalFromLog_some db gov manager data chain l a :
  approvalFromLog db gov manager data chain l = Ok (Some a) -> approved db gov manager data chain l a.
Proof.
  unfold approvalFromLog. intros (e & He & Hr)%res_bind_ok. rewrite wrap_ok in He.
  apply res_bind_ok in Hr as (n & Hn & Hr). rewrite wrap_ok in Hn.
  apply res_bind_ok in Hr as (tx & Htx & Hr). destruct tx as [tx|]; [|done].
  unfold execTransactionByHash in Htx. apply res_bind_ok in Htx as (txs & Htxs & [= Hfind]).
  destruct (list_find _ txs) as [[i tx']|] eqn:Hlf; [|done]. injection Hfind as ->.
  apply list_find_Some in Hlf as (Hi & Hsame & _). apply list_elem_of_lookup_2 in Hi.
  apply res_bind_ok in Hr as (inputs & Hin & Hr). destruct inputs as [inputs|]; [|done].
  destruct (matchApproval_some _ _ _ _ Hin) as (b & Hb & Hdec & Hto & Hop & Hdata). cbn zeta in Hr.
  destruct (approval_Verify (mkApproval inputs (u64 n)) chain (gov_Safe gov) (gov_Signers gov) (gov_Threshold gov))
    as [[]| |] eqn:Hver; [|done..]. injection Hr as <-.
  exists e, n, txs, tx, b. by split_and!.
Qed.

Lemma first_approval_some db gov manager data chain logs a :
  first_approval db gov manager data chain logs = Ok (Some a) ->
  exists l, l ∈ logs /\ approved db gov manager data chain l a.
Proof.
  induction logs as [|l logs IH]; cbn [first_approval]; [done|].
  intros (o & Ho & Hr)%res_bind_ok. destruct o as [a'|].
  - injection Hr as ->. exists l. split; [set_solver|by apply approvalFromLog_some].
  - destruct (IH Hr) as (k & Hk & ?). exists k. split; [set_solver|done].
Qed.

Lemma first_approval_none db gov manager data chain logs :
  first_approval db gov manager data chain logs = Ok None ->
  Forall (fun l => approvalFromLog db gov manager data chain l = Ok None) logs.
Proof.
  induction logs as [|l logs IH]; cbn [first_approval]; [by constructor|].
  intros (o & Ho & Hr)%res_bind_ok. destruct o as [a'|]; [done|]. constructor; auto.
Qed.
End Facts.

(** ** Properties *)

Section Theorems.
Context `{PathLib}.

(** The paths of a list come in the order in which they were added on the chain,
    whatever the order in which the indexer returns the logs, together with the
    earliest block; no log at all is the error for a list without paths.  The logs
    have different positions on the chain, so that any sorting algorithm gives this
    order. *)
Theorem fetchPaths_chain_order db manager ext nonce logs chain pss
    (fetched : FetchLogsFull db manager [machinePathsAddedEventSel; ext; Uint64ToHash nonce; zero_hash] (-1) = Ok logs)
    (on_chain : StronglySorted log_before chain) (same : chain ≡ₚ logs) (parsed : Forall2 adds chain pss) :
  match chain with
  | [] => fetchPaths db manager ext nonce = Fail errNoPaths
  | l :: _ => fetchPaths db manager ext nonce = Ok (concat pss, BlockNumber l)
              /\ Forall (fun k => BlockNumber l <= BlockNumber k) logs
  end /\
  (forall sorted, StronglySorted log_le sorted -> sorted ≡ₚ logs -> sorted = merge_sort log_le logs).
Proof.
  assert (Hsort : chain = merge_sort log_le logs).
  { apply sorted_unique; [done|apply StronglySorted_merge_sort; apply _|]. by rewrite merge_sort_Permutation. }
  split.
  - unfold fetchPaths. rewrite fetched. cbn [mbind res_bind]. rewrite <- Hsort, (parse_paths_adds _ _ parsed).
    destruct chain as [|l chain]; cbn [mbind res_bind].
    + rewrite decide_True; [done|]. by apply Permutation_nil_l in same.
    + rewrite decide_False by (intros ->; by apply Permutation_nil_r in same). split; [done|].
      rewrite <- same. apply StronglySorted_inv in on_chain as [_ Hall]. constructor; [lia|].
      eapply Forall_impl; [exact Hall|]. unfold log_before. lia.
  - intros sorted Hle Hp. rewrite <- Hsort. symmetry. apply sorted_unique; [done|done|]. by rewrite Hp.
Qed.

(** The latest signed list is the one with the highest nonce beyond the given one
    among the events of the query that fit 64 bits, with the block of its first event;
    there is none exactly when no such nonce is beyond it. *)
Theorem LatestSignedList_correct db manager ext after r :
  LatestSignedList db manager ext after = Ok r ->
  exists logs ns,
    FetchLogsFull db manager [MachinePathListSignedEventSel; ext; zero_hash; zero_hash] recentSignedLogsLimit = Ok logs /\
    Forall2 signed logs ns /\ is_latest after logs ns r.
Proof.
  unfold LatestSignedList. intros (logs & Hlogs & Hr)%res_bind_ok.
  destruct (scan_signed_latest after [] [] None logs r) as (ns & Hns & Hl); [constructor| |done|by exists logs, ns].
  intros n Hn. by apply not_elem_of_nil in Hn.
Qed.
End Theorems.

Section ActionTheorems.
Context `{PathLib, OpLib, !Json Queue.DirectInstruction}.

(** The two kinds of evidence. *)
Definition authorized (db : DB) (manager : Address) (gov : Governance) (ext : Hash) (chain nonce from to : Z)
    (hash : Hash) (sigs : list bytes) (approval : option (Approval ExecRest)) : Prop :=
  (exists txs signers, FetchTransactions db manager signMachinePathListSel from to = Ok txs /\
     evidence ext nonce hash txs signers sigs) /\
  (forall a, approval = Some a -> gov_Safe gov <> zero_address /\
     exists data logs l, ApproveMachinePathListCalldata ext nonce hash = Ok data /\
       FetchLogs db manager machinePathListApprovedEventSel from to = Ok logs /\
       l ∈ logs /\ approved db gov manager data chain l a) /\
  (sigs <> [] \/ approval <> None).

Lemma collectSafeApproval_some db gov manager ext nonce hash chain from to a :
  collectSafeApproval db gov manager ext nonce hash chain from to = Ok (Some a) ->
  exists data logs l, ApproveMachinePathListCalldata ext nonce hash = Ok data /\
    FetchLogs db manager machinePathListApprovedEventSel from to = Ok logs /\
    l ∈ logs /\ approved db gov manager data chain l a.
Proof.
  unfold collectSafeApproval. intros (data & Hdata & Hr)%res_bind_ok. rewrite wrap_ok in Hdata.
  apply res_bind_ok in Hr as (logs & Hlogs & Hr). rewrite wrap_ok in Hlogs.
  destruct (first_approval_some _ _ _ _ _ _ _ Hr) as (l & Hl & Ha). by exists data, logs, l.
Qed.

Lemma SetMachinePathListAction_ok db manager gov ext chain nonce toBlock id action :
  SetMachinePathListAction db manager gov ext chain nonce toBlock id = Ok action ->
  exists paths fromBlock dataHash hash sigs approval msg,
    fetchPaths db manager ext nonce = Ok (paths, fromBlock) /\
    MachinePathListDataHash ext nonce paths = Ok dataHash /\ PayloadHash chain dataHash = Ok hash /\
    authorized db manager gov ext chain nonce (i64 (i64 fromBlock - 1)) (i64 toBlock) hash sigs approval /\
    json_SetMachinePathListRequest paths nonce sigs approval = Ok msg /\
    Queue.PrepareDirectAction GovernanceType SetMachinePathList msg id = Ok action.
Proof.
  unfold SetMachinePathListAction. intros ([paths fromBlock] & Hpaths & Hr)%res_bind_ok. rewrite wrap_ok in Hpaths.
  apply res_bind_ok in Hr as (dataHash & Hdata & Hr). rewrite wrap_ok in Hdata.
  apply res_bind_ok in Hr as (hash & Hhash & Hr). rewrite wrap_ok in Hhash.
  apply res_bind_ok in Hr as (sigs & Hsigs & Hr). rewrite wrap_ok in Hsigs.
  apply res_bind_ok in Hr as (approval & Happ & Hr). case_decide as Hnone; [done|].
  apply res_bind_ok in Hr as (msg & Hmsg & Hr). rewrite wrap_ok in Hmsg.
  exists paths, fromBlock, dataHash, hash, sigs, approval, msg.
  do 3 (split; [done|]). split; [|done]. split; [|split].
  - apply collectSignatures_evidence in Hsigs as (txs & signers & ? & ?). by exists txs, signers.
  - intros a ->. case_decide as Hsafe; [|done]. rewrite wrap_ok in Happ.
    split; [done|by apply collectSafeApproval_some].
  - destruct sigs; [right|by left]. intros ->. tauto.
Qed.

(** C17: an action for a list is built only with evidence.  Its signatures come from
    successful transactions for this list, one for each signer found, of distinct
    signers, over the hash of the paths in chain order; a Safe approval is of exactly
    this list and passes the node's own check; and at least one of the two is there.
    When neither is, the error is [ErrNoAuthorization]. *)
Theorem SetMachinePathListAction_evidence db manager gov ext chain nonce toBlock id :
  match SetMachinePathListAction db manager gov ext chain nonce toBlock id with
  | Ok action =>
      exists paths fromBlock dataHash hash sigs approval msg,
        fetchPaths db manager ext nonce = Ok (paths, fromBlock) /\
        MachinePathListDataHash ext nonce paths = Ok dataHash /\ PayloadHash chain dataHash = Ok hash /\
        authorized db manager gov ext chain nonce (i64 (i64 fromBlock - 1)) (i64 toBlock) hash sigs approval /\
        json_SetMachinePathListRequest paths nonce sigs approval = Ok msg /\
        Queue.PrepareDirectAction GovernanceType SetMachinePathList msg id = Ok action
  | r =>
      forall paths fromBlock dataHash hash,
        fetchPaths db manager ext nonce = Ok (paths, fromBlock) ->
        MachinePathListDataHash ext nonce paths = Ok dataHash -> PayloadHash chain dataHash = Ok hash ->
        let from := i64 (i64 fromBlock - 1) in
        collectSignatures db manager ext nonce hash from (i64 toBlock) = Ok [] ->
        (gov_Safe gov = zero_address \/
         collectSafeApproval db gov manager ext nonce hash chain from (i64 toBlock) = Ok None) ->
        r = Fail ErrNoAuthorization
  end.
Proof.
  assert (Hnone : forall paths fromBlock dataHash hash,
    fetchPaths db manager ext nonce = Ok (paths, fromBlock) ->
    MachinePathListDataHash ext nonce paths = Ok dataHash -> PayloadHash chain dataHash = Ok hash ->
    let from := i64 (i64 fromBlock - 1) in
    collectSignatures db manager ext nonce hash from (i64 toBlock) = Ok [] ->
    gov_Safe gov = zero_address \/
    collectSafeApproval db gov manager ext nonce hash chain from (i64 toBlock) = Ok None ->
    SetMachinePathListAction db manager gov ext chain nonce toBlock id = Fail ErrNoAuthorization).
  { intros paths fromBlock dataHash hash Hp Hd Hh from Hs Hsafe. unfold SetMachinePathListAction.
    rewrite Hp. cbn [wrap mbind res_bind]. rewrite Hd. cbn [wrap mbind res_bind]. rewrite Hh. cbn [wrap mbind res_bind].
    fold from. rewrite Hs. cbn [wrap mbind res_bind]. case_decide as Hz; [|done].
    destruct Hsafe as [?| ->]; [done|]. cbn. by rewrite decide_True. }
  destruct (SetMachinePathListAction db manager gov ext chain nonce toBlock id) as [action|e|] eqn:Hact;
    [by apply SetMachinePathListAction_ok|exact Hnone|exact Hnone].
Qed.
End ActionTheorems.

(** ** Concrete libraries and an indexer *)

Module DemoMachinePath.
(** A log is its nonce and its paths; calldata is four bytes of selector and the
    extension, the nonce and the signer, one byte each; an execTransaction is one byte,
    the target. *)
#[export] Instance path_lib : PathLib := {|
  EthLog := Z * list Path;
  LogBody := Z * list Path;
  ExecRest := unit;
  convert_log b := Ok b;
  ParseMachinePathListSigned e := Ok e.1;
  ParseMachinePathsAdded e := Ok e.2;
  ParseMachinePathListApproved e := Ok e.1;
  MachinePathListSignedEventSel := 1%N;
  machinePathsAddedEventSel := 2%N;
  machinePathListApprovedEventSel := 3%N;
  signMachinePathListSel := 4;
  ExecTransactionSelector := 5;
  OperationCall := 0;
  Uint64ToHash z := Z.to_N z;
  UnpackSign b := match b with
    | [e; n; k] => Ok (Z.of_N (Byte.to_N e), Z.of_N (Byte.to_N n), mkSignature [k] [] 27)
    | _ => Fail (errorf []) end;
  SignatureToSignersAddress h s := match s with k :: _ => Ok (Byte.to_N k) | [] => Fail (errorf []) end;
  MachinePathListDataHash e n ps := Ok (e + Z.to_N n + N.of_nat (length ps))%N;
  PayloadHash c h := Ok h;
  ApproveMachinePathListCalldata e n h := Ok [byte_of n];
  DecodeExecTransactionCalldata b := match b with
    | [t; d] => Ok (mkInputs (Byte.to_N t) 0 [d] tt)
    | _ => Fail (errorf []) end;
  approval_Verify a c safe signers t := if decide (t <= zlen signers) then Ok tt else Fail (errorf []);
  json_SetMachinePathListRequest ps n sigs a := Ok (concat sigs)
|}.

Definition path (a b : Address) : Path := mkPath [a] [b].
(** Three additions to list 5, two of them in one block. *)
Definition on_chain : list Log :=
  [mkLog 10 3 "" (5, [path 1%N 2%N]); mkLog 10 7 "" (5, [path 3%N 4%N; path 5%N 6%N]); mkLog 12 0 "" (5, [])].

Definition db : DB := mkDB
  (fun _ topics _ => match topics with
     | 1%N :: _ => Ok [mkLog 30 0 "" (4, []); mkLog 20 0 "" (5, []); mkLog 15 1 "" (2 ^ 70, [])]
     | _ => Ok [mkLog 12 0 "" (5, []); mkLog 10 7 "" (5, [path 3%N 4%N; path 5%N 6%N]);
                mkLog 10 3 "" (5, [path 1%N 2%N])] end)
  (fun _ sel _ _ => if decide (sel = 4)
     then Ok [mkTransaction "a" 1 "00000000010509"; mkTransaction "b" 0 "00000000010508";
              mkTransaction "c" 1 "00000000010509"; mkTransaction "d" 1 "00000000010407"]
     else Ok [mkTransaction "0xAb" 1 "0705"])
  (fun _ _ _ _ => Ok [mkLog 20 1 "0xab" (3, [])]).

Definition gov : Governance := mkGovernance [8%N; 9%N] 2 6%N.

Lemma fetchPaths_chain_order_witness :
  fetchPaths db 7 1 5 = Ok ([path 1%N 2%N; path 3%N 4%N; path 5%N 6%N], 10).
Proof.
  destruct (fetchPaths_chain_order db 7 1 5 (reverse on_chain) on_chain
    [[path 1%N 2%N]; [path 3%N 4%N; path 5%N 6%N]; []]) as [[Hpaths _] _].
  - reflexivity.
  - repeat constructor; unfold log_before; cbn; lia.
  - by rewrite reverse_Permutation.
  - repeat constructor; eexists; split; reflexivity.
  - exact Hpaths.
Defined.

Lemma LatestSignedList_correct_witness :
  LatestSignedList db 7 1 3 = Ok (Some (5, 20)) /\ exists logs ns, is_latest 3 logs ns (Some (5, 20)).
Proof.
  split; [reflexivity|].
  destruct (LatestSignedList_correct db 7 1 3 (Some (5, 20))) as (logs & ns & _ & _ & Hl); [reflexivity|].
  by exists logs, ns.
Defined.

#[local] Existing Instance Demo.op_lib.
#[local] Instance direct_json : Json Queue.DirectInstruction :=
  {| json_Marshal d := Ok (Queue.di_Message d); json_Unmarshal b := Fail (errorf []) |}.

(** One signature, of signer 9, and the Safe's approval. *)
Example action_built :
  SetMachinePathListAction db 7 gov 1 14 5 20 (Ok 77%N)
  = Queue.PrepareDirectAction GovernanceType SetMachinePathList
      [Byte.x09; Byte.x00] (Ok 77%N).
Proof. vm_compute. reflexivity. Qed.
End DemoMachinePath.

End MachinePath.
