(* ===== verification/PathService.v ===== *)
(** The machine path list service ([internal/service/machinepath]): each poll looks
    for a list beyond the last confirmed one, submits it to the node and advances when
    the node confirms it. *)

From S2P Require Import Prelude Hex Types Redis Queue Results MachinePath.

Module PathService.
Import MachinePath.
Import Results(ActionResponse, Result, ar_Status).

Definition responseWaitTimeout : Z := 2 * 60 * second.

Section Service.
Context `{RedisLib, Queue.NameLib, !Json Action, !Json Queue.ActionSubmissionID, !Json Queue.DirectInstruction}.
Context `{OpLib, PathLib}.

(** The reported metrics. *)
Inductive PathMetric : Type := PollObserved (outcome : string) | NodeWait (err : option error).

Record Service : Type := mkService {
  aq : Queue.ActionQueues;
  managerAddress : Address;
  governance : Governance;
  extensionID : Hash;
  chainID : Z;
  lastNonce : Z;                (* uint64 *)
  metrics : list PathMetric
}.

Definition NewService (aq : Queue.ActionQueues) (managerAddress : Address) (governance : Governance)
    (extensionID : Hash) (chainID initialNonce : Z) : Service :=
  mkService aq managerAddress governance extensionID chainID initialNonce [].

Definition set_aq (s : Service) (q : Queue.ActionQueues) : Service :=
  mkService q (managerAddress s) (governance s) (extensionID s) (chainID s) (lastNonce s) (metrics s).
Definition set_lastNonce (s : Service) (n : Z) : Service :=
  mkService (aq s) (managerAddress s) (governance s) (extensionID s) (chainID s) n (metrics s).
Definition observe (s : Service) (m : PathMetric) : Service :=
  mkService (aq s) (managerAddress s) (governance s) (extensionID s) (chainID s) (lastNonce s) (metrics s ++ [m]).

(** What a poll meets: the indexer, the random action identifier, the time, and the
    outcome of the wait for the node. *)
Record Poll : Type := mkPoll {
  p_db : DB;
  p_id : res Hash;
  p_now : Z;
  p_response : res ActionResponse
}.

(** The list a poll finds, and the action it builds for it. *)
Definition found (s : Service) (p : Poll) : res (option (Z * Z)) :=
  LatestSignedList (p_db p) (managerAddress s) (extensionID s) (lastNonce s).
Definition build (s : Service) (p : Poll) (nonce toBlock : Z) : res Action :=
  SetMachinePathListAction (p_db p) (managerAddress s) (governance s) (extensionID s) (chainID s) nonce toBlock (p_id p).

(** The part of a poll after the action is queued: the wait for the node. *)
Definition await (s : Service) (p : Poll) (nonce : Z) : Service :=
  match p_response p with
  | Ok response =>
      let s := observe s (NodeWait None) in
      if decide (ar_Status (Result response) <> 1) then observe s (PollObserved "rejected")
      else observe (set_lastNonce s nonce) (PollObserved "confirmed")
  | Fail e =>
      let s := observe s (NodeWait (Some e)) in
      if negb (errors_Is e "context.Canceled") then observe s (PollObserved "wait_error") else s
  | Panic => s
  end.

Definition poll (s : Service) (p : Poll) : Service :=
  match found s p with
  | Ok None => observe s (PollObserved "no_change")
  | Ok (Some (nonce, toBlock)) =>
      match build s p nonce toBlock with
      | Ok action =>
          match Queue.Enqueue (aq s) (p_now p) action Queue.Direct with
          | (q, Ok _) => await (set_aq s q) p nonce
          | (q, _) => observe (set_aq s q) (PollObserved "enqueue_error")
          end
      | Fail e =>
          observe s (PollObserved (if errors_Is e (error_id ErrNoAuthorization) then "no_authorization" else "build_error"))
      | Panic => s
      end
  | _ => observe s (PollObserved "fetch_error")
  end.

(** [Run]: the polls until the context ends. *)
Definition Run (s : Service) (polls : list Poll) : Service := foldl poll s polls.

(** ** Theorems *)

(** The submission of list [nonce] that the node confirmed. *)
Definition confirms (s : Service) (p : Poll) (nonce : Z) : Prop :=
  exists toBlock action q response,
    found s p = Ok (Some (nonce, toBlock)) /\ build s p nonce toBlock = Ok action /\
    Queue.Enqueue (aq s) (p_now p) action Queue.Direct = (q, Ok tt) /\
    p_response p = Ok response /\ ar_Status (Result response) = 1.

Lemma found_newer s p nonce b : found s p = Ok (Some (nonce, b)) -> lastNonce s < nonce /\ is_uint64 nonce.
Proof.
  intros Hf. unfold found, LatestSignedList in Hf. apply res_bind_ok in Hf as (logs & _ & Hr).
  destruct (scan_signed_latest (lastNonce s) [] [] None logs _ ltac:(constructor)
    ltac:(intros n Hn; by apply not_elem_of_nil in Hn) Hr) as (ns & _ & Hl & Hu & _). done.
Qed.

Lemma await_nonce s p nonce :
  lastNonce (await s p nonce) = lastNonce s \/
  (exists response, p_response p = Ok response /\ ar_Status (Result response) = 1 /\ lastNonce (await s p nonce) = nonce).
Proof.
  unfold await. destruct (p_response p) as [r|e|]; [|by case_match; left|by left].
  case_decide as Hst; [by left|]. right. exists r. split_and!; try done.
Qed.

Lemma await_confirms s p nonce response :
  p_response p = Ok response -> ar_Status (Result response) = 1 -> lastNonce (await s p nonce) = nonce.
Proof. intros Hr Hst. unfold await. rewrite Hr, decide_False by tauto. done. Qed.

Lemma await_frame s p nonce : aq (await s p nonce) = aq s.
Proof. unfold await. by repeat case_match. Qed.

Lemma poll_advance s p :
  lastNonce (poll s p) = lastNonce s \/ (exists n, confirms s p n /\ lastNonce (poll s p) = n).
Proof.
  unfold poll, confirms. destruct (found s p) as [[[n b]|]| |] eqn:Hf; [|by left..].
  destruct (build s p n b) as [action| |] eqn:Hb; [|by left..].
  destruct (Queue.Enqueue (aq s) (p_now p) action Queue.Direct) as [q [[]| |]] eqn:Hq; [|by left..].
  destruct (await_nonce (set_aq s q) p n) as [?|(r & Hr & Hst & Hn)]; [by left|right].
  exists n. split; [|done]. by exists b, action, q, r.
Qed.

Lemma confirms_poll s p n : confirms s p n -> lastNonce (poll s p) = n /\ lastNonce s < n.
Proof.
  intros (b & action & q & r & Hf & Hb & Hq & Hr & Hst). split; [|by eapply found_newer].
  unfold poll. rewrite Hf, Hb, Hq. by eapply await_confirms.
Qed.

Lemma poll_queue s p :
  aq (poll s p) = aq s \/
  exists nonce toBlock action, found s p = Ok (Some (nonce, toBlock)) /\ build s p nonce toBlock = Ok action /\
    aq (poll s p) = (Queue.Enqueue (aq s) (p_now p) action Queue.Direct).1.
Proof.
  unfold poll. destruct (found s p) as [[[n b]|]| |] eqn:Hf; [|by left..].
  destruct (build s p n b) as [action| |] eqn:Hb; [|by left..]. right.
  exists n, b, action. split_and!; [done|done|].
  destruct (Queue.Enqueue (aq s) (p_now p) action Queue.Direct) as [q [[]| |]]; [by rewrite await_frame|done..].
Qed.

Lemma poll_mono s p : lastNonce s <= lastNonce (poll s p).
Proof. destruct (poll_advance s p) as [->|(n & Hc & ->)]; [lia|]. apply confirms_poll in Hc. lia. Qed.

(** A poll advances the last nonce exactly when the node confirms, with status 1,
    the latest newer list that the poll found, built and queued; otherwise the nonce
    stays for the next poll.  It queues at most one action, that of the list, on the
    direct queue. *)
Theorem poll_correct s p :
  (forall nonce, lastNonce (poll s p) = nonce /\ nonce <> lastNonce s <-> confirms s p nonce) /\
  (aq (poll s p) = aq s \/
   exists nonce toBlock action, found s p = Ok (Some (nonce, toBlock)) /\ build s p nonce toBlock = Ok action /\
     aq (poll s p) = (Queue.Enqueue (aq s) (p_now p) action Queue.Direct).1).
Proof.
  split; [|apply poll_queue]. intros nonce. split.
  - intros [<- Hne]. destruct (poll_advance s p) as [?|(n & Hc & ->)]; done.
  - intros Hc%confirms_poll. lia.
Qed.

(** The node's answer to the submission of an action: it was queued, and the response has
    status 1. *)
Definition node_confirms (s : Service) (p : Poll) (action : Action) : bool :=
  match (Queue.Enqueue (aq s) (p_now p) action Queue.Direct).2, p_response p with
  | Ok _, Ok response => bool_decide (ar_Status (Result response) = 1)
  | _, _ => false
  end.

(** The submissions of a run: the nonce of each list that a poll found and for which it
    built an action, and whether the node confirmed it. *)
Fixpoint submissions (s : Service) (polls : list Poll) : list (Z * bool) :=
  match polls with
  | [] => []
  | p :: polls =>
      match found s p with
      | Ok (Some (n, b)) =>
          match build s p n b with Ok action => [(n, node_confirms s p action)] | _ => [] end
      | _ => []
      end ++ submissions (poll s p) polls
  end.

(** What a poll submits: nothing and the nonce stays, a list that is not confirmed and the
    nonce stays, or a confirmed list with the new nonce. *)
Lemma poll_submits s p polls :
  exists new, submissions s (p :: polls) = new ++ submissions (poll s p) polls /\
  ((new = [] \/ exists n, new = [(n, false)] /\ lastNonce s < n) /\ lastNonce (poll s p) = lastNonce s \/
   exists n, new = [(n, true)] /\ lastNonce s < n /\ lastNonce (poll s p) = n).
Proof.
  cbn [submissions]. eexists. split; [reflexivity|].
  destruct (poll_advance s p) as [Hkeep|(n & Hc & Hn)].
  - destruct (found s p) as [[[n b]|]| |] eqn:Hf; [|by left; split; [left|]..].
    pose proof (found_newer _ _ _ _ Hf) as [Hlt _].
    destruct (build s p n b) as [action| |] eqn:Hb; [|by left; split; [left|]..].
    left. split; [|done]. right. exists n. split; [|done]. do 2 f_equal.
    unfold node_confirms. destruct (Queue.Enqueue _ _ _ _) as [q [[]| |]] eqn:Hq; [|done..]. cbn [snd].
    destruct (p_response p) as [r| |] eqn:Hr; [|done..]. apply bool_decide_false. intros Hst.
    enough (confirms s p n) as [Hn _]%confirms_poll by lia. by exists b, action, q, r.
  - right. exists n. pose proof (confirms_poll _ _ _ Hc) as [_ Hlt].
    destruct Hc as (b & action & q & r & Hf & Hb & Hq & Hr & Hst). rewrite Hf, Hb.
    split; [|done]. do 2 f_equal. unfold node_confirms. rewrite Hq, Hr. by apply bool_decide_true.
Qed.

Lemma submissions_newer s polls : Forall (fun x : Z * bool => lastNonce s < x.1) (submissions s polls).
Proof.
  revert s. induction polls as [|p polls IH]; intros s; [constructor|].
  destruct (poll_submits s p polls) as (new & -> & Hnew). apply Forall_app. split.
  - destruct Hnew as [[[->|(n & -> & Hn)] _]|(n & -> & Hn & _)]; [constructor|by repeat constructor..].
  - eapply Forall_impl; [apply IH|]. intros x Hx. cbn in *. pose proof (poll_mono s p). lia.
Qed.

(** C36: over any run of polls, every list submitted is newer than the initial nonce
    and newer than every list that the node confirmed before it, where confirmed means
    that the node answered its submission with status 1: a confirmed list, or an older
    one, is never handed to the node again, and one that was not confirmed does not block
    a later submission.  The last nonce is that of the last confirmed submission, or the
    initial one. *)
Theorem confirmed_never_resubmitted s polls :
  (forall i j n m c, submissions s polls !! i = Some (n, true) -> submissions s polls !! j = Some (m, c) ->
     (i < j)%nat -> n < m) /\
  Forall (fun x : Z * bool => lastNonce s < x.1) (submissions s polls) /\
  lastNonce (Run s polls)
  = default (lastNonce s) (last (fst <$> filter (fun x : Z * bool => x.2 = true) (submissions s polls))).
Proof.
  split; [|split; [apply submissions_newer|]].
  - revert s. induction polls as [|p polls IH]; intros s i j n m c Hi Hj Hij; [done|].
    pose proof (submissions_newer (poll s p) polls) as Hall.
    destruct (poll_submits s p polls) as (new & Hs & Hnew). rewrite Hs in Hi, Hj.
    destruct Hnew as [[[->|(k & -> & _)] _]|(k & -> & _ & Hk)]; [by eapply (IH (poll s p))|..];
      (destruct j as [|j]; [lia|]; destruct i as [|i]; [|eapply (IH (poll s p) i j); [done|done|lia]]); cbn in Hi, Hj.
    + congruence.
    + injection Hi as ->. rewrite Forall_lookup in Hall. apply Hall in Hj. cbn in Hj. lia.
  - revert s. induction polls as [|p polls IH]; intros s; [done|]. cbn [Run foldl].
    fold (Run (poll s p) polls). rewrite IH. destruct (poll_submits s p polls) as (new & -> & Hnew).
    destruct Hnew as [[[->|(k & -> & _)] Hk]|(k & -> & _ & Hk)]; rewrite Hk; [done| |].
    + cbn [app]. by rewrite filter_cons_False.
    + cbn [app]. rewrite filter_cons_True by done. rewrite fmap_cons, last_cons. cbn [fst]. by destruct (last _).
Qed.
End Service.
End PathService.
