(* ===== verification/Reports.v ===== *)
(** What the services report to the metrics: the calls behind the events that their states
    record, the counter series that exist from the start, those that the documented alerts
    watch, and what the services add to. *)

From S2P Require Import Prelude Hex Status Types Config Limiter VotingData Box Cyclic Rounds VotingStorage Redis Queue.
From S2P Require Import Results Wallets Instructions Policies PolicyService Attestation Metrics Info Handlers Internal MachinePath PathService.

Open Scope Z_scope.

Module Reports.
#[local] Existing Instance Metrics.Field_eq_dec.
#[local] Open Scope string_scope.
#[local] Open Scope list_scope.

(** ** Events as calls

    [d] is the duration that a call measures, and [now] the time that a gauge is set to. *)

Definition queue_call (e : Queue.QueueEvent) : Metrics.Method :=
  match e with
  | Queue.ActionEnqueued q r => Metrics.ActionEnqueued q r
  | Queue.ActionDequeued q r => Metrics.ActionDequeued q r
  | Queue.ActionRedelivery q r => Metrics.ActionRedelivery q r
  | Queue.QueueDepthReadFailed q => Metrics.QueueDepthReadFailed q
  end.

Definition result_call `{OpLib, Metrics.CommandNames} (e : Results.ResultEvent) : Metrics.Method :=
  match e with
  | Results.ResultMissingActionID => Metrics.ResultMissingActionID
  | Results.ResultRejected r => Metrics.ResultRejected r
  | Results.ResultChannelDropped c => Metrics.ResultChannelDropped c
  | Results.ResultProcessed c s => Metrics.ResultProcessed c s
  | Results.ResultLost => Metrics.ResultLost
  end.

Definition voting_call (e : VotingStorage.Event) : Metrics.Method :=
  match e with
  | VotingStorage.VotingStarted => Metrics.VotingStarted
  | VotingStorage.VotingThresholdReached d => Metrics.VotingThresholdReached d
  | VotingStorage.FinalizedActionLost r => Metrics.FinalizedActionLost r
  end.

Definition instruction_call (e : Instructions.InstructionEvent) : Metrics.Method :=
  match e with
  | Instructions.InstructionReceived => Metrics.InstructionReceived
  | Instructions.InstructionRejected r => Metrics.InstructionRejected r
  | Instructions.FinalizedActionEnqueueFailed => Metrics.FinalizedActionEnqueueFailed
  end.

Definition lost_call (e : Internal.LostEvent) : Metrics.Method :=
  match e with Internal.FinalizedActionLost r => Metrics.FinalizedActionLost r end.

Section Calls.
Context `{Metrics.NetErrors}.

Definition wallet_call (d : Z) (e : Wallets.WalletEvent) : Metrics.Method :=
  match e with
  | Wallets.WalletSyncObserved r => Metrics.WalletSyncObserved r
  | Wallets.WalletKeyUpdateFailed => Metrics.WalletKeyUpdateFailed
  | Wallets.NodeWait path err => Metrics.ObserveNodeWait path d err
  end.

Definition policy_call (d : Z) (now : SpecFloat.spec_float) (e : PolicyService.PolicyEvent_) : Metrics.Method :=
  match e with
  | PolicyService.SetActiveRewardEpoch epoch => Metrics.SetActiveRewardEpoch epoch
  | PolicyService.SetPolicyFetched => Metrics.SetPolicyFetched now
  | PolicyService.PolicyUpdate r => Metrics.PolicyUpdate r
  | PolicyService.NodeWait err => Metrics.ObserveNodeWait "policy_update" d err
  end.

Definition path_call (d : Z) (e : PathService.PathMetric) : Metrics.Method :=
  match e with
  | PathService.PollObserved r => Metrics.MachinepathPollObserved r
  | PathService.NodeWait err => Metrics.ObserveNodeWait "machinepath" d err
  end.

Definition info_call (d : Z) (e : Info.InfoMetric) : Metrics.Method :=
  match e with
  | Info.PreinitInfoStages l => Metrics.PreinitInfoStages l
  | Info.InfoRefreshFailed s => Metrics.InfoRefreshFailed s
  | Info.InfoRefreshExhausted s => Metrics.InfoRefreshExhausted s
  | Info.InfoRefreshObserved failed => Metrics.InfoRefreshObserved d failed
  | Info.NodeWait err => Metrics.ObserveNodeWait "info" d err
  | Info.AttestationVerified r reason => Metrics.AttestationVerified r reason
  end.
End Calls.

(** ** Standing series

    The counter series that exist from the start: the counters without labels, the series
    that [Metrics.New] creates at 0, and the stages that the information service does. *)

#[local] Instance Kind_eq_dec : EqDecision Metrics.Kind.
Proof. solve_decision. Defined.

Definition all_steps : list Metrics.Step := Metrics.select (fun _ => true) Metrics.collectorGroups.

Definition unlabelled : list (Metrics.Field * list string) :=
  omap (fun p : Metrics.Field * Metrics.Opts =>
    match Metrics.o_Kind p.2, Metrics.Labels p.2 with Metrics.Counter, [] => Some (p.1, []) | _, _ => None end)
    (Metrics.creates all_steps).

Definition prepared : list (Metrics.Field * list string) :=
  (fst <$> Metrics.seeds all_steps) ++ (fst <$> Metrics.entries (Metrics.PreinitInfoStages Info.stageLabels)).

Definition standing : list (Metrics.Field * list string) := unlabelled ++ prepared.

(** The outcomes that are no failures of the proxy or the node: successes, cancellations,
    empty queues, a queue that does not exist, and the processed results; and the retries of
    an undelivered action, which [METRICS.md] watches all the same ([retried] below). *)
Definition ordinary (f : Metrics.Field) (values : list string) : bool :=
  match f, values with
  | Metrics.actionEnqueued, [_; o] => bool_decide (o ∈ ["success"; "invalid_queue"])
  | Metrics.actionDequeued, [_; o] => bool_decide (o ∈ ["success"; "empty"; "cancelled"])
  | Metrics.actionRedelivery, [_; o] => bool_decide (o = "requeued")
  | Metrics.nodeWaitTotal, [_; o] => bool_decide (o ∈ ["ok"; "cancelled"])
  | Metrics.resultsProcessed, _ => true
  | _, _ => false
  end.

(** What an entry adds to: not a counter, a standing series, or one of an ordinary outcome. *)
Definition entry_prepared (e : Metrics.Field * list string * Metrics.Rec) : bool :=
  match e.2 with
  | Metrics.Add _ => bool_decide (e.1 ∈ standing) || ordinary e.1.1 e.1.2
  | _ => true
  end.
Definition call_prepared (mt : Metrics.Method) : Prop := forallb entry_prepared (Metrics.entries mt) = true.

Lemma queue_call_valid q o o' : Queue.queueByID q = Ok o' ->
  (o ∈ ["success"; "store_error"; "queue_error"] -> call_prepared (queue_call (Queue.ActionEnqueued (Queue.queueLabel q) o))) /\
  (o ∈ ["success"; "empty"; "cancelled"; "error"; "action_not_found"; "dequeue_error"] ->
     call_prepared (queue_call (Queue.ActionDequeued (Queue.queueLabel q) o))) /\
  (o ∈ ["requeued"; "exhausted"; "requeue_failed"] -> call_prepared (queue_call (Queue.ActionRedelivery (Queue.queueLabel q) o))).
Proof.
  intros Hq. split_and!; intros Ho; destruct q; try done;
    repeat (apply elem_of_cons in Ho as [->|Ho]; [vm_compute; reflexivity|]); by apply elem_of_nil in Ho.
Qed.

(** ** What the operations report is prepared *)

(** The events of a state, all of them prepared. *)
Abbreviation all_prepared call l := (Forall (fun e => call_prepared (call e)) l) (only parsing).

Lemma all_prepared_snoc {E} (call : E -> Metrics.Method) l e :
  all_prepared call l -> call_prepared (call e) -> all_prepared call (l ++ [e]).
Proof. intros Hl He. apply Forall_app. split; [done|]. by apply Forall_singleton. Qed.

Section QueueFacts.
Context `{RedisLib, Queue.NameLib, !Json Action, !Json Queue.ActionSubmissionID}.
Abbreviation ok q := (all_prepared queue_call (Queue.qevents q)).

Lemma Enqueue_prepared q now a k : ok q -> ok (Queue.Enqueue q now a k).1.
Proof.
  intros Hq. unfold Queue.Enqueue. destruct (Queue.queueByID k) as [p|e|] eqn:Hk.
  - destruct (queue_call_valid k "success" p Hk) as [Hs _], (queue_call_valid k "store_error" p Hk) as [Hst _],
      (queue_call_valid k "queue_error" p Hk) as [Hqe _].
    repeat case_match; cbn; try done; apply all_prepared_snoc; try done; set_solver.
  - cbn. apply all_prepared_snoc; [done|]. by destruct k.
  - done.
Qed.

Lemma Dequeue_prepared q now cancelled k : ok q -> ok (Queue.Dequeue q now cancelled k).1.
Proof.
  intros Hq. unfold Queue.Dequeue. destruct (Queue.queueByID k) as [p|e|] eqn:Hk; [|done..].
  pose proof (fun o => proj1 (proj2 (queue_call_valid k o p Hk))) as Hv.
  destruct cancelled as [e|]; [cbn; apply all_prepared_snoc; [done|apply Hv; set_solver]|].
  destruct (RedisStorage.Dequeue p _) as [r [id|e|]]; [|cbn; apply all_prepared_snoc; [done|]|done].
  - repeat case_match; cbn; try done; (apply all_prepared_snoc; [done|apply Hv; set_solver]).
  - destruct (errors_Is _ _); apply Hv; set_solver.
Qed.

Lemma Restore_prepared q d p : Queue.queueByID (Queue.del_queueID d) = Ok p -> ok q -> ok (Queue.Restore q d).1.
Proof.
  intros Hd Hq. pose proof (fun o => proj2 (proj2 (queue_call_valid _ o p Hd))) as Hv. unfold Queue.Restore.
  case_decide; repeat case_match; cbn; try done; (apply all_prepared_snoc; [done|apply Hv; set_solver]).
Qed.

Lemma Commit_prepared q d : ok q -> ok (Queue.Commit q d).1.
Proof. intros Hq. unfold Queue.Commit. by repeat case_match. Qed.
End QueueFacts.

Section ResultFacts.
Context {W : Type} `{StorageI W Results.ActionResponse, Queue.NameLib, OpLib, Results.SignerLib, Metrics.CommandNames}.
Implicit Types sv : Results.Service (W := W).
Abbreviation ok sv := (all_prepared result_call (Results.revents sv)).

Lemma emit_prepared sv e : call_prepared (result_call e) -> ok sv -> ok (Results.emit sv e).
Proof. intros He Hs. by apply all_prepared_snoc. Qed.

Lemma processed_prepared c s : call_prepared (result_call (Results.ResultProcessed c s)).
Proof. unfold call_prepared. cbn -[standing]. by rewrite orb_true_r. Qed.

Lemma hooks_prepared sv r : ok sv -> ok (Results.trigger_hooks sv r).
Proof.
  intros Hs. unfold Results.trigger_hooks.
  repeat case_decide; cbn; try done; (apply all_prepared_snoc; [done|vm_compute; reflexivity]).
Qed.

Lemma admit_prepared sv r : ok sv -> ok (Results.admit_response sv r).1.
Proof.
  intros Hs. unfold Results.admit_response.
  repeat case_match; cbn; try done; (apply all_prepared_snoc; [done|vm_compute; reflexivity]).
Qed.

Lemma ProcessAndStore_prepared sv now r : ok sv -> ok (Results.ProcessAndStore sv now r).1.
Proof.
  intros Hs. unfold Results.ProcessAndStore.
  case_decide; [cbn; apply all_prepared_snoc; [done|vm_compute; reflexivity]|].
  pose proof (admit_prepared sv r Hs) as Ha. destruct (Results.admit_response sv r) as [s1 [[]|e|]]; cbn in *; [|done..].
  set (s2 := if decide _ then _ else s1).
  assert (Hs2 : ok s2) by (unfold s2; case_decide; [by apply hooks_prepared|done]).
  pose proof (emit_prepared s2 _ (processed_prepared (Results.ar_OPCommand (Results.Result r)) (Results.ar_Status (Results.Result r))) Hs2) as Hs3.
  destruct (Results.StoreResponse _ now r) as [w [[]|e|]]; [exact Hs3| |exact Hs3].
  destruct (_ || _); [exact Hs3|]. apply emit_prepared; [vm_compute; reflexivity|exact Hs3].
Qed.
End ResultFacts.

(** ** Voting and instructions *)

Section VotingFacts.
Context `{OpLib, InstructionLib, CyclicLib}.
Import VotingStorage.
Implicit Types s : VotingStorage.Storage.
Abbreviation ok s := (all_prepared voting_call (VotingStorage.events s)).

Lemma voting_emit s l : all_prepared voting_call l -> ok s -> ok (VotingStorage.emit s l).
Proof. intros Hl Hs. apply Forall_app. by split. Qed.

Lemma consensus_events s e : events (recordConsensusEpoch s e) = events s.
Proof. unfold recordConsensusEpoch. by case_decide. Qed.

Lemma finish_prepared s b r l epoch signer sent : ok s -> ok (finish_vote s b r l epoch signer sent).1.
Proof.
  intros Hs. destruct b as [[p id] hash]. unfold finish_vote.
  set (s1 := if lk_startedBox l then _ else s).
  assert (Hs1 : ok s1) by (unfold s1; destruct (lk_startedBox l); [by apply voting_emit; [repeat constructor|]|done]).
  set (s2 := set_round s1 p _). assert (Hs2 : ok s2) by done.
  set (s3 := if lk_reached l then _ else s2).
  assert (Hs3 : ok s3).
  { unfold s3. destruct (lk_reached l); [|done]. rewrite consensus_events. apply voting_emit; [by repeat constructor|done]. }
  set (s4 := if lk_buildErr l then _ else s3).
  assert (Hs4 : ok s4).
  { unfold s4. destruct (lk_buildErr l); [|done]. apply voting_emit; [|done]. apply Forall_singleton. vm_compute. reflexivity. }
  destruct (lk_actionToSend l); [|done]. destruct sent; [done|].
  apply voting_emit; [|done]. apply Forall_singleton. vm_compute. reflexivity.
Qed.

Lemma AddVote_prepared s mt data signer sig c sent : ok s -> ok (AddVote s mt data signer sig c sent).1.
Proof.
  intros Hs. unfold AddVote. repeat (case_match; try done). by apply finish_prepared.
Qed.

Lemma scheduleEnd_prepared s b now taken : ok s -> ok (scheduleEnd s b now taken).1.
Proof.
  intros Hs. destruct b as [[p id] h]. unfold scheduleEnd.
  destruct (heap s !! p); [|done]. destruct (boxes_M _ !! h); [|done]. case_decide; [done|].
  destruct (Box.closeBox _ _) as [vb [[actions lost]|e|]]; [|done..]. cbn [fst].
  set (s1 := emit _ (replicate lost _)).
  assert (Hs1 : ok s1).
  { apply voting_emit; [|done]. apply Forall_replicate. vm_compute. reflexivity. }
  case_decide; cbn [fst]; [|exact Hs1].
  apply voting_emit; [apply Forall_singleton; vm_compute; reflexivity|exact Hs1].
Qed.

Lemma StoreNewRound_events s p : events (StoreNewRound s p) = events s.
Proof. unfold StoreNewRound. by repeat case_match. Qed.
End VotingFacts.

(** Every label of a rejection has its series. *)
Lemma rejection_prepared err : call_prepared (Metrics.InstructionRejected (Instructions.RejectReason err)).
Proof. unfold Instructions.RejectReason. repeat (destruct (Instructions.is_any err _); [vm_compute; reflexivity|]). vm_compute. reflexivity. Qed.

Section InstructionFacts.
Context `{OpLib, InstructionLib, CyclicLib, RedisLib, Queue.NameLib, !Json Action, !Json Queue.ActionSubmissionID}.
Import Instructions.
Implicit Types s : Instructions.Service.

Record instructions_ok s : Prop := {
  io_own : all_prepared instruction_call (ievents s);
  io_voting : all_prepared voting_call (VotingStorage.events (vs s))
}.

Lemma report_prepared s e : call_prepared (instruction_call e) -> instructions_ok s -> instructions_ok (report s e).
Proof. intros He [Ho Hv]. constructor; [by apply all_prepared_snoc|done]. Qed.
Lemma set_vs_prepared s v :
  all_prepared voting_call (VotingStorage.events v) -> instructions_ok s -> instructions_ok (set_vs s v).
Proof. intros Hv [Ho _]. by constructor. Qed.

Lemma ServeInstruction_prepared s mt i c sent : instructions_ok s -> instructions_ok (ServeInstruction s mt i c sent).1.
Proof.
  intros Hs. unfold ServeInstruction.
  assert (Hr : instructions_ok (report s InstructionReceived)) by (by apply report_prepared).
  case_decide; [apply report_prepared; [vm_compute; reflexivity|done]|].
  destruct (negb _); [apply report_prepared; [vm_compute; reflexivity|done]|].
  destruct (RecoverSigner _ _) as [signer|e|]; [|apply report_prepared; [vm_compute; reflexivity|done]|done].
  pose proof (AddVote_prepared _ mt (instruction_Data i) signer (instruction_Signature i) c sent (io_voting _ Hr)) as Hv.
  destruct (VotingStorage.AddVote _ _ _ _ _ _ _) as [v [rc|e|]]; cbn [fst] in *; [by apply set_vs_prepared| |by apply set_vs_prepared].
  destruct (errors_Is _ _); [by apply set_vs_prepared|].
  apply report_prepared; [apply rejection_prepared|by apply set_vs_prepared].
Qed.

Lemma Forward_prepared s now : instructions_ok s -> instructions_ok (Forward_step s now).
Proof.
  intros [Ho Hv]. unfold Forward_step. destruct (_ !! _) as [[b action]|]; [|by constructor].
  destruct (Queue.Enqueue _ _ _ _) as [q [[]|e|]]; [by constructor|apply report_prepared; [done|by constructor]|by constructor].
Qed.

Lemma istep_prepared s s' : istep s s' -> instructions_ok s -> instructions_ok s'.
Proof.
  intros [l []] Hs.
  - by apply ServeInstruction_prepared.
  - by apply Forward_prepared.
  - apply set_vs_prepared; [|done]. rewrite StoreNewRound_events. apply Hs.
  - apply set_vs_prepared; [|done]. apply scheduleEnd_prepared, Hs.
  - apply set_vs_prepared; [|done]. apply Hs.
  - by destruct Hs; constructor.
Qed.
End InstructionFacts.

(** ** Waits for the node *)

Definition wait_paths : list string := ["info"; "machinepath"; "wallet_key_info"; "wallet_key_proof"; "policy_update"].

Section NodeFacts.
Context `{RedisLib, Queue.NameLib, !Json Action, !Json Queue.ActionSubmissionID, !Json Queue.DirectInstruction}.
Context `{OpLib, Metrics.NetErrors}.
Variable d : Z.
Variable clock : SpecFloat.spec_float.

Lemma nodeWaitResult_cases err : Metrics.nodeWaitResult err ∈ ["ok"; "timeout"; "cancelled"; "error"].
Proof.
  destruct err as [e|]; cbn [Metrics.nodeWaitResult]; [|set_solver].
  destruct (_ || _); [set_solver|]. destruct (bool_decide _); [set_solver|]. destruct (errors_Is _ _); set_solver.
Qed.

Lemma wait_prepared path err : path ∈ wait_paths -> call_prepared (Metrics.ObserveNodeWait path d err).
Proof.
  intros Hp. unfold call_prepared, Metrics.ObserveNodeWait. generalize (Metrics.Seconds d) as x. intros x.
  pose proof (nodeWaitResult_cases err) as Hr. revert Hr. generalize (Metrics.nodeWaitResult err) as r. intros r Hr.
  unfold wait_paths in Hp.
  repeat (apply elem_of_cons in Hp as [->|Hp];
    [repeat (apply elem_of_cons in Hr as [->|Hr]; [vm_compute; reflexivity|]); by apply elem_of_nil in Hr|]).
  by apply elem_of_nil in Hp.
Qed.

(** *** Wallets *)

Section WalletFacts.
Context `{Wallets.WalletLib}.
Import Wallets.

Record wallets_ok (s : Wallets.Service) : Prop := {
  wo_own : all_prepared (wallet_call d) (wevents s);
  wo_queue : all_prepared queue_call (Queue.qevents (aq s))
}.

Lemma wallet_event (s : Wallets.Service) e :
  call_prepared (wallet_call d e) -> wallets_ok s ->
  wallets_ok (Wallets.mkService (cache s) (aq s) (syncing s) (wevents s ++ [e])).
Proof. intros He [Ho Hq]. constructor; [by apply all_prepared_snoc|done]. Qed.
Lemma observe_prepared s o :
  o ∈ ["success"; "enqueue_error"; "wait_error"; "parse_error"; "skipped"] -> wallets_ok s -> wallets_ok (Wallets.observe s o).
Proof.
  intros Ho. apply wallet_event.
  repeat (apply elem_of_cons in Ho as [->|Ho]; [vm_compute; reflexivity|]). by apply elem_of_nil in Ho.
Qed.
Lemma waited_prepared s path err : path ∈ wait_paths -> wallets_ok s -> wallets_ok (waited s path err).
Proof. intros Hp. apply wallet_event. by apply wait_prepared. Qed.
Lemma wallets_set s c b : wallets_ok s -> wallets_ok (set_syncing (set_cache s c) b).
Proof. intros [Ho Hq]. by constructor. Qed.

Lemma ask_prepared {A} s path now action response (parse : Results.ActionResult -> res A) :
  path ∈ wait_paths -> wallets_ok s -> wallets_ok (ask s path now action response parse).1.
Proof.
  intros Hp [Ho Hq]. unfold ask, failing.
  pose proof (Enqueue_prepared (aq s) now action Queue.Direct Hq) as He.
  destruct (Queue.Enqueue _ _ _ _) as [q [[]|e|]]; cbn [fst] in *;
    [|apply observe_prepared; [set_solver|by constructor]|by constructor].
  pose proof (waited_prepared (set_aq s q) path (failure response) Hp ltac:(by constructor)) as Hw.
  destruct response as [r|e|]; [|destruct (errors_Is _ _); [exact Hw|apply observe_prepared; [set_solver|exact Hw]]|exact Hw].
  destruct (parse _); [exact Hw|apply observe_prepared; [set_solver|exact Hw]|exact Hw].
Qed.

Lemma fetchKeyInfo_prepared s now id response : wallets_ok s -> wallets_ok (fetchKeyInfo s now id response).1.
Proof.
  intros Hs. unfold fetchKeyInfo, failing. destruct (keysInfoAction id); [|by apply observe_prepared; [set_solver|]|done].
  apply ask_prepared; [unfold wait_paths; set_solver|done].
Qed.
Lemma fetchKeyProofs_prepared s now batch id response : wallets_ok s -> wallets_ok (fetchKeyProofs s now batch id response).1.
Proof.
  intros Hs. unfold fetchKeyProofs, failing.
  destruct (json_Marshal_pairs batch); [|by apply observe_prepared; [set_solver|]|done].
  destruct (Queue.PrepareDirectAction _ _ _ _); [|by apply observe_prepared; [set_solver|]|done].
  apply ask_prepared; [unfold wait_paths; set_solver|done].
Qed.
Lemma write_batch_prepared s proofs : wallets_ok s -> wallets_ok (write_batch s proofs).1.
Proof.
  intros Hs. unfold write_batch, failing. destruct (store_proofs _ _) as [c [[]|e|]]; cbn [fst].
  1, 3: by destruct Hs; constructor.
  apply observe_prepared; [set_solver|]. by destruct Hs; constructor.
Qed.

Lemma fst_is {A B} (m : A * B) a b : m = (a, b) -> a = m.1.
Proof. by intros ->. Qed.

Lemma sync_step_prepared st st' : sync_step st st' -> wallets_ok st.1 -> wallets_ok st'.1.
Proof.
  destruct 1 as [s a s' r Hf|s a s' e Hf| | |s a s' r l b bs pf Hf|s a s' r l b bs e Hf|s s' r l bs pf Hf
    |s s' r l bs pf e Hf|s s' r l bs pf Hf|]; cbn [fst finish]; intros Hs;
    try (apply fst_is in Hf as ->).
  - by apply fetchKeyInfo_prepared.
  - by destruct (fetchKeyInfo_prepared s (ans_now a) (ans_id a) (ans_response a) Hs); constructor.
  - done.
  - done.
  - by apply fetchKeyProofs_prepared.
  - by destruct (fetchKeyProofs_prepared s (ans_now a) b (ans_id a) (ans_response a) Hs); constructor.
  - by apply write_batch_prepared.
  - by destruct (write_batch_prepared s pf Hs); constructor.
  - by apply write_batch_prepared.
  - assert (Ho : wallets_ok (Wallets.observe (set_cache s (removeStaleKeys (cache s) remote local)) "success")).
    { apply observe_prepared; [set_solver|]. by destruct Hs; constructor. }
    by destruct Ho; constructor.
Qed.

Lemma wstep_prepared st st' : wstep st st' -> wallets_ok st.1 -> wallets_ok st'.1.
Proof.
  intros (_ & l & Hl & Hstep). destruct Hstep as [s ps action s' o Ha|s ps|s ps i p s' p' _ Hx|]; cbn [fst]; intros Hs; [..|done].
  - apply fst_is in Ha as ->. unfold apply_key_action. destruct (update _ _) as [c [[id added]|e|]]; cbn [fst];
      [|apply wallet_event; [vm_compute; reflexivity|]|]; by destruct Hs; constructor.
  - unfold triggerSync. destruct (syncing s); [apply observe_prepared; [set_solver|done]|].
    by destruct Hs; constructor.
  - by apply (sync_step_prepared _ _ Hx).
Qed.
End WalletFacts.

(** *** Signing policies *)

Section PolicyFacts.
Context `{Policies.PolicyLib}.
Import PolicyService.
Implicit Types s : PolicyService.Service.

Record policy_ok s : Prop := {
  po_own : all_prepared (policy_call d clock) (pevents s);
  po_queue : all_prepared queue_call (Queue.qevents (aq s))
}.

Lemma note_prepared s e : call_prepared (policy_call d clock e) -> policy_ok s -> policy_ok (note s e).
Proof. intros He [Ho Hq]. constructor; [by apply all_prepared_snoc|done]. Qed.
Lemma update_prepared s o :
  o ∈ ["empty"; "fetch_error"; "reconciled"; "reconcile_error"; "build_failed"; "pubkey_mismatch"; "sig_deadline";
       "indexer"; "not_consecutive"; "enqueue_failed"; "await_failed"; "rejected"; "applied"] ->
  policy_ok s -> policy_ok (observe s o).
Proof.
  intros Ho. apply (note_prepared s (PolicyUpdate o)).
  repeat (apply elem_of_cons in Ho as [->|Ho]; [vm_compute; reflexivity|]). by apply elem_of_nil in Ho.
Qed.
Lemma set_active_prepared s p : policy_ok s -> policy_ok (set_active s p).
Proof. intros [Ho Hq]. constructor; [apply Forall_app; split; [done|by repeat constructor]|done]. Qed.
Lemma put_prepared s p : policy_ok s -> policy_ok (put s p).
Proof. intros [Ho Hq]. by constructor. Qed.
Lemma set_queue_prepared s q : all_prepared queue_call (Queue.qevents q) -> policy_ok s -> policy_ok (set_aq s q).
Proof. intros Hq [Ho _]. by constructor. Qed.

Lemma failure_reason_known err :
  Policies.UpdateFailureReason (Some err) ∈ ["build_failed"; "pubkey_mismatch"; "sig_deadline"; "indexer"; "not_consecutive"].
Proof.
  unfold Policies.UpdateFailureReason. destruct (errors_Is _ _); [set_solver|]. destruct (errors_Is _ _); [set_solver|].
  destruct (_ || _); [set_solver|]. destruct (errors_Is _ _); set_solver.
Qed.

Lemma retry_prepared q action times :
  all_prepared queue_call (Queue.qevents q) -> all_prepared queue_call (Queue.qevents (retry_enqueue q action times).1).
Proof.
  revert q. induction times as [|now times IH]; intros q Hq; cbn [retry_enqueue]; [done|].
  pose proof (Enqueue_prepared q now action Queue.Direct Hq) as He.
  destruct (Queue.Enqueue _ _ _ _) as [q1 [[]|e|]]; cbn [fst] in *; [done|by apply IH..].
Qed.

Lemma emit_policy_prepared s p emitted : policy_ok s -> policy_ok (emit s p emitted).1.
Proof. intros Hs. unfold emit. destruct emitted; [by apply put_prepared|done]. Qed.

Lemma apply_update_prepared s r action p : policy_ok s -> policy_ok (apply_update s r action p).1.
Proof.
  intros Hs. unfold apply_update.
  pose proof (retry_prepared (aq s) action (take enqueueMaxAttempts (r_times r)) ltac:(apply Hs)) as Hq.
  destruct (retry_enqueue _ _ _) as [q enqueued]. cbn [fst] in Hq.
  pose proof (set_queue_prepared s q Hq Hs) as Hs1.
  destruct enqueued; cbn [negb fst]; [|by apply update_prepared; [set_solver|]].
  assert (Hs2 : policy_ok (note (set_aq s q) (NodeWait (failure (r_response r))))).
  { apply note_prepared; [|done]. apply wait_prepared. unfold wait_paths. set_solver. }
  destruct (r_response r) as [resp|e|]; cbn [fst]; [|by apply update_prepared; [set_solver|]..].
  case_decide; [by apply update_prepared; [set_solver|]|].
  apply emit_policy_prepared, update_prepared; [set_solver|]. by apply set_active_prepared.
Qed.

Lemma update_round_prepared s active r : policy_ok s -> policy_ok (update_round s active r).1.
Proof.
  intros Hs. unfold update_round, reconcile. destruct (r_cancelled r); [done|].
  case_decide.
  { destruct (Policies.FetchSigningPolicy _ _ _) as [[p|]| |]; [|by apply update_prepared; [set_solver|]..].
    apply emit_policy_prepared, update_prepared; [set_solver|]. by apply set_active_prepared. }
  destruct (Policies.FetchSigningPolicyLog _ _ _) as [[log|]| |]; [| |by apply update_prepared; [set_solver|]..].
  - destruct (Policies.UpdatePolicyAction _ _ _ _ _ _ _ _) as [[[action p]|e|]|]; [by apply apply_update_prepared| |done..].
    apply update_prepared; [|done]. pose proof (failure_reason_known e). set_solver.
  - apply update_prepared; [set_solver|]. by apply note_prepared.
Qed.

Lemma policy_update_prepared s rounds : policy_ok s -> policy_ok (PolicyService.update s rounds).
Proof.
  revert s. induction rounds as [|r rounds IH]; intros s Hs; cbn [PolicyService.update]; [done|].
  destruct (activePolicy s) as [active|]; [|done].
  pose proof (update_round_prepared s active r Hs) as Hr.
  destruct (update_round s active r) as [s1 []]; cbn [fst] in Hr; [by apply IH|done].
Qed.

Lemma Initialize_prepared fuel s db offset info now id out :
  policy_ok s -> Initialize fuel s db offset info now id = Some out -> policy_ok out.1.
Proof.
  intros Hs. unfold Initialize. case_decide.
  - destruct (backfill _ _ _ _ _ _) as [[ps|e|]|]; [|intros [= <-]; exact Hs|intros [= <-]; exact Hs|done].
    destruct (last ps) as [p|]; intros [= <-]; [|exact Hs]. cbn [fst].
    destruct (set_active_prepared s p Hs). by constructor.
  - destruct (Policies.InitializePolicyAction _ _ _ _ _) as [[[action p] k]|e|]; [|intros [= <-]; exact Hs..].
    pose proof (set_active_prepared s p Hs) as Hs1.
    pose proof (Enqueue_prepared (aq (set_active s p)) now action Queue.Direct (po_queue _ Hs1)) as Hq.
    destruct (Queue.Enqueue _ _ _ _) as [q o]. intros [= <-]. by apply set_queue_prepared.
Qed.
End PolicyFacts.

(** *** Machine paths *)

Section PathFacts.
Context `{MachinePath.PathLib}.
Import PathService.
Implicit Types s : PathService.Service.

Record paths_ok s : Prop := {
  pa_own : all_prepared (path_call d) (metrics s);
  pa_queue : all_prepared queue_call (Queue.qevents (aq s))
}.

Lemma path_event s e : call_prepared (path_call d e) -> paths_ok s -> paths_ok (observe s e).
Proof. intros He [Ho Hq]. constructor; [by apply all_prepared_snoc|done]. Qed.
Lemma poll_event s o :
  o ∈ ["fetch_error"; "no_change"; "build_error"; "no_authorization"; "enqueue_error"; "wait_error"; "rejected"; "confirmed"] ->
  paths_ok s -> paths_ok (observe s (PollObserved o)).
Proof.
  intros Ho. apply path_event.
  repeat (apply elem_of_cons in Ho as [->|Ho]; [vm_compute; reflexivity|]). by apply elem_of_nil in Ho.
Qed.
Lemma node_event s err : paths_ok s -> paths_ok (observe s (NodeWait err)).
Proof. apply path_event, wait_prepared. unfold wait_paths. set_solver. Qed.

Lemma await_prepared s p nonce : paths_ok s -> paths_ok (await s p nonce).
Proof.
  intros Hs. unfold await. destruct (p_response p) as [r|e|]; [| |done].
  - pose proof (node_event s None Hs) as Hn. case_decide; [by apply poll_event; [set_solver|]|].
    apply poll_event; [set_solver|]. by destruct Hn; constructor.
  - pose proof (node_event s (Some e) Hs) as Hn. destruct (negb _); [by apply poll_event; [set_solver|]|done].
Qed.

Lemma poll_prepared s p : paths_ok s -> paths_ok (poll s p).
Proof.
  intros Hs. unfold poll. destruct (found s p) as [[[nonce b]|]| |]; [|by apply poll_event; [set_solver|]..].
  destruct (build s p nonce b) as [action|e|]; [|by apply poll_event; [destruct (errors_Is _ _); set_solver|]|done].
  pose proof (Enqueue_prepared (aq s) (p_now p) action Queue.Direct (pa_queue _ Hs)) as Hq.
  assert (Hset : forall q, all_prepared queue_call (Queue.qevents q) -> paths_ok (set_aq s q)) by (intros q ?; by destruct Hs; constructor).
  destruct (Queue.Enqueue _ _ _ _) as [q [[]|e|]]; cbn [fst] in Hq; [apply await_prepared|apply poll_event; [set_solver|]..]; auto.
Qed.

Lemma Run_prepared s polls : paths_ok s -> paths_ok (PathService.Run s polls).
Proof. revert s. induction polls as [|p polls IH]; intros s Hs; [done|]. by apply IH, poll_prepared. Qed.
End PathFacts.

(** *** Node information *)

Section InfoFacts.
Context `{Info.InfoLib, Attestation.AttestationLib, !Json Attestation.TeeInfoResponse}.
Import Info.
Implicit Types s : Info.Service.

Record info_ok s : Prop := {
  in_own : all_prepared (info_call d) (metrics s);
  in_queue : all_prepared queue_call (Queue.qevents (actionQueues s))
}.

Lemma info_event s e : call_prepared (info_call d e) -> info_ok s -> info_ok (observe s e).
Proof. intros He [Ho Hq]. constructor; [by apply all_prepared_snoc|done]. Qed.

Lemma stage_prepared st : call_prepared (Metrics.InfoRefreshFailed (String_ st)) /\ call_prepared (Metrics.InfoRefreshExhausted (String_ st)).
Proof. destruct st; split; vm_compute; reflexivity. Qed.

Lemma fail_prepared {A} s st e : info_ok s -> info_ok (fail (A:=A) s st e).1.
Proof. apply info_event, stage_prepared. Qed.
Lemma at_stage_prepared {A} s st (m : res A) : info_ok s -> info_ok (at_stage s st m).1.
Proof. intros Hs. destruct m; [done|by apply fail_prepared|done]. Qed.

(** A sequence of calls keeps what each of them keeps. *)
Lemma sbind_keeps {A B} (m : stateful Info.Service A) (k : Info.Service -> A -> stateful Info.Service B) :
  info_ok m.1 -> (forall s a, m = (s, Ok a) -> info_ok s -> info_ok (k s a).1) -> info_ok (sbind m k).1.
Proof. destruct m as [s [a|e|]]; cbn; auto. Qed.

Lemma outcome_prepared tir vErr :
  call_prepared (Metrics.AttestationVerified (attestationOutcome tir vErr).1 (attestationOutcome tir vErr).2).
Proof.
  unfold attestationOutcome. destruct vErr as [e|]; cbn [fst snd].
  - unfold Attestation.Reason. repeat (destruct (errors_Is _ _); [vm_compute; reflexivity|]). vm_compute; reflexivity.
  - destruct (Attestation.IsMagicPass tir); vm_compute; reflexivity.
Qed.

Lemma verify_prepared s a challenge response result : info_ok s -> info_ok (verify_response s a challenge response result).1.
Proof.
  intros Hs. unfold verify_response. destruct (attestationCfg s) as [cfg|]; [|done].
  apply sbind_keeps; [by apply at_stage_prepared|]. intros s1 teeID _ Hs1.
  apply sbind_keeps; [by apply at_stage_prepared|]. intros s2 h _ Hs2.
  apply sbind_keeps; [by apply at_stage_prepared|]. intros s3 u _ Hs3.
  assert (Hout : forall vErr, info_ok (if Attestation.Enabled cfg
    then let '(r, reason) := attestationOutcome result vErr in observe s3 (AttestationVerified r reason) else s3)).
  { intros vErr. destruct (Attestation.Enabled cfg); [|done]. pose proof (outcome_prepared result vErr) as Ho.
    destruct (attestationOutcome result vErr) as [r reason]. by apply info_event. }
  destruct (Attestation.Verify _ _ _ _) as [x|e|]; cbn [failure]; [apply Hout| |done].
  apply fail_prepared. pose proof (Hout (Some e)) as Ho. by destruct Ho; constructor.
Qed.

Lemma attempt_prepared s a : info_ok s -> info_ok (attempt_update s a).1.
Proof.
  intros Hs. unfold attempt_update.
  apply sbind_keeps; [by apply at_stage_prepared|]. intros s1 block _ Hs1.
  apply sbind_keeps; [by apply at_stage_prepared|]. intros s2 action _ Hs2.
  pose proof (Enqueue_prepared (actionQueues s2) (a_enqueued a) action Queue.Direct (in_queue _ Hs2)) as Hq.
  destruct (Queue.Enqueue _ _ _ _) as [q queued]. cbn [fst] in Hq.
  apply sbind_keeps; [apply at_stage_prepared; by destruct Hs2; constructor|]. intros s3 u _ Hs3.
  assert (Hw : info_ok (observe s3 (NodeWait (failure (a_response a))))).
  { apply info_event; [|done]. apply wait_prepared. unfold wait_paths. set_solver. }
  apply sbind_keeps; [by apply at_stage_prepared|]. intros s4 response _ Hs4.
  case_decide; [by apply fail_prepared|].
  apply sbind_keeps; [by apply at_stage_prepared|]. intros s5 result _ Hs5.
  apply sbind_keeps; [by apply verify_prepared|]. intros s6 u' _ Hs6. by destruct Hs6; constructor.
Qed.

Lemma updateInfo_prepared s a : info_ok s -> info_ok (updateInfo s a).1.
Proof.
  intros Hs. unfold updateInfo. pose proof (attempt_prepared s a Hs) as Ha.
  destruct (attempt_update s a) as [s1 r]. apply info_event; [|exact Ha]. by destruct r.
Qed.

Lemma retry_from_prepared s attempts k tries : info_ok s -> info_ok (retry_from s attempts k tries).1.
Proof.
  revert s k. induction tries as [|t tries IH]; intros s k Hs; cbn [retry_from]; [done|].
  pose proof (updateInfo_prepared s (try_attempt t) Hs) as Hu.
  destruct (updateInfo s (try_attempt t)) as [s1 [c|e|]]; cbn [fst] in Hu; [done| |done].
  destruct (_ || _ || _); [|destruct (try_pause t); [done|by apply IH]].
  cbn [fst]. destruct (try_ctx t); [done|]. by apply info_event; [apply stage_prepared|].
Qed.

Lemma info_Run_prepared s cycles : info_ok s -> info_ok (Info.Run s cycles).
Proof.
  revert s. induction cycles as [|tries cycles IH]; intros s Hs; cbn [Info.Run]; [done|].
  pose proof (retry_from_prepared s (Z.max (Config.MaxAttempts (timingConfig s)) 1) 1 tries Hs) as Hr. unfold retryUpdate.
  destruct (retry_from _ _ _ _) as [s1 [[c|e|]|]]; cbn [fst] in Hr; [by apply IH..|done|done].
Qed.
End InfoFacts.
End NodeFacts.

(** ** Series that alerts rely on *)

Section Born.
Context `{Metrics.PromLib, Metrics.NetErrors, OpLib, Metrics.CommandNames}.
Import Metrics.

(** The metrics after the recordings [calls], which follow the registration and the
    stages of the information service. *)
Definition recorded (b : Build) (c : Config) (calls : list Method) (m1 : Metrics) : Prop :=
  exists m, New b c = Ok m /\ run_calls (Some m) (PreinitInfoStages Info.stageLabels :: calls) = Ok (Some m1).

(** In every build and configuration that has the counter at all, the series has a count
    whatever was recorded so far. *)
Definition stands (f : Field) (values : list string) : Prop :=
  forall b c calls, PromLaws -> plain_build b -> Forall recording calls -> f ∈ (collectors c).*1 ->
  exists m1 v k, recorded b c calls m1 /\ fields m1 !! f = Some v /\ sample v values = Some (Count k).

(** Whatever the call adds to a counter, an ordinary outcome apart, it adds to a series
    that is there already: no such series is born at 1. *)
Definition visible (mt : Method) : Prop :=
  forall f values n, (f, values, Add n) ∈ entries mt -> ordinary f values = false -> stands f values.

Lemma stages_recording : recording (PreinitInfoStages Info.stageLabels).
Proof. constructor. repeat (apply Forall_cons; split; [reflexivity|]). apply Forall_nil_2. Qed.

Lemma recorded_tracks b c calls :
  PromLaws -> plain_build b -> Forall recording calls ->
  exists m1, recorded b c calls m1 /\
    tracks (collectors c) (seeded c ++ kept c (entries (PreinitInfoStages Info.stageLabels) ++ mbind entries calls)) m1.
Proof.
  intros Hl Hb Hc. destruct (New_tracks b c Hb) as (m & Hm & Ht & _).
  assert (Hall : Forall method_ok (PreinitInfoStages Info.stageLabels :: calls)).
  { apply Forall_cons. split; [apply recording_ok, stages_recording|]. eapply Forall_impl; [exact Hc|apply recording_ok]. }
  destruct (run_calls_tracks c _ m _ Hall Ht) as (m1 & Hm1 & Ht1 & _). exists m1. split; [by exists m|exact Ht1].
Qed.

(** The recordings on a prepared series are never none. *)
Lemma prepared_recs c f values es :
  (f, values) ∈ prepared -> f ∈ (collectors c).*1 ->
  recs f values (seeded c ++ kept c (entries (PreinitInfoStages Info.stageLabels) ++ es)) <> [].
Proof.
  intros Hp Hf Hnil. enough (Hin : exists r, (f, values, r) ∈ seeded c ++ kept c (entries (PreinitInfoStages Info.stageLabels) ++ es)).
  { destruct Hin as [r Hr]. assert (Hx : r ∈ recs f values (seeded c ++ kept c (entries (PreinitInfoStages Info.stageLabels) ++ es))).
    { unfold recs. apply list_elem_of_omap. exists (f, values, r). by rewrite decide_True. }
    rewrite Hnil in Hx. by apply elem_of_nil in Hx. }
  unfold prepared in Hp. apply elem_of_app in Hp as [Hp|Hp]; apply list_elem_of_fmap in Hp as ([[f' vs] r] & Heq & He);
    cbn in Heq; injection Heq as <- <-; exists r; apply elem_of_app.
  - left. by apply elem_of_seeded.
  - right. apply list_elem_of_filter. split; [done|]. apply elem_of_app. by left.
Qed.

(** The declaration of a field is the same in every configuration that has it. *)
Lemma declared c f o : (f, o) ∈ collectors c -> (f, o) ∈ creates all_steps.
Proof.
  intros (_ & g & Hg & _ & Ho)%elem_of_collectors. unfold all_steps, select. revert Hg.
  generalize collectorGroups as gs. induction gs as [|g' gs IH]; intros Hg; [by apply elem_of_nil in Hg|].
  rewrite bind_cons, creates_app, elem_of_app. apply elem_of_cons in Hg as [->|Hg]; auto.
Qed.

Lemma declared_counter f values o :
  (f, values) ∈ standing -> (f, o) ∈ creates all_steps -> o_Kind o = Counter /\ (values = [] -> Labels o = []).
Proof.
  intros Hs Ho.
  assert (Hall : Forall (fun e : Field * list string => Forall (fun p : Field * Opts =>
    p.1 = e.1 -> o_Kind p.2 = Counter /\ (e.2 = [] -> Labels p.2 = [])) (creates all_steps)) standing).
  { apply (bool_decide_unpack _). vm_compute. exact I. }
  rewrite Forall_forall in Hall. specialize (Hall _ Hs). rewrite Forall_forall in Hall. by apply (Hall _ Ho).
Qed.

Lemma recorded_series b c calls f :
  PromLaws -> plain_build b -> Forall recording calls -> f ∈ (collectors c).*1 ->
  exists m1 v o, recorded b c calls m1 /\ fields m1 !! f = Some v /\ (f, o) ∈ creates all_steps /\
    forall values, sample v values =
      holds o values (recs f values (seeded c ++ kept c (entries (PreinitInfoStages Info.stageLabels) ++ mbind entries calls))).
Proof.
  intros Hl Hb Hc Hf. destruct (recorded_tracks b c calls Hl Hb Hc) as (m1 & Hm1 & Ht).
  pose proof Hf as [o Ho]%elem_of_fst. destruct (tr_made _ _ _ Ht _ _ Ho) as [v Hv].
  destruct (tr_vec _ _ _ Ht _ _ Hv) as [Hin Hs]. assert (opts_of v = o) as Heq by (eapply NoDup_fst_inj; [apply collectors_fields|done|done]).
  rewrite Heq in Hs. exists m1, v, o. split_and!; [done|done|by eapply declared|done].
Qed.

Lemma standing_stands f values : (f, values) ∈ standing -> stands f values.
Proof.
  intros Hp b c calls Hl Hb Hc Hf. destruct (recorded_series b c calls f Hl Hb Hc Hf) as (m1 & v & o & Hm1 & Hv & Ho & Hs).
  destruct (declared_counter f values o Hp Ho) as [Hk Hlab].
  enough (exists k, sample v values = Some (Count k)) as [k Hsv] by (by exists m1, v, k).
  rewrite Hs. unfold holds. rewrite Hk. case_decide as Hrs; [|by eexists].
  unfold standing in Hp. apply elem_of_app in Hp as [Hu|Hp]; [|by apply prepared_recs in Hrs].
  assert (values = []) as Hvs.
  { unfold unlabelled in Hu. apply list_elem_of_omap in Hu as ([f' o'] & _ & He). cbn in He.
    destruct (o_Kind o'), (Labels o'); try done. by injection He. }
  unfold fresh. rewrite decide_True by auto. rewrite Hk. by exists 0.
Qed.

Lemma call_visible mt : call_prepared mt -> visible mt.
Proof.
  intros Hp f values n He Hord. assert (Hep : entry_prepared (f, values, Add n) = true).
  { eapply forallb_forall in Hp; [exact Hp|by apply list_elem_of_In]. }
  unfold entry_prepared in Hep. cbn [fst snd] in Hep. rewrite Hord, orb_false_r in Hep.
  apply standing_stands. by apply bool_decide_eq_true in Hep.
Qed.
Lemma calls_visible l : Forall call_prepared l -> Forall visible l.
Proof. intros Hl. eapply Forall_impl; [exact Hl|apply call_visible]. Qed.

(** *** The alerts *)

(** The counter series that the rules [increase(...) > 0] of [METRICS.md] and
    [examples/monitoring/alerts.yaml] watch, with the values of the labels that a rule
    leaves open; without the rules on HTTP requests and storage operations, whose series
    [METRICS.md] exempts. *)
Definition queue_names : list string := ["main"; "direct"; "backup"].
Definition by_queue (f : Field) (outcomes : list string) : list (Field * list string) :=
  q ← queue_names; o ← outcomes; [(f, [q; o])].
Definition with_label (f : Field) (labels : list string) : list (Field * list string) := (fun l => (f, [l])) <$> labels.

Definition watched : list (Field * list string) :=
  [(resultsLost, []); (finalizedEnqueueFail, []); (walletKeyUpdateFailed, []); (walletBackupApplyFailed, [])] ++
  with_label finalizedActionLost ["build_error"; "send_failed"] ++
  with_label resultsRejected ["wrong_tee_id"; "bad_signer"] ++
  with_label infoRefreshFailures ["verify_signature"] ++
  with_label infoRefreshExhausted ["fetch_block"; "create_action"; "enqueue"; "wait_response"; "action_status"; "unmarshal";
    "parse_tee_id"; "payload_hash"; "unknown"] ++
  ((fun reason => (attestationVerify, ["error"; reason])) <$> Attestation.ErrorReasons) ++
  [(attestationVerify, ["ok"; "magic_pass"])] ++
  with_label policyUpdate ["pubkey_mismatch"; "sig_deadline"] ++
  with_label walletSyncTotal ["enqueue_error"; "wait_error"; "parse_error"] ++
  with_label resultChannelDropped ["key_actions"; "backups"] ++
  with_label machinepathPollTotal ["fetch_error"; "build_error"; "enqueue_error"; "wait_error"; "no_authorization"; "rejected"] ++
  ((fun path => (nodeWaitTotal, [path; "timeout"])) <$> wait_paths) ++
  by_queue actionEnqueued ["store_error"; "queue_error"] ++
  by_queue actionDequeued ["error"; "action_not_found"; "dequeue_error"] ++
  by_queue actionRedelivery ["exhausted"; "requeue_failed"].

Lemma watched_standing : Forall (fun e => e ∈ standing) watched.
Proof. apply (bool_decide_unpack _). vm_compute. exact I. Qed.

(** The rule on retried deliveries ([TeeProxyActionRedelivering]). *)
Definition retried (queue : string) : list string := [queue; "requeued"].

Lemma retried_not_prepared queue e :
  e ∈ seeds all_steps \/ e ∈ entries (PreinitInfoStages Info.stageLabels) -> e.1 <> (actionRedelivery, retried queue).
Proof.
  assert (Hall : Forall (fun e : Entry => ~ (e.1.1 = actionRedelivery /\ e.1.2 !! 1%nat = Some "requeued"))
    (seeds all_steps ++ entries (PreinitInfoStages Info.stageLabels))).
  { apply (bool_decide_unpack _). vm_compute. exact I. }
  intros He%elem_of_app Heq. rewrite Forall_forall in Hall. apply (Hall _ He). by rewrite Heq.
Qed.

Lemma recs_absent f values es : (forall e, e ∈ es -> e.1 <> (f, values)) -> recs f values es = [].
Proof.
  intros Hno. unfold recs. induction es as [|e es IH]; [done|]. cbn. rewrite decide_False by (apply Hno; left).
  apply IH. intros e' He'. apply Hno. by right.
Qed.

Lemma retried_recs queue c es :
  (forall e, e ∈ es -> e.1 <> (actionRedelivery, retried queue)) ->
  recs actionRedelivery (retried queue) (seeded c ++ kept c (entries (PreinitInfoStages Info.stageLabels) ++ es)) = [].
Proof.
  intros Hes. apply recs_absent. intros e [He|[_ [He|He]%elem_of_app]%list_elem_of_filter]%elem_of_app; [| |by apply Hes].
  - apply retried_not_prepared. left. unfold seeded in He. destruct (Enable c); [|by apply elem_of_nil in He].
    rewrite enabled_select in He. apply elem_of_select_seeds in He as (g & Hg & _ & He).
    apply elem_of_select_seeds. by exists g.
  - apply retried_not_prepared. by right.
Qed.

Lemma redelivery_counter o : (actionRedelivery, o) ∈ creates all_steps -> o_Kind o = Counter /\ Labels o <> [].
Proof.
  assert (Hall : Forall (fun p : Field * Opts => p.1 = actionRedelivery -> o_Kind p.2 = Counter /\ Labels p.2 <> []) (creates all_steps)).
  { apply (bool_decide_unpack _). vm_compute. exact I. }
  intros Ho. rewrite Forall_forall in Hall. by apply (Hall _ Ho).
Qed.

Lemma retried_recording queue : queue ∈ queue_names -> recording (ActionRedelivery queue "requeued").
Proof. intros Hq. constructor; [|reflexivity]. by repeat (apply elem_of_cons in Hq as [->|Hq]; [reflexivity|]); apply elem_of_nil in Hq. Qed.

(** C27: the series behind the alerts.  Of every counter series that an alert of the form
    [increase(...) > 0] watches (the exempted HTTP and storage ones apart), when its group
    is enabled, there is a count from the moment the metrics and the information service
    exist, whatever is recorded afterwards: the alert sees the first occurrence.  One rule
    is not served: a delivery that is put back on its queue has no series before it first
    happens, and the first one is born at 1, which an increase does not see. *)
Theorem alert_series b c calls queue :
  PromLaws -> plain_build b -> Forall recording calls -> actionRedelivery ∈ (collectors c).*1 -> queue ∈ queue_names ->
  (forall f values, (f, values) ∈ watched -> stands f values) /\
  ((forall e, e ∈ mbind entries calls -> e.1 <> (actionRedelivery, retried queue)) ->
   exists m1 v m2 v2,
     recorded b c calls m1 /\ fields m1 !! actionRedelivery = Some v /\ sample v (retried queue) = None /\
     recorded b c (calls ++ [ActionRedelivery queue "requeued"]) m2 /\ fields m2 !! actionRedelivery = Some v2 /\
     sample v2 (retried queue) = Some (Count 1)).
Proof.
  intros Hl Hb Hc Hf Hq. split.
  { intros f values Hw. apply standing_stands. pose proof watched_standing as Hall. rewrite Forall_forall in Hall. by apply Hall. }
  intros Hno.
  assert (Hc2 : Forall recording (calls ++ [ActionRedelivery queue "requeued"])).
  { apply Forall_app. split; [done|]. by apply Forall_singleton, retried_recording. }
  destruct (recorded_series b c calls _ Hl Hb Hc Hf) as (m1 & v & o & Hm1 & Hv & Ho & Hs).
  destruct (recorded_series b c _ _ Hl Hb Hc2 Hf) as (m2 & v2 & o2 & Hm2 & Hv2 & Ho2 & Hs2).
  destruct (redelivery_counter o Ho) as [_ Hlab]. destruct (redelivery_counter o2 Ho2) as [Hk2 _].
  exists m1, v, m2, v2. split_and!; [done|done| |done|done|].
  - rewrite Hs, (retried_recs queue c _ Hno), holds_nil. unfold fresh. rewrite decide_False; [done|]. by intros [_ ?].
  - rewrite Hs2, bind_app, app_assoc. unfold kept. rewrite filter_app, app_assoc, recs_app.
    pose proof (retried_recs queue c _ Hno) as Hr. unfold kept in Hr. rewrite Hr. cbn [app].
    fold (kept c (mbind entries [ActionRedelivery queue "requeued"])). rewrite recs_kept by done.
    change (mbind entries [ActionRedelivery queue "requeued"]) with [(actionRedelivery, retried queue, Add 1)].
    rewrite recs_one, decide_True by done. unfold holds. by rewrite Hk2.
Qed.
End Born.

(** ** The services report nothing else *)

Section Services.
Context {W : Type} `{StorageI W Results.ActionResponse, CyclicLib, InstructionLib, Results.SignerLib, Wallets.WalletLib}.
Context `{RedisLib, Queue.NameLib, !Json Action, !Json Queue.ActionSubmissionID, !Json Queue.DirectInstruction}.
Context `{Metrics.PromLib, Metrics.NetErrors, OpLib, Metrics.CommandNames, Policies.PolicyLib, MachinePath.PathLib}.
Context `{Info.InfoLib, Attestation.AttestationLib, !Json Attestation.TeeInfoResponse, Internal.QueueIDLib, !Handlers.Decoder Results.ActionResponse}.
Abbreviation server := (@Internal.Internal _ W).

(** The calls that each service has made. *)
Definition queue_log (q : Queue.ActionQueues) : list Metrics.Method := queue_call <$> Queue.qevents q.
Definition server_log (i : server) : list Metrics.Method :=
  queue_log (Internal.actionQueues i) ++ (result_call <$> Results.revents (Internal.resultService i)) ++
  (lost_call <$> Internal.lost i).
Definition instruction_log (s : Instructions.Service) : list Metrics.Method :=
  (instruction_call <$> Instructions.ievents s) ++ (voting_call <$> VotingStorage.events (Instructions.vs s)).
Definition wallet_log (d : Z) (s : Wallets.Service) : list Metrics.Method :=
  (wallet_call d <$> Wallets.wevents s) ++ queue_log (Wallets.aq s).
Definition policy_log (d : Z) (clock : SpecFloat.spec_float) (s : PolicyService.Service) : list Metrics.Method :=
  (policy_call d clock <$> PolicyService.pevents s) ++ queue_log (PolicyService.aq s).
Definition path_log (d : Z) (s : PathService.Service) : list Metrics.Method :=
  (path_call d <$> PathService.metrics s) ++ queue_log (PathService.aq s).
Definition info_log (d : Z) (s : Info.Service) : list Metrics.Method :=
  (info_call d <$> Info.metrics s) ++ queue_log (Info.actionQueues s).

(** The internal server at work: actions that are enqueued, polls of the node, posted
    results, and the writes of the results that the background goroutines finish. *)
Inductive server_move (i : server) : server -> Prop :=
| sm_enqueue now a k : server_move i (Internal.set_queues i (Queue.Enqueue (Internal.actionQueues i) now a k).1)
| sm_poll now cancelled gone r w : server_move i (Internal.queueH now cancelled gone i r w).1.1
| sm_result now r w : server_move i (Internal.resultH now i r w).1.1
| sm_write l1 response l2 now : Internal.resultWrites i = l1 ++ response :: l2 ->
    server_move i (Internal.storeResult (Internal.set_writes i (l1 ++ l2)) now response).1
| sm_drain : server_move i (Internal.start_draining i).

Record server_ok (i : server) : Prop := {
  so_queue : all_prepared queue_call (Queue.qevents (Internal.actionQueues i));
  so_results : all_prepared result_call (Results.revents (Internal.resultService i));
  so_lost : all_prepared lost_call (Internal.lost i)
}.

Lemma Dequeue_queue q now c k q' dl : Queue.Dequeue q now c k = (q', Ok dl) ->
  exists p, Queue.queueByID (Queue.del_queueID dl) = Ok p.
Proof.
  unfold Queue.Dequeue. destruct (Queue.queueByID k) as [p|e|] eqn:Hk; [|done..]. destruct c; [done|].
  destruct (RedisStorage.Dequeue p _) as [r [x|e|]]; [|done..].
  destruct (RedisStorage.Get _ _ _ _) as [r2 [a|e|]]; [|by case_match|done]. intros [= _ <-]. by exists p.
Qed.

Lemma undelivered_ok i dl k cause p :
  Queue.queueByID (Queue.del_queueID dl) = Ok p -> server_ok i -> server_ok (Internal.undelivered i dl k cause).1.
Proof.
  intros Hp [Hq Hr Hl]. unfold Internal.undelivered.
  pose proof (Restore_prepared (Internal.actionQueues i) dl p Hp Hq) as Hs.
  destruct (Queue.Restore _ _) as [q [u|e|]]; cbn [fst] in *; [by constructor| |by constructor].
  case_decide; constructor; try done. cbn. apply all_prepared_snoc; [done|]. vm_compute. reflexivity.
Qed.

Lemma poll_ok now cancelled gone i r w : server_ok i -> server_ok (Internal.queueH now cancelled gone i r w).1.1.
Proof.
  intros Hi. unfold Internal.queueH. pose proof (so_queue i Hi) as Hq.
  set (k := Internal.QueueID_of _).
  pose proof (Dequeue_prepared (Internal.actionQueues i) now cancelled k Hq) as Hd.
  assert (Hset : forall q, all_prepared queue_call (Queue.qevents q) -> server_ok (Internal.set_queues i q)) by (by destruct Hi; constructor).
  assert (Hgo : server_ok (match Queue.Dequeue (Internal.actionQueues i) now cancelled k with
    | (q, Panic) => ((Internal.set_queues i q, w), Panic)
    | (q, Fail e) =>
        if errors_Is e "storage.ErrEmptyQueue" then let '(w, out) := Handlers.Encode_nil w in ((Internal.set_queues i q, w), out)
        else ((Internal.set_queues i q, w), Fail e)
    | (q, Ok delivery) =>
        match gone with
        | Some err => let '(i, out) := Internal.undelivered (Internal.set_queues i q) delivery k err in ((i, w), out)
        | None =>
            let '(w, out) := match Handlers.Encode w (Queue.del_Action delivery) with (w, Ok _) => Handlers.Flush w | (w, out) => (w, out) end in
            match out with
            | Panic => ((Internal.set_queues i q, w), Panic)
            | Fail err => let '(i, out) := Internal.undelivered (Internal.set_queues i q) delivery k err in ((i, w), out)
            | Ok _ =>
                match Queue.Commit q delivery with
                | (q, Panic) => ((Internal.set_queues i q, w), Panic)
                | (q, _) => ((Internal.set_queues i q, w), Ok tt)
                end
            end
        end
    end).1.1); [|by destruct k].
  destruct (Queue.Dequeue _ _ _ _) as [q [dl|e|]] eqn:Hdq; cbn [fst] in Hd; [|by repeat case_match; apply Hset|by apply Hset].
  destruct (Dequeue_queue _ _ _ _ _ _ Hdq) as [p Hp].
  assert (Hu : forall err, server_ok (Internal.undelivered (Internal.set_queues i q) dl k err).1).
  { intros err. by eapply undelivered_ok, Hset. }
  destruct gone as [err|]; [specialize (Hu err); by destruct (Internal.undelivered _ _ _ _)|].
  destruct (match Handlers.Encode w _ with (w, Ok _) => Handlers.Flush w | (w, out) => (w, out) end) as [w' [u|err|]];
    [|specialize (Hu err); by destruct (Internal.undelivered _ _ _ _)|by apply Hset].
  pose proof (Commit_prepared q dl Hd) as Hc. destruct (Queue.Commit q dl) as [q2 []]; by apply Hset.
Qed.

Lemma store_ok i now response : server_ok i -> server_ok (Internal.storeResult i now response).1.
Proof.
  intros [Hq Hr Hl]. unfold Internal.storeResult. pose proof (ProcessAndStore_prepared _ now response Hr) as Hp.
  destruct (Results.ProcessAndStore _ _ _) as [sv []]; by constructor.
Qed.

Lemma server_move_ok i i' : server_move i i' -> server_ok i -> server_ok i'.
Proof.
  destruct 1 as [now a k|now cancelled gone r w|now r w|l1 response l2 now _|]; intros Hi.
  - destruct Hi as [Hq Hr Hl]. constructor; [by apply Enqueue_prepared|done..].
  - by apply poll_ok.
  - unfold Internal.resultH. destruct (Handlers.json_Decode _) as [[response|]| |]; [|done..].
    destruct (Internal.draining i); [|by destruct Hi; constructor].
    pose proof (store_ok i now response Hi) as Hs. by destruct (Internal.storeResult _ _ _).
  - apply store_ok. by destruct Hi; constructor.
  - by destruct Hi; constructor.
Qed.

(** Logs of prepared calls. *)
Lemma log_prepared {E} (call : E -> Metrics.Method) l : Forall call_prepared (call <$> l) <-> all_prepared call l.
Proof. apply Forall_fmap. Qed.
Lemma run_keeps {S} (R : S -> S -> Prop) (P : S -> Prop) s s' :
  (forall x y, R x y -> P x -> P y) -> rtc R s s' -> P s -> P s'.
Proof. intros HR. induction 1 as [|x y z Hxy _ IH]; eauto. Qed.

Lemma server_log_ok i : Forall call_prepared (server_log i) <-> server_ok i.
Proof. unfold server_log, queue_log. rewrite !Forall_app, !log_prepared. split; [by intros (? & ? & ?)|by intros []]. Qed.
Lemma instruction_log_ok s : Forall call_prepared (instruction_log s) <-> instructions_ok s.
Proof. unfold instruction_log. rewrite !Forall_app, !log_prepared. split; [by intros (? & ?)|by intros []]. Qed.
Lemma wallet_log_ok d s : Forall call_prepared (wallet_log d s) <-> wallets_ok d s.
Proof. unfold wallet_log, queue_log. rewrite !Forall_app, !log_prepared. split; [by intros (? & ?)|by intros []]. Qed.
Lemma policy_log_ok d clock s : Forall call_prepared (policy_log d clock s) <-> policy_ok d clock s.
Proof. unfold policy_log, queue_log. rewrite !Forall_app, !log_prepared. split; [by intros (? & ?)|by intros []]. Qed.
Lemma path_log_ok d s : Forall call_prepared (path_log d s) <-> paths_ok d s.
Proof. unfold path_log, queue_log. rewrite !Forall_app, !log_prepared. split; [by intros (? & ?)|by intros []]. Qed.
Lemma info_log_ok d s : Forall call_prepared (info_log d s) <-> info_ok d s.
Proof. unfold info_log, queue_log. rewrite !Forall_app, !log_prepared. split; [by intros (? & ?)|by intros []]. Qed.

(** C26: no failure that these services count is born at 1.  Take any run of the internal
    server (actions that are enqueued and polled, delivered or put back, and results that
    are posted and stored), of the instruction service with its votings, of the wallet
    service's own goroutines, of the policy service from its initialisation on, of the
    machine paths service and of the information service, each from its creation and
    whatever the node, the store and the indexer answer.  Each time one of the calls that
    it makes adds to a counter, for an outcome that is not one of the [ordinary] ones, the
    series has a count already, in every configuration that enables it and whatever else
    was recorded before.  (Queue depth reads, storage operations and HTTP requests are not
    calls of these services; their series are not created in advance.) *)
Theorem failures_visible d clock :
  (forall i i', server_log i = [] -> rtc server_move i i' -> Forall visible (server_log i')) /\
  (forall cfg collect tee q chain served s,
     Instructions.irun (Instructions.NewService cfg collect tee q chain) served s -> Forall visible (instruction_log s)) /\
  (forall q st, queue_log q = [] -> rtc Wallets.wstep (Wallets.NewService q, []) st -> Forall visible (wallet_log d st.1)) /\
  (forall q addresses chain fuel db offset info now id out rounds, queue_log q = [] ->
     PolicyService.Initialize fuel (PolicyService.NewService q addresses chain) db offset info now id = Some out ->
     Forall visible (policy_log d clock (PolicyService.update out.1 rounds))) /\
  (forall q manager gov extension chain nonce polls, queue_log q = [] ->
     Forall visible (path_log d (PathService.Run (PathService.NewService q manager gov extension chain nonce) polls))) /\
  (forall q tc ac now cycles, queue_log q = [] ->
     Forall visible (info_log d (Info.Run (Info.NewService q tc ac now) cycles))).
Proof.
  assert (Hempty : forall q, queue_log q = [] -> all_prepared queue_call (Queue.qevents q)).
  { intros q Hq%fmap_nil_inv. by rewrite Hq. }
  split_and!.
  - intros i i' Hi Hrun. apply calls_visible, server_log_ok. eapply run_keeps; [apply server_move_ok|exact Hrun|].
    apply server_log_ok. by rewrite Hi.
  - intros * Hrun%Instructions.irun_steps. apply calls_visible, instruction_log_ok.
    eapply run_keeps; [apply istep_prepared|exact Hrun|]. by constructor.
  - intros * Hq Hrun. apply calls_visible, wallet_log_ok.
    eapply (run_keeps _ (fun st => wallets_ok d st.1)); [apply wstep_prepared|exact Hrun|]. constructor; [done|by apply Hempty].
  - intros * Hq Hi. apply calls_visible, policy_log_ok, policy_update_prepared.
    eapply Initialize_prepared; [|exact Hi]. constructor; [done|by apply Hempty].
  - intros * Hq. apply calls_visible, path_log_ok, Run_prepared. constructor; [done|by apply Hempty].
  - intros * Hq. apply calls_visible, info_log_ok, info_Run_prepared. constructor; [|by apply Hempty].
    apply Forall_singleton. vm_compute. reflexivity.
Qed.
End Services.

(** ** A first retry *)

Module DemoReports.
Import Metrics Metrics.DemoMetrics.
#[local] Existing Instance Types.Demo.op_lib.

Lemma alert_series_witness :
  stands actionEnqueued ["backup"; "store_error"] /\
  exists m1 v m2 v2,
    recorded build config calls m1 /\ fields m1 !! actionRedelivery = Some v /\ sample v (retried "main") = None /\
    recorded build config (calls ++ [ActionRedelivery "main" "requeued"]) m2 /\ fields m2 !! actionRedelivery = Some v2 /\
    sample v2 (retried "main") = Some (Count 1).
Proof.
  assert (Hno : Forall (fun e : Entry => e.1 <> (actionRedelivery, retried "main")) (mbind entries calls)).
  { apply (bool_decide_unpack _). vm_compute. exact I. }
  rewrite Forall_forall in Hno.
  assert (Hg : actionRedelivery ∈ (collectors config).*1) by (by apply (bool_decide_unpack _)).
  assert (Hw : (actionEnqueued, ["backup"; "store_error"]) ∈ watched) by (apply (bool_decide_unpack _); vm_compute; exact I).
  assert (Hq : "main" ∈ queue_names) by (by left).
  assert (Hb : plain_build build) by (by apply (bool_decide_unpack _)).
  destruct (alert_series build config calls "main" _ Hb calls_recording Hg Hq) as [Hs Hr].
  split; [exact (Hs _ _ Hw)|exact (Hr Hno)].
Defined.
End DemoReports.
End Reports.
