(* ===== verification/Boot.v ===== *)
(** The start of the proxy ([internal/proxy/governance.go] and the parts of
    [internal/proxy/proxy.go] that decide something): the settings of the services made of
    the configuration, and the checks on the node's first answer. *)

From S2P Require Import Prelude Hex Status Types Redis Queue Results Config Attestation Metrics Info MachinePath External.

Open Scope Z_scope.

Module Boot.
Import Attestation(TeeInfoResponse, teeInfo, machineData, Challenge).

Definition outOfSyncTolerance : Z := 60 * second.
Definition walletSyncPeriod : Z := 3600 * second.
Definition shutdownTimeout : Z := 10 * second.

(** The governance hashes of the node's package: plain and Safe-backed. *)
Class GovernanceLib : Type := {
  types_GovernanceHash : list Address -> Z -> res Hash;
  types_GovernanceHashSafe : Address -> Address -> list Address -> Z -> res Hash
}.

(** ** Governance *)

(** [types.Governance]: what the path service reads of it, and the other fields. *)
Record Governance : Type := mkGovernance {
  gov_checks : MachinePath.Governance;
  gov_TeeManager : Address;
  gov_Hash : Hash
}.
Definition zero_governance : Governance := mkGovernance (MachinePath.mkGovernance [] 0 zero_address) zero_address zero_hash.

Section Governance.
Context `{GovernanceLib}.

Definition expected_hash (cfg : Config.Governance) : res Hash :=
  if Config.SafeBacked cfg
  then types_GovernanceHashSafe (Config.TeeManager cfg) (Config.Safe cfg) (Config.Signers cfg) (Config.gov_Threshold cfg)
  else types_GovernanceHash (Config.Signers cfg) (Config.gov_Threshold cfg).

Definition resolveGovernance (cfg : Config.Governance) (nodeGovernanceHash : Hash) : res Governance :=
  if negb (Config.IsSet cfg) then Ok zero_governance
  else
    expected ← wrap (expected_hash cfg);
    if decide (expected <> nodeGovernanceHash) then Fail (errorf [])
    else Ok (mkGovernance (MachinePath.mkGovernance (Config.Signers cfg) (Config.gov_Threshold cfg) (Config.Safe cfg))
               (Config.TeeManager cfg) expected).
End Governance.

(** ** Settings *)

Definition directConfig (c : Config.Direct) : External.DirectConfig :=
  External.mkDirectConfig (Config.dir_Enable c) (Config.APIKey c) (Config.APIKeyOptional c) (Config.MaxBodySize c).

Definition group (c : Config.Metrics) (p : option bool) : bool :=
  if negb (Config.met_Enable c) then false else match p with None => true | Some b => b end.

Definition metricsConfig (c : Config.Metrics) : Metrics.Config :=
  let group := group c in
  Metrics.mkConfig (Config.met_Enable c) (group (Config.met_HTTP c)) (group (Config.met_Storage c))
    (group (Config.met_Queue c)) (group (Config.met_Voting c)) (group (Config.met_ActiveVoters c))
    (group (Config.met_Result c)) (group (Config.met_Wallet c)) (group (Config.met_Info c))
    (group (Config.met_Attestation c)) (group (Config.met_Policy c)) (group (Config.met_Liveness c))
    (group (Config.met_Node c)) (group (Config.met_Runtime c)).

(** The groups of a metrics configuration, in the order of [Config.metric_groups]. *)
Definition groups (m : Metrics.Config) : list bool :=
  [Metrics.HTTP m; Metrics.Storage m; Metrics.Queue m; Metrics.Voting m; Metrics.ActiveVoters m; Metrics.Result m; Metrics.Wallet m; Metrics.Info m;
   Metrics.Attestation m; Metrics.Policy m; Metrics.Liveness m; Metrics.Node m; Metrics.Runtime m].

Section Attestation.
Context `{Attestation.AttestationLib}.
Import Attestation.

Fixpoint encode_platforms (l : list string) : res (list Hash) :=
  match l with
  | [] => Ok []
  | p :: l => h ← wrap (StringToCommonHash p); out ← encode_platforms l; Ok (h :: out)
  end.

(** [Config{Enabled: false}]. *)
Definition disabled : Config := mkConfig false None None None "" [] 0 [] [] [] 0 false false.

Definition buildAttestationConfig (cfg : Config.Attestation) (chainID : Z) : res Config :=
  if negb (Config.att_Enable cfg) then Ok disabled
  else
    root ← wrap GoogleCSRoot;
    codeHashes ← wrap (Config.ParsedCodeHashes cfg);
    platforms ← encode_platforms (Config.ExpectedPlatforms cfg);
    Ok (mkConfig true (Some root) None None (Config.Audience cfg) [] chainID codeHashes platforms
          (Config.ExpectedDebugStatuses cfg) (Config.MaxTokenAge cfg) (Config.RequireSecBoot cfg)
          (Config.AllowMagicPass cfg)).

Lemma buildAttestationConfig_chain (cfg : Config.Attestation) chainID ac :
  buildAttestationConfig cfg chainID = Ok ac -> Enabled ac = true -> Attestation.ChainID ac = chainID.
Proof.
  unfold buildAttestationConfig. destruct (negb (Config.att_Enable cfg)); [by intros [= <-]|].
  destruct (wrap GoogleCSRoot); cbn; [|done..]. destruct (wrap (Config.ParsedCodeHashes cfg)); cbn; [|done..].
  destruct (encode_platforms _); cbn; [|done..]. by intros [= <-].
Qed.

Definition attestationPostureSettings (cfg : Config) : list (string * bool) :=
  let a := Active cfg in
  [("enabled", Enabled cfg); ("magic_pass_allowed", ac_MagicPass a); ("audience_check", ac_Audience a);
   ("code_hash_check", ac_CodeHash a); ("platform_check", ac_Platform a); ("debug_status_check", ac_DebugStatus a);
   ("max_token_age_check", ac_MaxTokenAge a); ("sec_boot_check", ac_SecBoot a)]%string.
End Attestation.

(** ** The node's first answer *)

Section Start.
Context {W : Type} `{StorageI W Results.ActionResponse, Queue.NameLib, OpLib, Results.SignerLib}.
Context `{RedisLib, Attestation.AttestationLib, Info.InfoLib, GovernanceLib}.

(** The challenge has to come back, and the node's identity is set; a failure ends the
    process. *)
Definition pin_node (sv : @Results.Service W) (initialInfo : TeeInfoResponse) (sentChallenge : Hash)
    : stateful (@Results.Service W) Address :=
  if decide (Challenge (teeInfo initialInfo) <> sentChallenge) then (sv, Panic)
  else
    match Info.ParseTeeID initialInfo with
    | Fail _ | Panic => (sv, Panic)
    | Ok teeID =>
        match Results.SetIdentity sv teeID with
        | (sv, Ok _) => (sv, Ok teeID)
        | (sv, _) => (sv, Panic)
        end
    end.

(** The governance of the path service, if it is to run. *)
Definition path_governance (addresses : Config.Addresses) (governance : Config.Governance)
    (initialInfo : TeeInfoResponse) : res (option Governance) :=
  if decide (Config.MachinePathManager addresses <> zero_address) then
    match resolveGovernance governance (Attestation.GovernanceHash (machineData initialInfo)) with
    | Ok g => Ok (Some g)
    | _ => Panic
    end
  else Ok None.

(** The gauge that compares the node's governance with the one at the start. *)
Definition governance_match (expected : Hash) (info : Info.Service) : Z :=
  if decide (Info.LastGovernanceHash info = expected) then 1 else 0.
End Start.

(** ** Theorems *)

Section StartFacts.
Context {W : Type} `{StorageI W Results.ActionResponse, Queue.NameLib, OpLib, Results.SignerLib}.
Context `{RedisLib, Attestation.AttestationLib, Info.InfoLib, GovernanceLib}.

(** What the start makes sure of.  The proxy goes on only if the node's first answer
    echoes the challenge it was sent and names the node's key, which becomes the one
    identity that results are accepted from.  With a path manager, a configured
    governance is used only if its own hash, of its plain or its Safe-backed form as it
    is configured, is the one the node attests; any other is the end of the process.
    Without a governance the path service gets an empty one, and without a manager
    nothing is compared. *)
Theorem start_pins_node (sv : @Results.Service W) initialInfo sent addresses governance :
  match pin_node sv initialInfo sent with
  | (sv', Ok id) => Challenge (teeInfo initialInfo) = sent /\ Info.ParseTeeID initialInfo = Ok id /\
      Results.teeID sv = zero_address /\ Results.teeID sv' = id
  | (_, Panic) => Challenge (teeInfo initialInfo) <> sent \/ (forall id, Info.ParseTeeID initialInfo <> Ok id) \/
      Results.teeID sv <> zero_address
  | (_, Fail _) => False
  end /\
  let node := Attestation.GovernanceHash (machineData initialInfo) in
  match path_governance addresses governance initialInfo with
  | Ok None => Config.MachinePathManager addresses = zero_address
  | Ok (Some g) => Config.MachinePathManager addresses <> zero_address /\
      (Config.IsSet governance = false /\ g = zero_governance \/
       Config.IsSet governance = true /\ expected_hash governance = Ok node /\ gov_Hash g = node /\
         gov_checks g = MachinePath.mkGovernance (Config.Signers governance) (Config.gov_Threshold governance)
                          (Config.Safe governance) /\
         gov_TeeManager g = Config.TeeManager governance)
  | Panic => Config.MachinePathManager addresses <> zero_address /\ Config.IsSet governance = true /\
      expected_hash governance <> Ok node
  | Fail _ => False
  end.
Proof.
  split.
  - unfold pin_node. destruct (decide _) as [Hc|Hc]; [by left|apply dec_stable in Hc].
    destruct (Info.ParseTeeID initialInfo) as [id|e|]; [|right; by left..].
    unfold Results.SetIdentity. destruct (decide _) as [Ht|Ht]; [by right; right|apply dec_stable in Ht]. by split_and!.
  - intros node. unfold path_governance. destruct (decide _) as [Hm|Hm]; [|by apply dec_stable in Hm].
    unfold resolveGovernance. fold node. destruct (Config.IsSet governance); cbn [negb]; [|split; [done|by left]].
    destruct (expected_hash governance) as [h|e|]; cbn; [|done..].
    destruct (decide (h <> node)) as [Hh|Hh]; [split_and!; [done..|congruence]|apply dec_stable in Hh; subst h].
    split; [done|]. by right.
Qed.
End StartFacts.

Lemma group_is c p : group c p = Config.met_Enable c && default true p.
Proof. unfold group. destruct (Config.met_Enable c); [by destruct p|done]. Qed.

Lemma groups_are c : groups (metricsConfig c) = group c <$> Config.metric_groups c.
Proof. done. Qed.

Lemma some_group_true c l :
  Config.met_Enable c = true -> Config.some_group l = Ok tt -> true ∈ group c <$> l.
Proof.
  intros He. induction l as [|p l IH]; cbn; [done|]. rewrite group_is, He.
  destruct p as [[]|]; cbn; [by left|intros Hs; right; by apply IH|by left].
Qed.

(** The metric groups.  With metrics off every group is off; with metrics on a group is
    on unless it is turned off explicitly, and a configuration that passed the validation
    has at least one group on. *)
Theorem metricsConfig_groups c :
  Metrics.Enable (metricsConfig c) = Config.met_Enable c /\
  groups (metricsConfig c) = (fun p => Config.met_Enable c && default true p) <$> Config.metric_groups c /\
  (Config.met_Enable c = false -> Forall (fun g => g = false) (groups (metricsConfig c))) /\
  (Config.Metrics_validate c = Ok tt -> Config.met_Enable c = true -> true ∈ groups (metricsConfig c)).
Proof.
  rewrite groups_are. split_and!; [done|apply list_fmap_ext; intros _ p _; apply group_is| |].
  - intros He. apply Forall_fmap, Forall_forall. intros p _. cbn. by rewrite group_is, He.
  - unfold Config.Metrics_validate. intros Hv He. rewrite He in Hv. by apply some_group_true.
Qed.

Section AttestationFacts.
Context `{Attestation.AttestationLib}.
Import Attestation.

Lemma encode_platforms_ok l out :
  encode_platforms l = Ok out -> Forall2 (fun p h => StringToCommonHash p = Ok h) l out.
Proof.
  revert out. induction l as [|p l IH]; intros out; cbn; [intros [= <-]; constructor|].
  intros (h & Hh & (r & Hr & [= <-])%res_bind_ok)%res_bind_ok. rewrite wrap_ok in Hh. constructor; [done|by apply IH].
Qed.
Lemma parse_hashes_ok l out : Config.parse_hashes l = Ok out -> Forall2 (fun s h => Config.parseCodeHash s = Ok h) l out.
Proof.
  revert out. induction l as [|p l IH]; intros out; cbn; [intros [= <-]; constructor|].
  intros (h & Hh & (r & Hr & [= <-])%res_bind_ok)%res_bind_ok. rewrite wrap_ok in Hh. constructor; [done|by apply IH].
Qed.
Lemma checked_hashes_parse l : Config.check_code_hashes l = Ok tt -> exists out, Config.parse_hashes l = Ok out.
Proof.
  induction l as [|h l IH]; cbn; [eauto|]. destruct (Config.parseCodeHash h) as [x|e|]; [|done..].
  intros [out ->]%IH. eexists. reflexivity.
Qed.
Lemma zlen_pos_Forall2 {A B} (P : A -> B -> Prop) l k : Forall2 P l k -> bool_decide (0 < zlen k) = bool_decide (l <> []).
Proof. intros Hf. apply bool_decide_ext. unfold zlen. destruct Hf; cbn; [naive_solver lia|]. split; [done|lia]. Qed.

(** The attestation that runs is the one configured.  Disabled, it checks nothing.
    Enabled, it trusts the Google root alone, expects the configured audience, statuses
    and age on the proxy's chain, and each configured code hash and platform in its
    binary form; so the checks that run, as the posture reports them, are those that are
    configured, and the image of the node's container is never among them.  With a
    configuration that passed the validation only the root or a platform can make it
    fail. *)
Theorem buildAttestationConfig_correct (cfg : Config.Attestation) chainID :
  match buildAttestationConfig cfg chainID with
  | Ok c =>
      Enabled c = Config.att_Enable cfg /\ AllowedImageIDs c = [] /\
      (Config.att_Enable cfg = true ->
        ChainID c = chainID /\ (exists root, GoogleCSRoot = Ok root /\ RootCert c = Some root) /\
        Forall2 (fun s h => Config.parseCodeHash s = Ok h) (Config.ExpectedCodeHashes cfg) (ExpectedCodeHash c) /\
        Forall2 (fun p h => StringToCommonHash p = Ok h) (Config.ExpectedPlatforms cfg) (ExpectedPlatform c) /\
        Active c = mkActive (bool_decide (Config.Audience cfg <> "")) (bool_decide (Config.ExpectedCodeHashes cfg <> []))
          (bool_decide (Config.ExpectedPlatforms cfg <> [])) (bool_decide (Config.ExpectedDebugStatuses cfg <> []))
          (bool_decide (0 < Config.MaxTokenAge cfg)) (Config.RequireSecBoot cfg) (Config.AllowMagicPass cfg)) /\
      (Config.att_Enable cfg = false -> forall name, (name, true) ∉ attestationPostureSettings c)
  | _ =>
      Config.att_Enable cfg = true /\
      (Config.Attestation_validate cfg = Ok tt ->
        (forall root, GoogleCSRoot <> Ok root) \/ (forall hs, encode_platforms (Config.ExpectedPlatforms cfg) <> Ok hs))
  end.
Proof.
  unfold buildAttestationConfig. destruct (Config.att_Enable cfg); cbn [negb].
  2:{ split_and!; [done..|]. intros _ name Hin. unfold attestationPostureSettings, disabled, Active in Hin.
      cbn in Hin. repeat (apply elem_of_cons in Hin as [Hin|Hin]; [by inversion Hin|]). by inversion Hin. }
  assert (Hv : Config.Attestation_validate cfg = Ok tt -> exists out, Config.ParsedCodeHashes cfg = Ok out).
  { unfold Config.Attestation_validate. destruct (decide _); [done|]. apply checked_hashes_parse. }
  destruct (GoogleCSRoot) as [root| |] eqn:Hr; cbn; [|split; [done|]; intros _; by left..].
  destruct (Config.ParsedCodeHashes cfg) as [hs| |] eqn:Hh; cbn;
    [|split; [done|]; intros Hval; by destruct (Hv Hval)..].
  destruct (encode_platforms (Config.ExpectedPlatforms cfg)) as [ps| |] eqn:Hp; cbn;
    [|split; [done|]; intros _; by right..].
  split_and!; [done..| |done]. intros _. apply parse_hashes_ok in Hh. apply encode_platforms_ok in Hp.
  split_and!; [done|by exists root|done|done|]. unfold Active. cbn.
  rewrite (zlen_pos_Forall2 _ _ _ Hh), (zlen_pos_Forall2 _ _ _ Hp). f_equal.
  apply bool_decide_ext. unfold zlen. destruct (Config.ExpectedDebugStatuses cfg); cbn; [naive_solver lia|]. split; [done|lia].
Qed.
End AttestationFacts.

(** ** A concrete start *)

Module DemoBoot.
(** Two groups are turned off. *)
Definition metrics : Config.Metrics :=
  Config.mkMetrics true (Some false) None (Some true) (Some false) None None None None None None None None None.
Lemma metricsConfig_groups_witness :
  Config.Metrics_validate metrics = Ok tt /\ true ∈ groups (metricsConfig metrics).
Proof. split; [reflexivity|]. apply (metricsConfig_groups metrics); reflexivity. Defined.

#[local] Existing Instance Attestation.DemoAttestation.lib.
Definition attestation : Config.Attestation :=
  Config.mkAttestation true "proxy" [] ["a"; "bc"]%string [] 5 true false.
Lemma buildAttestationConfig_correct_witness :
  exists c, buildAttestationConfig attestation 14 = Ok c /\ Attestation.ExpectedPlatform c = [1; 2]%N /\
    Attestation.Active c = Attestation.mkActive true false true false true true false.
Proof.
  pose proof (buildAttestationConfig_correct attestation 14) as Hb.
  assert (Hok : is_ok (buildAttestationConfig attestation 14) = true) by reflexivity.
  eexists. split; [reflexivity|]. split; [reflexivity|]. apply Hb. reflexivity.
Defined.
End DemoBoot.
End Boot.
