(* ===== verification/Run.v ===== *)
(** The boot of the proxy and its end ([Run] and [runServer] of
    [internal/proxy/proxy.go]): the order in which the services are made, checked and
    started, what a failure leaves behind, and the shutdown. *)

From S2P Require Import Prelude Hex Status Types Cyclic Config VotingData Rounds VotingStorage Redis Queue Results.
From S2P Require Import Wallets Policies PolicyService Attestation Metrics Info Liveness Meta Instructions MachinePath PathService External Boot.

Open Scope Z_scope.

Module ProxyRun.
Import Attestation(TeeInfoResponse, teeInfo, machineData).
Import Metrics(PromLib, PromLaws, Func, FuncGauge, mkFuncGauge, register, register_gauges, gauges_ok,
  RegisterQueueDepth, RegisterWalletKeysCached, RegisterInfoDelay, RegisterCChainDelay, RegisterNodeAppliedPolicy,
  RegisterGovernanceHashMatch, RegisterActiveDataProviderVoters, RegisterActiveInitiators,
  RegisterActiveDataProviderWeight, RegisterMaxVotingWeight, RegisterVotingThreshold,
  RegisterTopUnfinalizedProposals, RegisterOldestStoredPolicy, RegisterMaxConsensusEpoch).

#[local] Existing Instance Metrics.apart_dec.

(** ** Effects

    What the boot does to the world, in order. *)
Inductive Effect : Type :=
| ConnectedDB
| SyncedIndexer
| OpenedRedis (port : string)
| OpenedGCS (credentials url : string)
| AttestationPosture (settings : list (string * bool))
| GovernancePosture (settings : list (string * bool))
| Serving (name port : string)
| FetchedInfo
| Started (name : string)         (* a goroutine *)
| SetIdentity (id : Address)
| StartupFinished
| ClosedServer (name : string) (err : option error)
| ClosedGCS
| ClosedRedis.

(** A computation either comes to its end, ends the process with a panic, or waits for
    ever; [deferred] are the calls that run in reverse when the function is left, also by
    a panic. *)
Inductive outcome (A : Type) : Type :=
| Done (a : A)
| Died
| Stuck.
Arguments Done {A}. Arguments Died {A}. Arguments Stuck {A}.

Record Log : Type := mkLog { effects : list Effect; deferred : list Effect }.
Definition M (A : Type) : Type := Log -> Log * outcome A.

Definition ret {A} (a : A) : M A := fun l => (l, Done a).
Definition bind {A B} (m : M A) (k : A -> M B) : M B := fun l =>
  match m l with
  | (l, Done a) => k a l
  | (l, Died) => (l, Died)
  | (l, Stuck) => (l, Stuck)
  end.
#[local] Notation "x <- m ;; k" := (bind m (fun x => k)) (at level 100, m at next level, right associativity).
#[local] Notation "m ;; k" := (bind m (fun _ => k)) (at level 100, right associativity).

Definition tell (e : Effect) : M unit := fun l => (mkLog (effects l ++ [e]) (deferred l), Done tt).
Definition defer (e : Effect) : M unit := fun l => (mkLog (effects l) (e :: deferred l), Done tt).
(** A client is opened, and its close deferred. *)
Definition opening (e c : Effect) : M unit := tell e;; defer c.
(** [logger.Panicf] on an error. *)
Definition must {A} (m : res A) : M A := fun l => (l, match m with Ok a => Done a | _ => Died end).
Definition wait {A} (m : option (res A)) : M A := fun l =>
  (l, match m with Some (Ok a) => Done a | Some _ => Died | None => Stuck end).

(** The calls that were deferred run when the function is left. *)
Definition leave {A} (m : M A) : M A := fun l =>
  match m l with
  | (l, Stuck) => (l, Stuck)
  | (l, o) => (mkLog (effects l ++ deferred l) [], o)
  end.

(** [runServer]: what [serve] returns, and whether the process panics; the error of a
    server that was closed is no failure. *)
Definition ErrServerClosed : error := sentinel "http.ErrServerClosed".
Definition runServer (err : option error) : res unit :=
  match err with
  | Some e => if negb (errors_Is e "http.ErrServerClosed") then Panic else Ok tt
  | None => Ok tt
  end.

(** ** The gauges that the services register *)

Section Gauges.
Context `{PromLib}.
(** The function that is registered under a name. *)
Variable closure : string -> Func.

(** [registerDepthGauges] of the queues. *)
Definition registerDepthGauges (m : option Metrics.Metrics) : res (option Metrics.Metrics) :=
  m ← RegisterQueueDepth "direct" (Some (closure "direct")) m;
  m ← RegisterQueueDepth "main" (Some (closure "main")) m;
  RegisterQueueDepth "backup" (Some (closure "backup")) m.

(** [liveness.New], with an information service and a database. *)
Definition register_liveness (m : option Metrics.Metrics) : res (option Metrics.Metrics) :=
  m ← RegisterInfoDelay (Some (closure "info_delay")) m;
  RegisterCChainDelay (Some (closure "cchain_delay")) m.

(** [instruction.NewService]. *)
Definition register_instruction (m : option Metrics.Metrics) : res (option Metrics.Metrics) :=
  m ← RegisterActiveDataProviderVoters (Some (closure "voters")) m;
  m ← RegisterActiveInitiators (Some (closure "initiators")) m;
  m ← RegisterActiveDataProviderWeight (Some (closure "weight")) m;
  m ← RegisterMaxVotingWeight (Some (closure "max_weight")) m;
  m ← RegisterVotingThreshold (Some (closure "threshold")) m;
  m ← RegisterTopUnfinalizedProposals (Some (closure "top")) m;
  m ← RegisterOldestStoredPolicy (Some (closure "oldest_policy")) m;
  RegisterMaxConsensusEpoch (Some (closure "max_epoch")) m.

(** The gauges of all services in the order of their registration. *)
Definition gauge (g : Metrics.Config -> bool) (sub name : string) (const : list (string * string)) (f : string)
    : FuncGauge * Func := (mkFuncGauge g sub name [] const, closure f).
Definition before_governance : list (FuncGauge * Func) :=
  [gauge Metrics.Queue "" "action_queue_depth" [("queue", "direct")] "direct";
   gauge Metrics.Queue "" "action_queue_depth" [("queue", "main")] "main";
   gauge Metrics.Queue "" "action_queue_depth" [("queue", "backup")] "backup";
   gauge Metrics.Wallet "wallet" "keys_cached" [] "keys";
   gauge Metrics.Liveness "" "info_service_delay_seconds" [] "info_delay";
   gauge Metrics.Liveness "" "cchain_indexer_delay_seconds" [] "cchain_delay";
   gauge Metrics.Policy "" "node_applied_policy_epoch" [] "applied_policy"]%string.
Definition governance_gauge : list (FuncGauge * Func) :=
  [gauge Metrics.Node "" "governance_hash_match" [] "governance"]%string.
Definition after_governance : list (FuncGauge * Func) :=
  [gauge Metrics.ActiveVoters "" "active_data_provider_voters" [] "voters";
   gauge Metrics.ActiveVoters "" "active_initiators" [] "initiators";
   gauge Metrics.ActiveVoters "" "active_data_provider_weight_bips" [] "weight";
   gauge Metrics.ActiveVoters "" "max_voting_weight_bips" [] "max_weight";
   gauge Metrics.ActiveVoters "" "voting_threshold_bips" [] "threshold";
   (mkFuncGauge Metrics.ActiveVoters "" "top_provider_unfinalized_proposals" ["provider"] [], closure "top");
   gauge Metrics.Policy "" "signing_policy_oldest_reward_epoch" [] "oldest_policy";
   gauge Metrics.Policy "" "consensus_max_reward_epoch" [] "max_epoch"]%string.
Definition startup_gauges (governance : bool) : list (FuncGauge * Func) :=
  before_governance ++ (if governance then governance_gauge else []) ++ after_governance.

Lemma register_gauges_app m l k :
  register_gauges m (l ++ k) = (m ← register_gauges m l; register_gauges m k).
Proof. revert m. induction l as [|[g f] l IH]; intros m; cbn; [done|]. destruct (register _ _ _ _); cbn; [apply IH|done..]. Qed.

Lemma startup_gauges_ok b : gauges_ok (startup_gauges b).*1.
Proof. destruct b; apply (bool_decide_unpack _); vm_compute; exact I. Qed.

(** All registrations of a boot, with the gauge of a configured governance or without. *)
Definition register_startup (governance : bool) (m : option Metrics.Metrics) : res (option Metrics.Metrics) :=
  m ← registerDepthGauges m;
  m ← RegisterWalletKeysCached (Some (closure "keys")) m;
  m ← register_liveness m;
  m ← RegisterNodeAppliedPolicy (Some (closure "applied_policy")) m;
  m ← (if governance then RegisterGovernanceHashMatch (Some (closure "governance")) m else Ok m);
  register_instruction m.

Lemma register_startup_gauges governance m : register_startup governance m = register_gauges m (startup_gauges governance).
Proof.
  unfold register_startup, startup_gauges, registerDepthGauges, register_liveness, register_instruction.
  assert (Hassoc : forall A B C (x : res A) (f : A -> res B) (g : B -> res C),
    (b ← (a ← x; f a); g b) = (a ← x; b ← f a; g b)) by by intros ??? [].
  assert (Hlast : forall A (x : res A), x = (a ← x; Ok a)) by by intros A [].
  destruct governance; cbn [app before_governance governance_gauge after_governance register_gauges gauge];
    repeat (rewrite ?Hassoc; match goal with
      | |- (_ ← ?x; _) = (_ ← ?y; _) => change y with x; destruct x; cbn [mbind res_bind]; [|reflexivity..]
      end); apply Hlast.
Qed.

(** The gauges of the start.  In any metrics configuration the collectors can be built
    and the gauges of all services registered next to them: no two of them clash, so
    metrics never end a boot, and the gauges that are read at a scrape are exactly those
    of the enabled groups, each with the function of its service. *)
Theorem startup_gauges_registered `{!PromLaws} b c governance :
  Metrics.plain_build b ->
  exists m m', Metrics.New b c = Ok m /\ register_startup governance (Some m) = Ok (Some m') /\
    Metrics.cfg m' = c /\ Metrics.fields m' = Metrics.fields m /\
    Metrics.funcs m' = Metrics.enabled_gauges c (startup_gauges governance).
Proof.
  intros Hb. destruct (Metrics.gauges_registered b c (startup_gauges governance) Hb (startup_gauges_ok governance))
    as (m & m' & Hm & Hr & Hc & Hf & Hu & _).
  exists m, m'. by rewrite register_startup_gauges.
Qed.
End Gauges.

(** ** The rounds of the backfill *)

Section Rounds.
Context `{OpLib, InstructionLib, CyclicLib, !CyclicLaws}.
Import VotingStorage.

(** The rounds of the policies [ps], of different epochs within the size of the buffer
    from [lo], side by side. *)
Record kept (lo : Z) (ps : list SigningPolicy) (s : Storage) : Prop := {
  kept_heap n r : heap s !! n = Some r -> (n < next s)%nat;
  kept_in p : p ∈ ps -> exists n r, Get s (policy_RewardEpochID p) = Some (n, r) /\ round_policy r = p;
  kept_out k : lo <= k < lo + cyclic_Size (rounds s) -> k ∉ policy_RewardEpochID <$> ps -> cyclic_Get (rounds s) k = None
}.

Lemma store_in_window (s : Storage) lo p ptr k :
  let n := cyclic_Size (rounds s) in
  0 <= lo -> lo <= policy_RewardEpochID p < lo + n -> lo <= k < lo + n ->
  cyclic_Get (cyclic_Store (rounds s) (policy_RewardEpochID p) ptr) k =
    if decide (k = policy_RewardEpochID p) then Some ptr else cyclic_Get (rounds s) k.
Proof.
  intros n Hlo Hp Hk. rewrite cyclic_Get_Store by lia. fold n.
  destruct (decide (k = policy_RewardEpochID p)) as [->|Hne]; [by rewrite decide_True|].
  rewrite decide_False; [done|]. intros Hm. apply Hne.
  pose proof (Z.div_mod k n ltac:(lia)) as Hkd. pose proof (Z.div_mod (policy_RewardEpochID p) n ltac:(lia)) as Hpd.
  rewrite Hm in Hkd. revert Hkd Hpd. generalize (k / n), (policy_RewardEpochID p / n). intros a b Ha Hb.
  destruct (Z.lt_trichotomy a b) as [Hab|[->|Hab]]; [nia|lia|nia].
Qed.

Lemma StoreNewRound_kept lo ps p s :
  0 <= lo -> Forall (fun q => lo <= policy_RewardEpochID q < lo + cyclic_Size (rounds s)) (p :: ps) ->
  policy_RewardEpochID p ∉ policy_RewardEpochID <$> ps ->
  kept lo ps s -> kept lo (ps ++ [p]) (StoreNewRound s p) /\ cyclic_Size (rounds (StoreNewRound s p)) = cyclic_Size (rounds s).
Proof.
  intros Hlo Hall Hnew [Hh Hin Hout]. apply Forall_cons in Hall as [Hp Hps]. rewrite Forall_forall in Hps.
  unfold StoreNewRound, Get. rewrite (Hout _ Hp Hnew). cbn. split; [|by rewrite cyclic_Size_Store].
  constructor; cbn.
  - intros m r. rewrite lookup_insert. case_decide; [subst; lia|]. intros Hr%Hh. lia.
  - intros q [Hq|Hq%list_elem_of_singleton]%elem_of_app; unfold Get; cbn.
    + rewrite (store_in_window s lo p) by (done || by apply Hps).
      rewrite decide_False by (intros He; apply Hnew; rewrite <- He; by apply list_elem_of_fmap_2).
      destruct (Hin q Hq) as (m & r & Hg & Hr). exists m, r. split; [|done]. unfold Get in Hg.
      destruct (cyclic_Get (rounds s) _) as [m'|]; [|done]. destruct (heap s !! m') as [r'|] eqn:Hm; [|done]. cbn in Hg |- *.
      injection Hg as -> ->. rewrite lookup_insert_ne by (apply Hh in Hm; lia). by rewrite Hm.
    + subst q. rewrite (store_in_window s lo p), decide_True by done. cbn. rewrite lookup_insert_eq. eexists _, _. split; [done|].
      unfold Rounds.createRound. by destruct (collectVoters s).
  - intros k Hk. rewrite cyclic_Size_Store in Hk. rewrite fmap_app, elem_of_app. cbn. rewrite list_elem_of_singleton.
    intros Hno. rewrite (store_in_window s lo p), decide_False by (done || tauto). apply Hout; tauto.
Qed.

Lemma rounds_resident lo ps qs s :
  0 <= lo -> Forall (fun q => lo <= policy_RewardEpochID q < lo + cyclic_Size (rounds s)) (qs ++ ps) ->
  NoDup (policy_RewardEpochID <$> qs ++ ps) -> kept lo qs s -> kept lo (qs ++ ps) (foldl StoreNewRound s ps).
Proof.
  intros Hlo. revert qs s. induction ps as [|p ps IH]; intros qs s Hall Hnd Hk; cbn [foldl]; [by rewrite app_nil_r|].
  rewrite fmap_app in Hnd. pose proof Hnd as (_ & Hno & _)%NoDup_app.
  destruct (StoreNewRound_kept lo qs p s Hlo) as [Hk' Hsz]; [| |exact Hk|].
  - apply Forall_app in Hall as [Hq Hp]. apply Forall_cons in Hp as [Hp _]. by constructor.
  - intros Hin. apply (Hno _ Hin). rewrite fmap_cons. left.
  - replace (qs ++ p :: ps) with ((qs ++ [p]) ++ ps) by by rewrite <- app_assoc.
    apply IH; [|by rewrite <- app_assoc, fmap_app|exact Hk']. rewrite Hsz, <- app_assoc. exact Hall.
Qed.

Lemma NewStorage_kept cfg collect lo : kept lo [] (NewStorage cfg collect).
Proof.
  constructor; cbn.
  - intros n r. by rewrite lookup_empty.
  - intros p Hp. by apply elem_of_nil in Hp.
  - intros k _ _. apply cyclic_Get_New.
Qed.
End Rounds.

(** ** The boot *)

Section Boot.
Context {W : Type} `{StorageI W Results.ActionResponse, Queue.NameLib, OpLib, Results.SignerLib, Config.ConfigLib}.
Context `{RedisLib, !Json Action, !Json Queue.ActionSubmissionID, !Json Queue.DirectInstruction}.
Context `{Attestation.AttestationLib, !Json TeeInfoResponse, Info.InfoLib, Boot.GovernanceLib, Policies.PolicyLib}.
Context `{MachinePath.PathLib, InstructionLib, CyclicLib, PromLib, InstructionMeta.MetaLib}.

(** [toml.ReadTo], [os.LookupEnv], [crypto.ToECDSA] with its keys, the build of the
    binary, and the functions of the gauges. *)
Context {K : Type}.
Variable ReadTo : string -> Config.Proxy -> stateful Config.Proxy unit.
Variable LookupEnv : string -> option string.
Variable ToECDSA : bytes -> res K.
Variable build : Metrics.Build.
Variable closure : string -> Func.

(** What the boot meets: the outcomes of the calls outside, what the other goroutines
    have made of the shared queues by the time of a call, and the responses that the
    server of the node has handed to the result service before the node's identity is
    known. *)
Record Outside : Type := mkOutside {
  o_connect : res unit;                (* database.Connect *)
  o_sync : res unit;                   (* database.WaitCIndexerToSync *)
  o_redis : redis;
  o_gcs : res unit;                    (* storage.NewGCSClient *)
  o_store : string -> W;               (* the result store of a backend *)
  o_now : Z;
  o_fetch_queues : Queue.ActionQueues -> Queue.ActionQueues;
  o_tries : list Info.Try;             (* the attempts of FetchInfo *)
  o_responses : list (Z * Results.ActionResponse);
  o_policy_queues : Queue.ActionQueues -> Queue.ActionQueues;
  o_db : Policies.DB;
  o_policy_now : Z;
  o_policy_id : res Hash;
  o_path_queues : Queue.ActionQueues -> Queue.ActionQueues;
  o_instruction_queues : Queue.ActionQueues -> Queue.ActionQueues;
  o_closes : list (string * option error)   (* the ends of the two servers, in their order *)
}.

(** What the server of the clients is made of, next to the services it calls. *)
Record ExternalServer : Type := mkExternal {
  ex_privKey : K;
  ex_chainID : Z;
  ex_direct : External.DirectConfig
}.

(** The result service after the node's first responses. *)
Definition reported (o : Outside) (r : @Results.Service W) : @Results.Service W :=
  foldl (fun r e => (Results.ProcessAndStore r e.1 e.2).1) r (o_responses o).

(** The services at the end of the boot; the metadata checks read the wallets' cache. *)
Record Proxy : Type := mkProxy {
  p_cfg : Config.Proxy;
  p_key : K;
  p_metrics : option Metrics.Metrics;
  p_backend : string;
  p_attestation : Attestation.Config;
  p_initialInfo : TeeInfoResponse;
  p_challenge : Hash;
  p_teeID : Address;
  p_info : Info.Service;
  p_results : @Results.Service W;
  p_policy : PolicyService.Service;
  p_paths : option PathService.Service;
  p_instruction : Instructions.Service;
  p_liveness : @Liveness.liveness W _ _;
  p_meta : Wallets.Cache -> VotingData.Meta;
  p_external : ExternalServer
}.

(** The arguments that [Run] makes of the configuration and of the node's answer. *)
Definition storageBackend (cfg : Config.Proxy) : string :=
  if decide (Config.Bucket (Config.gcs cfg) <> "") then "gcs"%string else "redis"%string.
Definition policy_addresses (a : Config.Addresses) : Policies.Addresses :=
  Policies.mkAddresses (Config.Relay a) (Config.FlareSystemsManager a) (Config.VoterRegistry a).
Definition policy_info (i : TeeInfoResponse) : PolicyService.TeeInfo :=
  PolicyService.mkTeeInfo (Attestation.InitialSigningPolicyHash (teeInfo i)) (Attestation.LastSigningPolicyID (teeInfo i)).
Definition governance_posture (g : Config.Governance) : list (string * bool) :=
  [("configured", Config.IsSet g); ("safe_backed", Config.SafeBacked g)]%string.
(** [history_size - 1], and fuel for the backfill. *)
Definition backfill_depth (cfg : Config.Proxy) : Z := Config.HistorySize (Config.voting cfg) - 1.

(** The clients and the stores. *)
Definition open_clients (cfg : Config.Proxy) (o : Outside) : M (K * option Metrics.Metrics * Queue.ActionQueues) :=
  must (o_connect o);;
  tell ConnectedDB;;
  must (o_sync o);;
  tell SyncedIndexer;;
  privKey <- must (Config.PrivateKeyFromEnv LookupEnv ToECDSA (Config.PrivateKeyVariable cfg));;
  opening (OpenedRedis (Config.RedisPort cfg)) ClosedRedis;;
  m <- must (Metrics.New build (Boot.metricsConfig (Config.metrics cfg)));;
  m <- must (registerDepthGauges closure (Some m));;
  ret (privKey, m, Queue.NewActionQueues (o_redis o) (Config.ActionTTL (Config.storage cfg))).

Definition open_stores (cfg : Config.Proxy) (o : Outside) : M (@Results.ResultStorage W) :=
  (if decide (Config.Bucket (Config.gcs cfg) <> "")
   then must (o_gcs o);;
        opening (OpenedGCS (Config.CredentialsFile (Config.gcs cfg)) (Config.URL (Config.gcs cfg))) ClosedGCS
   else ret tt);;
  ret (Results.NewStorage (o_store o (storageBackend cfg)) (Config.ResultTTL (Config.storage cfg))
         (Config.SubmitResultTTL (Config.storage cfg))).

(** The first answer of the node, and the services that need it. *)
Definition meet_node (cfg : Config.Proxy) (o : Outside) (i : Info.Service) (r : @Results.Service W)
    : M (Info.Service * @Results.Service W * TeeInfoResponse * Hash * Address) :=
  tell (Serving "internal" (Config.Internal (Config.ports cfg)));;
  let '(i, out) := Info.FetchInfo (Info.set_queues i (o_fetch_queues o (Info.actionQueues i))) (o_tries o) in
  answer <- wait out;;
  let '(initialInfo, sentChallenge) := answer in
  tell FetchedInfo;;
  (if decide (Attestation.Challenge (teeInfo initialInfo) <> sentChallenge) then must (Fail (errorf [])) else ret tt);;
  tell (Started "info");;
  teeID <- must (Info.ParseTeeID initialInfo);;
  let '(r, set) := Results.SetIdentity (reported o r) teeID in
  must set;;
  tell (SetIdentity teeID);;
  tell (Started "wallets");;
  tell (Started "wallet sync trigger");;
  ret (i, r, initialInfo, sentChallenge, teeID).

Definition start_policies (cfg : Config.Proxy) (o : Outside) (m : option Metrics.Metrics) (q : Queue.ActionQueues)
    (initialInfo : TeeInfoResponse) : M (option Metrics.Metrics * PolicyService.Service) :=
  m <- must (RegisterNodeAppliedPolicy (Some (closure "applied_policy")) m);;
  let s := PolicyService.NewService (o_policy_queues o q) (policy_addresses (Config.addresses cfg)) (Config.ChainID cfg) in
  match PolicyService.Initialize (Z.to_nat (Config.HistorySize (Config.voting cfg))) s (o_db o) (backfill_depth cfg)
          (policy_info initialInfo) (o_policy_now o) (o_policy_id o) with
  | None => wait None
  | Some (s, out) =>
      must out;;
      let '(s, out) := PolicyService.Run s in
      must out;;
      tell (Started "policy");;
      ret (m, s)
  end.

Definition path_service (cfg : Config.Proxy) (q : Queue.ActionQueues) (initialInfo : TeeInfoResponse) (g : Boot.Governance)
    : PathService.Service :=
  PathService.NewService q (Config.MachinePathManager (Config.addresses cfg))
    (Boot.gov_checks g) (Attestation.ExtensionID (machineData initialInfo)) (Config.ChainID cfg)
    (Attestation.MachinePathListNonce (teeInfo initialInfo)).

Definition start_paths (cfg : Config.Proxy) (o : Outside) (m : option Metrics.Metrics) (q : Queue.ActionQueues)
    (initialInfo : TeeInfoResponse) : M (option Metrics.Metrics * option PathService.Service) :=
  tell (GovernancePosture (governance_posture (Config.governance cfg)));;
  governance <- must (Boot.path_governance (Config.addresses cfg) (Config.governance cfg) initialInfo);;
  match governance with
  | None => ret (m, None)
  | Some g =>
      m <- must (if Config.IsSet (Config.governance cfg)
                 then RegisterGovernanceHashMatch (Some (closure "governance")) m else Ok m);;
      tell (Started "machine paths");;
      ret (m, Some (path_service cfg (o_path_queues o q) initialInfo g))
  end.

(** [Run] up to the start of the service of instructions. *)
Definition prepare (cfgPath : string) (o : Outside) : M Proxy :=
  let '(cfg, out) := Config.Read ReadTo LookupEnv cfgPath in
  must out;;
  clients <- open_clients cfg o;;
  let '(privKey, m, q) := clients in
  store <- open_stores cfg o;;
  let r := Results.NewService store (Config.ChainID cfg) in
  m <- must (RegisterWalletKeysCached (Some (closure "keys")) m);;
  ac <- must (Boot.buildAttestationConfig (Config.attestation cfg) (Config.ChainID cfg));;
  tell (AttestationPosture (Boot.attestationPostureSettings ac));;
  let i := Info.NewService q (Config.infoTiming cfg) (Some ac) (o_now o) in
  m <- must (register_liveness closure m);;
  met <- meet_node cfg o i r;;
  let '(i, r, initialInfo, sentChallenge, teeID) := met in
  policies <- start_policies cfg o m (Info.actionQueues i) initialInfo;;
  let '(m, policy) := policies in
  paths <- start_paths cfg o m (PolicyService.aq policy) initialInfo;;
  let '(m, path) := paths in
  m <- must (register_instruction closure m);;
  let ins := Instructions.NewService (Config.voting cfg) (Metrics.ActiveVotersEnabled m) teeID
               (o_instruction_queues o (PolicyService.aq policy)) (Config.ChainID cfg) in
  ret (mkProxy cfg privKey m (storageBackend cfg) ac initialInfo sentChallenge teeID i r policy path ins
         (Liveness.New (Some i) (Some r)) (fun wallets => InstructionMeta.New wallets (Config.ChainID cfg))
         (mkExternal privKey (Config.ChainID cfg) (Boot.directConfig (Config.direct cfg)))).

Definition signal (p : Proxy) : Proxy :=
  mkProxy (p_cfg p) (p_key p) (p_metrics p) (p_backend p) (p_attestation p) (p_initialInfo p) (p_challenge p) (p_teeID p)
    (p_info p) (p_results p) (p_policy p) (p_paths p) (p_instruction p) (Liveness.SignalStartupFinished (p_liveness p))
    (p_meta p) (p_external p).

(** [Run] up to the wait for the end of its context. *)
Definition boot (cfgPath : string) (o : Outside) : M Proxy :=
  p <- prepare cfgPath o;;
  tell (Started "instructions");;
  tell (Serving "external" (Config.External (Config.ports (p_cfg p))));;
  tell StartupFinished;;
  ret (signal p).

Definition closed_servers (o : Outside) : list Effect := (fun c => ClosedServer c.1 c.2) <$> o_closes o.

(** [Run]: the boot, the end of both servers when the context ends, and the deferred
    calls. *)
Definition Run (cfgPath : string) (o : Outside) : M Proxy :=
  leave (p <- boot cfgPath o;;
         (fun l => (mkLog (effects l ++ closed_servers o) (deferred l), Done tt));;
         ret p).

(** ** The order of the boot *)

(** The calls that are deferred by the time these effects have happened. *)
Definition closer (e : Effect) : option Effect :=
  match e with OpenedRedis _ => Some ClosedRedis | OpenedGCS _ _ => Some ClosedGCS | _ => None end.
Definition closers (es : list Effect) : list Effect := reverse (omap closer es).
Definition extend (l : Log) (es : list Effect) : Log := mkLog (effects l ++ es) (closers es ++ deferred l).

Lemma extend_extend l es es' : extend (extend l es) es' = extend l (es ++ es').
Proof. unfold extend, closers. cbn. by rewrite omap_app, reverse_app, !app_assoc. Qed.

(** The effects of each part of the boot. *)
Definition clients_plan (cfg : Config.Proxy) : list Effect :=
  [ConnectedDB; SyncedIndexer; OpenedRedis (Config.RedisPort cfg)].
Definition stores_plan (cfg : Config.Proxy) : list Effect :=
  if decide (Config.Bucket (Config.gcs cfg) <> "")
  then [OpenedGCS (Config.CredentialsFile (Config.gcs cfg)) (Config.URL (Config.gcs cfg))] else [].
Definition node_plan (cfg : Config.Proxy) (id : Address) : list Effect :=
  [Serving "internal" (Config.Internal (Config.ports cfg)); FetchedInfo; Started "info"; SetIdentity id;
   Started "wallets"; Started "wallet sync trigger"]%string.
Definition paths_plan (cfg : Config.Proxy) : list Effect :=
  GovernancePosture (governance_posture (Config.governance cfg)) ::
  (if decide (Config.MachinePathManager (Config.addresses cfg) <> zero_address) then [Started "machine paths"%string] else []).

(** All but the last three: the service of instructions, the server of the clients and
    the signal that the boot is over. *)
Definition checked_plan (cfg : Config.Proxy) (posture : list (string * bool)) (id : Address) : list Effect :=
  clients_plan cfg ++ stores_plan cfg ++ [AttestationPosture posture] ++ node_plan cfg id ++
  [Started "policy"%string] ++ paths_plan cfg.
Definition last_plan (cfg : Config.Proxy) : list Effect :=
  [Started "instructions"; Serving "external" (Config.External (Config.ports cfg)); StartupFinished]%string.

(** A part of the boot, from any log: at its end its whole plan has happened, and where it
    stops a prefix of it. *)
Definition follows {A} (m : M A) (plan : list Effect -> Prop) (ends : A -> list Effect -> Prop) : Prop :=
  forall l, match m l with
            | (l', Done a) => exists es, l' = extend l es /\ plan es /\ ends a es
            | (l', _) => exists es es', l' = extend l es /\ plan (es ++ es')
            end.

Lemma extend_nil l : extend l [] = l.
Proof. destruct l as [es ds]. unfold extend, closers. cbn. by rewrite app_nil_r. Qed.

Lemma follows_bind {A B} (m : M A) (k : A -> M B) (p q : list Effect -> Prop) ends ends' :
  follows m p ends ->
  (forall es, p es -> exists es', q (es ++ es')) ->
  (forall a es, p es -> ends a es -> follows (k a) (fun es' => q (es ++ es')) (fun b es' => ends' b (es ++ es'))) ->
  follows (bind m k) q ends'.
Proof.
  intros Hm Hp Hk l. unfold bind. specialize (Hm l). destruct (m l) as [l1 [a| |]].
  - destruct Hm as (es & -> & He & Ha). specialize (Hk a es He Ha (extend l es)).
    destruct (k a _) as [l2 [b| |]].
    + destruct Hk as (es' & -> & Hq & Hb). exists (es ++ es'). by rewrite extend_extend.
    + destruct Hk as (es' & r & -> & Hq). exists (es ++ es'), r. by rewrite extend_extend, <- app_assoc.
    + destruct Hk as (es' & r & -> & Hq). exists (es ++ es'), r. by rewrite extend_extend, <- app_assoc.
  - destruct Hm as (es & r & -> & He). destruct (Hp _ He) as [r' Hr]. exists es, (r ++ r'). by rewrite app_assoc.
  - destruct Hm as (es & r & -> & He). destruct (Hp _ He) as [r' Hr]. exists es, (r ++ r'). by rewrite app_assoc.
Qed.

Lemma follows_must {A B} (m : res A) (k : A -> M B) p ends :
  (exists es, p es) -> (forall a, m = Ok a -> follows (k a) p ends) -> follows (bind (must m) k) p ends.
Proof.
  intros [r Hr] Hk l. unfold bind, must. destruct m as [a|e|]; [by apply Hk|exists [], r; by rewrite extend_nil..].
Qed.
Lemma follows_wait {A B} (m : option (res A)) (k : A -> M B) p ends :
  (exists es, p es) -> (forall a, m = Some (Ok a) -> follows (k a) p ends) -> follows (bind (wait m) k) p ends.
Proof.
  intros [r Hr] Hk l. unfold bind, wait. destruct m as [[a|e|]|]; [by apply Hk|exists [], r; by rewrite extend_nil..].
Qed.
Lemma follows_ret {A} (a : A) (p : list Effect -> Prop) (ends : A -> list Effect -> Prop) :
  p [] -> ends a [] -> follows (ret a) p ends.
Proof. intros Hp He l. exists []. by rewrite extend_nil. Qed.
Lemma follows_bind_ret {A B} (a : A) (k : A -> M B) p ends : follows (k a) p ends -> follows (bind (ret a) k) p ends.
Proof. intros Hk l. exact (Hk l). Qed.
Lemma follows_stuck {A} (p : list Effect -> Prop) (ends : A -> list Effect -> Prop) :
  (exists es, p es) -> follows (wait None) p ends.
Proof. intros [r Hr] l. exists [], r. by rewrite extend_nil. Qed.
Lemma follows_effect {A} (m : M unit) (k : unit -> M A) e p (ends : A -> list Effect -> Prop) :
  (forall l, m l = (extend l [e], Done tt)) ->
  follows (k tt) (fun es => p (e :: es)) (fun a es => ends a (e :: es)) ->
  follows (bind m k) p ends.
Proof.
  intros Hm Hk l. unfold bind. rewrite Hm. specialize (Hk (extend l [e])). destruct (k tt _) as [l2 [b| |]].
  - destruct Hk as (es & -> & He & Hb). exists (e :: es). by rewrite extend_extend.
  - destruct Hk as (es & r & -> & He). exists (e :: es), r. by rewrite extend_extend.
  - destruct Hk as (es & r & -> & He). exists (e :: es), r. by rewrite extend_extend.
Qed.
Lemma tell_extend e l : closer e = None -> tell e l = (extend l [e], Done tt).
Proof. intros He. unfold tell, extend, closers. cbn. by rewrite He. Qed.
Lemma opening_extend e c l : closer e = Some c -> opening e c l = (extend l [e], Done tt).
Proof. intros He. unfold opening, bind, tell, defer, extend, closers. cbn. by rewrite He. Qed.

(** One step of a part: an effect, or a call that may fail. *)
Ltac follow := lazymatch goal with
  | |- follows (bind (tell _) _) _ _ => eapply follows_effect; [intros l; by apply tell_extend|]
  | |- follows (bind (opening _ _) _) _ _ => eapply follows_effect; [intros l; by apply opening_extend|]
  | |- follows (bind (must _) _) _ _ => apply follows_must; [by eexists|intros ? ?]
  | |- follows (bind (wait _) _) _ _ => apply follows_wait; [by eexists|intros ? ?]
  | |- follows (bind (ret _) _) _ _ => apply follows_bind_ret
  | |- follows (ret _) _ _ => apply follows_ret
  end.

Lemma open_clients_follows cfg o :
  follows (open_clients cfg o) (fun es => es = clients_plan cfg) (fun x _ => x.2 = Queue.NewActionQueues (o_redis o) (Config.ActionTTL (Config.storage cfg))).
Proof. unfold open_clients. repeat follow; done. Qed.

Lemma open_stores_follows cfg o :
  follows (open_stores cfg o) (fun es => es = stores_plan cfg)
    (fun rs _ => rs = Results.NewStorage (o_store o (storageBackend cfg)) (Config.ResultTTL (Config.storage cfg))
                        (Config.SubmitResultTTL (Config.storage cfg))).
Proof.
  unfold open_stores, stores_plan. case_decide.
  - eapply (follows_bind _ _ (fun es => es = [OpenedGCS (Config.CredentialsFile (Config.gcs cfg)) (Config.URL (Config.gcs cfg))])
      _ (fun _ _ => True)); [|by intros ? ->; exists []|].
    + apply follows_must; [by eexists|]. intros _ _. intros l. rewrite opening_extend by done. by eexists.
    + intros _ es -> _. by follow.
  - by repeat follow.
Qed.

(** What the first answer has to be for the boot to go on. *)
Record met (cfg : Config.Proxy) (o : Outside) (i : Info.Service) (r : @Results.Service W)
    (i' : Info.Service) (r' : @Results.Service W) (info : TeeInfoResponse) (challenge : Hash) (id : Address) : Prop := {
  met_fetch : Info.FetchInfo (Info.set_queues i (o_fetch_queues o (Info.actionQueues i))) (o_tries o) =
    (i', Some (Ok (info, challenge)));
  met_challenge : Attestation.Challenge (teeInfo info) = challenge;
  met_id : Info.ParseTeeID info = Ok id;
  met_unset : Results.teeID (reported o r) = zero_address;
  met_set : Results.teeID r' = id;
  met_chain : Results.chainID r' = Results.chainID (reported o r)
}.

Lemma meet_node_follows cfg o i r :
  follows (meet_node cfg o i r) (fun es => exists id, es = node_plan cfg id)
    (fun x es => let '(i', r', info, challenge, id) := x in
                 es = node_plan cfg id /\ met cfg o i r i' r' info challenge id).
Proof.
  unfold meet_node, node_plan. follow.
  destruct (Info.FetchInfo _ _) as [i' out] eqn:Hf.
  apply follows_wait; [eexists _, zero_address; reflexivity|]. intros [info challenge] ->. follow.
  destruct (decide _) as [Hc|Hc]; [|apply dec_stable in Hc].
  { apply follows_must; [eexists _, zero_address; reflexivity|]. intros a [=]. }
  follow. follow.
  apply follows_must; [eexists _, zero_address; reflexivity|]. intros id Hid.
  destruct (Results.SetIdentity (reported o r) id) as [r' set] eqn:Hs.
  apply follows_must; [eexists _, zero_address; reflexivity|]. intros [] ->.
  unfold Results.SetIdentity in Hs. destruct (decide _) as [Ht|Ht]; [done|apply dec_stable in Ht]. injection Hs as <-.
  repeat follow; [by eexists|]. split; [done|]. by constructor.
Qed.

Lemma start_policies_follows cfg o m q info :
  follows (start_policies cfg o m q info) (fun es => es = [Started "policy"%string])
    (fun x _ => exists s0 s out, x.2 = s /\
       let new := PolicyService.NewService (o_policy_queues o q) (policy_addresses (Config.addresses cfg)) (Config.ChainID cfg) in
       PolicyService.Initialize (Z.to_nat (Config.HistorySize (Config.voting cfg))) new (o_db o) (backfill_depth cfg)
         (policy_info info) (o_policy_now o) (o_policy_id o) = Some (s0, Ok out) /\ PolicyService.Run s0 = (s, Ok tt)).
Proof.
  unfold start_policies. follow.
  destruct (PolicyService.Initialize _ _ _ _ _ _ _) as [[s out]|] eqn:Hi; [|apply follows_stuck; by eexists].
  follow. destruct (PolicyService.Run s) as [s' out'] eqn:Hr. repeat follow; [done|]. subst.
  eexists s, s', _. split; [done|]. split; [done|]. by match goal with u : unit |- _ => destruct u end.
Qed.

Lemma start_paths_follows cfg o m q info :
  follows (start_paths cfg o m q info) (fun es => es = paths_plan cfg)
    (fun x _ => exists g, Boot.path_governance (Config.addresses cfg) (Config.governance cfg) info = Ok g /\
       x.2 = path_service cfg (o_path_queues o q) info <$> g).
Proof.
  unfold start_paths, paths_plan. follow. apply follows_must; [by eexists|]. intros g Hg.
  pose proof Hg as Hp. unfold Boot.path_governance in Hp. revert Hp. case_decide as Hm.
  - destruct (Boot.resolveGovernance _ _) as [g'|e|]; [|done..]. intros [= <-]. repeat follow; [done|].
    by exists (Some g').
  - intros [= <-]. follow; [done|]. by exists None.
Qed.

(** What holds of the services when the boot is over. *)
Definition new_queues (cfg : Config.Proxy) (o : Outside) : Queue.ActionQueues :=
  Queue.NewActionQueues (o_redis o) (Config.ActionTTL (Config.storage cfg)).
Definition new_results (cfg : Config.Proxy) (o : Outside) : @Results.Service W :=
  Results.NewService (Results.NewStorage (o_store o (storageBackend cfg)) (Config.ResultTTL (Config.storage cfg))
    (Config.SubmitResultTTL (Config.storage cfg))) (Config.ChainID cfg).
Definition new_policies (cfg : Config.Proxy) (o : Outside) (i : Info.Service) : PolicyService.Service :=
  PolicyService.NewService (o_policy_queues o (Info.actionQueues i)) (policy_addresses (Config.addresses cfg)) (Config.ChainID cfg).

Record booted (cfgPath : string) (o : Outside) (p : Proxy) : Prop := {
  b_read : Config.Read ReadTo LookupEnv cfgPath = (p_cfg p, Ok tt);
  b_attestation : Boot.buildAttestationConfig (Config.attestation (p_cfg p)) (Config.ChainID (p_cfg p)) = Ok (p_attestation p);
  b_met : met (p_cfg p) o
    (Info.NewService (new_queues (p_cfg p) o) (Config.infoTiming (p_cfg p)) (Some (p_attestation p)) (o_now o))
    (new_results (p_cfg p) o) (p_info p) (p_results p) (p_initialInfo p) (p_challenge p) (p_teeID p);
  b_policy : exists s, PolicyService.Initialize (Z.to_nat (Config.HistorySize (Config.voting (p_cfg p))))
      (new_policies (p_cfg p) o (p_info p)) (o_db o) (backfill_depth (p_cfg p)) (policy_info (p_initialInfo p))
      (o_policy_now o) (o_policy_id o) = Some (s, Ok tt) /\ PolicyService.Run s = (p_policy p, Ok tt);
  b_paths : exists g, Boot.path_governance (Config.addresses (p_cfg p)) (Config.governance (p_cfg p)) (p_initialInfo p) = Ok g /\
      p_paths p = path_service (p_cfg p) (o_path_queues o (PolicyService.aq (p_policy p))) (p_initialInfo p) <$> g;
  b_instruction : p_instruction p = Instructions.NewService (Config.voting (p_cfg p)) (Metrics.ActiveVotersEnabled (p_metrics p))
      (p_teeID p) (o_instruction_queues o (PolicyService.aq (p_policy p))) (Config.ChainID (p_cfg p));
  b_meta wallets : p_meta p wallets = InstructionMeta.New wallets (Config.ChainID (p_cfg p));
  b_external : p_external p = mkExternal (p_key p) (Config.ChainID (p_cfg p)) (Boot.directConfig (Config.direct (p_cfg p)))
}.

(** Responses do not change the chain of the result service. *)
Lemma ProcessAndStore_chainID (r : @Results.Service W) now a :
  Results.chainID (Results.ProcessAndStore r now a).1 = Results.chainID r.
Proof.
  unfold Results.ProcessAndStore, Results.admit_response. case_decide; [done|].
  assert (Hhook : forall (r : @Results.Service W) a, Results.chainID (Results.trigger_hooks r a) = Results.chainID r).
  { intros r' a'. unfold Results.trigger_hooks. by repeat case_decide. }
  case_decide; [destruct (Results.recoverSigner _ _); [|done..]|]; (case_decide; [done|]); cbn [sbind];
    set (r1 := if decide _ then _ else r); assert (Hr1 : Results.chainID r1 = Results.chainID r)
      by (subst r1; case_decide; [apply Hhook|done]); clearbody r1;
    (destruct (Results.StoreResponse _ _ _) as [w [[]|e|]]; [done|destruct (_ || _); done|done]).
Qed.

Lemma reported_chainID o r : Results.chainID (reported o r) = Results.chainID r.
Proof.
  unfold reported. generalize (o_responses o). intros l. revert r. induction l as [|e l IH]; intros r; cbn; [done|].
  by rewrite IH, ProcessAndStore_chainID.
Qed.

Lemma prepare_follows cfgPath o :
  let cfg := (Config.Read ReadTo LookupEnv cfgPath).1 in
  follows (prepare cfgPath o) (fun es => exists posture id, es = checked_plan cfg posture id)
    (fun p es => es = checked_plan cfg (Boot.attestationPostureSettings (p_attestation p)) (p_teeID p) /\ booted cfgPath o p).
Proof.
  unfold prepare. destruct (Config.Read ReadTo LookupEnv cfgPath) as [cfg out] eqn:Hread. cbn [fst].
  assert (Hany : exists es posture id, es = checked_plan cfg posture id) by (eexists _, [], zero_address; reflexivity).
  unfold checked_plan in *. apply follows_must; [exact Hany|]. intros [] ->.
  eapply follows_bind; [apply open_clients_follows|intros es ->; eexists _, [], zero_address; reflexivity|].
  intros [[key m] q] es -> Hq. cbn [snd] in Hq. subst q.
  eapply follows_bind; [apply open_stores_follows|intros es ->; eexists _, [], zero_address; reflexivity|].
  intros store es -> ->. apply follows_must; [eexists _, [], zero_address; reflexivity|]. intros m' _.
  apply follows_must; [eexists _, [], zero_address; reflexivity|]. intros ac Hac. follow.
  apply follows_must; [eexists _, _, zero_address; reflexivity|]. intros m2 _.
  eapply follows_bind; [apply meet_node_follows|intros es [id ->]; eexists _, _, id; reflexivity|].
  intros [[[[i r] info] challenge] id] es _ [-> Hmet].
  eapply follows_bind; [apply start_policies_follows|intros es ->; eexists _, _, id; reflexivity|].
  intros [m3 policy] es -> (s0 & s & [] & <- & Hinit & Hrun). cbn [snd] in *.
  eapply follows_bind; [apply start_paths_follows|intros es ->; eexists [], _, id; rewrite app_nil_r; reflexivity|].
  intros [m4 path] es -> (g & Hg & Hp). cbn [snd] in Hp.
  apply follows_must; [eexists [], _, id; rewrite app_nil_r; reflexivity|]. intros m5 _. apply follows_ret.
  - eexists _, id. rewrite app_nil_r. reflexivity.
  - split; [by rewrite app_nil_r|]. constructor; cbn; try done; [by exists s0|by exists g].
Qed.

Definition start : Log := mkLog [] [].

(** The policy service keeps its chain, and starts with an active policy only. *)
Lemma policies_started fuel q addresses chain db offset info now id :
  forall s s', PolicyService.Initialize fuel (PolicyService.NewService q addresses chain) db offset info now id = Some (s, Ok tt) ->
  PolicyService.Run s = (s', Ok tt) ->
  PolicyService.chainID s' = chain /\ is_Some (PolicyService.activePolicy s').
Proof.
  intros s s' Hi Hr.
  assert (Hput : forall ps s, PolicyService.chainID (foldl PolicyService.put s ps) = PolicyService.chainID s /\
    PolicyService.activePolicy (foldl PolicyService.put s ps) = PolicyService.activePolicy s).
  { intros ps. induction ps as [|p ps IH]; intros s1; cbn; [done|]. by destruct (IH (PolicyService.put s1 p)) as [-> ->]. }
  assert (Hc : PolicyService.chainID s = chain).
  { revert Hi. unfold PolicyService.Initialize. case_decide.
    - destruct (PolicyService.backfill _ _ _ _ _ _) as [[ps|e|]|]; [|done..]. destruct (last ps); [|done]. by intros [= <-].
    - destruct (Policies.InitializePolicyAction _ _ _ _ _) as [[[a p] r]|e|]; [|done..].
      destruct (Queue.Enqueue _ _ _ _) as [q' out]. by intros [= <- _]. }
  revert Hr. unfold PolicyService.Run. destruct (PolicyService.activePolicy s) as [a|] eqn:Ha; [|done].
  destruct (PolicyService.restartPolicies s) as [ps|]; intros [= <-]; cbn.
  - destruct (Hput ps s) as [-> ->]. rewrite Ha. split; [done|by eexists].
  - rewrite Ha. split; [done|by eexists].
Qed.


Lemma boot_booted cfgPath o l l' p : Run cfgPath o l = (l', Done p) -> exists p', booted cfgPath o p' /\ p = signal p'.
Proof.
  unfold Run, leave, boot, bind. pose proof (prepare_follows cfgPath o l) as Hp.
  destruct (prepare cfgPath o l) as [l1 [p'| |]]; [|done..]. destruct Hp as (es & -> & _ & _ & Hb).
  cbn. intros [= _ <-]. by exists p'.
Qed.


Lemma listen_rounds s ps :
  Instructions.vs (foldl Instructions.ListenToPolicies_step s ps) = foldl VotingStorage.StoreNewRound (Instructions.vs s) ps.
Proof. revert s. induction ps as [|p ps IH]; intros s; cbn; [done|]. by rewrite IH. Qed.

(** What the policy service hands over after a restart: policies of increasing epochs up
    to the node's last one, all that the relay has of them. *)
Lemma restart_policies cfgPath o p :
  booted cfgPath o p ->
  let info := teeInfo (p_initialInfo p) in
  let lastID := Attestation.LastSigningPolicyID info in
  let history := Config.HistorySize (Config.voting (p_cfg p)) in
  let first := lastID - Z.min (history - 1) lastID in
  let relay := Config.Relay (Config.addresses (p_cfg p)) in
  Attestation.InitialSigningPolicyHash info <> zero_hash -> 0 <= lastID < 2 ^ 32 - 1 -> history <= 2 ^ 32 ->
  (policy_RewardEpochID <$> PolicyService.out (p_policy p)) `sublist_of` seqZ first (lastID - first + 1) /\
  forall id policy, first <= id <= lastID -> Policies.FetchSigningPolicy (o_db o) relay id = Ok (Some policy) ->
    policy ∈ PolicyService.out (p_policy p).
Proof.
  intros [Hr _ _ (s0 & Hi & Hpr) _ _ _ _] info lastID history first relay Hinit Hlast Hhist.
  pose proof (Config.accepted_history _ (Config.Read_ok_accepted _ _ _ _ Hr)) as Hh2. fold history in Hh2, Hi.
  destruct (PolicyService.Initialize_effect (Z.to_nat history) (new_policies (p_cfg p) o (p_info p)) (o_db o)
    (backfill_depth (p_cfg p)) (policy_info (p_initialInfo p)) (o_policy_now o) (o_policy_id o))
    as (s' & out & Hi' & _ & Hout); [done|done|unfold backfill_depth; fold history; lia..|].
  rewrite Hi in Hi'. injection Hi' as <- <-. destruct (Hout eq_refl) as (q & _ & Hq & Hfq & Ho). rewrite Hpr in Ho.
  cbn in Ho, Hq, Hfq. fold info lastID relay in Ho, Hq, Hfq. unfold backfill_depth in Ho. fold history first in Ho.
  rewrite Ho. split.
  - rewrite fmap_app, seqZ_app by lia. apply sublist_app; [apply PolicyService.found_epochs|].
    replace (first + (lastID - first)) with lastID by lia. cbn. by rewrite Hq.
  - intros id policy Hid Hf. apply elem_of_app. destruct (decide (id = lastID)) as [->|Hne].
    + right. apply list_elem_of_singleton. congruence.
    + left. eapply PolicyService.elem_of_found; [|exact Hf]. apply elem_of_seqZ. lia.
Qed.

(** C29: the backfill fits the buffer.  After a restart, once the service of instructions
    has read what the policy service put into their channel, there is a round for every
    policy that the relay has of the node's last epoch and of the [history_size - 1]
    epochs before it, so none of them has pushed out another. *)
Theorem boot_rounds_resident `{!CyclicLaws} cfgPath o l l' p :
  Run cfgPath o l = (l', Done p) ->
  let info := teeInfo (p_initialInfo p) in
  let lastID := Attestation.LastSigningPolicyID info in
  let history := Config.HistorySize (Config.voting (p_cfg p)) in
  Attestation.InitialSigningPolicyHash info <> zero_hash ->
  0 <= lastID < 2 ^ 32 - 1 -> history <= 2 ^ 32 ->
  let s := foldl Instructions.ListenToPolicies_step (p_instruction p) (PolicyService.out (p_policy p)) in
  forall id policy, 0 <= id -> lastID - history < id <= lastID ->
    Policies.FetchSigningPolicy (o_db o) (Config.Relay (Config.addresses (p_cfg p))) id = Ok (Some policy) ->
    exists n r, VotingStorage.Get (Instructions.vs s) id = Some (n, r) /\ round_policy r = policy.
Proof.
  intros Hrun info lastID history Hinit Hlast Hhist s id policy Hid Hwin Hf.
  apply boot_booted in Hrun as (p' & Hb & ->). destruct (restart_policies cfgPath o p' Hb Hinit Hlast Hhist) as [Hsub Hall].
  pose proof (Config.accepted_history _ (Config.Read_ok_accepted _ _ _ _ (b_read _ _ _ Hb))) as Hh2.
  subst s. cbn [signal p_policy p_instruction p_initialInfo p_cfg] in *.
  fold history in Hh2, Hsub, Hall. fold info lastID in Hsub, Hall. set (first := lastID - Z.min (history - 1) lastID) in *.
  rewrite listen_rounds, (b_instruction _ _ _ Hb). cbn [Instructions.vs Instructions.NewService].
  destruct (rounds_resident first (PolicyService.out (p_policy p')) []
    (VotingStorage.NewStorage (Config.voting (p_cfg p')) (Metrics.ActiveVotersEnabled (p_metrics p')))) as [_ Hin _];
    [lia| | |apply NewStorage_kept|].
  - apply Forall_forall. intros x Hx. cbn. rewrite cyclic_Size_New by lia. fold history.
    apply (list_elem_of_fmap_2 policy_RewardEpochID), (elem_of_sublist _ _ _) with (2 := Hsub), elem_of_seqZ in Hx. lia.
  - eapply sublist_NoDup; [apply NoDup_seqZ|exact Hsub].
  - destruct (Hin policy) as (n & r & Hg & Hr'); [apply (Hall id); [lia|done]|].
    exists n, r. by rewrite (PolicyService.FetchSigningPolicy_epoch _ _ _ _ Hf) in Hg.
Qed.
End Boot.

(** ** A concrete boot *)

Module DemoRun.
Import DemoRedis Queue.DemoQueue.
#[local] Existing Instance Demo.op_lib.
#[local] Existing Instance Demo.instruction_lib.
#[local] Existing Instance DemoCyclic.cyclic_lib.
#[local] Existing Instance DemoCyclic.cyclic_laws.
#[local] Existing Instance Attestation.DemoAttestation.lib.
#[local] Existing Instance Info.DemoInfo.info_lib.
#[local] Existing Instance Info.DemoInfo.direct_json.
#[local] Existing Instance Policies.DemoPolicies.policy_lib.
#[local] Existing Instance MachinePath.DemoMachinePath.path_lib.
#[local] Existing Instance Metrics.DemoMetrics.lib.
#[local] Existing Instance InstructionMeta.DemoMetaLib.meta_lib.
#[local] Existing Instance Results.DemoResults.response_countable.
#[local] Existing Instance Results.DemoResults.signer_lib.
#[local] Instance results_store : StorageI redis Results.ActionResponse := RedisImplements.redis_storage "results".
#[local] Instance config_lib : Config.ConfigLib :=
  {| Config.DBConfig := unit; Config.LoggerConfig := unit; Config.zero_DBConfig := tt; Config.logger_DefaultConfig := tt |}.
#[local] Instance governance_lib : Boot.GovernanceLib :=
  {| Boot.types_GovernanceHash l t := Ok 5%N; Boot.types_GovernanceHashSafe m s l t := Ok 6%N |}.

(** A node that has applied the policy 6, under the governance of the configuration. *)
Definition node : TeeInfoResponse :=
  Attestation.mkTeeInfoResponse (Attestation.mkTeeInfo 9 (1%N, 2%N) 14 77 6 0 [])
    (Attestation.mkMachineData (1%N, 2%N) 5 0 []) "0e".
#[local] Instance node_json : Json TeeInfoResponse := {| json_Marshal r := Ok []; json_Unmarshal b := Ok node |}.

Definition file (c : Config.Proxy) : stateful Config.Proxy unit :=
  (Config.mkProxy tt "6379" (Config.gcs c) 14 (Config.mkAddresses 1 2 3 4)%N (Config.mkGovernance [7; 8]%N 2 0%N 0%N)
     (Config.mkPorts "1" "2") (Config.infoTiming c) (Config.voting c) "" (Config.SigningPolicyFetchInterval c)
     (Config.MachinePathListFetchInterval c) (Config.DBSyncMaxSleepTime c) tt (Config.direct c) (Config.storage c)
     (Config.attestation c) (Config.metrics c), Ok tt).

Definition outside : Outside :=
  mkOutside (Ok tt) (Ok tt) (Queue.client empty) (Ok tt) (fun _ => mkServer ∅ ∅ : redis) 0 id
    [Info.mkTry (Info.DemoInfo.attempt [Byte.x01] 1) None None] [] id
    PolicyService.DemoPolicyService.relay_db 0 (Ok 1%N) id id [("internal", None); ("external", None)]%string.
Definition no_gauge (name : string) : Func := 0%nat.

Abbreviation booting :=
  (Run (fun _ => file) Config.DemoConfig.env Config.DemoConfig.to_key Metrics.DemoMetrics.build no_gauge
    "config.toml" outside start).

Lemma done_with {A B} (m : Log * outcome A) (f : A -> B) b :
  match m.2 with Done a => Some (f a) | _ => None end = Some b -> exists l a, m = (l, Done a) /\ f a = b.
Proof. destruct m as [l [a| |]]; cbn; [|done..]. intros [= <-]. by exists l, a. Qed.

Lemma booting_done :
  exists l p, booting = (l, Done p) /\
    (Attestation.InitialSigningPolicyHash (teeInfo (p_initialInfo p)), Attestation.LastSigningPolicyID (teeInfo (p_initialInfo p)),
     Config.HistorySize (Config.voting (p_cfg p)), Config.Relay (Config.addresses (p_cfg p))) = (77%N, 6, 3, 2%N).
Proof. apply done_with. vm_compute. reflexivity. Qed.


(** The round of the epoch 5, which the node has left, is there. *)
Lemma boot_rounds_resident_witness :
  exists l p n r, booting = (l, Done p) /\
    VotingStorage.Get (Instructions.vs (foldl Instructions.ListenToPolicies_step (p_instruction p)
      (PolicyService.out (p_policy p)))) 5 = Some (n, r) /\ round_policy r = Demo.policy.
Proof.
  destruct booting_done as (l & p & Hb & [= Hinit Hlast Hhist Hrelay]).
  pose proof (boot_rounds_resident (W := server) _ _ _ _ _ _ _ _ _ _ Hb) as Hr. cbv zeta in Hr.
  rewrite Hinit, Hlast, Hhist, Hrelay in Hr.
  destruct (Hr ltac:(discriminate) ltac:(lia) ltac:(lia) 5 Demo.policy ltac:(lia) ltac:(lia)) as (n & r & Hg & Hp);
    [vm_compute; reflexivity|].
  exists l, p, n, r. split; [exact Hb|]. split; [exact Hg|exact Hp].
Defined.

#[local] Existing Instance Metrics.DemoMetrics.laws.
Lemma startup_gauges_registered_witness :
  exists m m', Metrics.New Metrics.DemoMetrics.build Metrics.DemoMetrics.config = Ok m /\
    register_startup no_gauge true (Some m) = Ok (Some m') /\
    length (Metrics.funcs m') = length (Metrics.enabled_gauges Metrics.DemoMetrics.config (startup_gauges no_gauge true)).
Proof.
  assert (Hb : Metrics.plain_build Metrics.DemoMetrics.build) by by apply (bool_decide_unpack _).
  destruct (startup_gauges_registered no_gauge Metrics.DemoMetrics.build Metrics.DemoMetrics.config true Hb)
    as (m & m' & Hm & Hr & _ & _ & Hf).
  exists m, m'. split; [exact Hm|]. split; [exact Hr|]. by rewrite Hf.
Defined.
End DemoRun.
End ProxyRun.
