(* ===== verification/Startup.v ===== *)
(** Before and around the boot: the package initialisations that take event topics and
    method selectors from the contract ABIs ([pkg/policy/init.go],
    [pkg/machinepath/init.go]), and the main function ([cmd/proxy/main.go]). *)

From S2P Require Import Prelude Types Boot.

Open Scope Z_scope.

(** ** Package initialisation *)

Module PackageInit.

(** The ABIs of the contract bindings and the [abi] library: the methods and the events of
    a contract by name, and the types of arguments. *)
Class AbiLib : Type := {
  Arguments_ : Type;
  ArgType : Type;
  Filterer : Type;
  Method : Type;
  Event : Type;
  ABI : Type;
  GetAbi : string -> res ABI;
  Methods : ABI -> string -> option Method;
  Events : ABI -> string -> option Event;
  Method_ID : Method -> bytes;
  Inputs : Method -> Arguments_;
  Event_ID : Event -> Hash;
  NewType : string -> res ArgType;
  arguments : list ArgType -> Arguments_;
  NewMachinePathManagerFilterer : res Filterer
}.

(** [panic(fmt.Errorf(...))] on an error, and on a name that is missing. *)
Definition or_panic {A} (m : res A) : res A := match m with Ok a => Ok a | _ => Panic end.
Definition found {A} (o : option A) : res A := match o with Some a => Ok a | None => Panic end.

(** [copy(dst[:], src)]. *)
Definition copy (dst src : bytes) : bytes := take (length dst) src ++ drop (length src) dst.

Section Init.
Context `{AbiLib}.

(** The package variables that are set. *)
Record PolicyVars : Type := mkPolicyVars {
  SigningPolicyInitializedEventSel : Hash;
  voterRegisteredEventSel : Hash;
  signNewSigningPolicySel : bytes;
  signNewSigningPolicyArgs : Arguments_;
  msgArgs : Arguments_;
  msgArgsLegacy : Arguments_
}.

Definition init_policy : res PolicyVars :=
  flareSystemsManagerABI ← or_panic (GetAbi "FlareSystemsManager");
  signNewSigningPolicyMethod ← found (Methods flareSystemsManagerABI "signNewSigningPolicy");
  let sel := copy (repeat Byte.x00 4) (Method_ID signNewSigningPolicyMethod) in
  let args := Inputs signNewSigningPolicyMethod in
  relayABI ← or_panic (GetAbi "Relay");
  signingPolicyEvent ← found (Events relayABI "SigningPolicyInitialized");
  let policySel := Event_ID signingPolicyEvent in
  voterRegistryABI ← or_panic (GetAbi "Registry");
  voterRegisteredEvent ← found (Events voterRegistryABI "VoterRegistered");
  let voterSel := Event_ID voterRegisteredEvent in
  addressTy ← or_panic (NewType "address");
  uint32Ty ← or_panic (NewType "uint32");
  uint256Ty ← or_panic (NewType "uint256");
  Ok (mkPolicyVars policySel voterSel sel args (arguments [uint256Ty; uint32Ty; addressTy]) (arguments [uint32Ty; addressTy])).

Record PathVars : Type := mkPathVars {
  MachinePathListSignedEventSel : Hash;
  machinePathsAddedEventSel : Hash;
  machinePathListApprovedEventSel : Hash;
  signMachinePathListSel : bytes;
  signMachinePathListArgs : Arguments_;
  filterer : Filterer
}.

Definition init_machinepath : res PathVars :=
  managerABI ← or_panic (GetAbi "MachinePathManager");
  signedEvent ← found (Events managerABI "MachinePathListSigned");
  addedEvent ← found (Events managerABI "MachinePathsAdded");
  approvedEvent ← found (Events managerABI "MachinePathListApproved");
  signMethod ← found (Methods managerABI "signMachinePathList");
  filterer ← or_panic NewMachinePathManagerFilterer;
  Ok (mkPathVars (Event_ID signedEvent) (Event_ID addedEvent) (Event_ID approvedEvent)
    (copy (repeat Byte.x00 4) (Method_ID signMethod)) (Inputs signMethod) filterer).

(** The program starts with every selector set, or not at all. *)
Definition init : res (PolicyVars * PathVars) :=
  p ← init_policy;
  m ← init_machinepath;
  Ok (p, m).
End Init.

Lemma copy_length dst src : length (copy dst src) = length dst.
Proof. unfold copy. rewrite length_app, length_take, length_drop. lia. Qed.
(** A selector of four bytes is taken as it is. *)
Lemma copy_exact dst src : length src = length dst -> copy dst src = src.
Proof.
  intros Hl. unfold copy. rewrite <- Hl, (drop_ge dst) by lia. by rewrite firstn_all, app_nil_r.
Qed.

Lemma or_panic_ok {A} (m : res A) (a : A) : or_panic m = Ok a <-> m = Ok a.
Proof. by destruct m. Qed.
Lemma found_ok {A} (o : option A) a : found o = Ok a <-> o = Some a.
Proof. destruct o; cbn; naive_solver. Qed.
Lemma bind_panics {A B} (m : res A) (k : A -> res B) :
  (forall e, m <> Fail e) -> (forall a e, k a <> Fail e) -> forall e, (m ≫= k) <> Fail e.
Proof. intros Hm Hk e. destruct m; cbn; [apply Hk|by destruct (Hm e0)|done]. Qed.
Lemma or_panic_no_error {A} (m : res A) e : or_panic m <> Fail e.
Proof. by destruct m. Qed.
Lemma found_no_error {A} (o : option A) e : found o <> Fail e.
Proof. by destruct o. Qed.

Ltac init_ok H :=
  repeat match type of H with
  | (?m ≫= _) = Ok _ =>
      let E := fresh "E" in
      destruct m eqn:E; cbn [mbind res_bind] in H; [|discriminate H|discriminate H];
      rewrite ?or_panic_ok, ?found_ok in E
  end.

Section Facts.
Context `{AbiLib}.

(** Initialisation sets every selector from the ABI that names it, the four bytes of a method
    exactly when its identifier has four, or panics. *)
Theorem init_selectors :
  init = Panic \/
  exists p m, init = Ok (p, m) /\
    length (signNewSigningPolicySel p) = 4%nat /\ length (signMachinePathListSel m) = 4%nat /\
    (exists abi method, GetAbi "FlareSystemsManager" = Ok abi /\ Methods abi "signNewSigningPolicy" = Some method /\
       signNewSigningPolicyArgs p = Inputs method /\
       (length (Method_ID method) = 4%nat -> signNewSigningPolicySel p = Method_ID method)) /\
    (exists abi event, GetAbi "Relay" = Ok abi /\ Events abi "SigningPolicyInitialized" = Some event /\
       SigningPolicyInitializedEventSel p = Event_ID event) /\
    (exists abi event, GetAbi "Registry" = Ok abi /\ Events abi "VoterRegistered" = Some event /\
       voterRegisteredEventSel p = Event_ID event) /\
    (exists abi method, GetAbi "MachinePathManager" = Ok abi /\ Methods abi "signMachinePathList" = Some method /\
       signMachinePathListArgs m = Inputs method /\
       (length (Method_ID method) = 4%nat -> signMachinePathListSel m = Method_ID method) /\
       exists signed added approved,
         Events abi "MachinePathListSigned" = Some signed /\ MachinePathListSignedEventSel m = Event_ID signed /\
         Events abi "MachinePathsAdded" = Some added /\ machinePathsAddedEventSel m = Event_ID added /\
         Events abi "MachinePathListApproved" = Some approved /\ machinePathListApprovedEventSel m = Event_ID approved).
Proof.
  destruct init as [[p m]|e|] eqn:Hi; [right| |by left].
  - unfold init in Hi. destruct init_policy as [p'| |] eqn:Hp; cbn in Hi; [|done..].
    destruct init_machinepath as [m'| |] eqn:Hm; cbn in Hi; [|done..]. injection Hi as -> ->.
    unfold init_policy in Hp. init_ok Hp. injection Hp as <-.
    unfold init_machinepath in Hm. init_ok Hm. injection Hm as <-.
    do 2 eexists. split; [reflexivity|]. cbn [signNewSigningPolicySel signMachinePathListSel].
    split_and!; [apply copy_length|apply copy_length| | | |]; do 2 eexists; split_and!; try done;
      try (intros Hl; by apply copy_exact); eauto 10.
  - exfalso. revert Hi. unfold init, init_policy, init_machinepath.
    repeat (apply bind_panics; [try (intros ?; first [apply or_panic_no_error|apply found_no_error])|intros ?]); try done.
Qed.
End Facts.
End PackageInit.

(** ** The main function *)

Module Program.

Definition cfgPath : string := "./config/config.toml".
Definition forceShutdownTimeout : Z := 15 * second.

(** Where the main goroutine is: at its first select, at its second since a time, or gone,
    by force or not. *)
Inductive main_pc : Type := Waiting | Draining (since : Z) | Exited (forced : bool).

(** [signalled]: a signal waits in the channel; [cancelled]: when the context was cancelled;
    [done]: [Run] has returned. *)
Record Main : Type := mkMain {
  time : Z;
  pc : main_pc;
  signalled : bool;
  cancelled : option Z;
  done : bool
}.
Definition main (start : Z) : Main := mkMain start Waiting false None false.

(** The clock, the signals and [Run] move on their own; the others are the cases of the two
    selects. *)
Inductive step (m : Main) : Main -> Prop :=
| s_time d : 0 < d -> step m (mkMain (time m + d) (pc m) (signalled m) (cancelled m) (done m))
| s_signal : step m (mkMain (time m) (pc m) true (cancelled m) (done m))
| s_return : step m (mkMain (time m) (pc m) (signalled m) (cancelled m) true)
| s_take_signal : pc m = Waiting -> signalled m = true ->
    step m (mkMain (time m) (Draining (time m)) false (Some (time m)) (done m))
| s_take_done : pc m = Waiting -> done m = true ->
    step m (mkMain (time m) (Draining (time m)) (signalled m) (Some (time m)) (done m))
| s_drained t : pc m = Draining t -> done m = true ->
    step m (mkMain (time m) (Exited false) (signalled m) (cancelled m) (done m))
| s_forced t : pc m = Draining t -> t + forceShutdownTimeout <= time m ->
    step m (mkMain (time m) (Exited true) (signalled m) (cancelled m) (done m)).

Definition main_inv (m : Main) : Prop :=
  match pc m with
  | Waiting => cancelled m = None
  | Draining t => cancelled m = Some t /\ t <= time m
  | Exited forced => exists t, cancelled m = Some t /\ t <= time m /\
      if forced then t + forceShutdownTimeout <= time m else done m = true
  end.

Lemma main_step_inv m m' : step m m' -> main_inv m -> main_inv m'.
Proof.
  unfold main_inv. destruct 1; cbn; try done.
  - destruct (pc m) as [|t|f]; [done|intros [? ?]; split; [done|lia]|].
    intros (t & ? & ? & Hf). exists t. split_and!; [done|lia|]. destruct f; [lia|done].
  - destruct (pc m) as [|t|[|]]; naive_solver.
  - rewrite H. intros [? ?]. eexists. split_and!; done.
  - rewrite H. intros [? ?]. eexists. split_and!; done.
Qed.

(** The program ends only after it has cancelled the context of [Run], and then only once
    [Run] has returned or when the time for it, which is more than the time [Run] gives its
    servers, is over.  A signal or a return of [Run] is always acted on, and a main
    goroutine that drains can end once that time is over, whatever [Run] does. *)
Theorem main_ends start m :
  rtc step (main start) m ->
  match pc m with
  | Waiting => cancelled m = None /\
      (signalled m = true \/ done m = true -> exists m', step m m' /\ pc m' = Draining (time m) /\ cancelled m' = Some (time m))
  | Draining t => cancelled m = Some t /\
      (done m = true \/ t + forceShutdownTimeout <= time m -> exists m' forced, step m m' /\ pc m' = Exited forced)
  | Exited forced => exists t, cancelled m = Some t /\
      if forced then t + Boot.shutdownTimeout < time m else done m = true
  end.
Proof.
  intros Hr. assert (Hi : main_inv m).
  { remember (main start) as m0 eqn:E. assert (main_inv m0) by by subst.
    clear E. induction Hr; [done|]. eauto using main_step_inv. }
  unfold main_inv in Hi. destruct (pc m) as [|t|f] eqn:Hpc.
  - split; [done|]. intros [Hs|Hd]; eexists.
    + split; [by apply s_take_signal|done].
    + split; [by apply s_take_done|done].
  - destruct Hi as [Hc _]. split; [done|]. intros [Hd|Ht]; do 2 eexists.
    + split; [by eapply s_drained|done].
    + split; [by eapply s_forced|done].
  - destruct Hi as (t & Hc & Ht & Hf). exists t. split; [done|]. destruct f; [|done].
    unfold forceShutdownTimeout, Boot.shutdownTimeout, second in *. lia.
Qed.
End Program.
